(** * Gateway relay: coordination store adapter, quota, sessions, cache, chat relay

    A shallow embedding of the NestJS gateway services
    ([redis.service.ts], [rate-limit.service.ts], [rate-limit.middleware.ts],
    [session.service.ts], [cache.service.ts], [chat.gateway.ts]) and the
    properties of them that the design document states.

    Conventions of the embedding.
    - JavaScript numbers that the code only uses as integers (timestamps in
      milliseconds, counters, sizes, time-to-live values) are [Z].
    - [async] methods are computations in the monad [M]: they read and write a
      [world] (clock, store connection, socket emissions, local registries),
      and either return, throw, or never settle.
    - [Date.now()] reads the field [clock]; it is constant during one call and
      moved by [at_time] between calls.
    - Logger calls have no effect on the state and are left out. *)

From Stdlib Require Import ZArith String Ascii List Bool Lia.
From Stdlib Require Import DecimalString DecimalZ.
From stdpp Require Import base option list gmap strings.

Set Warnings "-register-all".
Local Open Scope string_scope.
Local Open Scope Z_scope.

(** ** Numbers of the runtime *)

(** [Math.ceil(a / b)] for integers [a] and a positive integer [b]. *)
Definition Math_ceil_div (a b : Z) : Z := - ((- a) / b).

(** [Math.floor(a / b)] for integers [a] and a positive integer [b]. *)
Definition Math_floor_div (a b : Z) : Z := a / b.

(** Decimal text of an integer, as template literals and [INCR] produce it. *)
Definition Z_toString (z : Z) : string := NilZero.string_of_int (Z.to_int z).

(** [parseInt] on the text of a counter: [None] stands for [NaN].  Only
    decimal integers with an optional sign are read; the stored counters are
    written by [INCR] in that form. *)
Definition parseInt (s : string) : option Z :=
  match NilZero.int_of_string s with
  | Some d => Some (Z.of_int d)
  | None => None
  end.

(** ** Values of the runtime and the external codecs *)

Inductive json : Type :=
| JNull
| JBool (b : bool)
| JNum (n : Z)
| JStr (s : string)
| JArr (items : list json)
| JObj (fields : list (string * json)).

(** The library functions the services call: [JSON.stringify], [JSON.parse]
    ([None] is a [SyntaxError]), and [zlib.gzip]/[zlib.gunzip] composed with
    the base64 text encoding ([None] is a rejected promise). *)
Class Runtime := {
  JSON_stringify : json -> string;
  JSON_parse : string -> option json;
  gzip_base64 : string -> option string;
  gunzip_base64 : string -> option string
}.

(** Property access [o.name] on a parsed object. *)
Fixpoint field (name : string) (fields : list (string * json)) : option json :=
  match fields with
  | [] => None
  | (k, v) :: rest => if String.eqb k name then Some v else field name rest
  end.

(** [Buffer.byteLength(data, 'utf8')]: strings are sequences of bytes here. *)
Definition byteLength (data : string) : Z := Z.of_nat (String.length data).

(** Truthiness of a string: only the empty string is falsy. *)
Definition truthy (s : string) : bool := negb (String.eqb s EmptyString).

(** [s.includes(sub)]: [sub] occurs somewhere in [s]. *)
Fixpoint includes (s sub : string) : bool :=
  String.prefix sub s ||
  match s with
  | EmptyString => false
  | String _ s' => includes s' sub
  end.

(** [ToInt32]: the 32-bit two's complement reading of an integer, as the
    operators [<<] and [&] apply it to their operands and results. *)
Definition toInt32 (z : Z) : Z := (z + 2 ^ 31) mod 2 ^ 32 - 2 ^ 31.

(** [n.toString(36)] for an integer [n >= 0]: the digits [0-9a-z], the
    most significant first. *)
Definition digit36 (d : Z) : ascii :=
  if d <? 10 then ascii_of_nat (48 + Z.to_nat d) else ascii_of_nat (87 + Z.to_nat d).

Fixpoint toString36_from (fuel : nat) (n : Z) (acc : string) : string :=
  match fuel with
  | O => acc
  | S fuel' =>
      let acc' := String (digit36 (n mod 36)) acc in
      if n / 36 =? 0 then acc' else toString36_from fuel' (n / 36) acc'
  end.

Definition Number_toString36 (n : Z) : string :=
  toString36_from (S (Z.to_nat (Z.log2 n))) n EmptyString.

(** ** The coordination store (Redis) *)

Inductive rvalue : Type :=
| RString (s : string)
| RSet (members : gset string).

Record rentry := { rval : rvalue; expireAt : option Z }.

Record server := {
  keyspace : gmap string rentry;
  published : list (string * string);
  subscribed : gset string
}.

Definition with_keyspace (ks : gmap string rentry) (sv : server) : server :=
  {| keyspace := ks; published := published sv; subscribed := subscribed sv |}.

Definition live (now : Z) (e : rentry) : bool :=
  match expireAt e with
  | None => true
  | Some t => now <? t
  end.

Definition lookup_live (now : Z) (ks : gmap string rentry) (k : string) : option rentry :=
  match ks !! k with
  | Some e => if live now e then Some e else None
  | None => None
  end.

(** Glob patterns of [KEYS] and [SCAN MATCH], with the wildcards [*] and
    [?].  Character classes [[...]] and escapes with a backslash are not
    read: the matcher is that of the store on the patterns that hold
    neither [[] nor a backslash. *)
Fixpoint glob (p s : string) {struct p} : bool :=
  match p with
  | EmptyString => match s with EmptyString => true | _ => false end
  | String c p' =>
      if Ascii.eqb c "*"%char then
        (fix star (s : string) : bool :=
           glob p' s || match s with EmptyString => false | String _ s' => star s' end) s
      else
        match s with
        | EmptyString => false
        | String d s' => (Ascii.eqb c "?"%char || Ascii.eqb c d) && glob p' s'
        end
  end.

(** Reply of one command: a value and the new server state, or an error
    reply (a rejected promise of the client library). *)
Inductive reply (A : Type) : Type :=
| Ok (a : A) (sv : server)
| Err (msg : string).
Arguments Ok {A} a sv.
Arguments Err {A} msg.

Module Command.

Definition GET (now : Z) (k : string) (sv : server) : reply (option string) :=
  match lookup_live now (keyspace sv) k with
  | None => Ok None sv
  | Some e =>
      match rval e with
      | RString s => Ok (Some s) sv
      | RSet _ => Err "WRONGTYPE"
      end
  end.

Definition SET (k v : string) (sv : server) : reply unit :=
  Ok tt (with_keyspace (<[k := {| rval := RString v; expireAt := None |}]> (keyspace sv)) sv).

Definition SETEX (now : Z) (k : string) (ttl : Z) (v : string) (sv : server) : reply unit :=
  if ttl <=? 0 then Err "ERR invalid expire time"
  else Ok tt (with_keyspace
                (<[k := {| rval := RString v; expireAt := Some (now + ttl * 1000) |}]> (keyspace sv)) sv).

Definition INCR (now : Z) (k : string) (sv : server) : reply Z :=
  match lookup_live now (keyspace sv) k with
  | None =>
      Ok 1 (with_keyspace (<[k := {| rval := RString "1"; expireAt := None |}]> (keyspace sv)) sv)
  | Some e =>
      match rval e with
      | RString s =>
          match parseInt s with
          | Some n =>
              Ok (n + 1)
                 (with_keyspace
                    (<[k := {| rval := RString (Z_toString (n + 1)); expireAt := expireAt e |}]>
                       (keyspace sv)) sv)
          | None => Err "ERR value is not an integer"
          end
      | RSet _ => Err "WRONGTYPE"
      end
  end.

Definition EXPIRE (now : Z) (k : string) (ttl : Z) (sv : server) : reply Z :=
  match lookup_live now (keyspace sv) k with
  | None => Ok 0 sv
  | Some e =>
      if ttl <=? 0 then Ok 1 (with_keyspace (delete k (keyspace sv)) sv)
      else Ok 1 (with_keyspace
                   (<[k := {| rval := rval e; expireAt := Some (now + ttl * 1000) |}]> (keyspace sv)) sv)
  end.

Fixpoint del_keys (now : Z) (keys : list string) (ks : gmap string rentry) : Z * gmap string rentry :=
  match keys with
  | [] => (0, ks)
  | k :: rest =>
      let '(n, ks') := del_keys now rest (delete k ks) in
      ((match lookup_live now ks k with Some _ => 1 | None => 0 end) + n, ks')
  end.

Definition DEL (now : Z) (keys : list string) (sv : server) : reply Z :=
  match keys with
  | [] => Err "ERR wrong number of arguments"
  | _ => let '(n, ks) := del_keys now keys (keyspace sv) in Ok n (with_keyspace ks sv)
  end.

Definition KEYS (now : Z) (pattern : string) (sv : server) : reply (list string) :=
  Ok (filter (fun k => glob pattern k = true /\ is_Some (lookup_live now (keyspace sv) k))
             (map fst (map_to_list (keyspace sv)))) sv.

Definition SADD (now : Z) (k : string) (members : list string) (sv : server) : reply Z :=
  match members with
  | [] => Err "ERR wrong number of arguments"
  | _ =>
      match lookup_live now (keyspace sv) k with
      | None =>
          Ok (Z.of_nat (size (list_to_set (C := gset string) members)))
             (with_keyspace
                (<[k := {| rval := RSet (list_to_set members); expireAt := None |}]> (keyspace sv)) sv)
      | Some e =>
          match rval e with
          | RSet s =>
              Ok (Z.of_nat (size (list_to_set (C := gset string) members ∖ s)))
                 (with_keyspace
                    (<[k := {| rval := RSet (s ∪ list_to_set members); expireAt := expireAt e |}]>
                       (keyspace sv)) sv)
          | RString _ => Err "WRONGTYPE"
          end
      end
  end.

Definition SREM (now : Z) (k : string) (members : list string) (sv : server) : reply Z :=
  match members with
  | [] => Err "ERR wrong number of arguments"
  | _ =>
      match lookup_live now (keyspace sv) k with
      | None => Ok 0 sv
      | Some e =>
          match rval e with
          | RSet s =>
              let s' := s ∖ list_to_set members in
              Ok (Z.of_nat (size (s ∩ list_to_set members)))
                 (with_keyspace
                    (if decide (s' = ∅) then delete k (keyspace sv)
                     else <[k := {| rval := RSet s'; expireAt := expireAt e |}]> (keyspace sv)) sv)
          | RString _ => Err "WRONGTYPE"
          end
      end
  end.

Definition SMEMBERS (now : Z) (k : string) (sv : server) : reply (list string) :=
  match lookup_live now (keyspace sv) k with
  | None => Ok [] sv
  | Some e =>
      match rval e with
      | RSet s => Ok (elements s) sv
      | RString _ => Err "WRONGTYPE"
      end
  end.

Definition PUBLISH (channel message : string) (sv : server) : reply Z :=
  Ok (if decide (channel ∈ subscribed sv) then 1 else 0)
     {| keyspace := keyspace sv;
        published := published sv ++ [(channel, message)];
        subscribed := subscribed sv |}.

Definition SUBSCRIBE (channel : string) (sv : server) : reply unit :=
  Ok tt {| keyspace := keyspace sv; published := published sv;
           subscribed := subscribed sv ∪ {[channel]} |}.

Definition UNSUBSCRIBE (channel : string) (sv : server) : reply unit :=
  Ok tt {| keyspace := keyspace sv; published := published sv;
           subscribed := subscribed sv ∖ {[channel]} |}.

End Command.

(** ** Messages on the socket *)

Record ChatMessage := {
  cm_sessionId : string;
  cm_token : string;
  cm_done : bool;
  cm_sources : option (list string);
  cm_toolCalls : option (list string)
}.

Record ErrorMessage := {
  em_error : bool;
  em_code : string;
  em_message : string;
  em_timestamp : Z
}.

Inductive payload : Type :=
| ChatPayload (m : ChatMessage)
| ErrorPayload (e : ErrorMessage).

(** One [socket.emit(event, body)] to the connection [to]. *)
Record emission := { to : string; event : string; body : payload }.

(** ** The world of one gateway process *)

Record CacheMetrics := {
  hits : Z; misses : Z; sets : Z; deletes : Z; operations : Z
}.

Record world := {
  clock : Z;                        (* Date.now(), milliseconds *)
  client : bool;                    (* RedisService.client is assigned *)
  subscriber : bool;                (* RedisService.subscriber is assigned *)
  online : bool;                    (* the server answers; commands reject otherwise *)
  store : server;
  subscriptions : gset string;      (* channels with a callback in RedisService.subscriptions *)
  emitted : list emission;          (* socket emissions, oldest first *)
  connectedClients : gmap string string;  (* ChatGateway: clientId -> sessionId *)
  metrics : CacheMetrics
}.

Definition set_store (sv : server) (w : world) : world :=
  {| clock := clock w; client := client w; subscriber := subscriber w; online := online w;
     store := sv; subscriptions := subscriptions w; emitted := emitted w;
     connectedClients := connectedClients w; metrics := metrics w |}.

Definition set_subscriptions (s : gset string) (w : world) : world :=
  {| clock := clock w; client := client w; subscriber := subscriber w; online := online w;
     store := store w; subscriptions := s; emitted := emitted w;
     connectedClients := connectedClients w; metrics := metrics w |}.

Definition set_emitted (l : list emission) (w : world) : world :=
  {| clock := clock w; client := client w; subscriber := subscriber w; online := online w;
     store := store w; subscriptions := subscriptions w; emitted := l;
     connectedClients := connectedClients w; metrics := metrics w |}.

Definition set_connectedClients (m : gmap string string) (w : world) : world :=
  {| clock := clock w; client := client w; subscriber := subscriber w; online := online w;
     store := store w; subscriptions := subscriptions w; emitted := emitted w;
     connectedClients := m; metrics := metrics w |}.

Definition set_metrics (m : CacheMetrics) (w : world) : world :=
  {| clock := clock w; client := client w; subscriber := subscriber w; online := online w;
     store := store w; subscriptions := subscriptions w; emitted := emitted w;
     connectedClients := connectedClients w; metrics := m |}.

(** The same process at another instant. *)
Definition at_time (t : Z) (w : world) : world :=
  {| clock := t; client := client w; subscriber := subscriber w; online := online w;
     store := store w; subscriptions := subscriptions w; emitted := emitted w;
     connectedClients := connectedClients w; metrics := metrics w |}.

(** ** Asynchronous computations *)

(** An awaited call returns a value, throws (its promise rejects), or stays
    pending for ever. *)
Inductive result (A : Type) : Type :=
| Returned (a : A) (w : world)
| Thrown (e : string) (w : world)
| Pending.
Arguments Returned {A} a w.
Arguments Thrown {A} e w.
Arguments Pending {A}.

Definition M (A : Type) : Type := world -> result A.

Definition ret {A} (a : A) : M A := fun w => Returned a w.

Definition bind {A B} (c : M A) (k : A -> M B) : M B := fun w =>
  match c w with
  | Returned a w' => k a w'
  | Thrown e w' => Thrown e w'
  | Pending => Pending
  end.

Definition throw {A} (e : string) : M A := fun w => Thrown e w.

(** [try { body } catch (error) { handler error }] *)
Definition try_catch {A} (body : M A) (handler : string -> M A) : M A := fun w =>
  match body w with
  | Returned a w' => Returned a w'
  | Thrown e w' => handler e w'
  | Pending => Pending
  end.

Definition gets {A} (f : world -> A) : M A := fun w => Returned (f w) w.

Definition modify (f : world -> world) : M unit := fun w => Returned tt (f w).

Notation "x <- c ;; k" := (bind c (fun x => k))
  (at level 100, c at next level, right associativity).
Notation "c ;;; k" := (bind c (fun _ => k))
  (at level 100, right associativity).

Definition Date_now : M Z := gets clock.

(** ** RedisService: the coordination store adapter *)

Module RedisService.

(** [await this.client.cmd(...)]: a [TypeError] when the handle is
    undefined, a rejection when the server does not answer or replies with
    an error. *)
Definition on_client {A} (cmd : Z -> server -> reply A) : M A := fun w =>
  if negb (client w) then Thrown "TypeError: Cannot read properties of undefined" w
  else if negb (online w) then Thrown "Connection is closed." w
  else match cmd (clock w) (store w) with
       | Ok a sv => Returned a (set_store sv w)
       | Err msg => Thrown msg w
       end.

Definition on_subscriber {A} (cmd : Z -> server -> reply A) : M A := fun w =>
  if negb (subscriber w) then Thrown "TypeError: Cannot read properties of undefined" w
  else if negb (online w) then Thrown "Connection is closed." w
  else match cmd (clock w) (store w) with
       | Ok a sv => Returned a (set_store sv w)
       | Err msg => Thrown msg w
       end.

Definition publish (channel message : string) : M unit :=
  try_catch
    (c <- gets client ;;
     if negb c then ret tt
     else on_client (fun _ => Command.PUBLISH channel message) ;;; ret tt)
    (fun _ => ret tt).

Definition subscribe (channel : string) : M unit :=
  try_catch
    (s <- gets subscriber ;;
     if negb s then ret tt
     else
       modify (fun w => set_subscriptions (subscriptions w ∪ {[channel]}) w) ;;;
       on_subscriber (fun _ => Command.SUBSCRIBE channel))
    (fun _ => ret tt).

Definition unsubscribe (channel : string) : M unit :=
  try_catch
    (on_subscriber (fun _ => Command.UNSUBSCRIBE channel) ;;;
     modify (fun w => set_subscriptions (subscriptions w ∖ {[channel]}) w))
    (fun error => throw error).

Definition get (key : string) : M (option string) :=
  try_catch
    (c <- gets client ;;
     if negb c then ret None
     else on_client (fun now => Command.GET now key))
    (fun _ => ret None).

Definition set (key value : string) (ttl : option Z) : M unit :=
  try_catch
    (c <- gets client ;;
     if negb c then ret tt
     else
       match ttl with
       | Some t =>
           if t =? 0 then on_client (fun _ => Command.SET key value)
           else on_client (fun now => Command.SETEX now key t value)
       | None => on_client (fun _ => Command.SET key value)
       end)
    (fun _ => ret tt).

Definition incr (key : string) : M Z :=
  try_catch
    (c <- gets client ;;
     if negb c then ret 0
     else on_client (fun now => Command.INCR now key))
    (fun _ => ret 0).

Definition expire (key : string) (ttl : Z) : M bool :=
  try_catch
    (c <- gets client ;;
     if negb c then ret false
     else
       r <- on_client (fun now => Command.EXPIRE now key ttl) ;;
       ret (r =? 1))
    (fun _ => ret false).

Definition del (keys : list string) : M Z :=
  try_catch
    (c <- gets client ;;
     if negb c then ret 0
     else on_client (fun now => Command.DEL now keys))
    (fun _ => ret 0).

Definition keys (pattern : string) : M (list string) :=
  try_catch
    (c <- gets client ;;
     if negb c then ret []
     else on_client (fun now => Command.KEYS now pattern))
    (fun _ => ret []).

Definition setWithExpiry (key value : string) (ttl : Z) : M unit :=
  try_catch
    (c <- gets client ;;
     if negb c then ret tt
     else on_client (fun now => Command.SETEX now key ttl value))
    (fun _ => ret tt).

Definition sadd (key : string) (members : list string) : M Z :=
  try_catch
    (c <- gets client ;;
     if negb c then ret 0
     else on_client (fun now => Command.SADD now key members))
    (fun _ => ret 0).

Definition srem (key : string) (members : list string) : M Z :=
  try_catch
    (c <- gets client ;;
     if negb c then ret 0
     else on_client (fun now => Command.SREM now key members))
    (fun _ => ret 0).

Definition smembers (key : string) : M (list string) :=
  try_catch
    (c <- gets client ;;
     if negb c then ret []
     else on_client (fun now => Command.SMEMBERS now key))
    (fun _ => ret []).

Section WithRuntime.
Context `{Runtime}.

Definition publishChatToken (sessionId token : string) (done : bool) : M unit :=
  publish "chat_tokens"
    (JSON_stringify (JObj [("sessionId", JStr sessionId); ("token", JStr token);
                           ("done", JBool done)])).
End WithRuntime.

End RedisService.

(** ** RateLimitService: fixed-window quotas *)

Record RateLimitRule := { windowMs : Z; maxRequests : Z }.

Record RateLimitConfig := {
  cfg_global : RateLimitRule;
  cfg_endpoints : list (string * RateLimitRule);
  cfg_perIP : RateLimitRule;
  cfg_perSession : RateLimitRule;
  cfg_connectionsPerIP : RateLimitRule;
  cfg_messagesPerSession : RateLimitRule;
  cfg_whitelistedIPs : list string;
  cfg_healthCheckEndpoints : list string
}.

Definition DEFAULT_RATE_LIMIT_CONFIG : RateLimitConfig := {|
  cfg_global := {| windowMs := 15 * 60 * 1000; maxRequests := 1000 |};
  cfg_endpoints :=
    [ ("GET /health", {| windowMs := 1 * 60 * 1000; maxRequests := 60 |});
      ("GET /health/*", {| windowMs := 1 * 60 * 1000; maxRequests := 30 |});
      ("POST /agent/chat", {| windowMs := 1 * 60 * 1000; maxRequests := 20 |});
      ("GET /agent/chat/history/*", {| windowMs := 1 * 60 * 1000; maxRequests := 10 |});
      ("POST /documents/ingest", {| windowMs := 5 * 60 * 1000; maxRequests := 5 |});
      ("POST /documents/ingest/file", {| windowMs := 5 * 60 * 1000; maxRequests := 3 |});
      ("GET /documents", {| windowMs := 1 * 60 * 1000; maxRequests := 30 |});
      ("POST /scrape", {| windowMs := 10 * 60 * 1000; maxRequests := 2 |}) ];
  cfg_perIP := {| windowMs := 15 * 60 * 1000; maxRequests := 500 |};
  cfg_perSession := {| windowMs := 1 * 60 * 1000; maxRequests := 30 |};
  cfg_connectionsPerIP := {| windowMs := 1 * 60 * 1000; maxRequests := 10 |};
  cfg_messagesPerSession := {| windowMs := 1 * 60 * 1000; maxRequests := 25 |};
  cfg_whitelistedIPs := ["127.0.0.1"; "::1"];
  cfg_healthCheckEndpoints :=
    ["/health"; "/health/redis"; "/health/agent"; "/health/scraper";
     "/health/document"; "/health/session"]
|}.

Record RateLimitResult := {
  allowed : bool;
  totalRequests : Z;
  remainingRequests : Z;
  resetTime : Z;
  retryAfter : option Z
}.

Record RateLimitInfo := {
  rl_key : string;
  rl_rule : RateLimitRule;
  rl_identifier : string;
  rl_type : string
}.

Module RateLimitService.

Definition windowKey (key : string) (windowStart : Z) : string :=
  key +:+ ":" +:+ Z_toString windowStart.

Definition windowStartOf (now : Z) (rule : RateLimitRule) : Z :=
  Math_floor_div now (windowMs rule) * windowMs rule.

(** [countStr ? parseInt(countStr) : 0]; [None] is [NaN]. *)
Definition getCurrentCount (key : string) (windowStart : Z) (windowMs : Z) : M (option Z) :=
  countStr <- RedisService.get (windowKey key windowStart) ;;
  ret (match countStr with
       | Some s => if truthy s then parseInt s else Some 0
       | None => Some 0
       end).

Definition incrementCount (key : string) (windowStart : Z) (windowMs : Z) : M Z :=
  let ttl := Math_ceil_div windowMs 1000 + 1 in
  count <- RedisService.incr (windowKey key windowStart) ;;
  (if count =? 1 then RedisService.expire (windowKey key windowStart) ttl ;;; ret tt
   else ret tt) ;;;
  ret count.

Definition checkRateLimit (info : RateLimitInfo) : M RateLimitResult :=
  try_catch
    (let rule := rl_rule info in
     now <- Date_now ;;
     let windowStart := windowStartOf now rule in
     let windowEnd := windowStart + windowMs rule in
     let resetTime := Math_ceil_div windowEnd 1000 in
     currentCount <- getCurrentCount (rl_key info) windowStart (windowMs rule) ;;
     let allowed :=
       match currentCount with Some n => n <? maxRequests rule | None => false end in
     let remainingRequests :=
       match currentCount with
       | Some n => Z.max 0 (maxRequests rule - n - 1)
       | None => 0
       end in
     ret {| allowed := allowed;
            totalRequests := maxRequests rule;
            remainingRequests := if allowed then remainingRequests else 0;
            resetTime := resetTime;
            retryAfter :=
              if negb allowed then Some (Math_ceil_div (windowEnd - now) 1000) else None |})
    (fun _ =>
       now <- Date_now ;;
       ret {| allowed := true;
              totalRequests := maxRequests (rl_rule info);
              remainingRequests := maxRequests (rl_rule info) - 1;
              resetTime := Math_ceil_div (now + windowMs (rl_rule info)) 1000;
              retryAfter := None |}).

Definition recordRequest (info : RateLimitInfo) : M unit :=
  try_catch
    (now <- Date_now ;;
     let windowStart := windowStartOf now (rl_rule info) in
     incrementCount (rl_key info) windowStart (windowMs (rl_rule info)) ;;;
     ret tt)
    (fun _ => ret tt).

Definition getIPKey (ipAddress : string) : string := "rate_limit:ip:" +:+ ipAddress.
Definition getSessionKey (sessionId : string) : string := "rate_limit:session:" +:+ sessionId.
Definition getGlobalKey (identifier : string) : string := "rate_limit:global:" +:+ identifier.
Definition getWebSocketConnectionKey (ipAddress : string) : string :=
  "rate_limit:ws_conn:" +:+ ipAddress.
Definition getWebSocketMessageKey (sessionId : string) : string :=
  "rate_limit:ws_msg:" +:+ sessionId.

Definition alphanumeric (c : ascii) : bool :=
  let n := nat_of_ascii c in
  ((48 <=? n) && (n <=? 57) || (65 <=? n) && (n <=? 90) || (97 <=? n) && (n <=? 122))%nat.

(** [endpointKey.replace(/[^a-zA-Z0-9]/g, '_')] *)
Fixpoint safeEndpoint (s : string) : string :=
  match s with
  | EmptyString => EmptyString
  | String c s' => String (if alphanumeric c then c else "_"%char) (safeEndpoint s')
  end.

Definition getEndpointKey (endpointKey identifier : string) : string :=
  "rate_limit:endpoint:" +:+ safeEndpoint endpointKey +:+ ":" +:+ identifier.

Section WithConfig.
Variable config : RateLimitConfig.

Fixpoint directRule (endpointKey : string) (l : list (string * RateLimitRule))
  : option RateLimitRule :=
  match l with
  | [] => None
  | (k, r) :: rest => if String.eqb k endpointKey then Some r else directRule endpointKey rest
  end.

Definition endsWithStar (pattern : string) : option string :=
  match String.length pattern with
  | O => None
  | S n =>
      if String.eqb (String.substring n 1 pattern) "*"
      then Some (String.substring 0 n pattern) else None
  end.

Fixpoint patternRule (endpointKey : string) (l : list (string * RateLimitRule))
  : option RateLimitRule :=
  match l with
  | [] => None
  | (pattern, r) :: rest =>
      match endsWithStar pattern with
      | Some pre =>
          if String.prefix pre endpointKey then Some r else patternRule endpointKey rest
      | None => patternRule endpointKey rest
      end
  end.

Definition getEndpointRule (endpointKey : string) : option RateLimitRule :=
  match directRule endpointKey (cfg_endpoints config) with
  | Some r => Some r
  | None => patternRule endpointKey (cfg_endpoints config)
  end.

Definition checkIPRateLimit (ipAddress : string) : M RateLimitResult :=
  checkRateLimit {| rl_key := getIPKey ipAddress; rl_rule := cfg_perIP config;
                    rl_identifier := ipAddress; rl_type := "ip" |}.

Definition recordIPRequest (ipAddress : string) : M unit :=
  recordRequest {| rl_key := getIPKey ipAddress; rl_rule := cfg_perIP config;
                   rl_identifier := ipAddress; rl_type := "ip" |}.

Definition checkSessionRateLimit (sessionId : string) : M RateLimitResult :=
  checkRateLimit {| rl_key := getSessionKey sessionId; rl_rule := cfg_perSession config;
                    rl_identifier := sessionId; rl_type := "session" |}.

Definition recordSessionRequest (sessionId : string) : M unit :=
  recordRequest {| rl_key := getSessionKey sessionId; rl_rule := cfg_perSession config;
                   rl_identifier := sessionId; rl_type := "session" |}.

Definition checkGlobalRateLimit (identifier : string) : M RateLimitResult :=
  checkRateLimit {| rl_key := getGlobalKey identifier; rl_rule := cfg_global config;
                    rl_identifier := identifier; rl_type := "global" |}.

Definition recordGlobalRequest (identifier : string) : M unit :=
  recordRequest {| rl_key := getGlobalKey identifier; rl_rule := cfg_global config;
                   rl_identifier := identifier; rl_type := "global" |}.

Definition checkEndpointRateLimit (method path identifier : string) : M RateLimitResult :=
  let endpointKey := method +:+ " " +:+ path in
  match getEndpointRule endpointKey with
  | None => checkGlobalRateLimit identifier
  | Some rule =>
      checkRateLimit {| rl_key := getEndpointKey endpointKey identifier; rl_rule := rule;
                        rl_identifier := endpointKey +:+ ":" +:+ identifier;
                        rl_type := "endpoint" |}
  end.

Definition recordEndpointRequest (method path identifier : string) : M unit :=
  let endpointKey := method +:+ " " +:+ path in
  match getEndpointRule endpointKey with
  | None => recordGlobalRequest identifier
  | Some rule =>
      recordRequest {| rl_key := getEndpointKey endpointKey identifier; rl_rule := rule;
                       rl_identifier := endpointKey +:+ ":" +:+ identifier;
                       rl_type := "endpoint" |}
  end.

Definition checkWebSocketConnectionLimit (ipAddress : string) : M RateLimitResult :=
  checkRateLimit {| rl_key := getWebSocketConnectionKey ipAddress;
                    rl_rule := cfg_connectionsPerIP config;
                    rl_identifier := ipAddress; rl_type := "websocket" |}.

Definition recordWebSocketConnection (ipAddress : string) : M unit :=
  recordRequest {| rl_key := getWebSocketConnectionKey ipAddress;
                   rl_rule := cfg_connectionsPerIP config;
                   rl_identifier := ipAddress; rl_type := "websocket" |}.

Definition checkWebSocketMessageLimit (sessionId : string) : M RateLimitResult :=
  checkRateLimit {| rl_key := getWebSocketMessageKey sessionId;
                    rl_rule := cfg_messagesPerSession config;
                    rl_identifier := sessionId; rl_type := "websocket" |}.

Definition recordWebSocketMessage (sessionId : string) : M unit :=
  recordRequest {| rl_key := getWebSocketMessageKey sessionId;
                   rl_rule := cfg_messagesPerSession config;
                   rl_identifier := sessionId; rl_type := "websocket" |}.

Definition isIPWhitelisted (ipAddress : string) : bool :=
  existsb (String.eqb ipAddress) (cfg_whitelistedIPs config).

Definition shouldSkipEndpoint (path : string) : bool :=
  existsb (fun endpoint => String.eqb path endpoint || String.prefix (endpoint +:+ "/") path)
          (cfg_healthCheckEndpoints config).

End WithConfig.

(** [resetRateLimit]: the admin function that clears the counters of one
    identity.  Only the types [ip], [session] and [global] have a key. *)
Definition resetRateLimit (type identifier : string) : M unit :=
  try_catch
    (key <- (if String.eqb type "ip" then ret (getIPKey identifier)
             else if String.eqb type "session" then ret (getSessionKey identifier)
             else if String.eqb type "global" then ret (getGlobalKey identifier)
             else throw ("Unknown rate limit type: " +:+ type)) ;;
     let pattern := key +:+ ":*" in
     keys <- RedisService.keys pattern ;;
     if 0 <? Z.of_nat (length keys) then RedisService.del keys ;;; ret tt
     else ret tt)
    (fun error => throw error).

Definition isHealthy : M bool :=
  try_catch
    (let testKey := "rate_limit:health:test" in
     RedisService.set testKey "1" None ;;;
     RedisService.incr testKey ;;;
     result <- RedisService.get testKey ;;
     RedisService.del [testKey] ;;;
     ret (match result with Some r => String.eqb r "2" | None => false end))
    (fun _ => ret false).

End RateLimitService.

(** ** RateLimitMiddleware: the composite decision *)

Module RateLimitMiddleware.

(** The callback of [results.reduce]. *)
Definition pick (prev current : RateLimitResult) : RateLimitResult :=
  if negb (allowed prev) || negb (allowed current) then
    (if remainingRequests prev <=? remainingRequests current then prev else current)
  else
    (if remainingRequests prev <=? remainingRequests current then prev else current).

(** [results.reduce(pick)] without an initial value; [None] is the
    [TypeError] on an empty array. *)
Definition mostRestrictive (results : list RateLimitResult) : option RateLimitResult :=
  match results with
  | [] => None
  | r :: rest => Some (fold_left pick rest r)
  end.

Inductive verdict : Type :=
| Next (rateLimit : option RateLimitResult)
| TooManyRequests (rateLimit : RateLimitResult).

Section WithConfig.
Variable config : RateLimitConfig.

Definition recordRequest (method path ipAddress : string) (sessionId : option string) : M unit :=
  try_catch
    (RateLimitService.recordIPRequest config ipAddress ;;;
     RateLimitService.recordEndpointRequest config method path ipAddress ;;;
     match sessionId with
     | Some sid => RateLimitService.recordSessionRequest config sid
     | None => ret tt
     end)
    (fun _ => ret tt).

(** [use], from the extracted method, path, address and session id to
    the decision; the recording it starts without awaiting is run to its
    end before the decision is returned. *)
Definition use (method path ipAddress : string) (sessionId : option string) : M verdict :=
  if RateLimitService.isIPWhitelisted config ipAddress then ret (Next None)
  else if RateLimitService.shouldSkipEndpoint config path then ret (Next None)
  else
    try_catch
      (ipResult <- RateLimitService.checkIPRateLimit config ipAddress ;;
       sessionResult <-
         match sessionId with
         | Some sid => r <- RateLimitService.checkSessionRateLimit config sid ;; ret (Some r)
         | None => ret None
         end ;;
       endpointResult <- RateLimitService.checkEndpointRateLimit config method path ipAddress ;;
       let results :=
         ipResult :: match sessionResult with Some r => [r] | None => [] end
                  ++ [endpointResult] in
       match mostRestrictive results with
       | None => throw "TypeError: Reduce of empty array with no initial value"
       | Some chosen =>
           if negb (allowed chosen) then ret (TooManyRequests chosen)
           else
             recordRequest method path ipAddress sessionId ;;;
             ret (Next (Some chosen))
       end)
      (fun _ => ret (Next None)).

End WithConfig.

End RateLimitMiddleware.

(** ** SessionService *)

Record SessionData := {
  sessionId : string;
  createdAt : Z;
  lastActivity : Z;
  ipAddress : string;
  userAgent : string;
  messageCount : Z;
  isActive : bool
}.

Record SessionCreateOptions := {
  opt_sessionId : string;
  opt_ipAddress : string;
  opt_userAgent : string
}.

Record SessionUpdateOptions := {
  upd_lastActivity : option Z;
  upd_messageCount : option Z;
  upd_isActive : option bool
}.

Record SessionConfig := {
  ttl : Z;                  (* seconds *)
  cleanupInterval : Z;      (* milliseconds *)
  maxSessionsPerIP : Z;
  extendOnActivity : bool
}.

Definition DEFAULT_SESSION_CONFIG : SessionConfig := {|
  ttl := 24 * 60 * 60;
  cleanupInterval := 60 * 60 * 1000;
  maxSessionsPerIP := 10;
  extendOnActivity := true
|}.

Record SessionCleanupResult := { sessionsRemoved : Z; sessionsProcessed : Z }.

Record SessionStats := { totalSessions : Z; activeSessions : Z; expiredSessions : Z }.

(** The object that [JSON.stringify(sessionData)] serialises. *)
Definition sessionToJson (s : SessionData) : json :=
  JObj [ ("sessionId", JStr (sessionId s));
         ("createdAt", JNum (createdAt s));
         ("lastActivity", JNum (lastActivity s));
         ("ipAddress", JStr (ipAddress s));
         ("userAgent", JStr (userAgent s));
         ("messageCount", JNum (messageCount s));
         ("isActive", JBool (isActive s)) ].

(** Reading a parsed record through its properties.  A parsed value that is
    not of the shape of [SessionData] is outside the embedding: it is read as
    a failure of the enclosing [try]. *)
Definition sessionOfJson (j : json) : option SessionData :=
  match j with
  | JObj o =>
      match field "sessionId" o, field "createdAt" o, field "lastActivity" o,
            field "ipAddress" o, field "userAgent" o, field "messageCount" o,
            field "isActive" o with
      | Some (JStr sid), Some (JNum c), Some (JNum l), Some (JStr ip), Some (JStr ua),
        Some (JNum n), Some (JBool a) =>
          Some {| sessionId := sid; createdAt := c; lastActivity := l; ipAddress := ip;
                  userAgent := ua; messageCount := n; isActive := a |}
      | _, _, _, _, _, _, _ => None
      end
  | _ => None
  end.

Module SessionService.

Definition getSessionKey (sessionId : string) : string := "session:" +:+ sessionId.
Definition getIPKey (ipAddress : string) : string := "session:ip:" +:+ ipAddress.

Section WithConfig.
Context `{Runtime}.
Variable config : SessionConfig.

Definition expired (now : Z) (s : SessionData) : bool :=
  now - lastActivity s >? ttl config * 1000.

(** The body of [deleteSession], over the [getSession] it calls. *)
Definition deleteSession_with (getSession : string -> M (option SessionData))
    (sessionId : string) : M bool :=
  try_catch
    (sessionData <- getSession sessionId ;;
     match sessionData with
     | Some sd => RedisService.srem (getIPKey (ipAddress sd)) [sessionId] ;;; ret tt
     | None => ret tt
     end ;;;
     result <- RedisService.del [getSessionKey sessionId] ;;
     ret (result >? 0))
    (fun _ => ret false).

(** [getSession] and [deleteSession] call each other; [fuel] bounds the
    depth of these calls, and a call that exhausts it is [Pending]. *)
Fixpoint getSession (fuel : nat) (sessionId : string) : M (option SessionData) :=
  match fuel with
  | O => fun _ => Pending
  | S fuel' =>
      try_catch
        (sessionDataStr <- RedisService.get (getSessionKey sessionId) ;;
         match sessionDataStr with
         | None => ret None
         | Some str =>
             if negb (truthy str) then ret None
             else
               match JSON_parse str with
               | None => throw "SyntaxError"
               | Some j =>
                   match sessionOfJson j with
                   | None => throw "TypeError"
                   | Some sessionData =>
                       now <- Date_now ;;
                       if expired now sessionData then
                         deleteSession_with (getSession fuel') sessionId ;;; ret None
                       else ret (Some sessionData)
                   end
               end
         end)
        (fun _ => ret None)
  end.

Definition deleteSession (fuel : nat) (sessionId : string) : M bool :=
  deleteSession_with (getSession fuel) sessionId.

(** The loop of [getSessionCountByIP] over the members of the index. *)
Fixpoint countValid (fuel : nat) (ipKey : string) (sessionIds : list string)
    (validCount : Z) : M Z :=
  match sessionIds with
  | [] => ret validCount
  | sid :: rest =>
      s <- getSession fuel sid ;;
      match s with
      | Some _ => countValid fuel ipKey rest (validCount + 1)
      | None => RedisService.srem ipKey [sid] ;;; countValid fuel ipKey rest validCount
      end
  end.

Definition getSessionCountByIP (fuel : nat) (ipAddress : string) : M Z :=
  try_catch
    (let ipKey := getIPKey ipAddress in
     sessionIds <- RedisService.smembers ipKey ;;
     countValid fuel ipKey sessionIds 0)
    (fun _ => ret 0).

Definition createSession (fuel : nat) (options : SessionCreateOptions) : M SessionData :=
  try_catch
    (now <- Date_now ;;
     ipSessionCount <- getSessionCountByIP fuel (opt_ipAddress options) ;;
     if ipSessionCount >=? maxSessionsPerIP config then
       throw ("Too many sessions for IP: " +:+ opt_ipAddress options +:+ ". Max: "
              +:+ Z_toString (maxSessionsPerIP config))
     else
       let sessionData :=
         {| sessionId := opt_sessionId options; createdAt := now; lastActivity := now;
            ipAddress := opt_ipAddress options; userAgent := opt_userAgent options;
            messageCount := 0; isActive := true |} in
       RedisService.setWithExpiry (getSessionKey (opt_sessionId options))
         (JSON_stringify (sessionToJson sessionData)) (ttl config) ;;;
       let ipKey := getIPKey (opt_ipAddress options) in
       RedisService.sadd ipKey [opt_sessionId options] ;;;
       RedisService.expire ipKey (ttl config) ;;;
       ret sessionData)
    (fun error => throw error).

(** [{...sessionData, ...updates, lastActivity: updates.lastActivity || Date.now()}] *)
Definition applyUpdates (now : Z) (sd : SessionData) (updates : SessionUpdateOptions)
  : SessionData :=
  {| sessionId := sessionId sd;
     createdAt := createdAt sd;
     lastActivity :=
       match upd_lastActivity updates with
       | Some t => if t =? 0 then now else t
       | None => now
       end;
     ipAddress := ipAddress sd;
     userAgent := userAgent sd;
     messageCount := default (messageCount sd) (upd_messageCount updates);
     isActive := default (isActive sd) (upd_isActive updates) |}.

Definition updateSession (fuel : nat) (sessionId : string) (updates : SessionUpdateOptions)
  : M (option SessionData) :=
  try_catch
    (sessionData <- getSession fuel sessionId ;;
     match sessionData with
     | None => ret None
     | Some sd =>
         now <- Date_now ;;
         let updatedSession := applyUpdates now sd updates in
         let sessionKey := getSessionKey sessionId in
         (if extendOnActivity config then
            RedisService.setWithExpiry sessionKey
              (JSON_stringify (sessionToJson updatedSession)) (ttl config)
          else
            RedisService.set sessionKey (JSON_stringify (sessionToJson updatedSession)) None) ;;;
         ret (Some updatedSession)
     end)
    (fun error => throw error).

Definition validateSession (fuel : nat) (sessionId : string) (address : option string)
  : M bool :=
  try_catch
    (sessionData <- getSession fuel sessionId ;;
     match sessionData with
     | None => ret false
     | Some sd =>
         if negb (isActive sd) then ret false
         else
           match address with
           | Some ip =>
               if truthy ip && negb (String.eqb (ipAddress sd) ip)
               then ret false else ret true
           | None => ret true
           end
     end)
    (fun _ => ret false).

Definition incrementMessageCount (fuel : nat) (sessionId : string) : M Z :=
  try_catch
    (sessionData <- getSession fuel sessionId ;;
     match sessionData with
     | None => throw ("Session not found: " +:+ sessionId)
     | Some sd =>
         let newCount := messageCount sd + 1 in
         now <- Date_now ;;
         updateSession fuel sessionId
           {| upd_lastActivity := Some now; upd_messageCount := Some newCount;
              upd_isActive := None |} ;;;
         ret newCount
     end)
    (fun error => throw error).

(** The loop of [cleanupExpiredSessions] over the listed keys. *)
Fixpoint sweep (fuel : nat) (now : Z) (sessionKeys : list string) (removed : Z) : M Z :=
  match sessionKeys with
  | [] => ret removed
  | key :: rest =>
      n <- try_catch
             (sessionDataStr <- RedisService.get key ;;
              match sessionDataStr with
              | None => ret removed
              | Some str =>
                  if negb (truthy str) then ret removed
                  else
                    match JSON_parse str with
                    | None => throw "SyntaxError"
                    | Some j =>
                        match sessionOfJson j with
                        | None => throw "TypeError"
                        | Some sd =>
                            if negb (isActive sd) || expired now sd then
                              deleteSession fuel (sessionId sd) ;;; ret (removed + 1)
                            else ret removed
                        end
                    end
              end)
             (fun _ => ret removed) ;;
      sweep fuel now rest n
  end.

Definition cleanupExpiredSessions (fuel : nat) : M SessionCleanupResult :=
  try_catch
    (sessionKeys <- RedisService.keys (getSessionKey "*") ;;
     now <- Date_now ;;
     removed <- sweep fuel now sessionKeys 0 ;;
     ret {| sessionsRemoved := removed;
            sessionsProcessed := Z.of_nat (length sessionKeys) |})
    (fun _ => ret {| sessionsRemoved := 0; sessionsProcessed := 0 |}).

(** The loop of [getSessionStats] over the listed keys. *)
Fixpoint tally (now : Z) (sessionKeys : list string) (active expiredCount : Z) : M (Z * Z) :=
  match sessionKeys with
  | [] => ret (active, expiredCount)
  | key :: rest =>
      sessionDataStr <- RedisService.get key ;;
      match sessionDataStr with
      | None => tally now rest active expiredCount
      | Some str =>
          if negb (truthy str) then tally now rest active expiredCount
          else
            match JSON_parse str with
            | None => throw "SyntaxError"
            | Some j =>
                match sessionOfJson j with
                | None => throw "TypeError"
                | Some sd =>
                    if isActive sd && negb (expired now sd)
                    then tally now rest (active + 1) expiredCount
                    else tally now rest active (expiredCount + 1)
                end
            end
      end
  end.

Definition getSessionStats : M SessionStats :=
  try_catch
    (sessionKeys <- RedisService.keys (getSessionKey "*") ;;
     now <- Date_now ;;
     counts <- tally now sessionKeys 0 0 ;;
     ret {| totalSessions := Z.of_nat (length sessionKeys);
            activeSessions := fst counts;
            expiredSessions := snd counts |})
    (fun _ => ret {| totalSessions := 0; activeSessions := 0; expiredSessions := 0 |}).

End WithConfig.

Definition isHealthy : M bool :=
  try_catch
    (let testKey := "session:health:test" in
     RedisService.set testKey "test" None ;;;
     result <- RedisService.get testKey ;;
     RedisService.del [testKey] ;;;
     ret (match result with Some r => String.eqb r "test" | None => false end))
    (fun _ => ret false).

End SessionService.

(** ** CacheService *)

Record CacheConfig := {
  defaultTtl : Z;
  compressionThreshold : Z;
  enableCompression : bool;
  maxValueSize : Z
}.

Definition defaultCacheConfig : CacheConfig := {|
  defaultTtl := 300;
  compressionThreshold := 1024;
  enableCompression := true;
  maxValueSize := 10 * 1024 * 1024
|}.

(** [Date] values are kept as their epoch milliseconds: serialising one to
    its ISO text and reading it back with [new Date(text).getTime()] is the
    identity on them. *)
Record CacheEntry := {
  ce_value : json;
  ce_ttl : Z;
  ce_compressed : bool;
  ce_size : Z;
  ce_createdAt : Z;
  ce_lastAccessed : Z
}.

Definition entryToJson (e : CacheEntry) : json :=
  JObj [ ("value", ce_value e);
         ("ttl", JNum (ce_ttl e));
         ("compressed", JBool (ce_compressed e));
         ("size", JNum (ce_size e));
         ("createdAt", JNum (ce_createdAt e));
         ("lastAccessed", JNum (ce_lastAccessed e)) ].

(** Reading a parsed entry through its properties; a parsed value of
    another shape is read as a failure of the enclosing [try]. *)
Definition entryOfJson (j : json) : option CacheEntry :=
  match j with
  | JObj o =>
      match field "value" o, field "ttl" o, field "compressed" o, field "size" o,
            field "createdAt" o, field "lastAccessed" o with
      | Some v, Some (JNum t), Some (JBool c), Some (JNum sz), Some (JNum ca), Some (JNum la) =>
          Some {| ce_value := v; ce_ttl := t; ce_compressed := c; ce_size := sz;
                  ce_createdAt := ca; ce_lastAccessed := la |}
      | _, _, _, _, _, _ => None
      end
  | _ => None
  end.

(** The settings of the cache configuration that the session helpers and
    the invalidation by pattern read: [ttl.sessionData],
    [invalidation.enablePatternInvalidation] and
    [invalidation.batchInvalidationSize]. *)
Record CacheInvalidation := {
  sessionDataTtl : Z;
  enablePatternInvalidation : bool;
  batchInvalidationSize : Z
}.

Definition defaultCacheInvalidation : CacheInvalidation := {|
  sessionDataTtl := 1800;
  enablePatternInvalidation := true;
  batchInvalidationSize := 100
|}.

(** The key generator reads the default configuration: the prefix
    [cache:session] and the maximal key length 250. *)
Module CacheKeyGenerator.

Definition sessionPrefix : string := "cache:session".

Definition maxKeyLength : Z := 250.

Definition validateKey (key : string) : M string :=
  if Z.of_nat (String.length key) >? maxKeyLength then
    throw ("Cache key too long: " +:+ Z_toString (Z.of_nat (String.length key)) +:+ " > "
           +:+ Z_toString maxKeyLength)
  else ret key.

Definition session (sessionId type : string) : M string :=
  validateKey (sessionPrefix +:+ ":" +:+ type +:+ ":" +:+ sessionId).

Definition responsePrefix : string := "cache:response".

(** The loop of [hashParams] from the running value [hash]:
    [hash = ((hash << 5) - hash) + char; hash = hash & hash], with
    [charCodeAt] read on a text of single-byte characters. *)
Fixpoint hashChars (params : string) (hash : Z) : Z :=
  match params with
  | EmptyString => hash
  | String c rest =>
      hashChars rest
        (toInt32 (toInt32 (Z.shiftl hash 5) - hash + Z.of_nat (nat_of_ascii c)))
  end.

Definition hashParams (params : string) : string :=
  if negb (truthy params) then "no-params"
  else Number_toString36 (Z.abs (hashChars params 0)).

Section WithRuntime.
Context `{Runtime}.

(** [params] is an object or absent. *)
Definition response (endpoint : string) (params : option json) : M string :=
  let paramStr :=
    match params with
    | Some p => JSON_stringify p
    | None => EmptyString
    end in
  validateKey (responsePrefix +:+ ":" +:+ endpoint +:+ ":" +:+ hashParams paramStr).

End WithRuntime.

End CacheKeyGenerator.

Module CacheService.

Definition CACHE_VERSION : string := "1.0".

Definition versioned (key : string) : string := CACHE_VERSION +:+ ":" +:+ key.

Definition bump (f : CacheMetrics -> CacheMetrics) : M unit :=
  modify (fun w => set_metrics (f (metrics w)) w).

Definition count_operation (m : CacheMetrics) : CacheMetrics :=
  {| hits := hits m; misses := misses m; sets := sets m; deletes := deletes m;
     operations := operations m + 1 |}.
Definition count_hit (m : CacheMetrics) : CacheMetrics :=
  {| hits := hits m + 1; misses := misses m; sets := sets m; deletes := deletes m;
     operations := operations m |}.
Definition count_miss (m : CacheMetrics) : CacheMetrics :=
  {| hits := hits m; misses := misses m + 1; sets := sets m; deletes := deletes m;
     operations := operations m |}.
Definition count_set (m : CacheMetrics) : CacheMetrics :=
  {| hits := hits m; misses := misses m; sets := sets m + 1; deletes := deletes m;
     operations := operations m |}.
Definition count_delete (m : CacheMetrics) : CacheMetrics :=
  {| hits := hits m; misses := misses m; sets := sets m; deletes := deletes m + 1;
     operations := operations m |}.

(** The private helpers reach the raw client handle of [RedisService]. *)
Definition getFromRedis (key : string) : M (option string) :=
  try_catch
    (c <- gets client ;;
     if negb c then ret None
     else RedisService.on_client (fun now => Command.GET now key))
    (fun _ => ret None).

Definition setToRedis (key value : string) (ttl : Z) : M unit :=
  try_catch
    (c <- gets client ;;
     if negb c then throw "Redis client not available"
     else RedisService.on_client (fun now => Command.SETEX now key ttl value))
    (fun error => throw error).

Definition deleteFromRedis (key : string) : M unit :=
  try_catch
    (c <- gets client ;;
     if negb c then ret tt
     else RedisService.on_client (fun now => Command.DEL now [key]) ;;; ret tt)
    (fun error => throw error).

Definition getSize (data : string) : Z := byteLength data.

Definition isExpired (now : Z) (entry : CacheEntry) : bool :=
  now - ce_createdAt entry >? ce_ttl entry * 1000.

Section WithConfig.
Context `{Runtime}.
Variable config : CacheConfig.

Definition compress (data : string) : string :=
  match gzip_base64 data with
  | Some compressed => compressed
  | None => data
  end.

Definition decompress (data : string) : string :=
  match gunzip_base64 data with
  | Some decompressed => decompressed
  | None => data
  end.

Definition delete (key : string) : M unit :=
  try_catch
    (bump count_operation ;;;
     bump count_delete ;;;
     deleteFromRedis (versioned key))
    (fun error => throw error).

(** [get]; a [null] result is [JNull]. *)
Definition get (key : string) : M json :=
  try_catch
    (bump count_operation ;;;
     cached <- getFromRedis (versioned key) ;;
     match cached with
     | None => bump count_miss ;;; ret JNull
     | Some str =>
         if negb (truthy str) then bump count_miss ;;; ret JNull
         else
           match JSON_parse str with
           | None => throw "SyntaxError"
           | Some j =>
               match entryOfJson j with
               | None => throw "TypeError"
               | Some entry =>
                   now <- Date_now ;;
                   if isExpired now entry then
                     delete key ;;; bump count_miss ;;; ret JNull
                   else
                     let entry' :=
                       {| ce_value := ce_value entry; ce_ttl := ce_ttl entry;
                          ce_compressed := ce_compressed entry; ce_size := ce_size entry;
                          ce_createdAt := ce_createdAt entry; ce_lastAccessed := now |} in
                     setToRedis (versioned key) (JSON_stringify (entryToJson entry'))
                       (ce_ttl entry') ;;;
                     bump count_hit ;;;
                     match ce_compressed entry', ce_value entry' with
                     | true, JStr data => ret (JStr (decompress data))
                     | _, value => ret value
                     end
               end
           end
     end)
    (fun _ => bump count_miss ;;; ret JNull).

(** [ttl || this.config.defaultTtl] *)
Definition finalTtlOf (ttl : option Z) : Z :=
  match ttl with
  | Some t => if t =? 0 then defaultTtl config else t
  | None => defaultTtl config
  end.

Definition set (key : string) (value : json) (ttl : option Z) : M unit :=
  try_catch
    (bump count_operation ;;;
     bump count_set ;;;
     let finalTtl := finalTtlOf ttl in
     now <- Date_now ;;
     let size := getSize (JSON_stringify value) in
     if size >? maxValueSize config then
       throw ("Value too large: " +:+ Z_toString size +:+ " > "
              +:+ Z_toString (maxValueSize config))
     else
       let '(serializedValue, compressed, size) :=
         if enableCompression config && (size >? compressionThreshold config) then
           let data := compress (JSON_stringify value) in
           (JStr data, true, getSize data)
         else (value, false, size) in
       let entry :=
         {| ce_value := serializedValue; ce_ttl := finalTtl; ce_compressed := compressed;
            ce_size := size; ce_createdAt := now; ce_lastAccessed := now |} in
       setToRedis (versioned key) (JSON_stringify (entryToJson entry)) finalTtl)
    (fun error => throw error).

End WithConfig.

(** [getKeysByPattern] iterates [SCAN] until the cursor returns to zero; a
    complete iteration is read as the list of the keys that match, each
    listed once.  The store may return a key more than once in an
    iteration: such a repetition adds to the number that [deletePattern]
    counts and returns, and changes nothing of what it deletes. *)
Definition getKeysByPattern (pattern : string) : M (list string) :=
  try_catch
    (c <- gets client ;;
     if negb c then ret []
     else RedisService.on_client (fun now => Command.KEYS now pattern))
    (fun _ => ret []).

Definition deleteBatch (keys : list string) : M unit :=
  try_catch
    (c <- gets client ;;
     if negb c || (Z.of_nat (length keys) =? 0) then ret tt
     else RedisService.on_client (fun now => Command.DEL now keys) ;;; ret tt)
    (fun error => throw error).

(** The loop [for (i = 0; i < keys.length; i += batchSize)] of
    [deletePattern] over the keys from index [i] on.  With keys left, a
    batch size below one never ends the loop: [steps], the number of keys,
    bounds the iterations of a loop that ends. *)
Fixpoint deleteBatches (steps : nat) (batchSize : Z) (keys : list string) (deletedCount : Z)
  : M Z :=
  match keys with
  | [] => ret deletedCount
  | _ :: _ =>
      match steps with
      | O => fun _ => Pending
      | S steps' =>
          let batch := take (Z.to_nat batchSize) keys in
          deleteBatch batch ;;;
          deleteBatches steps' batchSize (drop (Z.to_nat batchSize) keys)
            (deletedCount + Z.of_nat (length batch))
      end
  end.

Definition count_deletes (n : Z) (m : CacheMetrics) : CacheMetrics :=
  {| hits := hits m; misses := misses m; sets := sets m; deletes := deletes m + n;
     operations := operations m |}.

Section Invalidation.
Context `{Runtime}.
Variable config : CacheConfig.
Variable invalidation : CacheInvalidation.

Definition deletePattern (pattern : string) : M Z :=
  try_catch
    (if negb (enablePatternInvalidation invalidation) then ret 0
     else
       keys <- getKeysByPattern (versioned pattern) ;;
       if Z.of_nat (length keys) =? 0 then ret 0
       else
         deletedCount <-
           deleteBatches (length keys) (batchInvalidationSize invalidation) keys 0 ;;
         bump (count_deletes deletedCount) ;;;
         ret deletedCount)
    (fun error => throw error).

Definition resetMetrics : M unit :=
  bump (fun _ => {| hits := 0; misses := 0; sets := 0; deletes := 0; operations := 0 |}).

Definition clear : M unit :=
  try_catch
    (deletePattern "*" ;;;
     resetMetrics)
    (fun error => throw error).

Definition cacheSession (sessionId type : string) (value : json) (ttl : option Z) : M unit :=
  key <- CacheKeyGenerator.session sessionId type ;;
  let sessionTtl :=
    match ttl with
    | Some t => if t =? 0 then sessionDataTtl invalidation else t
    | None => sessionDataTtl invalidation
    end in
  set config key value (Some sessionTtl).

Definition getCachedSession (sessionId type : string) : M json :=
  key <- CacheKeyGenerator.session sessionId type ;;
  get key.

Definition invalidateSession (sessionId : string) : M Z :=
  key <- CacheKeyGenerator.session sessionId EmptyString ;;
  deletePattern (key +:+ "*").

Definition cacheResponse (endpoint : string) (params : option json) (value : json)
    (ttl : option Z) : M unit :=
  key <- CacheKeyGenerator.response endpoint params ;;
  set config key value ttl.

Definition getCachedResponse (endpoint : string) (params : option json) : M json :=
  key <- CacheKeyGenerator.response endpoint params ;;
  get key.

Definition invalidateEndpoint (endpoint : string) : M Z :=
  key <- CacheKeyGenerator.response endpoint (Some (JObj [])) ;;
  deletePattern (key +:+ "*").

End Invalidation.

End CacheService.

(** ** CacheInterceptor: the time-to-live of an endpoint *)

(** [config.ttl] *)
Record CacheTtl := {
  agentChat : Z;
  agentTools : Z;
  documentList : Z;
  documentStatus : Z;
  scraperStatus : Z;
  healthCheck : Z;
  sessionData : Z;
  sessionHistory : Z;
  metricsData : Z;
  staticData : Z
}.

Definition defaultCacheTtl : CacheTtl := {|
  agentChat := 60;
  agentTools := 3600;
  documentList := 300;
  documentStatus := 30;
  scraperStatus := 15;
  healthCheck := 60;
  sessionData := 1800;
  sessionHistory := 3600;
  metricsData := 300;
  staticData := 86400
|}.

Module CacheInterceptor.

Section WithConfig.
Variable ttl : CacheTtl.
Variable defaultTtl : Z.

(** The entries of [endpointTTLs], in the order of [Object.entries]. *)
Definition endpointTTLs : list (string * Z) :=
  [ ("/agent/chat", agentChat ttl);
    ("/agent/tools", agentTools ttl);
    ("/documents", documentList ttl);
    ("/documents/status", documentStatus ttl);
    ("/scrape", scraperStatus ttl);
    ("/health", healthCheck ttl) ].

(** The loop over the entries: the first whose endpoint occurs in the path. *)
Fixpoint firstIncluded (path : string) (entries : list (string * Z)) : option Z :=
  match entries with
  | [] => None
  | (endpoint, t) :: rest =>
      if includes path endpoint then Some t else firstIncluded path rest
  end.

Definition getTTLForEndpoint (path : string) : Z :=
  match firstIncluded path endpointTTLs with
  | Some t => t
  | None =>
      if includes path "/documents/status/" then documentStatus ttl
      else if includes path "/agent/chat/history/" then sessionHistory ttl
      else defaultTtl
  end.

End WithConfig.

(** [hashObject]: the same loop as [hashParams], over the serialised
    object. *)
Definition hashObject `{Runtime} (obj : json) : string :=
  Number_toString36 (Z.abs (CacheKeyGenerator.hashChars (JSON_stringify obj) 0)).

End CacheInterceptor.

(** ** AgentService: the inference call *)

Record ChatRequest := {
  req_message : string;     (* empty when the field is missing *)
  req_sessionId : string    (* empty when the field is missing *)
}.

Record ChatResponseDto := {
  res_response : string;
  res_sessionId : string;
  res_sources : list string;
  res_toolCalls : list string
}.

(** What the remote procedure call does with its callback: it reports an
    error, it delivers a response (missing fields arrive empty),
    or it never invokes the callback (no deadline is passed to the call). *)
Inductive grpc_outcome : Type :=
| GrpcError (message : string)
| GrpcResponse (response session_id : string) (sources tool_calls : list string)
| GrpcNoReply.

Module AgentService.

Definition sendMessage (outcome : grpc_outcome) (request : ChatRequest) : M ChatResponseDto :=
  match outcome with
  | GrpcError message => throw message
  | GrpcResponse response session_id sources tool_calls =>
      ret {| res_response := response;
             res_sessionId := if truthy session_id then session_id else req_sessionId request;
             res_sources := sources;
             res_toolCalls := tool_calls |}
  | GrpcNoReply => fun _ => Pending
  end.

End AgentService.

(** ** ChatGateway *)

Record Socket := {
  sock_id : string;
  hdr_forwarded_for : option string;   (* handshake.headers['x-forwarded-for'] *)
  hdr_real_ip : option string;         (* handshake.headers['x-real-ip'] *)
  hdr_user_agent : option string;      (* handshake.headers['user-agent'] *)
  handshake_address : option string
}.

Module ChatGateway.

(** The characters that [String.prototype.trim] strips.  The text of a
    header holds one character for each byte received, of the codes 0 to
    255; among them the white space and the line terminators are the
    tabulation, line feed, vertical tabulation, form feed and carriage
    return (9 to 13), the space (32) and the no-break space (160). *)
Definition whitespace (c : ascii) : bool :=
  let n := nat_of_ascii c in
  ((n =? 32) || (9 <=? n) && (n <=? 13) || (n =? 160))%nat.

Fixpoint trimStart (s : string) : string :=
  match s with
  | EmptyString => EmptyString
  | String c s' => if whitespace c then trimStart s' else s
  end.

Fixpoint trimEnd (s : string) : string :=
  match s with
  | EmptyString => EmptyString
  | String c s' =>
      match trimEnd s' with
      | EmptyString => if whitespace c then EmptyString else String c EmptyString
      | t => String c t
      end
  end.

Definition trim (s : string) : string := trimEnd (trimStart s).

(** [s.split(',')[0]] *)
Fixpoint beforeComma (s : string) : string :=
  match s with
  | EmptyString => EmptyString
  | String c s' => if Ascii.eqb c ","%char then EmptyString else String c (beforeComma s')
  end.

Definition truthy_opt (s : option string) : option string :=
  match s with
  | Some v => if truthy v then Some v else None
  | None => None
  end.

Definition getClientIP (client : Socket) : string :=
  match truthy_opt (hdr_forwarded_for client) with
  | Some forwarded => trim (beforeComma forwarded)
  | None =>
      match truthy_opt (hdr_real_ip client) with
      | Some realIP => realIP
      | None => default "127.0.0.1" (truthy_opt (handshake_address client))
      end
  end.

Definition emit (client : Socket) (ev : string) (b : payload) : M unit :=
  modify (fun w => set_emitted (emitted w ++ [{| to := sock_id client; event := ev; body := b |}]) w).

Definition sendErrorToClient (client : Socket) (code message : string) : M unit :=
  now <- Date_now ;;
  emit client "error"
    (ErrorPayload {| em_error := true; em_code := code; em_message := message;
                     em_timestamp := now |}).

(** Text of [${retryAfter}] in a template literal. *)
Definition showRetryAfter (r : option Z) : string :=
  match r with
  | Some n => Z_toString n
  | None => "undefined"
  end.

(** What [handleConnection] leaves of the connection: [client.disconnect(true)]
    closes it. *)
Inductive connection : Type := ConnectionOpen | ConnectionClosed.

Definition handleDisconnect (client : Socket) : M unit :=
  modify (fun w => set_connectedClients (delete (sock_id client) (connectedClients w)) w).

(** What the subscription callback sends: [server.to(clientId).emit(event, body)]
    with the parsed message as body, or [server.emit(event, body)] to every
    socket of the namespace. *)
Inductive delivery : Type :=
| ToClient (clientId : string) (event : string) (body : json)
| ToAll (event : string) (body : ErrorMessage).

(** [broadcastChatMessage] on a parsed message other than [null]: the
    entries of [connectedClients] whose session is the [sessionId] of the
    message.  The entries are visited in the order of [map_to_list]. *)
Definition broadcastChatMessage (clients : gmap string string) (chatMessage : json)
  : list delivery :=
  match chatMessage with
  | JObj o =>
      match field "sessionId" o with
      | Some (JStr sid) =>
          map (fun entry => ToClient (fst entry) "chat" chatMessage)
              (filter (fun entry => snd entry = sid) (map_to_list clients))
      | _ => []
      end
  | _ => []
  end.

Definition broadcastError (now : Z) (code message : string) : list delivery :=
  [ToAll "error" {| em_error := true; em_code := code; em_message := message;
                    em_timestamp := now |}].

Section WithConfig.
Context `{Runtime}.
Variable sessionConfig : SessionConfig.
Variable rateLimitConfig : RateLimitConfig.

(** The callback that [subscribeToChatStream] registers on the channel
    [chat_tokens].  Reading [sessionId] of a parsed [null] is a [TypeError],
    caught like a [SyntaxError] of [JSON.parse]. *)
Definition onChatToken (now : Z) (clients : gmap string string) (message : string)
  : list delivery :=
  match JSON_parse message with
  | None => broadcastError now "PARSE_ERROR" "Failed to parse chat message"
  | Some JNull => broadcastError now "PARSE_ERROR" "Failed to parse chat message"
  | Some chatMessage => broadcastChatMessage clients chatMessage
  end.

Definition handleConnection (client : Socket) : M connection :=
  let clientIP := getClientIP client in
  try_catch
    (rateLimitResult <-
       RateLimitService.checkWebSocketConnectionLimit rateLimitConfig clientIP ;;
     if negb (allowed rateLimitResult) then
       now <- Date_now ;;
       emit client "error"
         (ErrorPayload
            {| em_error := true; em_code := "CONNECTION_RATE_LIMIT";
               em_message := "Too many connections. Try again in "
                             +:+ showRetryAfter (retryAfter rateLimitResult) +:+ " seconds.";
               em_timestamp := now |}) ;;;
       ret ConnectionClosed
     else
       RateLimitService.recordWebSocketConnection rateLimitConfig clientIP ;;;
       emit client "chat"
         (ChatPayload {| cm_sessionId := "system";
                         cm_token := "Connected to chat agent. Send a message to start!";
                         cm_done := true; cm_sources := None; cm_toolCalls := None |}) ;;;
       ret ConnectionOpen)
    (fun _ =>
       now <- Date_now ;;
       emit client "error"
         (ErrorPayload
            {| em_error := true; em_code := "CONNECTION_ERROR";
               em_message := "Failed to establish connection"; em_timestamp := now |}) ;;;
       ret ConnectionClosed).

Definition handleChatMessage (fuel : nat) (agent : grpc_outcome)
    (data : ChatRequest) (client : Socket) : M unit :=
  try_catch
    (if negb (truthy (req_message data)) || negb (truthy (req_sessionId data)) then
       sendErrorToClient client "INVALID_REQUEST" "Message and sessionId are required"
     else
       let clientIP := getClientIP client in
       let userAgent := default "Unknown" (truthy_opt (hdr_user_agent client)) in
       session <- SessionService.getSession sessionConfig fuel (req_sessionId data) ;;
       proceed <-
         match session with
         | None =>
             try_catch
               (SessionService.createSession sessionConfig fuel
                  {| opt_sessionId := req_sessionId data; opt_ipAddress := clientIP;
                     opt_userAgent := userAgent |} ;;;
                ret true)
               (fun _ =>
                  sendErrorToClient client "SESSION_ERROR" "Failed to create session" ;;;
                  ret false)
         | Some _ =>
             valid <- SessionService.validateSession sessionConfig fuel
                        (req_sessionId data) (Some clientIP) ;;
             if negb valid then
               sendErrorToClient client "SESSION_INVALID" "Invalid session" ;;; ret false
             else ret true
         end ;;
       if negb proceed then ret tt
       else
         messageRateLimit <-
           RateLimitService.checkWebSocketMessageLimit rateLimitConfig (req_sessionId data) ;;
         if negb (allowed messageRateLimit) then
           sendErrorToClient client "MESSAGE_RATE_LIMIT"
             ("Too many messages. Try again in "
              +:+ showRetryAfter (retryAfter messageRateLimit) +:+ " seconds.")
         else
           RateLimitService.recordWebSocketMessage rateLimitConfig (req_sessionId data) ;;;
           try_catch
             (SessionService.incrementMessageCount sessionConfig fuel (req_sessionId data) ;;;
              ret tt)
             (fun _ => ret tt) ;;;
           modify (fun w =>
             set_connectedClients
               (<[sock_id client := req_sessionId data]> (connectedClients w)) w) ;;;
           emit client "chat"
             (ChatPayload {| cm_sessionId := req_sessionId data; cm_token := EmptyString;
                             cm_done := false; cm_sources := None; cm_toolCalls := None |}) ;;;
           response <- AgentService.sendMessage agent data ;;
           if truthy (res_response response) then
             emit client "chat"
               (ChatPayload {| cm_sessionId := req_sessionId data;
                               cm_token := res_response response;
                               cm_done := true;
                               cm_sources := Some (res_sources response);
                               cm_toolCalls := Some (res_toolCalls response) |})
           else ret tt)
    (fun _ => sendErrorToClient client "AGENT_ERROR" "Failed to process chat message").

End WithConfig.

End ChatGateway.

(** ** An executable runtime

    An instance of [Runtime] on which the services can be run on concrete
    inputs: a JSON printer and reader for the values of [json] (no white
    space, escapes for the quote and the backslash), and a run-length coder
    standing for the compressor. *)

Module SampleRuntime.

Definition quote : ascii := ascii_of_nat 34.
Definition backslash : ascii := ascii_of_nat 92.

Fixpoint escape (s : string) : string :=
  match s with
  | EmptyString => EmptyString
  | String c s' =>
      if Ascii.eqb c quote || Ascii.eqb c backslash
      then String backslash (String c (escape s'))
      else String c (escape s')
  end.

Definition quoted (s : string) : string :=
  String quote (escape s +:+ String quote EmptyString).

Fixpoint join (l : list string) : string :=
  match l with
  | [] => EmptyString
  | [x] => x
  | x :: rest => x +:+ "," +:+ join rest
  end.

Fixpoint stringify (j : json) : string :=
  match j with
  | JNull => "null"
  | JBool true => "true"
  | JBool false => "false"
  | JNum n => Z_toString n
  | JStr s => quoted s
  | JArr items => "[" +:+ join (map stringify items) +:+ "]"
  | JObj fields =>
      "{" +:+ join (map (fun kv => quoted (fst kv) +:+ ":" +:+ stringify (snd kv)) fields)
          +:+ "}"
  end.

(** The text after an opening quote, up to the closing one. *)
Fixpoint read_string (s : string) : option (string * string) :=
  match s with
  | EmptyString => None
  | String c s' =>
      if Ascii.eqb c quote then Some (EmptyString, s')
      else if Ascii.eqb c backslash then
        match s' with
        | String d s'' =>
            match read_string s'' with
            | Some (t, rest) => Some (String d t, rest)
            | None => None
            end
        | EmptyString => None
        end
      else
        match read_string s' with
        | Some (t, rest) => Some (String c t, rest)
        | None => None
        end
  end.

Definition numeric (c : ascii) : bool :=
  let n := nat_of_ascii c in
  ((n =? 45) || (48 <=? n) && (n <=? 57))%nat.

Fixpoint span_number (s : string) : string * string :=
  match s with
  | EmptyString => (EmptyString, EmptyString)
  | String c s' =>
      if numeric c then let '(d, rest) := span_number s' in (String c d, rest)
      else (EmptyString, s)
  end.

Definition expect (word : string) (v : json) (s : string) : option (json * string) :=
  if String.prefix word s
  then Some (v, String.substring (String.length word) (String.length s - String.length word) s)
  else None.

Fixpoint read_items (read : string -> option (json * string)) (n : nat) (s : string)
  : option (list json * string) :=
  match n with
  | O => None
  | S n' =>
      match read s with
      | Some (v, String c rest) =>
          if Ascii.eqb c ","%char then
            match read_items read n' rest with
            | Some (vs, r) => Some (v :: vs, r)
            | None => None
            end
          else if Ascii.eqb c "]"%char then Some ([v], rest)
          else None
      | _ => None
      end
  end.

Fixpoint read_fields (read : string -> option (json * string)) (n : nat) (s : string)
  : option (list (string * json) * string) :=
  match n with
  | O => None
  | S n' =>
      match s with
      | String q s1 =>
          if Ascii.eqb q quote then
            match read_string s1 with
            | Some (k, String colon s2) =>
                if Ascii.eqb colon ":"%char then
                  match read s2 with
                  | Some (v, String c rest) =>
                      if Ascii.eqb c ","%char then
                        match read_fields read n' rest with
                        | Some (kvs, r) => Some ((k, v) :: kvs, r)
                        | None => None
                        end
                      else if Ascii.eqb c "}"%char then Some ([(k, v)], rest)
                      else None
                  | _ => None
                  end
                else None
            | _ => None
            end
          else None
      | EmptyString => None
      end
  end.

Fixpoint read_value (fuel : nat) (s : string) : option (json * string) :=
  match fuel with
  | O => None
  | S fuel' =>
      match s with
      | EmptyString => None
      | String c rest =>
          if Ascii.eqb c "n"%char then expect "null" JNull s
          else if Ascii.eqb c "t"%char then expect "true" (JBool true) s
          else if Ascii.eqb c "f"%char then expect "false" (JBool false) s
          else if Ascii.eqb c quote then
            match read_string rest with
            | Some (t, r) => Some (JStr t, r)
            | None => None
            end
          else if Ascii.eqb c "["%char then
            match rest with
            | String d r =>
                if Ascii.eqb d "]"%char then Some (JArr [], r)
                else
                  match read_items (read_value fuel') (String.length rest) rest with
                  | Some (vs, r') => Some (JArr vs, r')
                  | None => None
                  end
            | EmptyString => None
            end
          else if Ascii.eqb c "{"%char then
            match rest with
            | String d r =>
                if Ascii.eqb d "}"%char then Some (JObj [], r)
                else
                  match read_fields (read_value fuel') (String.length rest) rest with
                  | Some (kvs, r') => Some (JObj kvs, r')
                  | None => None
                  end
            | EmptyString => None
            end
          else if numeric c then
            let '(digits, r) := span_number s in
            match parseInt digits with
            | Some n => Some (JNum n, r)
            | None => None
            end
          else None
      end
  end.

Definition parse (s : string) : option json :=
  match read_value (String.length s) s with
  | Some (v, EmptyString) => Some v
  | _ => None
  end.

(** Run-length coding: each run of at most nine equal characters becomes
    its length digit followed by the character. *)
Fixpoint runs (s : string) : list (nat * ascii) :=
  match s with
  | EmptyString => []
  | String c s' =>
      match runs s' with
      | (n, d) :: rest =>
          if Ascii.eqb c d && (n <? 9)%nat then (S n, d) :: rest
          else (1%nat, c) :: (n, d) :: rest
      | [] => [(1%nat, c)]
      end
  end.

Fixpoint write_runs (l : list (nat * ascii)) : string :=
  match l with
  | [] => EmptyString
  | (n, c) :: rest => String (ascii_of_nat (48 + n)) (String c (write_runs rest))
  end.

Definition rle (s : string) : option string := Some (write_runs (runs s)).

Fixpoint repeat_char (n : nat) (c : ascii) (s : string) : string :=
  match n with
  | O => s
  | S n' => String c (repeat_char n' c s)
  end.

Fixpoint unrle (s : string) : option string :=
  match s with
  | EmptyString => Some EmptyString
  | String d (String c rest) =>
      let n := nat_of_ascii d in
      if ((49 <=? n) && (n <=? 57))%nat then
        match unrle rest with
        | Some t => Some (repeat_char (n - 48) c t)
        | None => None
        end
      else None
  | String _ EmptyString => None
  end.

Definition runtime : Runtime := {|
  JSON_stringify := stringify;
  JSON_parse := parse;
  gzip_base64 := rle;
  gunzip_base64 := unrle
|}.

End SampleRuntime.


(** ** Vocabulary of the statements *)

(** The store is available: the client handle exists and the server answers. *)
Definition up (w : world) : Prop := client w = true /\ online w = true.

(** The text held at a key that is present and has not expired. *)
Definition string_at (w : world) (k : string) : option string :=
  match lookup_live (clock w) (keyspace (store w)) k with
  | Some e => match rval e with RString s => Some s | RSet _ => None end
  | None => None
  end.

(** Writing and removing one entry of the key space. *)
Definition put (k : string) (e : rentry) (w : world) : world :=
  set_store (with_keyspace (<[k := e]> (keyspace (store w))) (store w)) w.

Definition remove (k : string) (w : world) : world :=
  set_store (with_keyspace (delete k (keyspace (store w))) (store w)) w.

(** The world in which a call settles. *)
Definition exec {A} (c : M A) (w : world) : world :=
  match c w with
  | Returned _ w' => w'
  | Thrown _ w' => w'
  | Pending => w
  end.

(** The world after one request has been recorded at each instant of [ts],
    in that order. *)
Definition record_all (info : RateLimitInfo) (ts : list Z) (w : world) : world :=
  fold_left (fun w t => exec (RateLimitService.recordRequest info) (at_time t w)) ts w.

(** A call that always settles by returning. *)
Definition never_throws {A} (c : M A) : Prop :=
  forall w, exists a w', c w = Returned a w'.

Definition empty_server : server :=
  {| keyspace := ∅; published := []; subscribed := ∅ |}.

Definition no_metrics : CacheMetrics :=
  {| hits := 0; misses := 0; sets := 0; deletes := 0; operations := 0 |}.

(** A process that has just connected to an empty store, at time [t]. *)
Definition fresh_world (t : Z) : world :=
  {| clock := t; client := true; subscriber := true; online := true;
     store := empty_server; subscriptions := ∅; emitted := [];
     connectedClients := ∅; metrics := no_metrics |}.

(** The same process after the server has become unreachable. *)
Definition unreachable (w : world) : world :=
  {| clock := clock w; client := client w; subscriber := subscriber w; online := false;
     store := store w; subscriptions := subscriptions w; emitted := emitted w;
     connectedClients := connectedClients w; metrics := metrics w |}.

(** A process whose connection to the store was never created. *)
Definition without_redis (w : world) : world :=
  {| clock := clock w; client := false; subscriber := false; online := false;
     store := store w; subscriptions := subscriptions w; emitted := emitted w;
     connectedClients := connectedClients w; metrics := metrics w |}.

(** A message quota of two per minute for the session [s1]. *)
Definition two_per_minute : RateLimitInfo :=
  {| rl_key := RateLimitService.getWebSocketMessageKey "s1";
     rl_rule := {| windowMs := 60000; maxRequests := 2 |};
     rl_identifier := "s1";
     rl_type := "websocket" |}.

(** A store in which, in the windows that contain time 0, the address
    [10.0.0.1] has used 499 of its 500 requests and the session [s1] has used
    all 30 of its requests. *)
Definition quota_world : world :=
  put (RateLimitService.windowKey (RateLimitService.getIPKey "10.0.0.1") 0)
      {| rval := RString "499"; expireAt := Some 901000 |}
    (put (RateLimitService.windowKey (RateLimitService.getSessionKey "s1") 0)
         {| rval := RString "30"; expireAt := Some 61000 |}
       (fresh_world 0)).

Definition admitting (remaining : Z) : RateLimitResult :=
  {| allowed := true; totalRequests := 100; remainingRequests := remaining;
     resetTime := 60; retryAfter := None |}.

Definition rejecting : RateLimitResult :=
  {| allowed := false; totalRequests := 100; remainingRequests := 0;
     resetTime := 60; retryAfter := Some 60 |}.

(** The store holds, at the key of the session [sid], a live text that
    parses to the record [sd]. *)
Definition stored_session `{Runtime} (w : world) (sid : string) (sd : SessionData) : Prop :=
  exists str j,
    string_at w (SessionService.getSessionKey sid) = Some str /\
    truthy str = true /\
    JSON_parse str = Some j /\
    sessionOfJson j = Some sd.

(** The address check of [validateSession]: no address, a falsy (empty)
    address, or the address stored in the record. *)
Definition address_accepted (sd : SessionData) (address : option string) : bool :=
  match address with
  | Some ip => negb (truthy ip) || String.eqb (ipAddress sd) ip
  | None => true
  end.

(** The serialiser and the parser agree on the value [v]. *)
Definition json_roundtrip `{Runtime} (v : json) : Prop :=
  JSON_parse (JSON_stringify v) = Some v /\ truthy (JSON_stringify v) = true.

(** The world after the first message of session [s1] from the address
    [10.0.0.1] has created the session, at time 1000. *)
Definition one_session_world : world :=
  exec (SessionService.createSession (H := SampleRuntime.runtime) DEFAULT_SESSION_CONFIG 1
          {| opt_sessionId := "s1"; opt_ipAddress := "10.0.0.1"; opt_userAgent := "Mozilla" |})
       (fresh_world 1000).

Definition session_s1 : SessionData :=
  {| sessionId := "s1"; createdAt := 1000; lastActivity := 1000; ipAddress := "10.0.0.1";
     userAgent := "Mozilla"; messageCount := 0; isActive := true |}.

(** The session configuration with activity not extending the expiry. *)
Definition no_extension_config : SessionConfig :=
  {| ttl := 24 * 60 * 60; cleanupInterval := 60 * 60 * 1000; maxSessionsPerIP := 10;
     extendOnActivity := false |}.

(** At most two sessions per address. *)
Definition two_sessions_config : SessionConfig :=
  {| ttl := 24 * 60 * 60; cleanupInterval := 60 * 60 * 1000; maxSessionsPerIP := 2;
     extendOnActivity := true |}.

(** The world after the address [10.0.0.1] has created the sessions [s1] and
    [s2], at time 1000. *)
Definition two_sessions_world : world :=
  exec (SessionService.createSession (H := SampleRuntime.runtime) two_sessions_config 1
          {| opt_sessionId := "s2"; opt_ipAddress := "10.0.0.1"; opt_userAgent := "Mozilla" |})
       one_session_world.

Definition session_s2 : SessionData :=
  {| sessionId := "s2"; createdAt := 1000; lastActivity := 1000; ipAddress := "10.0.0.1";
     userAgent := "Mozilla"; messageCount := 0; isActive := true |}.

Definition third_session : SessionCreateOptions :=
  {| opt_sessionId := "s3"; opt_ipAddress := "10.0.0.1"; opt_userAgent := "Mozilla" |}.

(** A cache configuration with small limits: values above 16 bytes are
    compressed, values above 64 bytes are refused. *)
Definition small_cache_config : CacheConfig :=
  {| defaultTtl := 300; compressionThreshold := 16; enableCompression := true;
     maxValueSize := 64 |}.

(** A text of 100 equal characters, and a text of 52 characters without
    repetition. *)
Definition hundred_a : json := JStr (SampleRuntime.repeat_char 100 "a" EmptyString).
Definition two_alphabets : json :=
  JStr "abcdefghijklmnopqrstuvwxyzabcdefghijklmnopqrstuvwxyz".

(** A text of 1100 equal characters. *)
Definition long_text : json := JStr (SampleRuntime.repeat_char 1100 "a" EmptyString).

(** Nothing was emitted on a socket and nothing was published between two
    worlds. *)
Definition unheard (w w' : world) : Prop :=
  emitted w' = emitted w /\ published (store w') = published (store w).

(** A call that, however it settles, emits and publishes nothing. *)
Definition quiet {A} (c : M A) : Prop :=
  forall w,
    match c w with
    | Returned _ w' => unheard w w'
    | Thrown _ w' => unheard w w'
    | Pending => True
    end.

(** A command that publishes nothing. *)
Definition silent {A} (cmd : Z -> server -> reply A) : Prop :=
  forall now sv a sv', cmd now sv = Ok a sv' -> published sv' = published sv.

(** The emissions [new] were added between two worlds, and nothing was
    published. *)
Definition grows (w w' : world) (new : list emission) : Prop :=
  emitted w' = (emitted w ++ new)%list /\ published (store w') = published (store w).

(** What a settled call establishes: [Q (inl a)] when it returns [a],
    [Q (inr e)] when it throws [e]. *)
Definition wp {A} (c : M A) (Q : A + string -> world -> Prop) (w : world) : Prop :=
  match c w with
  | Returned a w' => Q (inl a) w'
  | Thrown e w' => Q (inr e) w'
  | Pending => True
  end.

(** A message that ends the exchange for the connection [clientId]: a chat
    message with [done = true], or an error object. *)
Definition terminating (clientId : string) (e : emission) : bool :=
  String.eqb (to e) clientId &&
  match body e with
  | ChatPayload m => String.eqb (event e) "chat" && cm_done m
  | ErrorPayload err => String.eqb (event e) "error" && em_error err
  end.

Definition ends_terminating (clientId : string) (new : list emission) : Prop :=
  exists pre last, new = (pre ++ [last])%list /\ terminating clientId last = true.

Definition typing_indicator (client : Socket) (sid : string) : emission :=
  {| to := sock_id client; event := "chat";
     body := ChatPayload {| cm_sessionId := sid; cm_token := EmptyString; cm_done := false;
                            cm_sources := None; cm_toolCalls := None |} |}.

Definition error_emission (client : Socket) (code message : string) (now : Z) : emission :=
  {| to := sock_id client; event := "error";
     body := ErrorPayload {| em_error := true; em_code := code; em_message := message;
                             em_timestamp := now |} |}.

Definition final_emission (client : Socket) (sid token : string)
    (sources toolCalls : list string) : emission :=
  {| to := sock_id client; event := "chat";
     body := ChatPayload {| cm_sessionId := sid; cm_token := token; cm_done := true;
                            cm_sources := Some sources; cm_toolCalls := Some toolCalls |} |}.

(** The inference call answered with an empty response text. *)
Definition empty_answer (agent : grpc_outcome) : Prop :=
  exists sid sources tool_calls, agent = GrpcResponse EmptyString sid sources tool_calls.

(** The emissions of one handled message: an error object alone (the
    message was refused before the inference call), the typing indicator
    followed by the answer, the typing indicator alone (empty answer), or the
    typing indicator followed by the error object of a failed call. *)
Inductive outcome_shape (agent : grpc_outcome) (client : Socket) (sid : string)
  : list emission -> Prop :=
| shape_refused code message t :
    outcome_shape agent client sid [error_emission client code message t]
| shape_answered response session_id sources tool_calls :
    agent = GrpcResponse response session_id sources tool_calls ->
    response <> EmptyString ->
    outcome_shape agent client sid
      [typing_indicator client sid; final_emission client sid response sources tool_calls]
| shape_unanswered :
    empty_answer agent ->
    outcome_shape agent client sid [typing_indicator client sid]
| shape_failed message t :
    agent = GrpcError message ->
    outcome_shape agent client sid
      [typing_indicator client sid;
       error_emission client "AGENT_ERROR" "Failed to process chat message" t].

(** The session holds a record that is present and logically expired. *)
Definition stale `{Runtime} (cfg : SessionConfig) (w : world) (sid : string) : Prop :=
  up w /\
  exists sd, stored_session w sid sd /\ SessionService.expired cfg (clock w) sd = true.

(** No session of the store is stale. *)
Definition tame `{Runtime} (cfg : SessionConfig) (w : world) : Prop :=
  forall sid, ~ stale cfg w sid.

(** A text that does not read as an expired session record. *)
Definition benign `{Runtime} (cfg : SessionConfig) (now : Z) (text : string) : Prop :=
  forall j sd, JSON_parse text = Some j -> sessionOfJson j = Some sd ->
               SessionService.expired cfg now sd = false.

(** The record that [createSession] writes for the first message of a
    session. *)
Definition first_record (now : Z) (data : ChatRequest) (client : Socket) : SessionData :=
  {| sessionId := req_sessionId data; createdAt := now; lastActivity := now;
     ipAddress := ChatGateway.getClientIP client;
     userAgent := default "Unknown" (ChatGateway.truthy_opt (hdr_user_agent client));
     messageCount := 0; isActive := true |}.

(** Between two worlds, at the same instant and with the same connection,
    no text appeared under a session key. *)
Definition shrinks (w w' : world) : Prop :=
  clock w' = clock w /\ client w' = client w /\ online w' = online w /\
  forall sid s,
    string_at w' (SessionService.getSessionKey sid) = Some s ->
    string_at w (SessionService.getSessionKey sid) = Some s.

(** The instants of the window of [info] that contains [now]. *)
Definition in_window (info : RateLimitInfo) (now : Z) (t : Z) : Prop :=
  RateLimitService.windowStartOf now (rl_rule info) <= t
  < RateLimitService.windowStartOf now (rl_rule info) + windowMs (rl_rule info).

(** The state of the counter of the window after [k] recordings, starting
    from the world [w0]. *)
Definition counted (info : RateLimitInfo) (now : Z) (k : nat) (w0 w : world) : Prop :=
  up w /\
  (forall k',
     k' <> RateLimitService.windowKey (rl_key info)
             (RateLimitService.windowStartOf now (rl_rule info)) ->
     keyspace (store w) !! k' = keyspace (store w0) !! k') /\
  match k with
  | O =>
      keyspace (store w)
        !! RateLimitService.windowKey (rl_key info)
             (RateLimitService.windowStartOf now (rl_rule info)) = None
  | S _ =>
      exists exp,
        RateLimitService.windowStartOf now (rl_rule info) + windowMs (rl_rule info) <= exp /\
        keyspace (store w)
          !! RateLimitService.windowKey (rl_key info)
               (RateLimitService.windowStartOf now (rl_rule info))
        = Some {| rval := RString (Z_toString (Z.of_nat k)); expireAt := Some exp |}
  end.

(** Every listed session is stored and unexpired. *)
Definition all_valid `{Runtime} (cfg : SessionConfig) (w : world) (ids : list string) : Prop :=
  forall sid, sid ∈ ids ->
    exists sd, stored_session w sid sd /\ SessionService.expired cfg (clock w) sd = false.

(** The world after the session [victim] of the address index [s] is deleted. *)
Definition after_delete (w : world) (ipKey victim : string) (s : gset string) (e : option Z)
  : world :=
  remove (SessionService.getSessionKey victim)
    (if decide (s ∖ {[victim]} = ∅) then remove ipKey w
     else put ipKey {| rval := RSet (s ∖ {[victim]}); expireAt := e |} w).

(** The entry that [set] builds for a value. *)
Definition entryOf `{Runtime} (cfg : CacheConfig) (now : Z) (value : json) (ttl : option Z) : CacheEntry :=
  let size := CacheService.getSize (JSON_stringify value) in
  if enableCompression cfg && (size >? compressionThreshold cfg) then
    let data := CacheService.compress (JSON_stringify value) in
    {| ce_value := JStr data; ce_ttl := CacheService.finalTtlOf cfg ttl; ce_compressed := true;
       ce_size := CacheService.getSize data; ce_createdAt := now; ce_lastAccessed := now |}
  else
    {| ce_value := value; ce_ttl := CacheService.finalTtlOf cfg ttl; ce_compressed := false;
       ce_size := size; ce_createdAt := now; ce_lastAccessed := now |}.

(** The world in which [set] has counted its operation. *)
Definition counted_set (w : world) : world :=
  set_metrics (CacheService.count_set (CacheService.count_operation (metrics w))) w.

(** What [get] hands back for an entry. *)
Definition delivered `{Runtime} (entry : CacheEntry) : json :=
  match ce_compressed entry, ce_value entry with
  | true, JStr data => JStr (CacheService.decompress data)
  | _, value => value
  end.

(** What each operation answers when the store cannot be reached. *)
Record neutral_defaults (w : world) : Prop := {
  nd_get : forall k, RedisService.get k w = Returned None w;
  nd_set : forall k v ttl, RedisService.set k v ttl w = Returned tt w;
  nd_incr : forall k, RedisService.incr k w = Returned 0 w;
  nd_expire : forall k ttl, RedisService.expire k ttl w = Returned false w;
  nd_del : forall ks, RedisService.del ks w = Returned 0 w;
  nd_keys : forall p, RedisService.keys p w = Returned [] w;
  nd_setWithExpiry : forall k v ttl, RedisService.setWithExpiry k v ttl w = Returned tt w;
  nd_sadd : forall k ms, RedisService.sadd k ms w = Returned 0 w;
  nd_srem : forall k ms, RedisService.srem k ms w = Returned 0 w;
  nd_smembers : forall k, RedisService.smembers k w = Returned [] w;
  nd_publish : forall ch m, RedisService.publish ch m w = Returned tt w
}.

(** A browser connection from [10.0.0.1] and its first message. *)
Definition browser : Socket :=
  {| sock_id := "socket-1"; hdr_forwarded_for := None; hdr_real_ip := None;
     hdr_user_agent := Some "Mozilla"; handshake_address := Some "10.0.0.1" |}.

Definition hello : ChatRequest := {| req_message := "hello"; req_sessionId := "s1" |}.

(** Three behaviours of the inference call. *)
Definition empty_reply : grpc_outcome := GrpcResponse EmptyString "s1" [] [].
Definition helpful_reply : grpc_outcome := GrpcResponse "Hi there" "s1" ["cv.pdf"] [].
Definition failed_call : grpc_outcome := GrpcError "14 UNAVAILABLE".

(** ** Vocabulary of the further properties *)

(** A text without a colon. *)
Fixpoint colon_free (s : string) : bool :=
  match s with
  | EmptyString => true
  | String c s' => negb (Ascii.eqb c ":"%char) && colon_free s'
  end.

(** The quotas whose counter key is a prefix followed by the identifier. *)
Inductive quota : Type :=
| AddressQuota | SessionQuota | GlobalQuota | ConnectionQuota | MessageQuota.

Definition quotaKey (kind : quota) (identifier : string) : string :=
  match kind with
  | AddressQuota => RateLimitService.getIPKey identifier
  | SessionQuota => RateLimitService.getSessionKey identifier
  | GlobalQuota => RateLimitService.getGlobalKey identifier
  | ConnectionQuota => RateLimitService.getWebSocketConnectionKey identifier
  | MessageQuota => RateLimitService.getWebSocketMessageKey identifier
  end.

(** Every rule of the configuration admits at least one request per window. *)
Definition positive_limits (config : RateLimitConfig) : Prop :=
  0 < maxRequests (cfg_global config) /\
  0 < maxRequests (cfg_perIP config) /\
  0 < maxRequests (cfg_perSession config) /\
  Forall (fun entry => 0 < maxRequests (snd entry)) (cfg_endpoints config).

(** The quota that [resetRateLimit] clears for a type name; the other
    names are refused. *)
Definition quotaOfType (type : string) : option quota :=
  if String.eqb type "ip" then Some AddressQuota
  else if String.eqb type "session" then Some SessionQuota
  else if String.eqb type "global" then Some GlobalQuota
  else None.

(** A text that a glob pattern reads literally: it holds none of the
    characters [*], [?], [[], [\] and [^]. *)
Fixpoint literal (s : string) : bool :=
  match s with
  | EmptyString => true
  | String c s' =>
      negb (Ascii.eqb c "*"%char || Ascii.eqb c "?"%char || Ascii.eqb c "["%char
            || Ascii.eqb c (ascii_of_nat 92) || Ascii.eqb c "^"%char)
      && literal s'
  end.

(** Between two worlds, nothing but the store and the cache metrics has
    changed. *)
Definition backstage (w w' : world) : Prop :=
  clock w' = clock w /\ client w' = client w /\ subscriber w' = subscriber w /\
  online w' = online w /\ subscriptions w' = subscriptions w /\
  emitted w' = emitted w /\ connectedClients w' = connectedClients w.

(** Between two worlds, the change is backstage and the keys outside [P]
    hold what they held. *)
Definition within (P : string -> Prop) (w w' : world) : Prop :=
  backstage w w' /\
  forall k, ~ P k -> keyspace (store w') !! k = keyspace (store w) !! k.

(** A call that, however it settles, stays within the keys of [P]. *)
Definition confined {A} (P : string -> Prop) (c : M A) : Prop :=
  forall w,
    match c w with
    | Returned _ w' => within P w w'
    | Thrown _ w' => within P w w'
    | Pending => True
    end.

(** A command that writes within the keys of [P]. *)
Definition local {A} (P : string -> Prop) (cmd : Z -> server -> reply A) : Prop :=
  forall now sv a sv' k,
    cmd now sv = Ok a sv' -> ~ P k -> keyspace sv' !! k = keyspace sv !! k.

(** The keys of the three services. *)
Definition session_key (k : string) : Prop := exists x, k = "session:" +:+ x.
Definition quota_key (k : string) : Prop := exists x, k = "rate_limit:" +:+ x.
Definition cache_key (k : string) : Prop := exists x, k = "1.0:" +:+ x.


(** The keys that a pattern selects in a world: present, not expired and
    matching the pattern. *)
Definition matching (w : world) (pattern k : string) : Prop :=
  glob pattern k = true /\ is_Some (lookup_live (clock w) (keyspace (store w)) k).

(** The time-to-live that [cacheSession] hands to [set]. *)
Definition sessionTtlOf (invalidation : CacheInvalidation) (ttl : option Z) : Z :=
  match ttl with
  | Some t => if t =? 0 then sessionDataTtl invalidation else t
  | None => sessionDataTtl invalidation
  end.

(** What a handled chat message does to the table of connected clients.
    Enrolled: the socket is entered under the session of the message and
    the typing indicator is the first thing sent to it.  Turned away: the
    table is as before and the socket is sent one error object. *)
Definition enrolled (client : Socket) (sid : string) (w w' : world) : Prop :=
  connectedClients w' = <[sock_id client := sid]> (connectedClients w) /\
  exists rest, emitted w' = (emitted w ++ typing_indicator client sid :: rest)%list.

Definition turned_away (client : Socket) (w w' : world) : Prop :=
  connectedClients w' = connectedClients w /\
  exists code message t,
    emitted w' = (emitted w ++ [error_emission client code message t])%list.

(** The welcome message of [handleConnection]. *)
Definition welcome (client : Socket) : emission :=
  {| to := sock_id client; event := "chat";
     body := ChatPayload {| cm_sessionId := "system";
                            cm_token := "Connected to chat agent. Send a message to start!";
                            cm_done := true; cm_sources := None; cm_toolCalls := None |} |}.

(** Every session record of the store is held under the key of its own
    [sessionId]. *)
Definition well_keyed `{Runtime} (w : world) : Prop :=
  forall sid sd, stored_session w sid sd -> sessionId sd = sid.

(** The record that a key holds, if its text reads as one. *)
Definition record_at `{Runtime} (w : world) (k : string) (sd : SessionData) : Prop :=
  exists str j,
    string_at w k = Some str /\ truthy str = true /\ JSON_parse str = Some j /\
    sessionOfJson j = Some sd.

(** A session that has been switched off, and a store that holds it. *)
Definition retired_session : SessionData :=
  {| sessionId := "s1"; createdAt := 0; lastActivity := 900; ipAddress := "10.0.0.1";
     userAgent := "Mozilla"; messageCount := 3; isActive := false |}.

Definition retired_world : world :=
  put "session:s1"
    {| rval := RString (SampleRuntime.stringify (sessionToJson retired_session));
       expireAt := None |}
    (fresh_world 1000).

(** The polynomial hash of a text in base 31, from the value [h]: each
    character multiplies the value by 31 and adds its code. *)
Fixpoint polynomial31 (s : string) (h : Z) : Z :=
  match s with
  | EmptyString => h
  | String c rest => polynomial31 rest (31 * h + Z.of_nat (nat_of_ascii c))
  end.

(** The counter of [key] for the window of [rule] that contains the clock
    stands at [n]: it is absent for [n = 0] and holds the decimal text of
    [n], with an expiry, for [n > 0]. *)
Definition counter_state (w : world) (key : string) (rule : RateLimitRule) (n : Z) : Prop :=
  let wk := RateLimitService.windowKey key (RateLimitService.windowStartOf (clock w) rule) in
  (n = 0 /\ lookup_live (clock w) (keyspace (store w)) wk = None) \/
  (0 < n /\ exists exp, lookup_live (clock w) (keyspace (store w)) wk
                        = Some {| rval := RString (Z_toString n); expireAt := Some exp |}).

(** What the middleware records for a request: against the address, the
    endpoint rule or else the global rule, and the session if the request
    names one. *)
Definition recordedFor (config : RateLimitConfig) (method path ipAddress : string)
    (sessionId : option string) : list RateLimitInfo :=
  {| rl_key := RateLimitService.getIPKey ipAddress; rl_rule := cfg_perIP config;
     rl_identifier := ipAddress; rl_type := "ip" |}
  :: match RateLimitService.getEndpointRule config (method +:+ " " +:+ path) with
     | Some rule =>
         {| rl_key := RateLimitService.getEndpointKey (method +:+ " " +:+ path) ipAddress;
            rl_rule := rule;
            rl_identifier := (method +:+ " " +:+ path) +:+ ":" +:+ ipAddress;
            rl_type := "endpoint" |}
     | None =>
         {| rl_key := RateLimitService.getGlobalKey ipAddress; rl_rule := cfg_global config;
            rl_identifier := ipAddress; rl_type := "global" |}
     end
  :: match sessionId with
     | Some sid =>
         [{| rl_key := RateLimitService.getSessionKey sid; rl_rule := cfg_perSession config;
             rl_identifier := sid; rl_type := "session" |}]
     | None => []
     end.

(** Recording one request against each counter of a list, in its order. *)
Fixpoint record_each (infos : list RateLimitInfo) : M unit :=
  match infos with
  | [] => ret tt
  | info :: rest => RateLimitService.recordRequest info ;;; record_each rest
  end.

(** A text of white space only, and a text without a comma. *)
Fixpoint blank (s : string) : bool :=
  match s with
  | EmptyString => true
  | String c s' => ChatGateway.whitespace c && blank s'
  end.

Fixpoint comma_free (s : string) : bool :=
  match s with
  | EmptyString => true
  | String c s' => negb (Ascii.eqb c ","%char) && comma_free s'
  end.
(** A pattern in which [glob] and the matcher of the store read every
    character alike: it holds neither [[], which opens a character class,
    nor a backslash, which escapes the character after it. *)
Fixpoint wildcards_only (pattern : string) : bool :=
  match pattern with
  | EmptyString => true
  | String c pattern' =>
      negb (Ascii.eqb c "["%char || Ascii.eqb c (ascii_of_nat 92))
      && wildcards_only pattern'
  end.

(** A chat message that [handleChatMessage] admits, in the world where it
    arrives: the message and the session identifier are not empty; the
    session passes, that is [getSession] returns a record and
    [validateSession] returns [true] for the address of the client, or
    [getSession] returns no record and [createSession] returns one; and
    [checkWebSocketMessageLimit], in the world that follows, allows the
    message. *)
Definition admitted `{Runtime} (sessionConfig : SessionConfig)
    (rateLimitConfig : RateLimitConfig) (fuel : nat) (data : ChatRequest) (client : Socket)
    (w : world) : Prop :=
  truthy (req_message data) = true /\
  truthy (req_sessionId data) = true /\
  exists session w0 w1 limit w2,
    SessionService.getSession sessionConfig fuel (req_sessionId data) w
    = Returned session w0 /\
    match session with
    | None =>
        exists created,
          SessionService.createSession sessionConfig fuel
            {| opt_sessionId := req_sessionId data;
               opt_ipAddress := ChatGateway.getClientIP client;
               opt_userAgent :=
                 default "Unknown" (ChatGateway.truthy_opt (hdr_user_agent client)) |} w0
          = Returned created w1
    | Some _ =>
        SessionService.validateSession sessionConfig fuel (req_sessionId data)
          (Some (ChatGateway.getClientIP client)) w0
        = Returned true w1
    end /\
    RateLimitService.checkWebSocketMessageLimit rateLimitConfig (req_sessionId data) w1
    = Returned limit w2 /\
    allowed limit = true.

(** What [handleChatMessage] sends after the typing indicator, by the
    outcome of the inference call: the error object with code
    [AGENT_ERROR] for a failed call, the chat message with [done = true]
    for a response with a text, nothing for a response with the empty
    text. *)
Definition answer (agent : grpc_outcome) (client : Socket) (sid : string) (now : Z)
  : list emission :=
  match agent with
  | GrpcError _ =>
      [error_emission client "AGENT_ERROR" "Failed to process chat message" now]
  | GrpcResponse response _ sources tool_calls =>
      if truthy response then [final_emission client sid response sources tool_calls]
      else []
  | GrpcNoReply => []
  end.

(** * Properties *)

(** ** Numbers and texts *)

Lemma parseInt_toString (z : Z) : parseInt (Z_toString z) = Some z.
Proof.
  unfold parseInt, Z_toString.
  rewrite NilZero.isi.
  - now rewrite DecimalZ.of_to.
  - destruct z; simpl; try discriminate.
    intros [= E]. now apply DecimalPos.Unsigned.to_uint_nonnil in E.
  - destruct z; simpl; try discriminate.
    intros [= E]. now apply DecimalPos.Unsigned.to_uint_nonnil in E.
Qed.

Lemma Z_toString_inj (a b : Z) : Z_toString a = Z_toString b -> a = b.
Proof.
  intros E. apply (f_equal parseInt) in E.
  rewrite !parseInt_toString in E. congruence.
Qed.

Lemma truthy_spec (s : string) : truthy s = true <-> s <> EmptyString.
Proof.
  unfold truthy. destruct (String.eqb_spec s EmptyString); simpl; split; congruence.
Qed.

Lemma Z_toString_truthy (z : Z) : truthy (Z_toString z) = true.
Proof.
  apply truthy_spec. intros E.
  pose proof (parseInt_toString z) as P. rewrite E in P. discriminate.
Qed.

Lemma append_inj_l (p a b : string) : p +:+ a = p +:+ b -> a = b.
Proof.
  induction p as [|c p IH]; simpl; [easy|]. intros [= E]. auto.
Qed.

Lemma Math_ceil_div_pos (a b : Z) : 0 < b -> 0 < a -> 0 < Math_ceil_div a b.
Proof.
  intros Hb Ha. unfold Math_ceil_div.
  assert ((- a) / b < 0) by (apply Z.div_lt_upper_bound; lia).
  lia.
Qed.

Lemma windowStart_bounds (now : Z) (rule : RateLimitRule) :
  0 < windowMs rule ->
  RateLimitService.windowStartOf now rule <= now
    < RateLimitService.windowStartOf now rule + windowMs rule.
Proof.
  intros Hw. unfold RateLimitService.windowStartOf, Math_floor_div.
  pose proof (Z.div_mod now (windowMs rule)) as E.
  pose proof (Z.mod_pos_bound now (windowMs rule) Hw). lia.
Qed.

Lemma windowStart_of_window (t now : Z) (rule : RateLimitRule) :
  0 < windowMs rule ->
  RateLimitService.windowStartOf now rule <= t
    < RateLimitService.windowStartOf now rule + windowMs rule ->
  RateLimitService.windowStartOf t rule = RateLimitService.windowStartOf now rule.
Proof.
  intros Hw Ht. unfold RateLimitService.windowStartOf, Math_floor_div in *.
  f_equal. symmetry.
  apply (Z.div_unique t (windowMs rule) (now / windowMs rule)
           (t - now / windowMs rule * windowMs rule)); lia.
Qed.

(** ** The coordination store adapter *)

Lemma set_store_same (w : world) : set_store (store w) w = w.
Proof. now destruct w. Qed.

Lemma with_keyspace_same (sv : server) : with_keyspace (keyspace sv) sv = sv.
Proof. now destruct sv. Qed.

(** Unfolds the plumbing of the monad and of the adapter. *)
Ltac run :=
  unfold Date_now, RedisService.on_client, RedisService.on_subscriber in *;
  unfold try_catch, bind, ret, gets, modify, throw in *;
  cbn [negb] in *.

Ltac settle := repeat case_match; simplify_eq; eauto.

Lemma get_never_throws k : never_throws (RedisService.get k).
Proof. intros w. unfold RedisService.get. run. settle. Qed.

Lemma set_never_throws k v ttl : never_throws (RedisService.set k v ttl).
Proof. intros w. unfold RedisService.set. run. settle. Qed.

Lemma incr_never_throws k : never_throws (RedisService.incr k).
Proof. intros w. unfold RedisService.incr. run. settle. Qed.

Lemma expire_never_throws k ttl : never_throws (RedisService.expire k ttl).
Proof. intros w. unfold RedisService.expire. run. settle. Qed.

Lemma del_never_throws ks : never_throws (RedisService.del ks).
Proof. intros w. unfold RedisService.del. run. settle. Qed.

Lemma keys_never_throws p : never_throws (RedisService.keys p).
Proof. intros w. unfold RedisService.keys. run. settle. Qed.

Lemma setWithExpiry_never_throws k v ttl : never_throws (RedisService.setWithExpiry k v ttl).
Proof. intros w. unfold RedisService.setWithExpiry. run. settle. Qed.

Lemma sadd_never_throws k ms : never_throws (RedisService.sadd k ms).
Proof. intros w. unfold RedisService.sadd. run. settle. Qed.

Lemma srem_never_throws k ms : never_throws (RedisService.srem k ms).
Proof. intros w. unfold RedisService.srem. run. settle. Qed.

Lemma smembers_never_throws k : never_throws (RedisService.smembers k).
Proof. intros w. unfold RedisService.smembers. run. settle. Qed.

Lemma publish_never_throws ch m : never_throws (RedisService.publish ch m).
Proof. intros w. unfold RedisService.publish. run. settle. Qed.

Lemma subscribe_never_throws ch : never_throws (RedisService.subscribe ch).
Proof. intros w. unfold RedisService.subscribe. run. settle. Qed.

Lemma unavailable_defaults (w : world) :
  client w = false \/ online w = false -> neutral_defaults w.
Proof.
  intros Hdown.
  split; intros;
    unfold RedisService.get, RedisService.set, RedisService.incr, RedisService.expire,
      RedisService.del, RedisService.keys, RedisService.setWithExpiry, RedisService.sadd,
      RedisService.srem, RedisService.smembers, RedisService.publish;
    run; destruct (client w) eqn:C, (online w) eqn:O;
    try (destruct Hdown; congruence); cbn; rewrite ?C, ?O; cbn;
    repeat (case_match; cbn; rewrite ?C, ?O; cbn);
    rewrite ?C, ?O in *; cbn in *; congruence.
Qed.


Lemma subscribe_unavailable (w : world) (ch : string) :
  subscriber w = false \/ online w = false ->
  exists w', RedisService.subscribe ch w = Returned tt w' /\ store w' = store w.
Proof.
  intros Hdown. unfold RedisService.subscribe. run.
  destruct (subscriber w) eqn:S; cbn; [|eauto].
  rewrite S. cbn. destruct Hdown as [?|O]; [congruence|].
  rewrite O. cbn. eauto.
Qed.

Lemma unsubscribe_unavailable (w : world) (ch : string) :
  subscriber w = false \/ online w = false ->
  exists e, RedisService.unsubscribe ch w = Thrown e w.
Proof.
  intros Hdown. unfold RedisService.unsubscribe. run.
  destruct (subscriber w) eqn:S; cbn; [|eauto].
  destruct Hdown as [?|O]; [congruence|].
  rewrite O. cbn. eauto.
Qed.

(** C9, counterexample: [unsubscribe] does not swallow the failure.  With the
    server unreachable, the rejection of the underlying call reaches the
    caller of [unsubscribe] as an exception. *)
Lemma unsubscribe_propagates_failure :
  RedisService.unsubscribe "chat_tokens" (unreachable (fresh_world 0))
  = Thrown "Connection is closed." (unreachable (fresh_world 0)).
Proof. reflexivity. Qed.

(** C9, as amended: [get], [set], [incr], [expire], [del], [keys],
    [setWithExpiry], [sadd], [srem], [smembers], [publish] and [subscribe]
    never propagate an exception, in any state of the store; when the store
    is unavailable they answer their neutral default ([null], [0], [false],
    the empty list, or nothing) and leave the world as it is ([subscribe]
    leaves the store as it is).  [unsubscribe] is the exception: it rethrows
    the failure to its caller. *)
Theorem adapter_fails_open_except_unsubscribe :
  ((forall k, never_throws (RedisService.get k)) /\
   (forall k v ttl, never_throws (RedisService.set k v ttl)) /\
   (forall k, never_throws (RedisService.incr k)) /\
   (forall k ttl, never_throws (RedisService.expire k ttl)) /\
   (forall ks, never_throws (RedisService.del ks)) /\
   (forall p, never_throws (RedisService.keys p)) /\
   (forall k v ttl, never_throws (RedisService.setWithExpiry k v ttl)) /\
   (forall k ms, never_throws (RedisService.sadd k ms)) /\
   (forall k ms, never_throws (RedisService.srem k ms)) /\
   (forall k, never_throws (RedisService.smembers k)) /\
   (forall ch m, never_throws (RedisService.publish ch m)) /\
   (forall ch, never_throws (RedisService.subscribe ch))) /\
  (forall w, client w = false \/ online w = false -> neutral_defaults w) /\
  (forall w ch, subscriber w = false \/ online w = false ->
     exists w', RedisService.subscribe ch w = Returned tt w' /\ store w' = store w) /\
  (forall w ch, subscriber w = false \/ online w = false ->
     exists e, RedisService.unsubscribe ch w = Thrown e w).
Proof.
  repeat split;
    auto using get_never_throws, set_never_throws, incr_never_throws, expire_never_throws,
      del_never_throws, keys_never_throws, setWithExpiry_never_throws, sadd_never_throws,
      srem_never_throws, smembers_never_throws, publish_never_throws, subscribe_never_throws,
      subscribe_unavailable, unsubscribe_unavailable;
    apply unavailable_defaults; assumption.
Qed.

Lemma adapter_fails_open_except_unsubscribe_witness :
  (online (unreachable (fresh_world 0)) = false) /\
  RedisService.get "session:abc" (unreachable (fresh_world 0))
    = Returned None (unreachable (fresh_world 0)) /\
  RedisService.incr "rate_limit:ip:10.0.0.1:0" (without_redis (fresh_world 0))
    = Returned 0 (without_redis (fresh_world 0)) /\
  exists e, RedisService.unsubscribe "logs" (without_redis (fresh_world 0))
            = Thrown e (without_redis (fresh_world 0)).
Proof.
  destruct adapter_fails_open_except_unsubscribe as (_ & Hdef & _ & Hunsub).
  split; [reflexivity|].
  split; [apply (nd_get _ (Hdef (unreachable (fresh_world 0)) (or_intror eq_refl)))|].
  split; [apply (nd_incr _ (Hdef (without_redis (fresh_world 0)) (or_introl eq_refl)))|].
  apply (Hunsub (without_redis (fresh_world 0)) "logs" (or_introl eq_refl)).
Defined.

(** ** Quota windows *)

Section QuotaWindow.

Variable info : RateLimitInfo.

Let W := windowMs (rl_rule info).
Let m := maxRequests (rl_rule info).

Lemma put_clock k e w : clock (put k e w) = clock w.
Proof. reflexivity. Qed.

Lemma put_up k e w : up w -> up (put k e w).
Proof. intros [C O]. split; assumption. Qed.

Lemma at_time_up t w : up w -> up (at_time t w).
Proof. intros [C O]. split; assumption. Qed.

Lemma put_put k e1 e2 w : put k e2 (put k e1 w) = put k e2 w.
Proof.
  unfold put. destruct w as [? ? ? ? [ks ? ?] ? ? ? ?]. cbn.
  now rewrite insert_insert_eq.
Qed.

(** The outcome of [checkRateLimit] from the counter value it reads. *)
Lemma checkRateLimit_of_count (w : world) (n : Z) :
  RateLimitService.getCurrentCount (rl_key info)
    (RateLimitService.windowStartOf (clock w) (rl_rule info)) W w = Returned (Some n) w ->
  RateLimitService.checkRateLimit info w
  = Returned
      {| allowed := n <? m;
         totalRequests := m;
         remainingRequests := if n <? m then m - n - 1 else 0;
         resetTime :=
           Math_ceil_div (RateLimitService.windowStartOf (clock w) (rl_rule info) + W) 1000;
         retryAfter :=
           if n <? m then None
           else Some (Math_ceil_div
                        (RateLimitService.windowStartOf (clock w) (rl_rule info) + W - clock w)
                        1000) |} w.
Proof.
  intros Hn. unfold RateLimitService.checkRateLimit.
  unfold try_catch, bind at 1, Date_now, gets.
  unfold bind. fold W. rewrite Hn. unfold ret. fold m.
  destruct (Z.ltb_spec n m); cbn; [|reflexivity].
  now rewrite Z.max_r by lia.
Qed.

(** Reading the counter of the current window in an available store. *)
Lemma getCurrentCount_absent (w : world) (ws : Z) :
  lookup_live (clock w) (keyspace (store w)) (RateLimitService.windowKey (rl_key info) ws) = None ->
  RateLimitService.getCurrentCount (rl_key info) ws W w = Returned (Some 0) w.
Proof.
  intros Hk. unfold RateLimitService.getCurrentCount, RedisService.get. run.
  destruct (client w) eqn:C; cbn; [|reflexivity]. rewrite C; cbn.
  destruct (online w) eqn:O; cbn; [|reflexivity].
  unfold Command.GET. rewrite Hk. now rewrite set_store_same.
Qed.

Lemma getCurrentCount_counter (w : world) (ws n : Z) (exp : option Z) :
  up w ->
  lookup_live (clock w) (keyspace (store w)) (RateLimitService.windowKey (rl_key info) ws)
    = Some {| rval := RString (Z_toString n); expireAt := exp |} ->
  RateLimitService.getCurrentCount (rl_key info) ws W w = Returned (Some n) w.
Proof.
  intros [C O] Hk. unfold RateLimitService.getCurrentCount, RedisService.get. run.
  rewrite C; cbn. rewrite C, O; cbn.
  unfold Command.GET. rewrite Hk. cbn. rewrite set_store_same.
  now rewrite Z_toString_truthy, parseInt_toString.
Qed.

Lemma ttl_covers_window (t ws : Z) :
  0 < W -> ws <= t -> ws + W <= t + (Math_ceil_div W 1000 + 1) * 1000.
Proof.
  intros HW Ht. unfold Math_ceil_div.
  pose proof (Z.div_mod (- W) 1000 ltac:(lia)).
  pose proof (Z.mod_pos_bound (- W) 1000 ltac:(lia)). lia.
Qed.

(** The first recording of a window creates the counter and arms its expiry. *)
Lemma recordRequest_first (w : world) :
  up w -> 0 < W ->
  let wk := RateLimitService.windowKey (rl_key info)
              (RateLimitService.windowStartOf (clock w) (rl_rule info)) in
  lookup_live (clock w) (keyspace (store w)) wk = None ->
  RateLimitService.recordRequest info w
  = Returned tt
      (put wk {| rval := RString (Z_toString 1);
                 expireAt := Some (clock w + (Math_ceil_div W 1000 + 1) * 1000) |} w).
Proof.
  intros [C O] HW wk Hk.
  unfold RateLimitService.recordRequest, RateLimitService.incrementCount,
    RedisService.incr, RedisService.expire.
  run. fold wk. rewrite C; cbn. rewrite C, O; cbn.
  unfold Command.INCR. rewrite Hk. cbn. rewrite C; cbn. rewrite C, O; cbn.
  unfold Command.EXPIRE, lookup_live. cbn. rewrite lookup_insert_eq. cbn.
  fold W.
  assert (0 <= Math_ceil_div W 1000).
  { pose proof (Math_ceil_div_pos W 1000 ltac:(lia) HW). lia. }
  destruct (Z.leb_spec (Math_ceil_div W 1000 + 1) 0); [lia|]. cbn.
  rewrite <- (put_put wk {| rval := RString (Z_toString 1); expireAt := None |}).
  reflexivity.
Qed.

(** Later recordings of the window increment the counter and keep its expiry. *)
Lemma recordRequest_next (w : world) (n exp : Z) :
  up w -> 0 < n ->
  let wk := RateLimitService.windowKey (rl_key info)
              (RateLimitService.windowStartOf (clock w) (rl_rule info)) in
  lookup_live (clock w) (keyspace (store w)) wk
    = Some {| rval := RString (Z_toString n); expireAt := Some exp |} ->
  RateLimitService.recordRequest info w
  = Returned tt (put wk {| rval := RString (Z_toString (n + 1)); expireAt := Some exp |} w).
Proof.
  intros [C O] Hn wk Hk.
  unfold RateLimitService.recordRequest, RateLimitService.incrementCount, RedisService.incr.
  run. fold wk. rewrite C; cbn. rewrite C, O; cbn.
  unfold Command.INCR. rewrite Hk. cbn. rewrite parseInt_toString.
  destruct (Z.eqb_spec (n + 1) 1); [lia|]. reflexivity.
Qed.

Variable now : Z.

Let ws := RateLimitService.windowStartOf now (rl_rule info).
Let wk := RateLimitService.windowKey (rl_key info) ws.

Local Abbreviation in_window := (in_window info now).
Local Abbreviation counted := (counted info now).

Lemma windowStart_in_window (t : Z) :
  0 < W -> in_window t -> RateLimitService.windowStartOf t (rl_rule info) = ws.
Proof. intros HW Ht. now apply windowStart_of_window. Qed.

Lemma counted_step (k : nat) (w0 w : world) (t : Z) :
  0 < W -> in_window t -> counted k w0 w ->
  counted (S k) w0 (exec (RateLimitService.recordRequest info) (at_time t w)).
Proof.
  intros HW Ht (Hup & Hframe & Hk). fold ws wk W in Hframe, Hk. unfold exec.
  pose proof (windowStart_in_window t HW Ht) as Hws.
  destruct k as [|k].
  - rewrite recordRequest_first; auto using at_time_up.
    2:{ cbn. rewrite Hws. fold wk. unfold lookup_live. now rewrite Hk. }
    cbn [clock at_time]. rewrite Hws. fold wk.
    split; [now apply put_up, at_time_up|]. split.
    + intros k' Hne. fold ws wk in Hne. cbn. rewrite lookup_insert_ne by congruence. auto.
    + eexists. split; [|cbn; now rewrite lookup_insert_eq].
      apply ttl_covers_window; [assumption|apply Ht].
  - destruct Hk as (exp & Hexp & Hk).
    rewrite (recordRequest_next _ (Z.of_nat (S k)) exp); auto using at_time_up; [|lia|].
    2:{ cbn [clock at_time]. rewrite Hws. fold wk. unfold lookup_live. cbn.
        rewrite Hk. unfold live. cbn.
        destruct (Z.ltb_spec t exp); [reflexivity|destruct Ht as [_ Ht]; fold ws W in Ht; lia]. }
    cbn [clock at_time]. rewrite Hws. fold wk.
    split; [now apply put_up, at_time_up|]. split.
    + intros k' Hne. fold ws wk in Hne. cbn. rewrite lookup_insert_ne by congruence. auto.
    + exists exp. split; [assumption|].
      unfold put. cbn [keyspace store set_store with_keyspace].
      rewrite lookup_insert_eq.
      replace (Z.of_nat (S k) + 1) with (Z.of_nat (S (S k))) by lia. reflexivity.
Qed.

Lemma record_all_counted (ts : list Z) : forall (k : nat) (w0 w : world),
  0 < W -> Forall in_window ts -> counted k w0 w ->
  counted (k + length ts) w0 (record_all info ts w).
Proof.
  induction ts as [|t ts IH]; intros k w0 w HW Hts Hk; cbn.
  - now rewrite Nat.add_0_r.
  - inversion Hts; subst.
    replace (k + S (length ts))%nat with (S k + length ts)%nat by lia.
    apply IH; auto using counted_step.
Qed.

Lemma counted_start (w0 : world) :
  up w0 -> keyspace (store w0) !! wk = None -> counted 0 w0 w0.
Proof. intros Hup Hk. repeat split; auto; apply Hup. Qed.

(** After [k] recordings, a check inside the window reads the count [k]. *)
Lemma counted_check (k : nat) (w0 w : world) (t : Z) :
  0 < W -> in_window t -> counted k w0 w ->
  RateLimitService.getCurrentCount (rl_key info)
    (RateLimitService.windowStartOf t (rl_rule info)) W (at_time t w)
  = Returned (Some (Z.of_nat k)) (at_time t w).
Proof.
  intros HW Ht (Hup & Hframe & Hk). fold ws wk W in Hframe, Hk.
  rewrite (windowStart_in_window t HW Ht). fold wk.
  destruct k as [|k].
  - apply getCurrentCount_absent. fold wk. unfold lookup_live. cbn. now rewrite Hk.
  - destruct Hk as (exp & Hexp & Hk).
    apply (getCurrentCount_counter _ _ _ (Some exp)); [now apply at_time_up|].
    fold wk. unfold lookup_live. cbn. rewrite Hk. unfold live. cbn.
    destruct (Z.ltb_spec t exp); [reflexivity|destruct Ht as [_ Ht]; fold ws W in Ht; lia].
Qed.

Lemma next_window_start :
  0 < W -> RateLimitService.windowStartOf (ws + W) (rl_rule info) = ws + W.
Proof.
  intros HW. unfold ws, RateLimitService.windowStartOf, Math_floor_div. fold W.
  replace (now / W * W + W) with ((now / W + 1) * W) by lia.
  now rewrite Z.div_mul by lia.
Qed.

(** At the start of the next window the counter read is that of a new key. *)
Lemma counted_next_window (k : nat) (w0 w : world) :
  0 < W -> counted k w0 w ->
  keyspace (store w0) !! RateLimitService.windowKey (rl_key info) (ws + W) = None ->
  RateLimitService.getCurrentCount (rl_key info)
    (RateLimitService.windowStartOf (ws + W) (rl_rule info)) W (at_time (ws + W) w)
  = Returned (Some 0) (at_time (ws + W) w).
Proof.
  intros HW (Hup & Hframe & Hk) Hnext. fold ws wk W in Hframe, Hk.
  rewrite next_window_start by assumption.
  apply getCurrentCount_absent. unfold lookup_live. cbn.
  rewrite Hframe, Hnext; [reflexivity|].
  unfold wk, RateLimitService.windowKey. intros E.
  apply append_inj_l, append_inj_l, Z_toString_inj in E. lia.
Qed.

End QuotaWindow.

(** C1: for a rule with window length [W > 0] and maximum [m], and the
    counter value [n] that [checkRateLimit] reads for the window containing
    [now], the check computes [windowStart = floor(now / W) * W], admits
    exactly when [n < m], reports [m - n - 1] remaining requests when it
    admits and [0] when it rejects, reports the reset time
    [ceil((windowStart + W) / 1000)], and when it rejects reports
    [retryAfter = ceil((windowStart + W - now) / 1000)], which is positive.
    Consequently, in an available store and starting from a window without
    counter, after [k] requests have been recorded inside the window the next
    check inside it admits exactly when [k < m] (the first [m] are admitted,
    the next one is rejected with a positive [retryAfter]), and a check at
    the start of the next window admits again. *)
Theorem quota_window_admission (info : RateLimitInfo) (w : world) :
  let W := windowMs (rl_rule info) in
  let m := maxRequests (rl_rule info) in
  let now := clock w in
  let windowStart := Math_floor_div now W * W in
  0 < W ->
  (forall n : Z,
     RateLimitService.getCurrentCount (rl_key info) windowStart W w = Returned (Some n) w ->
     exists r,
       RateLimitService.checkRateLimit info w = Returned r w /\
       allowed r = (n <? m) /\
       totalRequests r = m /\
       remainingRequests r = (if n <? m then m - n - 1 else 0) /\
       resetTime r = Math_ceil_div (windowStart + W) 1000 /\
       retryAfter r
       = (if n <? m then None else Some (Math_ceil_div (windowStart + W - now) 1000)) /\
       0 < Math_ceil_div (windowStart + W - now) 1000) /\
  (up w ->
   keyspace (store w) !! RateLimitService.windowKey (rl_key info) windowStart = None ->
   keyspace (store w) !! RateLimitService.windowKey (rl_key info) (windowStart + W) = None ->
   forall (ts : list Z) (t : Z),
     Forall (fun t' => windowStart <= t' < windowStart + W) ts ->
     windowStart <= t < windowStart + W ->
     let w' := record_all info ts w in
     (exists r,
        RateLimitService.checkRateLimit info (at_time t w') = Returned r (at_time t w') /\
        allowed r = (Z.of_nat (length ts) <? m) /\
        (allowed r = false -> exists s, retryAfter r = Some s /\ 0 < s)) /\
     (0 < m ->
      exists r,
        RateLimitService.checkRateLimit info (at_time (windowStart + W) w')
        = Returned r (at_time (windowStart + W) w') /\
        allowed r = true)).
Proof.
  intros W m now windowStart HW.
  assert (Hretry : forall t, windowStart <= t < windowStart + W ->
            0 < Math_ceil_div (windowStart + W - t) 1000).
  { intros t Ht. apply Math_ceil_div_pos; lia. }
  split.
  - intros n Hn. eexists. split; [apply checkRateLimit_of_count; exact Hn|].
    cbn. repeat split.
    apply Hretry. apply (windowStart_bounds now (rl_rule info) HW).
  - intros Hup Hk Hnext ts t Hts Ht w'.
    assert (Hc : counted info now (length ts) w w').
    { apply (record_all_counted info now ts 0 w w HW); [exact Hts|].
      now apply counted_start. }
    split.
    + pose proof (counted_check info now _ _ _ t HW Ht Hc) as Hn.
      apply (checkRateLimit_of_count info (at_time t w')) in Hn.
      eexists. split; [exact Hn|]. cbn. split; [reflexivity|].
      intros Hrej. fold m in Hrej. fold m. rewrite Hrej. eexists. split; [reflexivity|].
      rewrite (windowStart_in_window info now t HW Ht). now apply Hretry.
    + intros Hm.
      pose proof (counted_next_window info now _ _ _ HW Hc Hnext) as Hn.
      apply (checkRateLimit_of_count info (at_time (windowStart + W) w')) in Hn.
      eexists. split; [exact Hn|]. cbn. fold m.
      destruct (Z.ltb_spec 0 m); [reflexivity|lia].
Qed.

Lemma quota_window_admission_witness :
  0 < windowMs (rl_rule two_per_minute) /\
  (exists r,
     RateLimitService.checkRateLimit two_per_minute
       (at_time 120700 (record_all two_per_minute [120500; 120600] (fresh_world 120500)))
     = Returned r
         (at_time 120700 (record_all two_per_minute [120500; 120600] (fresh_world 120500))) /\
     allowed r = (Z.of_nat 2 <? 2) /\
     (allowed r = false -> exists s, retryAfter r = Some s /\ 0 < s)).
Proof.
  split; [reflexivity|].
  destruct (quota_window_admission two_per_minute (fresh_world 120500) eq_refl) as [_ H].
  refine (proj1 (H (conj eq_refl eq_refl) eq_refl eq_refl [120500; 120600] 120700 _ _)).
  - apply Forall_cons_2; [vm_compute; split; easy|].
    apply Forall_cons_2; [vm_compute; split; easy|]. apply Forall_nil_2.
  - vm_compute; split; easy.
Defined.

(** ** The composite decision of the middleware *)

Lemma pick_spec (prev current : RateLimitResult) :
  RateLimitMiddleware.pick prev current
  = if remainingRequests prev <=? remainingRequests current then prev else current.
Proof. unfold RateLimitMiddleware.pick. now destruct (negb _ || negb _). Qed.

Lemma fold_pick_spec (rest : list RateLimitResult) : forall first,
  let chosen := fold_left RateLimitMiddleware.pick rest first in
  chosen ∈ first :: rest /\
  forall r, r ∈ first :: rest -> remainingRequests chosen <= remainingRequests r.
Proof.
  induction rest as [|x rest IH]; intros first; cbn.
  - split; [left|]. intros r Hr. apply list_elem_of_singleton in Hr. subst. lia.
  - destruct (IH (RateLimitMiddleware.pick first x)) as [Hin Hmin].
    rewrite pick_spec in *. split.
    + apply elem_of_cons in Hin as [->|Hin].
      * destruct (_ <=? _); [left|right; left].
      * right; right. exact Hin.
    + intros r Hr.
      assert (Hpick : remainingRequests
                        (if remainingRequests first <=? remainingRequests x then first else x)
                      <= Z.min (remainingRequests first) (remainingRequests x)).
      { destruct (Z.leb_spec (remainingRequests first) (remainingRequests x)); lia. }
      pose proof (Hmin _ (list_elem_of_here _ _)) as H0.
      apply elem_of_cons in Hr as [->|Hr]; [lia|].
      apply elem_of_cons in Hr as [->|Hr]; [lia|].
      apply Hmin. now right.
Qed.

(** The composite is one of the results, with the fewest remaining requests. *)
Lemma mostRestrictive_fewest_remaining (results : list RateLimitResult) chosen :
  RateLimitMiddleware.mostRestrictive results = Some chosen ->
  chosen ∈ results /\
  forall r, r ∈ results -> remainingRequests chosen <= remainingRequests r.
Proof.
  destruct results as [|first rest]; [discriminate|]. intros [= <-].
  apply fold_pick_spec.
Qed.

(** When every admitting result has requests left, a rejecting result with
    none left makes the composite reject. *)
Lemma mostRestrictive_rejects (results : list RateLimitResult) chosen rej :
  RateLimitMiddleware.mostRestrictive results = Some chosen ->
  rej ∈ results -> remainingRequests rej = 0 ->
  (forall r, r ∈ results -> allowed r = true -> 0 < remainingRequests r) ->
  allowed chosen = false.
Proof.
  intros Hc Hrej H0 Hadm.
  destruct (mostRestrictive_fewest_remaining _ _ Hc) as [Hin Hmin].
  destruct (allowed chosen) eqn:E; [|reflexivity].
  specialize (Hadm _ Hin E). specialize (Hmin _ Hrej). lia.
Qed.

(** Remaining counts 5, 0, 3, the middle one rejecting: the composite rejects. *)
Lemma mostRestrictive_five_zero_three :
  RateLimitMiddleware.mostRestrictive [admitting 5; rejecting; admitting 3] = Some rejecting.
Proof. reflexivity. Qed.

(** An admitting result with no request left, placed before a rejecting one,
    wins the tie. *)
Lemma mostRestrictive_tie :
  RateLimitMiddleware.mostRestrictive [admitting 0; rejecting] = Some (admitting 0).
Proof. reflexivity. Qed.

(** C2, the code at the failing input: the address rule is at its last
    admitted request (499 of 500 used, so its result admits with 0
    remaining) and the session rule is exhausted (30 of 30 used, so its
    result rejects with 0 remaining).  The composite chosen by [use] is the
    admitting address result, and the request passes although one individual
    result rejects. *)
Theorem use_admits_despite_rejecting_rule :
  (exists w',
     RateLimitService.checkSessionRateLimit DEFAULT_RATE_LIMIT_CONFIG "s1" quota_world
     = Returned {| allowed := false; totalRequests := 30; remainingRequests := 0;
                   resetTime := 60; retryAfter := Some 60 |} w') /\
  (exists w',
     RateLimitMiddleware.use DEFAULT_RATE_LIMIT_CONFIG "POST" "/agent/chat" "10.0.0.1"
       (Some "s1") quota_world
     = Returned (RateLimitMiddleware.Next
                   (Some {| allowed := true; totalRequests := 500; remainingRequests := 0;
                            resetTime := 900; retryAfter := None |})) w').
Proof. split; eexists; vm_compute; reflexivity. Qed.

(** ** The adapter on an available store *)

Lemma get_up (w : world) (k : string) :
  up w -> RedisService.get k w = Returned (string_at w k) w.
Proof.
  intros [C O]. unfold RedisService.get, string_at. run.
  rewrite C; cbn. rewrite C, O; cbn. unfold Command.GET.
  destruct (lookup_live _ _ _) as [[[s|s] e]|]; cbn; now rewrite ?set_store_same.
Qed.

Lemma classic_up (w : world) : up w \/ ~ up w.
Proof.
  unfold up. destruct (client w), (online w); auto; right; intros [? ?]; discriminate.
Qed.

Lemma get_down (w : world) (k : string) :
  ~ up w -> RedisService.get k w = Returned None w.
Proof.
  intros Hdown. apply unavailable_defaults. unfold up in Hdown.
  destruct (client w), (online w); auto. now destruct Hdown.
Qed.

Lemma setWithExpiry_up (w : world) (k v : string) (t : Z) :
  up w -> 0 < t ->
  RedisService.setWithExpiry k v t w
  = Returned tt (put k {| rval := RString v; expireAt := Some (clock w + t * 1000) |} w).
Proof.
  intros [C O] Ht. unfold RedisService.setWithExpiry. run.
  rewrite C; cbn. rewrite C, O; cbn. unfold Command.SETEX.
  destruct (Z.leb_spec t 0); [lia|]. reflexivity.
Qed.

Lemma set_plain_up (w : world) (k v : string) :
  up w ->
  RedisService.set k v None w
  = Returned tt (put k {| rval := RString v; expireAt := None |} w).
Proof.
  intros [C O]. unfold RedisService.set. run.
  rewrite C; cbn. now rewrite C, O.
Qed.

Lemma del_one_up (w : world) (k : string) :
  up w ->
  RedisService.del [k] w
  = Returned (match lookup_live (clock w) (keyspace (store w)) k with
              | Some _ => 1 | None => 0 end + 0)
             (remove k w).
Proof.
  intros [C O]. unfold RedisService.del. run.
  rewrite C; cbn. now rewrite C, O.
Qed.

Lemma srem_up (w : world) (k : string) (ms : list string) :
  up w ->
  RedisService.srem k ms w
  = match Command.SREM (clock w) k ms (store w) with
    | Ok n sv => Returned n (set_store sv w)
    | Err _ => Returned 0 w
    end.
Proof.
  intros [C O]. unfold RedisService.srem. run.
  rewrite C; cbn. rewrite C, O; cbn. now destruct (Command.SREM _ _ _ _).
Qed.

Lemma sadd_up (w : world) (k : string) (ms : list string) :
  up w ->
  RedisService.sadd k ms w
  = match Command.SADD (clock w) k ms (store w) with
    | Ok n sv => Returned n (set_store sv w)
    | Err _ => Returned 0 w
    end.
Proof.
  intros [C O]. unfold RedisService.sadd. run.
  rewrite C; cbn. rewrite C, O; cbn. now destruct (Command.SADD _ _ _ _).
Qed.

Lemma smembers_up (w : world) (k : string) :
  up w ->
  RedisService.smembers k w
  = match Command.SMEMBERS (clock w) k (store w) with
    | Ok l sv => Returned l (set_store sv w)
    | Err _ => Returned [] w
    end.
Proof.
  intros [C O]. unfold RedisService.smembers. run.
  rewrite C; cbn. rewrite C, O; cbn. now destruct (Command.SMEMBERS _ _ _).
Qed.

Lemma expire_up (w : world) (k : string) (t : Z) :
  up w ->
  RedisService.expire k t w
  = match Command.EXPIRE (clock w) k t (store w) with
    | Ok n sv => Returned (n =? 1) (set_store sv w)
    | Err _ => Returned false w
    end.
Proof.
  intros [C O]. unfold RedisService.expire. run.
  rewrite C; cbn. rewrite C, O; cbn. now destruct (Command.EXPIRE _ _ _ _).
Qed.

(** ** Sessions *)

Section Sessions.

Context `{Runtime}.
Variable cfg : SessionConfig.

Lemma sessionOfJson_toJson (sd : SessionData) : sessionOfJson (sessionToJson sd) = Some sd.
Proof. now destruct sd. Qed.

Lemma string_at_put_eq (w : world) (k v : string) (e : option Z) :
  live (clock w) {| rval := RString v; expireAt := e |} = true ->
  string_at (put k {| rval := RString v; expireAt := e |} w) k = Some v.
Proof.
  intros Hl. unfold string_at, lookup_live, put. cbn.
  rewrite lookup_insert_eq. now rewrite Hl.
Qed.

Lemma string_at_put_ne (w : world) (k k' : string) (e : rentry) :
  k <> k' -> string_at (put k e w) k' = string_at w k'.
Proof.
  intros Hne. unfold string_at, lookup_live, put. cbn.
  now rewrite lookup_insert_ne.
Qed.

Lemma string_at_remove_ne (w : world) (k k' : string) :
  k <> k' -> string_at (remove k w) k' = string_at w k'.
Proof.
  intros Hne. unfold string_at, lookup_live, remove. cbn.
  now rewrite lookup_delete_ne.
Qed.

(** A record that is present and not expired is returned, and nothing changes. *)
Lemma getSession_valid (w : world) (sid : string) (sd : SessionData) (fuel : nat) :
  up w -> stored_session w sid sd -> SessionService.expired cfg (clock w) sd = false ->
  SessionService.getSession cfg (S fuel) sid w = Returned (Some sd) w.
Proof.
  intros Hup (str & j & Hs & Ht & Hp & Hj) He.
  cbn [SessionService.getSession]. run.
  rewrite (get_up _ _ Hup), Hs. cbn. rewrite Ht. cbn. rewrite Hp, Hj.
  now rewrite He.
Qed.

(** Without a text at the key, the session is absent. *)
Lemma getSession_absent (w : world) (sid : string) (fuel : nat) :
  string_at w (SessionService.getSessionKey sid) = None ->
  SessionService.getSession cfg (S fuel) sid w = Returned None w.
Proof.
  intros Hs. cbn [SessionService.getSession]. run.
  destruct (classic_up w) as [Hup|Hdown].
  - now rewrite (get_up _ _ Hup), Hs.
  - now rewrite (get_down _ _ Hdown).
Qed.

(** A record that is present and logically expired: the deletion that
    [getSession] starts begins by calling [getSession] again, and neither
    call ever settles. *)
Lemma getSession_stale (w : world) (sid : string) (sd : SessionData) (fuel : nat) :
  up w -> stored_session w sid sd -> SessionService.expired cfg (clock w) sd = true ->
  SessionService.getSession cfg fuel sid w = Pending.
Proof.
  intros Hup (str & j & Hs & Ht & Hp & Hj) He.
  induction fuel as [|fuel IH]; [reflexivity|].
  cbn [SessionService.getSession]. unfold SessionService.deleteSession_with. run.
  rewrite (get_up _ _ Hup), Hs. cbn. rewrite Ht. cbn. rewrite Hp, Hj.
  rewrite He. now rewrite IH.
Qed.

(** [getSession] returns a record only in the case of [getSession_valid]. *)
Lemma getSession_returns_some (w w' : world) (sid : string) (sd : SessionData) (fuel : nat) :
  SessionService.getSession cfg fuel sid w = Returned (Some sd) w' ->
  w' = w /\ up w /\ stored_session w sid sd /\
  SessionService.expired cfg (clock w) sd = false.
Proof.
  destruct fuel as [|fuel]; [discriminate|].
  cbn [SessionService.getSession]. run.
  destruct (classic_up w) as [Hup|Hdown].
  2:{ rewrite (get_down _ _ Hdown). discriminate. }
  rewrite (get_up _ _ Hup).
  destruct (string_at w _) as [str|] eqn:Hs; [|discriminate].
  destruct (truthy str) eqn:Ht; cbn; [|discriminate].
  destruct (JSON_parse str) as [j|] eqn:Hp; [|discriminate].
  destruct (sessionOfJson j) as [sd'|] eqn:Hj; [|discriminate].
  destruct (SessionService.expired cfg (clock w) sd') eqn:He.
  - destruct (SessionService.deleteSession_with _ _ _); discriminate.
  - intros [= -> ->]. repeat split; try apply Hup; try assumption.
    exists str, j. auto.
Qed.

Lemma validateSession_valid (w : world) (sid : string) (sd : SessionData)
    (address : option string) (fuel : nat) :
  up w -> stored_session w sid sd -> SessionService.expired cfg (clock w) sd = false ->
  SessionService.validateSession cfg (S fuel) sid address w
  = Returned (isActive sd && address_accepted sd address) w.
Proof.
  intros Hup Hs He. unfold SessionService.validateSession, try_catch, bind.
  rewrite (getSession_valid _ _ sd); auto.
  destruct (isActive sd); cbn; [|reflexivity].
  destruct address as [ip|]; cbn; [|reflexivity].
  now destruct (truthy ip), (String.eqb (ipAddress sd) ip).
Qed.

Lemma validateSession_returns_true (w w' : world) (sid : string) (address : option string)
    (fuel : nat) :
  SessionService.validateSession cfg fuel sid address w = Returned true w' ->
  w' = w /\ up w /\
  exists sd, stored_session w sid sd /\ SessionService.expired cfg (clock w) sd = false /\
             isActive sd = true /\ address_accepted sd address = true.
Proof.
  unfold SessionService.validateSession, try_catch, bind.
  destruct (SessionService.getSession cfg fuel sid w) as [[sd|] w1|e w1|] eqn:Hg;
    try discriminate.
  apply getSession_returns_some in Hg as (-> & Hup & Hs & He).
  destruct (isActive sd) eqn:Ha; cbn; [|discriminate].
  destruct address as [ip|]; cbn.
  - destruct (truthy ip) eqn:T, (String.eqb (ipAddress sd) ip) eqn:E; cbn;
      intros Hv; inversion Hv; subst; (repeat split; try apply Hup);
      exists sd; cbn; rewrite ?T, ?E; auto.
  - intros Hv; inversion Hv; subst. repeat split; try apply Hup. exists sd. auto.
Qed.

End Sessions.

(** C8, counterexample: the session [s1] was created from [10.0.0.1], is
    stored, unexpired and active; validated against the supplied address
    [EmptyString], which differs from the stored one, it is reported valid. *)
Lemma validateSession_accepts_empty_address :
  SessionService.getSession (H := SampleRuntime.runtime) DEFAULT_SESSION_CONFIG 1 "s1"
    one_session_world = Returned (Some session_s1) one_session_world /\
  ipAddress session_s1 <> EmptyString /\
  SessionService.validateSession (H := SampleRuntime.runtime) DEFAULT_SESSION_CONFIG 1 "s1"
    (Some EmptyString) one_session_world = Returned true one_session_world.
Proof. split; [|split]; [vm_compute; reflexivity|discriminate|vm_compute; reflexivity]. Qed.

(** C8, as amended: [validateSession] returns [true] exactly when the store
    is reachable and holds for the session a record that is present,
    unexpired and active, and the address argument is absent, empty, or
    equal to the stored address; returning [true] changes nothing.  In
    particular an unexpired active session validated against a different,
    non-empty address is reported invalid. *)
Theorem validateSession_true_iff `{Runtime} (cfg : SessionConfig) (w : world) (sid : string)
    (address : option string) (fuel : nat) :
  ((exists w', SessionService.validateSession cfg (S fuel) sid address w = Returned true w')
   <->
   (up w /\
    exists sd, stored_session w sid sd /\
               SessionService.expired cfg (clock w) sd = false /\
               isActive sd = true /\
               match address with
               | Some ip => ip = EmptyString \/ ipAddress sd = ip
               | None => True
               end)) /\
  (forall w', SessionService.validateSession cfg (S fuel) sid address w = Returned true w' ->
              w' = w) /\
  (forall sd ip,
     up w -> stored_session w sid sd -> SessionService.expired cfg (clock w) sd = false ->
     address = Some ip -> ip <> EmptyString -> ipAddress sd <> ip ->
     SessionService.validateSession cfg (S fuel) sid address w = Returned false w).
Proof.
  assert (Hacc : forall sd,
            address_accepted sd address = true <->
            match address with
            | Some ip => ip = EmptyString \/ ipAddress sd = ip
            | None => True
            end).
  { intros sd. destruct address as [ip|]; cbn; [|tauto].
    rewrite orb_true_iff, negb_true_iff. unfold truthy. rewrite negb_false_iff.
    now rewrite !String.eqb_eq. }
  split; [split|split].
  - intros [w' Hv]. apply validateSession_returns_true in Hv as (_ & Hup & sd & Hs & He & Ha & Hok).
    split; [assumption|]. exists sd. repeat split; try assumption. now apply Hacc.
  - intros (Hup & sd & Hs & He & Ha & Hok). exists w.
    rewrite (validateSession_valid cfg w sid sd address fuel Hup Hs He).
    apply Hacc in Hok. now rewrite Ha, Hok.
  - intros w' Hv. now apply validateSession_returns_true in Hv.
  - intros sd ip Hup Hs He -> Hip Hne.
    rewrite (validateSession_valid cfg w sid sd (Some ip) fuel Hup Hs He).
    f_equal. apply andb_false_iff. right. cbn.
    apply orb_false_iff. split.
    + apply negb_false_iff. now apply truthy_spec.
    + now apply String.eqb_neq.
Qed.

Lemma validateSession_true_iff_witness :
  SessionService.validateSession (H := SampleRuntime.runtime) DEFAULT_SESSION_CONFIG 1 "s1"
    (Some "10.0.0.2") one_session_world = Returned false one_session_world.
Proof.
  refine (proj2 (proj2 (validateSession_true_iff (H := SampleRuntime.runtime)
                          DEFAULT_SESSION_CONFIG one_session_world "s1" (Some "10.0.0.2") 0))
            session_s1 "10.0.0.2" _ _ _ eq_refl _ _).
  - split; reflexivity.
  - eexists. eexists. repeat split; vm_compute; reflexivity.
  - vm_compute; reflexivity.
  - discriminate.
  - discriminate.
Defined.

(** ** Updating a session without extending its expiry *)

Section PlainSet.

Context `{Runtime}.
Variable cfg : SessionConfig.

Lemma updateSession_valid (w : world) (sid : string) (sd : SessionData)
    (updates : SessionUpdateOptions) (fuel : nat) :
  up w -> stored_session w sid sd -> SessionService.expired cfg (clock w) sd = false ->
  let upd := SessionService.applyUpdates (clock w) sd updates in
  let text := JSON_stringify (sessionToJson upd) in
  SessionService.updateSession cfg (S fuel) sid updates w
  = Returned (Some upd)
      (if extendOnActivity cfg then
         exec (RedisService.setWithExpiry (SessionService.getSessionKey sid) text (ttl cfg)) w
       else
         put (SessionService.getSessionKey sid) {| rval := RString text; expireAt := None |} w).
Proof.
  intros Hup Hs He upd text.
  unfold SessionService.updateSession, try_catch, bind at 1.
  rewrite (getSession_valid cfg w sid sd fuel Hup Hs He).
  unfold bind, Date_now, gets. fold upd. fold text.
  destruct (extendOnActivity cfg).
  - unfold exec.
    destruct (setWithExpiry_never_throws (SessionService.getSessionKey sid) text (ttl cfg) w)
      as (a & w' & E).
    now rewrite E.
  - now rewrite (set_plain_up _ _ _ Hup).
Qed.

Lemma deleteSession_pending (w : world) (sid : string) (fuel : nat) :
  SessionService.getSession cfg fuel sid w = Pending ->
  SessionService.deleteSession cfg fuel sid w = Pending.
Proof.
  intros Hg. unfold SessionService.deleteSession, SessionService.deleteSession_with.
  run. now rewrite Hg.
Qed.

Lemma sweep_pending (w : world) (sid : string) (sd : SessionData) (fuel : nat)
    (rest : list string) (n : Z) :
  up w -> stored_session w sid sd -> sessionId sd = sid ->
  SessionService.expired cfg (clock w) sd = true ->
  SessionService.sweep cfg fuel (clock w) (SessionService.getSessionKey sid :: rest) n w
  = Pending.
Proof.
  intros Hup Hs Hid He.
  pose proof (deleteSession_pending w sid fuel (getSession_stale cfg w sid sd fuel Hup Hs He))
    as Hd.
  destruct Hs as (str & j & Hs & Ht & Hp & Hj).
  cbn [SessionService.sweep]. run.
  rewrite (get_up _ _ Hup), Hs. cbn. rewrite Ht. cbn. rewrite Hp, Hj.
  rewrite He, orb_true_r, Hid. now rewrite Hd.
Qed.

End PlainSet.

(** C10, the code on an expired session that was last written without
    time-to-live: with the extend-on-activity flag off, [updateSession]
    rewrites the record with a plain [SET], so the key has no expiry and the
    text stays readable at every later instant.  Once the record is logically
    expired, the lazy check of [getSession] does not remove it: the deletion
    it starts calls [getSession] first, which starts the deletion again, and
    the call never settles; [deleteSession] and the step of the periodic
    sweep on this key do not settle either. *)
Theorem plain_set_strands_expired_session `{Runtime} (cfg : SessionConfig) (w : world)
    (sid : string) (sd : SessionData) (updates : SessionUpdateOptions) :
  extendOnActivity cfg = false ->
  up w -> stored_session w sid sd -> sessionId sd = sid ->
  SessionService.expired cfg (clock w) sd = false ->
  let upd := SessionService.applyUpdates (clock w) sd updates in
  let text := JSON_stringify (sessionToJson upd) in
  json_roundtrip (sessionToJson upd) ->
  let w1 := put (SessionService.getSessionKey sid)
                {| rval := RString text; expireAt := None |} w in
  (forall fuel, SessionService.updateSession cfg (S fuel) sid updates w
                = Returned (Some upd) w1) /\
  (forall t, string_at (at_time t w1) (SessionService.getSessionKey sid) = Some text) /\
  (forall t fuel,
     ttl cfg * 1000 < t - lastActivity upd ->
     SessionService.getSession cfg fuel sid (at_time t w1) = Pending /\
     SessionService.deleteSession cfg fuel sid (at_time t w1) = Pending /\
     forall rest n,
       SessionService.sweep cfg fuel t (SessionService.getSessionKey sid :: rest) n
         (at_time t w1) = Pending).
Proof.
  intros Hext Hup Hs Hid He upd text [Hparse Htruthy] w1.
  assert (Htext : forall t,
            string_at (at_time t w1) (SessionService.getSessionKey sid) = Some text).
  { intros t. unfold string_at, lookup_live, w1, put. cbn. now rewrite lookup_insert_eq. }
  assert (Hstored : forall t, stored_session (at_time t w1) sid upd).
  { intros t. exists text, (sessionToJson upd).
    split; [apply Htext|]. split; [exact Htruthy|]. split; [exact Hparse|].
    apply sessionOfJson_toJson. }
  assert (Hup1 : forall t, up (at_time t w1)).
  { intros t. apply at_time_up. unfold w1. now apply put_up. }
  split; [|split].
  - intros fuel. rewrite (updateSession_valid cfg w sid sd updates fuel Hup Hs He).
    now rewrite Hext.
  - exact Htext.
  - intros t fuel Ht.
    assert (Hexp : SessionService.expired cfg (clock (at_time t w1)) upd = true).
    { unfold SessionService.expired. change (clock (at_time t w1)) with t.
      apply Z.gtb_lt. exact Ht. }
    assert (Hidu : sessionId upd = sid) by exact Hid.
    pose proof (getSession_stale cfg _ sid upd fuel (Hup1 t) (Hstored t) Hexp) as Hg.
    split; [exact Hg|]. split; [now apply deleteSession_pending|].
    intros rest n.
    apply (sweep_pending cfg (at_time t w1) sid upd fuel rest n (Hup1 t) (Hstored t) Hidu Hexp).
Qed.

Lemma plain_set_strands_expired_session_witness :
  SessionService.getSession (H := SampleRuntime.runtime) no_extension_config 1000%nat "s1"
    (at_time 86500000
       (put (SessionService.getSessionKey "s1")
            {| rval :=
                 RString (SampleRuntime.stringify
                            (sessionToJson
                               (SessionService.applyUpdates 2000 session_s1
                                  {| upd_lastActivity := Some 2000;
                                     upd_messageCount := Some 1;
                                     upd_isActive := None |})));
               expireAt := None |}
            (at_time 2000 one_session_world)))
  = Pending.
Proof.
  refine (proj1 (proj2 (proj2
            (plain_set_strands_expired_session (H := SampleRuntime.runtime)
               no_extension_config (at_time 2000 one_session_world) "s1" session_s1
               {| upd_lastActivity := Some 2000; upd_messageCount := Some 1;
                  upd_isActive := None |}
               eq_refl (conj eq_refl eq_refl) _ eq_refl eq_refl _)) 86500000 1000%nat _)).
  - eexists. eexists. repeat split; vm_compute; reflexivity.
  - split; vm_compute; reflexivity.
  - vm_compute; reflexivity.
Defined.

(** ** The cap on sessions per address *)

Section SessionCap.

Context `{Runtime}.
Variable cfg : SessionConfig.

Local Abbreviation all_valid := (all_valid cfg).

Lemma countValid_all_valid (w : world) (ipKey : string) (ids : list string) (fuel : nat) :
  up w -> all_valid w ids ->
  forall acc,
    SessionService.countValid cfg (S fuel) ipKey ids acc w
    = Returned (acc + Z.of_nat (length ids)) w.
Proof.
  intros Hup. induction ids as [|sid ids IH]; intros Hall acc.
  - cbn. unfold ret. f_equal. lia.
  - cbn [SessionService.countValid]. unfold bind.
    destruct (Hall sid) as (sd & Hs & He); [left|].
    rewrite (getSession_valid cfg w sid sd fuel Hup Hs He).
    rewrite IH.
    + f_equal. cbn [length]. lia.
    + intros sid' Hin. apply Hall. now right.
Qed.

Lemma getSessionCountByIP_index (w : world) (ip : string) (s : gset string) (e : option Z)
    (fuel : nat) :
  up w ->
  lookup_live (clock w) (keyspace (store w)) (SessionService.getIPKey ip)
    = Some {| rval := RSet s; expireAt := e |} ->
  all_valid w (elements s) ->
  SessionService.getSessionCountByIP cfg (S fuel) ip w = Returned (Z.of_nat (size s)) w.
Proof.
  intros Hup Hidx Hall. unfold SessionService.getSessionCountByIP, try_catch, bind.
  rewrite (smembers_up _ _ Hup). unfold Command.SMEMBERS. rewrite Hidx. cbn.
  rewrite set_store_same.
  now rewrite (countValid_all_valid w _ (elements s) fuel Hup Hall).
Qed.

Lemma getSessionCountByIP_no_index (w : world) (ip : string) (fuel : nat) :
  up w ->
  lookup_live (clock w) (keyspace (store w)) (SessionService.getIPKey ip) = None ->
  SessionService.getSessionCountByIP cfg (S fuel) ip w = Returned 0 w.
Proof.
  intros Hup Hidx. unfold SessionService.getSessionCountByIP, try_catch, bind.
  rewrite (smembers_up _ _ Hup). unfold Command.SMEMBERS. rewrite Hidx. cbn.
  now rewrite set_store_same.
Qed.

(** With the count at the maximum, [createSession] throws and writes nothing. *)
Lemma createSession_at_cap (w : world) (options : SessionCreateOptions) (n : Z) (fuel : nat) :
  SessionService.getSessionCountByIP cfg fuel (opt_ipAddress options) w = Returned n w ->
  maxSessionsPerIP cfg <= n ->
  SessionService.createSession cfg fuel options w
  = Thrown ("Too many sessions for IP: " +:+ opt_ipAddress options +:+ ". Max: "
            +:+ Z_toString (maxSessionsPerIP cfg)) w.
Proof.
  intros Hn Hmax. unfold SessionService.createSession. run. rewrite Hn.
  destruct (Z.geb_spec n (maxSessionsPerIP cfg)); [reflexivity|lia].
Qed.

(** Below the maximum, [createSession] writes the record with its
    time-to-live and adds the session to the index of the address. *)
Lemma createSession_below_cap (w : world) (options : SessionCreateOptions) (n : Z)
    (fuel : nat) :
  up w -> 0 < ttl cfg ->
  SessionService.getSessionCountByIP cfg fuel (opt_ipAddress options) w = Returned n w ->
  n < maxSessionsPerIP cfg ->
  SessionService.getSessionKey (opt_sessionId options)
    <> SessionService.getIPKey (opt_ipAddress options) ->
  (forall e, lookup_live (clock w) (keyspace (store w))
               (SessionService.getIPKey (opt_ipAddress options)) = Some e ->
             exists s, rval e = RSet s) ->
  let sd := {| sessionId := opt_sessionId options; createdAt := clock w;
               lastActivity := clock w; ipAddress := opt_ipAddress options;
               userAgent := opt_userAgent options; messageCount := 0; isActive := true |} in
  exists w2,
    SessionService.createSession cfg fuel options w = Returned sd w2 /\
    keyspace (store w2) !! SessionService.getSessionKey (opt_sessionId options)
    = Some {| rval := RString (JSON_stringify (sessionToJson sd));
              expireAt := Some (clock w + ttl cfg * 1000) |} /\
    exists s,
      keyspace (store w2) !! SessionService.getIPKey (opt_ipAddress options)
      = Some {| rval := RSet s; expireAt := Some (clock w + ttl cfg * 1000) |} /\
      opt_sessionId options ∈ s.
Proof.
  intros Hup Httl Hn Hmax Hne Hidx sd.
  unfold SessionService.createSession. run. rewrite Hn.
  destruct (Z.geb_spec n (maxSessionsPerIP cfg)); [lia|]. fold sd.
  rewrite (setWithExpiry_up _ _ _ _ Hup Httl).
  set (w1 := put _ _ w).
  assert (Hup1 : up w1) by now apply put_up.
  rewrite (sadd_up _ _ _ Hup1). unfold Command.SADD.
  assert (Hlook : lookup_live (clock w1) (keyspace (store w1))
                    (SessionService.getIPKey (opt_ipAddress options))
                  = lookup_live (clock w) (keyspace (store w))
                      (SessionService.getIPKey (opt_ipAddress options))).
  { unfold lookup_live, w1, put. cbn. now rewrite lookup_insert_ne. }
  rewrite Hlook.
  assert (Hexp : 0 < ttl cfg -> (ttl cfg <=? 0) = false) by (intros; apply Z.leb_gt; lia).
  destruct (lookup_live (clock w) _ _) as [e|] eqn:Hl.
  - destruct (Hidx e eq_refl) as [s Hs]. rewrite Hs.
    set (w2 := set_store _ w1).
    assert (Hup2 : up w2) by (destruct Hup1; split; assumption).
    rewrite (expire_up _ _ _ Hup2). unfold Command.EXPIRE, lookup_live.
    cbn. rewrite lookup_insert_eq. cbn.
    assert (Hlive : forall v, live (clock w) {| rval := v; expireAt := expireAt e |} = true).
    { intros v. unfold lookup_live in Hl. destruct (keyspace (store w) !! _) as [e'|]; [|discriminate].
      destruct (live (clock w) e') eqn:Hle; [|discriminate]. injection Hl as ->.
      exact Hle. }
    rewrite Hlive, (Hexp Httl). cbn.
    eexists. split; [reflexivity|]. cbn. split.
    + rewrite lookup_insert_ne by congruence.
      rewrite lookup_insert_ne by congruence.
      now rewrite lookup_insert_eq.
    + eexists. split; [now rewrite lookup_insert_eq|]. set_solver.
  - set (w2 := set_store _ w1).
    assert (Hup2 : up w2) by (destruct Hup1; split; assumption).
    rewrite (expire_up _ _ _ Hup2). unfold Command.EXPIRE, lookup_live.
    cbn. rewrite lookup_insert_eq. cbn. rewrite (Hexp Httl). cbn.
    eexists. split; [reflexivity|]. cbn. split.
    + rewrite lookup_insert_ne by congruence.
      rewrite lookup_insert_ne by congruence.
      now rewrite lookup_insert_eq.
    + eexists. split; [now rewrite lookup_insert_eq|]. set_solver.
Qed.

Lemma stored_session_lookup (w : world) (sid : string) (sd : SessionData) :
  stored_session w sid sd ->
  exists str e,
    lookup_live (clock w) (keyspace (store w)) (SessionService.getSessionKey sid)
    = Some {| rval := RString str; expireAt := e |}.
Proof.
  intros (str & j & Hs & _). unfold string_at in Hs.
  destruct (lookup_live _ _ _) as [[[v|v] e]|]; try discriminate.
  eauto.
Qed.

(** A record is not affected by writes to other keys. *)
Lemma stored_session_frame (w w' : world) (sid : string) (sd : SessionData) :
  clock w' = clock w ->
  keyspace (store w') !! SessionService.getSessionKey sid
    = keyspace (store w) !! SessionService.getSessionKey sid ->
  stored_session w sid sd -> stored_session w' sid sd.
Proof.
  intros Hc Hk (str & j & Hs & Hrest). exists str, j. split; [|exact Hrest].
  unfold string_at, lookup_live in *. now rewrite Hc, Hk.
Qed.

Lemma deleteSession_valid (w : world) (victim : string) (sd : SessionData)
    (s : gset string) (e : option Z) (fuel : nat) :
  up w -> stored_session w victim sd ->
  SessionService.expired cfg (clock w) sd = false ->
  lookup_live (clock w) (keyspace (store w)) (SessionService.getIPKey (ipAddress sd))
    = Some {| rval := RSet s; expireAt := e |} ->
  SessionService.deleteSession cfg (S fuel) victim w
  = Returned true (after_delete w (SessionService.getIPKey (ipAddress sd)) victim s e).
Proof.
  intros Hup Hs He Hidx.
  destruct (stored_session_lookup _ _ _ Hs) as (str & es & Hl).
  assert (Hne : SessionService.getIPKey (ipAddress sd) <> SessionService.getSessionKey victim).
  { intros E. rewrite E in Hidx. rewrite Hidx in Hl. discriminate. }
  unfold SessionService.deleteSession, SessionService.deleteSession_with, try_catch, bind.
  rewrite (getSession_valid cfg w victim sd fuel Hup Hs He).
  rewrite (srem_up _ _ _ Hup). unfold Command.SREM. rewrite Hidx.
  cbn [rval expireAt].
  replace (list_to_set [victim] : gset string) with ({[victim]} : gset string)
    by (cbn; now rewrite (right_id_L ∅ (∪))).
  set (w1 := set_store _ w).
  assert (Hup1 : up w1) by (destruct Hup; split; assumption).
  unfold ret. rewrite (del_one_up _ _ Hup1).
  assert (Hl1 : lookup_live (clock w1) (keyspace (store w1))
                  (SessionService.getSessionKey victim)
                = Some {| rval := RString str; expireAt := es |}).
  { rewrite <- Hl. unfold lookup_live, w1. cbn.
    destruct (decide (s ∖ {[victim]} = ∅)).
    - now rewrite lookup_delete_ne.
    - now rewrite lookup_insert_ne. }
  rewrite Hl1. f_equal. unfold after_delete, w1.
  now destruct (decide (s ∖ {[victim]} = ∅)).
Qed.

End SessionCap.

Lemma getSessionKey_inj (a b : string) :
  SessionService.getSessionKey a = SessionService.getSessionKey b -> a = b.
Proof. apply append_inj_l. Qed.



(** ** The cache *)

Section Cache.

Context `{Runtime}.
Variable cfg : CacheConfig.

Lemma entryOfJson_toJson (e : CacheEntry) : entryOfJson (entryToJson e) = Some e.
Proof. now destruct e. Qed.

Lemma getFromRedis_up (w : world) (k : string) :
  up w -> CacheService.getFromRedis k w = Returned (string_at w k) w.
Proof.
  intros [C O]. unfold CacheService.getFromRedis, string_at. run.
  rewrite C; cbn. rewrite C, O; cbn. unfold Command.GET.
  destruct (lookup_live _ _ _) as [[[s|s] e]|]; cbn; now rewrite ?set_store_same.
Qed.

Lemma setToRedis_up (w : world) (k v : string) (t : Z) :
  up w -> 0 < t ->
  CacheService.setToRedis k v t w
  = Returned tt (put k {| rval := RString v; expireAt := Some (clock w + t * 1000) |} w).
Proof.
  intros [C O] Ht. unfold CacheService.setToRedis. run.
  rewrite C; cbn. rewrite C, O; cbn. unfold Command.SETEX.
  destruct (Z.leb_spec t 0); [lia|]. reflexivity.
Qed.

(** [setToRedis] fails exactly when the store is unavailable or the
    time-to-live is not positive, and then the store is untouched. *)
Lemma setToRedis_fails (w : world) (k v : string) (t : Z) :
  ~ up w \/ t <= 0 -> exists e, CacheService.setToRedis k v t w = Thrown e w.
Proof.
  intros Hbad. unfold CacheService.setToRedis. run.
  destruct (client w) eqn:C; cbn; [|eauto]. rewrite C; cbn.
  destruct (online w) eqn:O; cbn; [|eauto]. unfold Command.SETEX.
  destruct (Z.leb_spec t 0); [eauto|].
  destruct Hbad as [Hdown|Ht]; [|lia]. exfalso. apply Hdown. now split.
Qed.

Local Abbreviation entryOf := (entryOf cfg).

Lemma set_unfold (w : world) (k : string) (value : json) (ttl : option Z) :
  CacheService.set cfg k value ttl w
  = if CacheService.getSize (JSON_stringify value) >? maxValueSize cfg then
      Thrown ("Value too large: "
              +:+ Z_toString (CacheService.getSize (JSON_stringify value)) +:+ " > "
              +:+ Z_toString (maxValueSize cfg)) (counted_set w)
    else
      CacheService.setToRedis (CacheService.versioned k)
        (JSON_stringify (entryToJson (entryOf (clock w) value ttl)))
        (CacheService.finalTtlOf cfg ttl) (counted_set w).
Proof.
  unfold CacheService.set, CacheService.bump, entryOf. run.
  fold (counted_set w).
  destruct (_ >? maxValueSize cfg); [reflexivity|].
  destruct (enableCompression cfg && _); cbn;
    now destruct (CacheService.setToRedis _ _ _ _).
Qed.

Lemma counted_set_up (w : world) : up w <-> up (counted_set w).
Proof. unfold up. reflexivity. Qed.

(** When [set] fails, and what it leaves behind. *)
Lemma set_throws_iff (w : world) (k : string) (value : json) (ttl : option Z) :
  (exists e w', CacheService.set cfg k value ttl w = Thrown e w')
  <-> (maxValueSize cfg < CacheService.getSize (JSON_stringify value)
       \/ ~ up w \/ CacheService.finalTtlOf cfg ttl <= 0).
Proof.
  rewrite set_unfold.
  destruct (Z.gtb_spec (CacheService.getSize (JSON_stringify value)) (maxValueSize cfg))
    as [Hbig|Hfit].
  - split; [intros _; left; lia|eauto].
  - split.
    + intros (e & w' & Hthrow).
      destruct (classic_up w) as [Hup|Hdown]; [|auto].
      destruct (Z.lt_ge_cases 0 (CacheService.finalTtlOf cfg ttl)) as [Hpos|Hneg]; [|right; right; lia].
      rewrite setToRedis_up in Hthrow; [discriminate|now apply counted_set_up|assumption].
    + intros [Hbig|Hbad]; [lia|].
      destruct (setToRedis_fails (counted_set w) (CacheService.versioned k)
                  (JSON_stringify (entryToJson (entryOf (clock w) value ttl)))
                  (CacheService.finalTtlOf cfg ttl)) as [e He].
      * destruct Hbad as [Hdown|Ht]; [left|right; assumption].
        intros Hup. apply Hdown. now apply counted_set_up.
      * eauto.
Qed.

Lemma set_thrown_store (w w' : world) (k : string) (value : json) (ttl : option Z) e :
  CacheService.set cfg k value ttl w = Thrown e w' -> store w' = store w.
Proof.
  rewrite set_unfold. destruct (_ >? _).
  - now intros [= _ <-].
  - destruct (classic_up (counted_set w)) as [Hup|Hdown].
    + destruct (Z.lt_ge_cases 0 (CacheService.finalTtlOf cfg ttl)) as [Hpos|Hneg].
      * now rewrite setToRedis_up.
      * destruct (setToRedis_fails (counted_set w) (CacheService.versioned k)
                    (JSON_stringify (entryToJson (entryOf (clock w) value ttl)))
                    (CacheService.finalTtlOf cfg ttl)) as [e' He]; [right; lia|].
        rewrite He. now intros [= _ <-].
    + destruct (setToRedis_fails (counted_set w) (CacheService.versioned k)
                  (JSON_stringify (entryToJson (entryOf (clock w) value ttl)))
                  (CacheService.finalTtlOf cfg ttl)) as [e' He]; [now left|].
      rewrite He. now intros [= _ <-].
Qed.

Lemma set_returns (w : world) (k : string) (value : json) (ttl : option Z) :
  up w -> CacheService.getSize (JSON_stringify value) <= maxValueSize cfg ->
  0 < CacheService.finalTtlOf cfg ttl ->
  CacheService.set cfg k value ttl w
  = Returned tt
      (put (CacheService.versioned k)
           {| rval := RString (JSON_stringify (entryToJson (entryOf (clock w) value ttl)));
              expireAt := Some (clock w + CacheService.finalTtlOf cfg ttl * 1000) |}
           (counted_set w)).
Proof.
  intros Hup Hfit Httl. rewrite set_unfold.
  destruct (Z.gtb_spec (CacheService.getSize (JSON_stringify value)) (maxValueSize cfg));
    [lia|].
  rewrite setToRedis_up; [reflexivity|now apply counted_set_up|assumption].
Qed.

Lemma get_hit (w : world) (k text : string) (entry : CacheEntry) :
  up w ->
  string_at w (CacheService.versioned k) = Some text -> truthy text = true ->
  JSON_parse text = Some (entryToJson entry) ->
  CacheService.isExpired (clock w) entry = false -> 0 < ce_ttl entry ->
  exists w', CacheService.get k w = Returned (delivered entry) w'.
Proof.
  intros Hup Hs Ht Hp He Httl.
  unfold CacheService.get, CacheService.bump. run.
  rewrite getFromRedis_up by (destruct Hup; split; assumption).
  replace (string_at (set_metrics _ w) (CacheService.versioned k)) with (Some text)
    by (rewrite <- Hs; reflexivity).
  rewrite Ht. cbn. rewrite Hp, entryOfJson_toJson. cbn [clock set_metrics].
  rewrite He. cbn [ce_ttl ce_value ce_compressed].
  rewrite setToRedis_up by (try assumption; destruct Hup; split; assumption).
  unfold delivered.
  destruct (ce_compressed entry), (ce_value entry); eauto.
Qed.

Lemma isExpired_fresh (now : Z) (value : json) (ttl : option Z) :
  0 < CacheService.finalTtlOf cfg ttl ->
  CacheService.isExpired now (entryOf now value ttl) = false.
Proof.
  intros Httl. unfold CacheService.isExpired.
  replace (ce_createdAt (entryOf now value ttl)) with now
    by (unfold entryOf; now destruct (_ && _)).
  replace (ce_ttl (entryOf now value ttl)) with (CacheService.finalTtlOf cfg ttl)
    by (unfold entryOf; now destruct (_ && _)).
  rewrite Z.gtb_ltb. apply Z.ltb_ge. lia.
Qed.

(** [set] followed at once by [get] hands back what [delivered] makes of
    the stored entry. *)
Lemma get_after_set (w : world) (k : string) (value : json) (ttl : option Z) :
  up w -> CacheService.getSize (JSON_stringify value) <= maxValueSize cfg ->
  0 < CacheService.finalTtlOf cfg ttl ->
  json_roundtrip (entryToJson (entryOf (clock w) value ttl)) ->
  exists w1 w2,
    CacheService.set cfg k value ttl w = Returned tt w1 /\
    CacheService.get k w1 = Returned (delivered (entryOf (clock w) value ttl)) w2.
Proof.
  intros Hup Hfit Httl [Hparse Htruthy].
  eexists. edestruct get_hit as [w2 Hget]; [| | | | | |eexists; split;
    [apply set_returns; assumption|exact Hget]].
  - apply put_up. now apply counted_set_up.
  - apply string_at_put_eq. unfold live. cbn. apply Z.ltb_lt. lia.
  - exact Htruthy.
  - exact Hparse.
  - cbn [clock put set_store counted_set set_metrics]. now apply isExpired_fresh.
  - unfold entryOf. now destruct (_ && _).
Qed.

End Cache.

(** A value stored without compression comes back as it was. *)
Lemma get_after_set_uncompressed `{Runtime} (cfg : CacheConfig) (w : world) (k : string)
    (value : json) (ttl : option Z) :
  up w -> CacheService.getSize (JSON_stringify value) <= maxValueSize cfg ->
  0 < CacheService.finalTtlOf cfg ttl ->
  enableCompression cfg && (CacheService.getSize (JSON_stringify value)
                            >? compressionThreshold cfg) = false ->
  json_roundtrip (entryToJson (entryOf cfg (clock w) value ttl)) ->
  exists w1 w2,
    CacheService.set cfg k value ttl w = Returned tt w1 /\
    CacheService.get k w1 = Returned value w2.
Proof.
  intros Hup Hfit Httl Hsmall Hrt.
  destruct (get_after_set cfg w k value ttl Hup Hfit Httl Hrt) as (w1 & w2 & Hset & Hget).
  exists w1, w2. split; [exact Hset|]. rewrite Hget. f_equal.
  unfold delivered, entryOf. now rewrite Hsmall.
Qed.

(** C3, the code on a value above the compression threshold: [set] stores
    the compressed serialisation, and the [get] that follows decompresses it
    and hands back the serialised text of the value, as a string, in place of
    the value. *)
Theorem get_after_set_compressed_returns_text `{Runtime} (cfg : CacheConfig) (w : world)
    (k : string) (value : json) (ttl : option Z) :
  up w ->
  enableCompression cfg = true ->
  compressionThreshold cfg < CacheService.getSize (JSON_stringify value) <= maxValueSize cfg ->
  0 < CacheService.finalTtlOf cfg ttl ->
  json_roundtrip (entryToJson (entryOf cfg (clock w) value ttl)) ->
  gunzip_base64 (CacheService.compress (JSON_stringify value)) = Some (JSON_stringify value) ->
  exists w1 w2,
    CacheService.set cfg k value ttl w = Returned tt w1 /\
    CacheService.get k w1 = Returned (JStr (JSON_stringify value)) w2.
Proof.
  intros Hup Hen [Hbig Hfit] Httl Hrt Hgunzip.
  destruct (get_after_set cfg w k value ttl Hup Hfit Httl Hrt) as (w1 & w2 & Hset & Hget).
  exists w1, w2. split; [exact Hset|]. rewrite Hget. f_equal.
  unfold delivered, entryOf. rewrite Hen.
  replace (_ >? compressionThreshold cfg) with true by (symmetry; apply Z.gtb_lt; lia).
  cbn. unfold CacheService.decompress. now rewrite Hgunzip.
Qed.

Lemma get_after_set_compressed_returns_text_witness :
  (exists w1 w2,
     CacheService.set (H := SampleRuntime.runtime) defaultCacheConfig "answer" long_text None
       (fresh_world 0) = Returned tt w1 /\
     CacheService.get (H := SampleRuntime.runtime) "answer" w1
     = Returned (JStr (SampleRuntime.stringify long_text)) w2) /\
  JStr (SampleRuntime.stringify long_text) <> long_text.
Proof.
  split.
  - apply (get_after_set_compressed_returns_text (H := SampleRuntime.runtime)
             defaultCacheConfig (fresh_world 0) "answer" long_text None).
    + split; reflexivity.
    + reflexivity.
    + vm_compute. split; [reflexivity|discriminate].
    + reflexivity.
    + split; vm_compute; reflexivity.
    + vm_compute; reflexivity.
  - vm_compute. discriminate.
Defined.




(** ** Calls that emit and publish nothing *)

Lemma unheard_refl (w : world) : unheard w w.
Proof. now split. Qed.

Lemma unheard_trans (w1 w2 w3 : world) : unheard w1 w2 -> unheard w2 w3 -> unheard w1 w3.
Proof. intros [? ?] [? ?]. split; congruence. Qed.

Lemma quiet_ret {A} (a : A) : quiet (ret a).
Proof. intros w. apply unheard_refl. Qed.

Lemma quiet_throw {A} (e : string) : quiet (throw (A := A) e).
Proof. intros w. apply unheard_refl. Qed.

Lemma quiet_gets {A} (f : world -> A) : quiet (gets f).
Proof. intros w. apply unheard_refl. Qed.

Lemma quiet_bind {A B} (c : M A) (k : A -> M B) :
  quiet c -> (forall a, quiet (k a)) -> quiet (bind c k).
Proof.
  intros Hc Hk w. unfold bind. specialize (Hc w).
  destruct (c w) as [a w1|e w1|]; [|assumption|exact I].
  specialize (Hk a w1). destruct (k a w1); eauto using unheard_trans.
Qed.

Lemma quiet_try_catch {A} (body : M A) (handler : string -> M A) :
  quiet body -> (forall e, quiet (handler e)) -> quiet (try_catch body handler).
Proof.
  intros Hb Hh w. unfold try_catch. specialize (Hb w).
  destruct (body w) as [a w1|e w1|]; [assumption| |exact I].
  specialize (Hh e w1). destruct (handler e w1); eauto using unheard_trans.
Qed.

Lemma quiet_on_client {A} (cmd : Z -> server -> reply A) :
  silent cmd -> quiet (RedisService.on_client cmd).
Proof.
  intros Hs w. unfold RedisService.on_client.
  destruct (negb (client w)); [apply unheard_refl|].
  destruct (negb (online w)); [apply unheard_refl|].
  destruct (cmd (clock w) (store w)) as [a sv|msg] eqn:E; [|apply unheard_refl].
  split; [reflexivity|]. cbn. eapply Hs, E.
Qed.

Lemma quiet_bump (f : CacheMetrics -> CacheMetrics) : quiet (CacheService.bump f).
Proof. intros w. now split. Qed.

(** Decomposes a goal [quiet c] along the structure of [c]. *)
Ltac quiet_step :=
  first
    [ apply quiet_ret | apply quiet_throw | apply quiet_gets | apply quiet_bump
    | apply quiet_bind; [|intros ?] | apply quiet_try_catch; [|intros ?]
    | assumption
    | match goal with
      | |- quiet (if ?b then _ else _) => destruct b
      | |- quiet (match ?x with _ => _ end) => destruct x
      | |- quiet (let '(_, _) := ?x in _) => destruct x
      end ].

Ltac silent_command :=
  intros now sv a sv';
  repeat match goal with
         | |- context [match ?x with _ => _ end] => destruct x
         | |- context [if ?b then _ else _] => destruct b
         end;
  intros E; inversion E; subst; reflexivity.

Lemma silent_GET k : silent (fun now => Command.GET now k).
Proof. unfold Command.GET. silent_command. Qed.

Lemma silent_SET k v : silent (fun _ => Command.SET k v).
Proof. unfold Command.SET. silent_command. Qed.

Lemma silent_SETEX k t v : silent (fun now => Command.SETEX now k t v).
Proof. unfold Command.SETEX. silent_command. Qed.

Lemma silent_INCR k : silent (fun now => Command.INCR now k).
Proof. unfold Command.INCR. silent_command. Qed.

Lemma silent_EXPIRE k t : silent (fun now => Command.EXPIRE now k t).
Proof. unfold Command.EXPIRE. silent_command. Qed.

Lemma silent_DEL ks : silent (fun now => Command.DEL now ks).
Proof. unfold Command.DEL. silent_command. Qed.

Lemma silent_SADD k ms : silent (fun now => Command.SADD now k ms).
Proof. unfold Command.SADD. silent_command. Qed.

Lemma silent_SREM k ms : silent (fun now => Command.SREM now k ms).
Proof. unfold Command.SREM. silent_command. Qed.

Lemma silent_SMEMBERS k : silent (fun now => Command.SMEMBERS now k).
Proof. unfold Command.SMEMBERS. silent_command. Qed.

Create HintDb quiet.

#[local] Hint Resolve silent_GET silent_SET silent_SETEX silent_INCR silent_EXPIRE silent_DEL
  silent_SADD silent_SREM silent_SMEMBERS : quiet.

Ltac quiet_tac :=
  repeat (quiet_step || (apply quiet_on_client; auto with quiet) || auto with quiet).

Lemma quiet_get k : quiet (RedisService.get k).
Proof. unfold RedisService.get. quiet_tac. Qed.

Lemma quiet_set k v t : quiet (RedisService.set k v t).
Proof. unfold RedisService.set. quiet_tac. Qed.

Lemma quiet_incr k : quiet (RedisService.incr k).
Proof. unfold RedisService.incr. quiet_tac. Qed.

Lemma quiet_expire k t : quiet (RedisService.expire k t).
Proof. unfold RedisService.expire. quiet_tac. Qed.

Lemma quiet_del ks : quiet (RedisService.del ks).
Proof. unfold RedisService.del. quiet_tac. Qed.

Lemma quiet_setWithExpiry k v t : quiet (RedisService.setWithExpiry k v t).
Proof. unfold RedisService.setWithExpiry. quiet_tac. Qed.

Lemma quiet_sadd k ms : quiet (RedisService.sadd k ms).
Proof. unfold RedisService.sadd. quiet_tac. Qed.

Lemma quiet_srem k ms : quiet (RedisService.srem k ms).
Proof. unfold RedisService.srem. quiet_tac. Qed.

Lemma quiet_smembers k : quiet (RedisService.smembers k).
Proof. unfold RedisService.smembers. quiet_tac. Qed.

#[local] Hint Resolve quiet_get quiet_set quiet_incr quiet_expire quiet_del quiet_setWithExpiry
  quiet_sadd quiet_srem quiet_smembers : quiet.

Lemma quiet_checkRateLimit info : quiet (RateLimitService.checkRateLimit info).
Proof.
  unfold RateLimitService.checkRateLimit, RateLimitService.getCurrentCount, Date_now.
  quiet_tac.
Qed.

Lemma quiet_recordRequest info : quiet (RateLimitService.recordRequest info).
Proof.
  unfold RateLimitService.recordRequest, RateLimitService.incrementCount, Date_now.
  quiet_tac.
Qed.

#[local] Hint Resolve quiet_checkRateLimit quiet_recordRequest : quiet.

Section QuietSessions.

Context `{Runtime}.
Variable cfg : SessionConfig.

Lemma quiet_deleteSession_with (getSession : string -> M (option SessionData)) sid :
  (forall sid', quiet (getSession sid')) ->
  quiet (SessionService.deleteSession_with getSession sid).
Proof. intros Hg. unfold SessionService.deleteSession_with. quiet_tac. Qed.

Lemma quiet_getSession (fuel : nat) : forall sid, quiet (SessionService.getSession cfg fuel sid).
Proof.
  induction fuel as [|fuel IH]; intros sid; [intros w; exact I|].
  cbn [SessionService.getSession]. unfold Date_now.
  pose proof (fun s => quiet_deleteSession_with _ s IH). quiet_tac.
Qed.

Lemma quiet_countValid (fuel : nat) ipKey ids : forall acc,
  quiet (SessionService.countValid cfg fuel ipKey ids acc).
Proof.
  pose proof (quiet_getSession fuel).
  induction ids as [|sid ids IH]; intros acc; cbn [SessionService.countValid]; quiet_tac.
Qed.

Lemma quiet_createSession (fuel : nat) options :
  quiet (SessionService.createSession cfg fuel options).
Proof.
  pose proof (quiet_countValid fuel).
  unfold SessionService.createSession, SessionService.getSessionCountByIP, Date_now.
  quiet_tac.
Qed.

Lemma quiet_validateSession (fuel : nat) sid address :
  quiet (SessionService.validateSession cfg fuel sid address).
Proof.
  pose proof (quiet_getSession fuel).
  unfold SessionService.validateSession. quiet_tac.
Qed.

Lemma quiet_updateSession (fuel : nat) sid updates :
  quiet (SessionService.updateSession cfg fuel sid updates).
Proof.
  pose proof (quiet_getSession fuel).
  unfold SessionService.updateSession, Date_now. quiet_tac.
Qed.

Lemma quiet_incrementMessageCount (fuel : nat) sid :
  quiet (SessionService.incrementMessageCount cfg fuel sid).
Proof.
  pose proof (quiet_getSession fuel). pose proof (quiet_updateSession fuel).
  unfold SessionService.incrementMessageCount, Date_now. quiet_tac.
Qed.

End QuietSessions.

(** ** Reasoning about settled calls *)

Lemma wp_ret {A} (a : A) Q w : Q (inl a) w -> wp (ret a) Q w.
Proof. exact id. Qed.

Lemma wp_throw {A} (e : string) (Q : A + string -> world -> Prop) w :
  Q (inr e) w -> wp (throw e) Q w.
Proof. exact id. Qed.

Lemma wp_bind {A B} (c : M A) (k : A -> M B) Qc Q w :
  wp c Qc w ->
  (forall a w', Qc (inl a) w' -> wp (k a) Q w') ->
  (forall e w', Qc (inr e) w' -> Q (inr e) w') ->
  wp (bind c k) Q w.
Proof.
  unfold wp, bind. intros Hc Hk He.
  destruct (c w) as [a w1|e w1|]; [now apply Hk|now apply He|exact I].
Qed.

Lemma wp_try_catch {A} (body : M A) (handler : string -> M A) Qb Q w :
  wp body Qb w ->
  (forall a w', Qb (inl a) w' -> Q (inl a) w') ->
  (forall e w', Qb (inr e) w' -> wp (handler e) Q w') ->
  wp (try_catch body handler) Q w.
Proof.
  unfold wp, try_catch. intros Hb Hr Hh.
  destruct (body w) as [a w1|e w1|]; [now apply Hr|now apply Hh|exact I].
Qed.

Lemma wp_quiet {A} (c : M A) w : quiet c -> wp c (fun _ w' => unheard w w') w.
Proof. intros Hq. unfold wp. specialize (Hq w). now destruct (c w). Qed.

Lemma wp_emit (client : Socket) (ev : string) (b : payload) Q w :
  Q (inl tt) (set_emitted (emitted w ++ [{| to := sock_id client; event := ev; body := b |}]) w) ->
  wp (ChatGateway.emit client ev b) Q w.
Proof. exact id. Qed.

Lemma wp_sendErrorToClient (client : Socket) (code message : string) Q w :
  Q (inl tt) (set_emitted (emitted w ++ [error_emission client code message (clock w)]) w) ->
  wp (ChatGateway.sendErrorToClient client code message) Q w.
Proof. exact id. Qed.

Lemma wp_sendErrorToClient_exact (client : Socket) (code message : string) w :
  wp (ChatGateway.sendErrorToClient client code message)
     (fun r w' =>
        r = inl tt /\
        w' = set_emitted (emitted w ++ [error_emission client code message (clock w)]) w) w.
Proof. split; reflexivity. Qed.

Lemma wp_emit_exact (client : Socket) (ev : string) (b : payload) w :
  wp (ChatGateway.emit client ev b)
     (fun r w' =>
        r = inl tt /\
        w' = set_emitted (emitted w ++ [{| to := sock_id client; event := ev; body := b |}]) w) w.
Proof. split; reflexivity. Qed.

Lemma wp_modify_exact (f : world -> world) w :
  wp (modify f) (fun r w' => r = inl tt /\ w' = f w) w.
Proof. split; reflexivity. Qed.

Lemma grows_refl (w : world) : grows w w [].
Proof. split; [now rewrite app_nil_r|reflexivity]. Qed.

Lemma grows_unheard (w0 w w' : world) (new : list emission) :
  grows w0 w new -> unheard w w' -> grows w0 w' new.
Proof. intros [? ?] [? ?]. split; congruence. Qed.

Lemma grows_emit (w0 w : world) (new : list emission) (e : emission) :
  grows w0 w new -> grows w0 (set_emitted (emitted w ++ [e]) w) (new ++ [e]).
Proof. intros [E P]. split; cbn; [rewrite E; now rewrite app_assoc|exact P]. Qed.

Lemma grows_clients (w0 w : world) (new : list emission) m :
  grows w0 w new -> grows w0 (set_connectedClients m w) new.
Proof. intros [E P]. split; assumption. Qed.

Lemma terminating_error (client : Socket) code message now :
  terminating (sock_id client) (error_emission client code message now) = true.
Proof. unfold terminating. cbn. now rewrite String.eqb_refl. Qed.

Lemma terminating_final (client : Socket) sid token sources toolCalls :
  terminating (sock_id client) (final_emission client sid token sources toolCalls) = true.
Proof. unfold terminating. cbn. now rewrite String.eqb_refl. Qed.

Lemma ends_with_error (client : Socket) pre code message now :
  ends_terminating (sock_id client) (pre ++ [error_emission client code message now]).
Proof. exists pre, (error_emission client code message now). auto using terminating_error. Qed.

(** ** The chat relay *)

Section Relay.

Context `{Runtime}.
Variable sessionConfig : SessionConfig.
Variable rateLimitConfig : RateLimitConfig.

Lemma handleChatMessage_spec (fuel : nat) (agent : grpc_outcome) (data : ChatRequest)
    (client : Socket) (w : world) :
  wp (ChatGateway.handleChatMessage sessionConfig rateLimitConfig fuel agent data client)
     (fun r w' =>
        r = inl tt /\
        exists new, grows w w' new /\
                    outcome_shape agent client (req_sessionId data) new) w.
Proof.
  unfold ChatGateway.handleChatMessage.
  eapply wp_try_catch with
    (Qb := fun r w' =>
             match r with
             | inl _ => exists new, grows w w' new /\
                                    outcome_shape agent client (req_sessionId data) new
             | inr _ => grows w w' [] \/
                        (grows w w' [typing_indicator client (req_sessionId data)] /\
                         exists message, agent = GrpcError message)
             end).
  3:{ intros e w' [Hg|[Hg [message Ha]]]; apply wp_sendErrorToClient; (split; [reflexivity|]);
        eexists; (split; [apply grows_emit, Hg|]).
      - apply shape_refused.
      - now apply (shape_failed _ _ _ message). }
  2:{ intros [] w' Hn. split; [reflexivity|exact Hn]. }
  destruct (negb (truthy (req_message data)) || negb (truthy (req_sessionId data))).
  { apply wp_sendErrorToClient. eexists. split; [apply grows_emit, grows_refl|].
    apply shape_refused. }
  eapply wp_bind; [apply wp_quiet, quiet_getSession| |].
  2:{ intros e w1 Hu1. left. eapply grows_unheard; [apply grows_refl|exact Hu1]. }
  intros session w1 Hu1.
  assert (Hg1 : grows w w1 []) by (eapply grows_unheard; [apply grows_refl|exact Hu1]).
  eapply wp_bind with
    (Qc := fun r w' =>
             match r with
             | inl true => grows w w' []
             | inl false => exists code message t,
                              grows w w' [error_emission client code message t]
             | inr _ => grows w w' []
             end).
  3:{ intros e w' He. left. exact He. }
  - destruct session as [sd|].
    + eapply wp_bind; [apply wp_quiet, quiet_validateSession| |].
      2:{ intros e w2 Hu2. eapply grows_unheard; eassumption. }
      intros valid w2 Hu2.
      assert (Hg2 : grows w w2 []) by (eapply grows_unheard; eassumption).
      destruct valid; cbn [negb]; [apply wp_ret; exact Hg2|].
      eapply wp_bind; [apply wp_sendErrorToClient_exact| |].
      * intros [] w3 [_ ->]. apply wp_ret. do 3 eexists. apply (grows_emit w w2 []), Hg2.
      * intros e w3 [E _]. discriminate.
    + eapply wp_try_catch with
        (Qb := fun r w' => unheard w1 w' /\
                           match r with inl b => b = true | inr _ => True end).
      * eapply wp_bind; [apply wp_quiet, quiet_createSession| |].
        -- intros sd w2 Hu2. apply wp_ret. split; [exact Hu2|reflexivity].
        -- intros e w2 Hu2. split; [exact Hu2|exact I].
      * intros b w2 [Hu2 ->]. eapply grows_unheard; eassumption.
      * intros e w2 [Hu2 _].
        assert (Hg2 : grows w w2 []) by (eapply grows_unheard; eassumption).
        eapply wp_bind; [apply wp_sendErrorToClient_exact| |].
        -- intros [] w3 [_ ->]. apply wp_ret. do 3 eexists. apply (grows_emit w w2 []), Hg2.
        -- intros e' w3 [E _]. discriminate.
  - intros proceed w2 Hq. destruct proceed; cbn [negb].
    2:{ apply wp_ret. destruct Hq as (code & message & t & Hg).
        eexists. split; [exact Hg|apply shape_refused]. }
    eapply wp_bind; [apply wp_quiet, quiet_checkRateLimit| |].
    2:{ intros e w3 Hu3. left. eapply grows_unheard; eassumption. }
    intros messageRateLimit w3 Hu3.
    assert (Hg3 : grows w w3 []) by (eapply grows_unheard; eassumption).
    destruct (negb (allowed messageRateLimit)).
    { apply wp_sendErrorToClient. eexists. split; [apply grows_emit, Hg3|].
      apply shape_refused. }
    eapply wp_bind; [apply wp_quiet, quiet_recordRequest| |].
    2:{ intros e w4 Hu4. left. eapply grows_unheard; eassumption. }
    intros [] w4 Hu4.
    assert (Hg4 : grows w w4 []) by (eapply grows_unheard; eassumption).
    eapply wp_bind.
    { apply wp_quiet. apply quiet_try_catch; [|intros; apply quiet_ret].
      apply quiet_bind; [apply quiet_incrementMessageCount|intros; apply quiet_ret]. }
    2:{ intros e w5 Hu5. left. eapply grows_unheard; eassumption. }
    intros [] w5 Hu5.
    assert (Hg5 : grows w w5 []) by (eapply grows_unheard; eassumption).
    eapply wp_bind; [apply wp_modify_exact| |].
    2:{ intros e w6 [E _]. discriminate. }
    intros [] w6 [_ ->].
    eapply wp_bind; [apply wp_emit_exact| |].
    2:{ intros e w7 [E _]. discriminate. }
    intros [] w7 [_ ->].
    set (w6 := set_connectedClients _ w5).
    assert (Hg7 : grows w
                    (set_emitted
                       (emitted w6 ++ [typing_indicator client (req_sessionId data)]) w6)
                    [typing_indicator client (req_sessionId data)]).
    { apply (grows_emit w w6 []). apply grows_clients, Hg5. }
    fold (typing_indicator client (req_sessionId data)).
    destruct agent as [message|response session_id sources tool_calls|].
    + cbn [AgentService.sendMessage]. eapply wp_bind; [apply wp_throw| |].
      * instantiate (1 := fun r w' => r = inr message /\ w' = _). split; reflexivity.
      * intros a w8 [E _]. discriminate.
      * intros e w8 [_ ->]. right. split; [exact Hg7|eauto].
    + cbn [AgentService.sendMessage]. eapply wp_bind; [apply wp_ret| |].
      * instantiate (1 := fun r w' => r = inl _ /\ w' = _). split; reflexivity.
      * intros a w8 [[= ->] ->]. cbn [res_response res_sources res_toolCalls].
        destruct (truthy response) eqn:Hr.
        -- apply wp_emit. eexists. split; [apply grows_emit, Hg7|].
           apply (shape_answered _ _ _ response session_id sources tool_calls);
             [reflexivity|now apply truthy_spec].
        -- apply wp_ret. eexists. split; [exact Hg7|]. apply shape_unanswered.
           exists session_id, sources, tool_calls. f_equal.
           destruct response; [reflexivity|discriminate].
      * intros e w8 [E _]. discriminate.
    + exact I.
Qed.

End Relay.

(** ** When the handler settles *)

Section Settling.

Context `{Runtime}.
Variable cfg : SessionConfig.

Lemma shrinks_refl (w : world) : shrinks w w.
Proof. repeat split; auto. Qed.

Lemma shrinks_trans (w1 w2 w3 : world) : shrinks w1 w2 -> shrinks w2 w3 -> shrinks w1 w3.
Proof.
  intros (? & ? & ? & H12) (? & ? & ? & H23). repeat split; try congruence.
  intros sid s Hs. auto.
Qed.

Lemma tame_shrinks (w w' : world) : tame cfg w -> shrinks w w' -> tame cfg w'.
Proof.
  intros Ht (Hc & Hcl & Ho & Hs) sid (Hup & sd & (str & j & Hstr & Hrest) & He).
  apply (Ht sid). split.
  - destruct Hup. split; congruence.
  - exists sd. split; [|now rewrite <- Hc]. exists str, j. split; auto.
Qed.

(** A change of the key space that removes texts, or writes a set. *)
Lemma shrinks_store (w : world) (ks : gmap string rentry) :
  (forall k e, lookup_live (clock w) ks k = Some e ->
               (exists e0, lookup_live (clock w) (keyspace (store w)) k = Some e0 /\
                           rval e0 = rval e) \/
               (forall sid, k <> SessionService.getSessionKey sid) \/
               exists s, rval e = RSet s) ->
  shrinks w (set_store (with_keyspace ks (store w)) w).
Proof.
  intros Hk. repeat split. intros sid s. unfold string_at. cbn.
  destruct (lookup_live (clock w) ks _) as [e|] eqn:El; [|discriminate].
  destruct (Hk _ _ El) as [(e0 & E & Ev)|[Hn|[s' E]]].
  - now rewrite E, Ev.
  - now destruct (Hn sid).
  - rewrite E. discriminate.
Qed.

Lemma lookup_live_insert (now : Z) (ks : gmap string rentry) (k k' : string) (e : rentry) :
  lookup_live now (<[k := e]> ks) k'
  = if decide (k = k') then (if live now e then Some e else None) else lookup_live now ks k'.
Proof.
  unfold lookup_live. rewrite lookup_insert. now destruct (decide (k = k')).
Qed.

Lemma lookup_live_delete (now : Z) (ks : gmap string rentry) (k k' : string) :
  lookup_live now (delete k ks) k'
  = if decide (k = k') then None else lookup_live now ks k'.
Proof.
  unfold lookup_live. rewrite lookup_delete. now destruct (decide (k = k')).
Qed.

Lemma kept (now : Z) (ks : gmap string rentry) (k : string) (e : rentry) (P Q : Prop) :
  lookup_live now ks k = Some e ->
  (exists e0, lookup_live now ks k = Some e0 /\ rval e0 = rval e) \/ P \/ Q.
Proof. intros E. left. eauto. Qed.

Lemma down_cases (w : world) : ~ up w -> client w = false \/ online w = false.
Proof.
  unfold up. intros Hdown. destruct (client w), (online w); auto. now destruct Hdown.
Qed.

Lemma srem_settles (w : world) (k : string) (ms : list string) :
  exists n w', RedisService.srem k ms w = Returned n w' /\ shrinks w w'.
Proof.
  destruct (classic_up w) as [Hup|Hdown].
  2:{ exists 0, w. split; [|apply shrinks_refl]. now apply unavailable_defaults, down_cases. }
  rewrite (srem_up _ _ _ Hup). unfold Command.SREM.
  destruct ms as [|m ms]; [eauto using shrinks_refl|].
  destruct (lookup_live _ _ k) as [[[v|s] e]|] eqn:El; cbn;
    try (rewrite ?set_store_same; eauto using shrinks_refl).
  eexists. eexists. split; [reflexivity|]. apply shrinks_store. intros k' e'.
  destruct (decide (_ = ∅)).
  - rewrite lookup_live_delete. destruct (decide (k = k')); [discriminate|apply kept].
  - rewrite lookup_live_insert. destruct (decide (k = k')); [|apply kept].
    destruct (live _ _); [|discriminate]. intros [= <-]. right. right. eauto.
Qed.

Lemma sadd_settles (w : world) (k : string) (ms : list string) :
  exists n w', RedisService.sadd k ms w = Returned n w' /\ shrinks w w'.
Proof.
  destruct (classic_up w) as [Hup|Hdown].
  2:{ exists 0, w. split; [|apply shrinks_refl]. now apply unavailable_defaults, down_cases. }
  rewrite (sadd_up _ _ _ Hup). unfold Command.SADD.
  destruct ms as [|m ms]; [eauto using shrinks_refl|].
  destruct (lookup_live _ _ k) as [[[v|s] e]|] eqn:El; cbn;
    try (rewrite ?set_store_same; eauto using shrinks_refl).
  - eexists. eexists. split; [reflexivity|]. apply shrinks_store. intros k' e'.
    rewrite lookup_live_insert. destruct (decide (k = k')); [|apply kept].
    destruct (live _ _); [|discriminate]. intros [= <-]. right. right. eauto.
  - eexists. eexists. split; [reflexivity|]. apply shrinks_store. intros k' e'.
    rewrite lookup_live_insert. destruct (decide (k = k')); [|apply kept].
    destruct (live _ _); [|discriminate]. intros [= <-]. right. right. eauto.
Qed.

Lemma expire_settles (w : world) (k : string) (t : Z) :
  exists b w', RedisService.expire k t w = Returned b w' /\ shrinks w w'.
Proof.
  destruct (classic_up w) as [Hup|Hdown].
  2:{ exists false, w. split; [|apply shrinks_refl].
      now apply unavailable_defaults, down_cases. }
  rewrite (expire_up _ _ _ Hup). unfold Command.EXPIRE.
  destruct (lookup_live _ _ k) as [e|] eqn:El; cbn;
    try (rewrite ?set_store_same; eauto using shrinks_refl).
  destruct (t <=? 0).
  - eexists. eexists. split; [reflexivity|]. apply shrinks_store. intros k' e'.
    rewrite lookup_live_delete. destruct (decide (k = k')); [discriminate|apply kept].
  - eexists. eexists. split; [reflexivity|]. apply shrinks_store. intros k' e'.
    rewrite lookup_live_insert. destruct (decide (k = k')) as [<-|]; [|apply kept].
    destruct (live _ _); [|discriminate]. intros [= <-]. left. eauto.
Qed.

Lemma incr_settles (w : world) (k : string) :
  (forall sid, k <> SessionService.getSessionKey sid) ->
  exists n w', RedisService.incr k w = Returned n w' /\ shrinks w w'.
Proof.
  intros Hk. destruct (classic_up w) as [[C O]|Hdown].
  2:{ exists 0, w. split; [|apply shrinks_refl]. now apply unavailable_defaults, down_cases. }
  unfold RedisService.incr. run. rewrite C; cbn. rewrite C, O; cbn. unfold Command.INCR.
  destruct (lookup_live _ _ k) as [[[v|s] e]|] eqn:El; cbn;
    try destruct (parseInt v); try (eauto using shrinks_refl).
  - eexists. eexists. split; [reflexivity|]. apply shrinks_store. intros k' e'.
    rewrite lookup_live_insert. destruct (decide (k = k')) as [<-|]; [|apply kept].
    intros _. right. left. exact Hk.
  - eexists. eexists. split; [reflexivity|]. apply shrinks_store. intros k' e'.
    rewrite lookup_live_insert. destruct (decide (k = k')) as [<-|]; [|apply kept].
    intros _. right. left. exact Hk.
Qed.

Lemma get_settles (w : world) (k : string) :
  exists v, RedisService.get k w = Returned v w.
Proof.
  destruct (classic_up w) as [Hup|Hdown].
  - rewrite (get_up _ _ Hup). eauto.
  - rewrite (get_down _ _ Hdown). eauto.
Qed.

Lemma smembers_settles (w : world) (k : string) :
  exists l, RedisService.smembers k w = Returned l w.
Proof.
  destruct (classic_up w) as [Hup|Hdown].
  2:{ exists []. now apply unavailable_defaults, down_cases. }
  rewrite (smembers_up _ _ Hup). unfold Command.SMEMBERS.
  destruct (lookup_live _ _ k) as [[[v|s] e]|]; cbn; rewrite ?set_store_same; eauto.
Qed.

Lemma getSession_settles (w : world) (sid : string) (fuel : nat) :
  tame cfg w -> exists r, SessionService.getSession cfg (S fuel) sid w = Returned r w.
Proof.
  intros Ht. cbn [SessionService.getSession]. run.
  destruct (classic_up w) as [Hup|Hdown].
  2:{ rewrite (get_down _ _ Hdown). eauto. }
  rewrite (get_up _ _ Hup).
  destruct (string_at w _) as [str|] eqn:Hs; [|eauto].
  destruct (truthy str) eqn:Htr; cbn; [|eauto].
  destruct (JSON_parse str) as [j|] eqn:Hp; [|eauto].
  destruct (sessionOfJson j) as [sd|] eqn:Hj; [|eauto].
  destruct (SessionService.expired cfg (clock w) sd) eqn:He; [|eauto].
  destruct (Ht sid). split; [exact Hup|]. exists sd. split; [|exact He].
  exists str, j. auto.
Qed.

Lemma countValid_settles (ipKey : string) (fuel : nat) (ids : list string) :
  forall (w : world) (acc : Z),
    tame cfg w ->
    exists n w', SessionService.countValid cfg (S fuel) ipKey ids acc w = Returned n w' /\
                 shrinks w w'.
Proof.
  induction ids as [|sid ids IH]; intros w acc Ht.
  - exists acc, w. split; [reflexivity|apply shrinks_refl].
  - cbn [SessionService.countValid]. unfold bind.
    destruct (getSession_settles w sid fuel Ht) as [r ->].
    destruct r as [sd|]; [apply IH, Ht|].
    destruct (srem_settles w ipKey [sid]) as (n & w1 & -> & Hs1).
    destruct (IH w1 acc (tame_shrinks _ _ Ht Hs1)) as (n' & w2 & -> & Hs2).
    eauto using shrinks_trans.
Qed.

Lemma tame_put_session (w : world) (sid text : string) (exp : option Z) :
  tame cfg w -> benign cfg (clock w) text ->
  tame cfg (put (SessionService.getSessionKey sid) {| rval := RString text; expireAt := exp |} w).
Proof.
  intros Ht Hb sid' (Hup & sd & (str & j & Hstr & Htr & Hp & Hj) & He).
  cbn [clock put set_store] in He.
  destruct (decide (SessionService.getSessionKey sid = SessionService.getSessionKey sid'))
    as [E|Hne].
  - rewrite <- E in Hstr. unfold string_at, lookup_live, put in Hstr. cbn in Hstr.
    rewrite lookup_insert_eq in Hstr. destruct (live _ _); [|discriminate].
    cbn in Hstr. injection Hstr as <-. rewrite (Hb j sd Hp Hj) in He. discriminate.
  - rewrite string_at_put_ne in Hstr by assumption.
    apply (Ht sid'). split; [exact Hup|]. exists sd. split; [|exact He].
    exists str, j. auto.
Qed.

Lemma setWithExpiry_cases (w : world) (k v : string) (t : Z) :
  RedisService.setWithExpiry k v t w
  = Returned tt (put k {| rval := RString v; expireAt := Some (clock w + t * 1000) |} w)
  \/ RedisService.setWithExpiry k v t w = Returned tt w.
Proof.
  destruct (classic_up w) as [Hup|Hdown].
  2:{ right. now apply unavailable_defaults, down_cases. }
  destruct (Z.lt_ge_cases 0 t) as [Hpos|Hneg].
  - left. now apply setWithExpiry_up.
  - right. destruct Hup as [C O]. unfold RedisService.setWithExpiry. run.
    rewrite C; cbn. rewrite C, O; cbn. unfold Command.SETEX.
    destruct (Z.leb_spec t 0); [reflexivity|lia].
Qed.

(** [createSession] settles, by returning or by throwing, and leaves no
    stale session behind. *)
Lemma createSession_settles (w : world) (options : SessionCreateOptions) (fuel : nat) :
  tame cfg w ->
  benign cfg (clock w)
    (JSON_stringify
       (sessionToJson
          {| sessionId := opt_sessionId options; createdAt := clock w;
             lastActivity := clock w; ipAddress := opt_ipAddress options;
             userAgent := opt_userAgent options; messageCount := 0; isActive := true |})) ->
  exists w',
    tame cfg w' /\
    ((exists sd, SessionService.createSession cfg (S fuel) options w = Returned sd w') \/
     (exists e, SessionService.createSession cfg (S fuel) options w = Thrown e w')).
Proof.
  intros Ht Hb.
  unfold SessionService.createSession, SessionService.getSessionCountByIP.
  unfold try_catch, bind, Date_now, gets.
  destruct (smembers_settles w (SessionService.getIPKey (opt_ipAddress options))) as [ids ->].
  destruct (countValid_settles (SessionService.getIPKey (opt_ipAddress options)) fuel ids w 0 Ht)
    as (n & w1 & -> & Hs1).
  pose proof (tame_shrinks _ _ Ht Hs1) as Ht1.
  destruct (n >=? maxSessionsPerIP cfg).
  { exists w1. split; [exact Ht1|]. right. eauto. }
  assert (Hclock1 : clock w1 = clock w) by apply Hs1.
  set (text := JSON_stringify _) in *.
  assert (exists w2, RedisService.setWithExpiry
                       (SessionService.getSessionKey (opt_sessionId options)) text (ttl cfg) w1
                     = Returned tt w2 /\ tame cfg w2) as (w2 & -> & Ht2).
  { destruct (setWithExpiry_cases w1 (SessionService.getSessionKey (opt_sessionId options))
                text (ttl cfg)) as [E|E]; rewrite E; eexists; split; try reflexivity.
    - apply tame_put_session; [exact Ht1|]. now rewrite Hclock1.
    - exact Ht1. }
  destruct (sadd_settles w2 (SessionService.getIPKey (opt_ipAddress options))
              [opt_sessionId options]) as (n3 & w3 & -> & Hs3).
  destruct (expire_settles w3 (SessionService.getIPKey (opt_ipAddress options)) (ttl cfg))
    as (b4 & w4 & -> & Hs4).
  exists w4. split; [|left; eexists; reflexivity].
  eauto using tame_shrinks.
Qed.

Lemma validateSession_settles (w : world) (sid : string) (address : option string)
    (fuel : nat) :
  tame cfg w ->
  exists b, SessionService.validateSession cfg (S fuel) sid address w = Returned b w.
Proof.
  intros Ht. unfold SessionService.validateSession, try_catch, bind.
  destruct (getSession_settles w sid fuel Ht) as [r ->].
  destruct r as [sd|]; [|eauto].
  destruct (negb (isActive sd)); [eauto|].
  destruct address as [ip|]; [|eauto]. destruct (_ && _); eauto.
Qed.

Lemma updateSession_settles (w : world) (sid : string) (updates : SessionUpdateOptions)
    (fuel : nat) :
  tame cfg w ->
  exists r w', SessionService.updateSession cfg (S fuel) sid updates w = Returned r w'.
Proof.
  intros Ht. unfold SessionService.updateSession, try_catch, bind, Date_now, gets.
  destruct (getSession_settles w sid fuel Ht) as [r ->].
  destruct r as [sd|]; [|eauto].
  destruct (extendOnActivity cfg).
  - destruct (setWithExpiry_never_throws (SessionService.getSessionKey sid)
                (JSON_stringify (sessionToJson (SessionService.applyUpdates (clock w) sd updates)))
                (ttl cfg) w) as (a & w' & ->).
    eauto.
  - destruct (set_never_throws (SessionService.getSessionKey sid)
                (JSON_stringify (sessionToJson (SessionService.applyUpdates (clock w) sd updates)))
                None w) as (a & w' & ->).
    eauto.
Qed.

Lemma incrementMessageCount_settles (w : world) (sid : string) (fuel : nat) :
  tame cfg w ->
  SessionService.incrementMessageCount cfg (S fuel) sid w <> Pending.
Proof.
  intros Ht. unfold SessionService.incrementMessageCount, try_catch, bind at 1.
  destruct (getSession_settles w sid fuel Ht) as [r ->].
  destruct r as [sd|]; [|discriminate].
  unfold bind, Date_now, gets.
  destruct (updateSession_settles w sid
              {| upd_lastActivity := Some (clock w);
                 upd_messageCount := Some (messageCount sd + 1);
                 upd_isActive := None |} fuel Ht) as (r & w' & ->).
  discriminate.
Qed.

Lemma checkRateLimit_settles (info : RateLimitInfo) (w : world) :
  exists r, RateLimitService.checkRateLimit info w = Returned r w.
Proof.
  unfold RateLimitService.checkRateLimit, RateLimitService.getCurrentCount.
  unfold try_catch, bind, Date_now, gets.
  destruct (get_settles w (RateLimitService.windowKey (rl_key info)
                             (RateLimitService.windowStartOf (clock w) (rl_rule info))))
    as [v ->].
  unfold ret. eauto.
Qed.

Lemma recordRequest_settles (info : RateLimitInfo) (w : world) :
  (forall ws sid, RateLimitService.windowKey (rl_key info) ws
                  <> SessionService.getSessionKey sid) ->
  exists w', RateLimitService.recordRequest info w = Returned tt w' /\ shrinks w w'.
Proof.
  intros Hk. unfold RateLimitService.recordRequest, RateLimitService.incrementCount.
  unfold try_catch, bind, Date_now, gets.
  destruct (incr_settles w _ (Hk (RateLimitService.windowStartOf (clock w) (rl_rule info))))
    as (n & w1 & -> & Hs1).
  destruct (n =? 1); [|unfold ret; eauto].
  destruct (expire_settles w1
              (RateLimitService.windowKey (rl_key info)
                 (RateLimitService.windowStartOf (clock w) (rl_rule info)))
              (Math_ceil_div (windowMs (rl_rule info)) 1000 + 1)) as (b & w2 & -> & Hs2).
  unfold ret. eauto using shrinks_trans.
Qed.

End Settling.

Section RelaySettles.

Context `{Runtime}.
Variable sessionConfig : SessionConfig.
Variable rateLimitConfig : RateLimitConfig.

Lemma message_key_not_session (sid : string) (ws : Z) (sid' : string) :
  RateLimitService.windowKey (RateLimitService.getWebSocketMessageKey sid) ws
  <> SessionService.getSessionKey sid'.
Proof. cbn. discriminate. Qed.

(** The part of the handler after the session has been resolved. *)
Lemma relay_settles (fuel : nat) (agent : grpc_outcome) (data : ChatRequest)
    (client : Socket) (w : world) (k : M unit) :
  agent <> GrpcNoReply -> tame sessionConfig w ->
  k = (messageRateLimit <-
         RateLimitService.checkWebSocketMessageLimit rateLimitConfig (req_sessionId data) ;;
       if negb (allowed messageRateLimit) then
         ChatGateway.sendErrorToClient client "MESSAGE_RATE_LIMIT"
           ("Too many messages. Try again in "
            +:+ ChatGateway.showRetryAfter (retryAfter messageRateLimit) +:+ " seconds.")
       else
         RateLimitService.recordWebSocketMessage rateLimitConfig (req_sessionId data) ;;;
         try_catch
           (SessionService.incrementMessageCount sessionConfig (S fuel) (req_sessionId data) ;;;
            ret tt)
           (fun _ => ret tt) ;;;
         modify (fun w =>
           set_connectedClients
             (<[sock_id client := req_sessionId data]> (connectedClients w)) w) ;;;
         ChatGateway.emit client "chat"
           (ChatPayload {| cm_sessionId := req_sessionId data; cm_token := EmptyString;
                           cm_done := false; cm_sources := None; cm_toolCalls := None |}) ;;;
         response <- AgentService.sendMessage agent data ;;
         if truthy (res_response response) then
           ChatGateway.emit client "chat"
             (ChatPayload {| cm_sessionId := req_sessionId data;
                             cm_token := res_response response;
                             cm_done := true;
                             cm_sources := Some (res_sources response);
                             cm_toolCalls := Some (res_toolCalls response) |})
         else ret tt) ->
  k w <> Pending.
Proof.
  intros Hagent Ht ->.
  unfold RateLimitService.checkWebSocketMessageLimit, RateLimitService.recordWebSocketMessage.
  unfold bind at 1.
  destruct (checkRateLimit_settles
              {| rl_key := RateLimitService.getWebSocketMessageKey (req_sessionId data);
                 rl_rule := cfg_messagesPerSession rateLimitConfig;
                 rl_identifier := req_sessionId data; rl_type := "websocket" |} w) as [r ->].
  destruct (negb (allowed r)); [discriminate|].
  unfold bind at 1.
  destruct (recordRequest_settles
              {| rl_key := RateLimitService.getWebSocketMessageKey (req_sessionId data);
                 rl_rule := cfg_messagesPerSession rateLimitConfig;
                 rl_identifier := req_sessionId data; rl_type := "websocket" |} w
              (message_key_not_session (req_sessionId data))) as (w1 & -> & Hs1).
  pose proof (tame_shrinks _ _ _ Ht Hs1) as Ht1.
  unfold bind at 1, try_catch, bind at 1.
  pose proof (incrementMessageCount_settles sessionConfig w1 (req_sessionId data) fuel Ht1)
    as Hinc.
  destruct (SessionService.incrementMessageCount sessionConfig (S fuel) (req_sessionId data) w1)
    as [n w2|e w2|]; [| |contradiction].
  - unfold ret at 1. unfold bind, modify, ChatGateway.emit, modify.
    destruct agent; cbn; [discriminate| |contradiction].
    unfold ret. destruct (truthy response); discriminate.
  - unfold ret at 1. unfold bind, modify, ChatGateway.emit, modify.
    destruct agent; cbn; [discriminate| |contradiction].
    unfold ret. destruct (truthy response); discriminate.
Qed.

(** The handler settles when the inference call answers or fails, no
    session of the store is stale, and the record of a new session reads
    back as unexpired. *)
Lemma handleChatMessage_settles (fuel : nat) (agent : grpc_outcome) (data : ChatRequest)
    (client : Socket) (w : world) :
  agent <> GrpcNoReply -> tame sessionConfig w ->
  benign sessionConfig (clock w)
    (JSON_stringify (sessionToJson (first_record (clock w) data client))) ->
  ChatGateway.handleChatMessage sessionConfig rateLimitConfig (S fuel) agent data client w
  <> Pending.
Proof.
  intros Hagent Ht Hb. unfold ChatGateway.handleChatMessage.
  assert (Hcatch : forall (body : M unit),
             body w <> Pending ->
             try_catch body
               (fun _ => ChatGateway.sendErrorToClient client "AGENT_ERROR"
                           "Failed to process chat message") w <> Pending).
  { intros body Hbody. unfold try_catch. destruct (body w); [discriminate|discriminate|].
    contradiction. }
  apply Hcatch.
  destruct (negb (truthy (req_message data)) || negb (truthy (req_sessionId data)));
    [discriminate|].
  unfold bind at 1.
  destruct (getSession_settles sessionConfig w (req_sessionId data) fuel Ht) as [r ->].
  destruct r as [sd|].
  - unfold bind at 1, bind at 1.
    destruct (validateSession_settles sessionConfig w (req_sessionId data)
                (Some (ChatGateway.getClientIP client)) fuel Ht) as [b ->].
    destruct b; cbn [negb].
    + unfold ret at 1. cbn [negb].
      eapply relay_settles; [exact Hagent|exact Ht|reflexivity].
    + discriminate.
  - unfold bind at 1, try_catch, bind at 1.
    destruct (createSession_settles sessionConfig w
                {| opt_sessionId := req_sessionId data;
                   opt_ipAddress := ChatGateway.getClientIP client;
                   opt_userAgent := default "Unknown"
                                      (ChatGateway.truthy_opt (hdr_user_agent client)) |}
                fuel Ht Hb) as (w' & Ht' & [[sd ->]|[e ->]]).
    + unfold ret at 1. cbn [negb].
      eapply relay_settles; [exact Hagent|exact Ht'|reflexivity].
    + discriminate.
Qed.

End RelaySettles.

(** ** What the client receives *)

Lemma outcome_shape_terminating (agent : grpc_outcome) (client : Socket) (sid : string)
    (new : list emission) :
  outcome_shape agent client sid new ->
  ends_terminating (sock_id client) new \/
  (empty_answer agent /\ new = [typing_indicator client sid]).
Proof.
  intros [code message t|response session_id sources tool_calls Ha Hr|He|message t Ha].
  - left. exists [], (error_emission client code message t).
    split; [reflexivity|apply terminating_error].
  - left. exists [typing_indicator client sid],
                 (final_emission client sid response sources tool_calls).
    split; [reflexivity|apply terminating_final].
  - right. split; [exact He|reflexivity].
  - left. exists [typing_indicator client sid],
                 (error_emission client "AGENT_ERROR" "Failed to process chat message" t).
    split; [reflexivity|apply terminating_error].
Qed.

Lemma outcome_shape_direct (agent : grpc_outcome) (client : Socket) (sid : string)
    (new : list emission) :
  outcome_shape agent client sid new -> Forall (fun e => to e = sock_id client) new.
Proof.
  intros [code message t|response session_id sources tool_calls Ha Hr|He|message t Ha];
    repeat (apply Forall_cons_2; [reflexivity|]); apply Forall_nil_2.
Qed.

Lemma benign_of_parse `{Runtime} (cfg : SessionConfig) (now : Z) (text : string)
    (j : json) (sd : SessionData) :
  JSON_parse text = Some j -> sessionOfJson j = Some sd ->
  SessionService.expired cfg now sd = false -> benign cfg now text.
Proof. intros Hp Hj He j' sd' Hp' Hj'. congruence. Qed.

Lemma fresh_world_tame `{Runtime} (cfg : SessionConfig) (t : Z) : tame cfg (fresh_world t).
Proof.
  intros sid (_ & sd & (str & j & Hs & _) & _).
  unfold string_at, lookup_live in Hs. cbn in Hs. now rewrite lookup_empty in Hs.
Qed.

(** C4, counterexample: the message is valid, the session is created, the
    quota admits it, and the inference call answers with an empty text.  The
    handler returns after the typing indicator ([done = false]); the client
    receives no terminating message. *)
Lemma handler_silent_on_empty_answer :
  exists w',
    ChatGateway.handleChatMessage (H := SampleRuntime.runtime) DEFAULT_SESSION_CONFIG
      DEFAULT_RATE_LIMIT_CONFIG 1 empty_reply hello browser (fresh_world 1000)
    = Returned tt w' /\
    emitted w' = [typing_indicator browser "s1"] /\
    existsb (terminating "socket-1") (emitted w') = false.
Proof. eexists. split; [vm_compute; reflexivity|]. split; vm_compute; reflexivity. Qed.

(** The inference call carries no deadline: when the agent never replies,
    the handler stays pending after the typing indicator, whatever the fuel. *)
Lemma handler_waits_without_deadline (fuel : nat) :
  ChatGateway.handleChatMessage (H := SampleRuntime.runtime) DEFAULT_SESSION_CONFIG
    DEFAULT_RATE_LIMIT_CONFIG fuel GrpcNoReply hello browser (fresh_world 1000)
  = Pending.
Proof. destruct fuel; vm_compute; reflexivity. Qed.

(** C4, as amended: [handleChatMessage] never throws, and when it returns
    it has emitted to the requesting client a list of messages that ends
    with a chat message with [done = true] or with an error object, except
    when the inference call answered with an empty response text: then the
    typing indicator is all the client receives.  The handler settles
    whenever the inference call answers or fails, no session of the store is
    stale, and the record of a new session reads back as unexpired (no
    deadline bounds the call, and a stale session makes the lookup loop). *)
Theorem handleChatMessage_terminates_unless_empty_answer `{Runtime}
    (sessionConfig : SessionConfig) (rateLimitConfig : RateLimitConfig) (fuel : nat)
    (agent : grpc_outcome) (data : ChatRequest) (client : Socket) (w : world) :
  match ChatGateway.handleChatMessage sessionConfig rateLimitConfig (S fuel) agent data
          client w with
  | Returned _ w' =>
      exists new,
        emitted w' = (emitted w ++ new)%list /\
        (ends_terminating (sock_id client) new \/
         (empty_answer agent /\ new = [typing_indicator client (req_sessionId data)]))
  | Thrown _ _ => False
  | Pending => True
  end /\
  (agent <> GrpcNoReply -> tame sessionConfig w ->
   benign sessionConfig (clock w)
     (JSON_stringify (sessionToJson (first_record (clock w) data client))) ->
   ChatGateway.handleChatMessage sessionConfig rateLimitConfig (S fuel) agent data client w
   <> Pending).
Proof.
  split; [|apply handleChatMessage_settles].
  pose proof (handleChatMessage_spec sessionConfig rateLimitConfig (S fuel) agent data
                client w) as Hspec.
  unfold wp in Hspec.
  remember (ChatGateway.handleChatMessage sessionConfig rateLimitConfig (S fuel) agent data
              client w) as r eqn:Hr.
  destruct r as [[] w'|e w'|]; [| |exact I].
  - destruct Hspec as (_ & new & [Hg _] & Hshape).
    exists new. split; [exact Hg|]. now apply outcome_shape_terminating.
  - destruct Hspec as [E _]. discriminate.
Qed.

Lemma handleChatMessage_terminates_unless_empty_answer_witness :
  ChatGateway.handleChatMessage (H := SampleRuntime.runtime) DEFAULT_SESSION_CONFIG
    DEFAULT_RATE_LIMIT_CONFIG 1 helpful_reply hello browser (fresh_world 1000)
  <> Pending.
Proof.
  destruct (handleChatMessage_terminates_unless_empty_answer
              (H := SampleRuntime.runtime) DEFAULT_SESSION_CONFIG
              DEFAULT_RATE_LIMIT_CONFIG 0 helpful_reply hello browser (fresh_world 1000))
    as [_ Hsettles].
  apply Hsettles; clear Hsettles.
  - discriminate.
  - apply fresh_world_tame.
  - apply (benign_of_parse _ _ _ (sessionToJson (first_record 1000 hello browser))
             (first_record 1000 hello browser)); vm_compute; reflexivity.
Defined.

(** C5, counterexample: the inference call succeeds, and then fails; in
    both runs the result goes to the socket of the requesting client and
    nothing is published on a channel of the store. *)
Lemma handler_publishes_nothing :
  (exists w',
     ChatGateway.handleChatMessage (H := SampleRuntime.runtime) DEFAULT_SESSION_CONFIG
       DEFAULT_RATE_LIMIT_CONFIG 1 helpful_reply hello browser (fresh_world 1000)
     = Returned tt w' /\
     emitted w' = [typing_indicator browser "s1";
                   final_emission browser "s1" "Hi there" ["cv.pdf"] []] /\
     published (store w') = []) /\
  (exists w',
     ChatGateway.handleChatMessage (H := SampleRuntime.runtime) DEFAULT_SESSION_CONFIG
       DEFAULT_RATE_LIMIT_CONFIG 1 failed_call hello browser (fresh_world 1000)
     = Returned tt w' /\
     emitted w' = [typing_indicator browser "s1";
                   error_emission browser "AGENT_ERROR" "Failed to process chat message" 1000] /\
     published (store w') = []).
Proof.
  split; eexists; (split; [vm_compute; reflexivity|]); split; vm_compute; reflexivity.
Qed.

(** * Further properties *)

(** ** Texts without a colon *)

Lemma append_nil_l (s : string) : EmptyString +:+ s = s.
Proof. reflexivity. Qed.

Lemma append_cons_l (c : ascii) (a s : string) : String c a +:+ s = String c (a +:+ s).
Proof. reflexivity. Qed.

Lemma colon_free_app (a b : string) :
  colon_free (a +:+ b) = colon_free a && colon_free b.
Proof.
  induction a as [|c a IH]; [reflexivity|].
  rewrite append_cons_l. cbn [colon_free]. rewrite IH. now rewrite andb_assoc.
Qed.

Lemma colon_free_uint (d : Decimal.uint) : colon_free (NilEmpty.string_of_uint d) = true.
Proof. induction d; cbn; auto. Qed.

Lemma colon_free_Z_toString (z : Z) : colon_free (Z_toString z) = true.
Proof.
  unfold Z_toString, NilZero.string_of_int, NilZero.string_of_uint.
  destruct (Z.to_int z) as [d|d]; destruct d; cbn; auto using colon_free_uint.
Qed.

(** A text is split in one way at its last colon. *)
Lemma split_last_colon (a b x y : string) :
  colon_free x = true -> colon_free y = true ->
  a +:+ ":" +:+ x = b +:+ ":" +:+ y -> a = b /\ x = y.
Proof.
  intros Hx Hy. revert b.
  induction a as [|c a IH]; intros [|d b] E;
    rewrite ?append_nil_l, ?append_cons_l, ?append_nil_l in E.
  - injection E as E. auto.
  - injection E as _ E. rewrite E, colon_free_app in Hx. cbn in Hx.
    now rewrite andb_false_r in Hx.
  - injection E as _ E. rewrite <- E, colon_free_app in Hy. cbn in Hy.
    now rewrite andb_false_r in Hy.
  - injection E as -> E. destruct (IH b E) as [-> ->]. auto.
Qed.

(** A text is split in one way at its first colon. *)
Lemma split_first_colon (a b x y : string) :
  colon_free a = true -> colon_free b = true ->
  a +:+ ":" +:+ x = b +:+ ":" +:+ y -> a = b /\ x = y.
Proof.
  revert b.
  induction a as [|c a IH]; intros [|d b] Ha Hb E;
    rewrite ?append_nil_l, ?append_cons_l, ?append_nil_l in E; cbn in Ha, Hb.
  - injection E as E. auto.
  - injection E as <- E. discriminate.
  - injection E as -> E. discriminate.
  - injection E as -> E. apply andb_true_iff in Ha as [_ Ha], Hb as [_ Hb].
    destruct (IH b Ha Hb E) as [-> ->]. auto.
Qed.

Lemma colon_free_safeEndpoint (s : string) :
  colon_free (RateLimitService.safeEndpoint s) = true.
Proof.
  induction s as [|c s IH]; cbn; [reflexivity|]. rewrite IH, andb_true_r.
  destruct (RateLimitService.alphanumeric c) eqn:E; [|reflexivity].
  destruct (Ascii.eqb_spec c ":"%char) as [->|]; [discriminate|reflexivity].
Qed.

Lemma windowKey_inj (k k' : string) (ws ws' : Z) :
  RateLimitService.windowKey k ws = RateLimitService.windowKey k' ws' ->
  k = k' /\ ws = ws'.
Proof.
  unfold RateLimitService.windowKey. intros E.
  apply split_last_colon in E as [-> E]; auto using colon_free_Z_toString.
  now apply Z_toString_inj in E.
Qed.

(** X1: the counters are kept apart.  Two counters of the address, session,
    global, connection and message quotas are stored under the same key only
    when they are of the same kind, for the same identifier and for the same
    window; and none of them shares its key with the counter of an endpoint
    rule. *)
Theorem counters_are_separate (kind kind' : quota) (a b : string) (ws ws' : Z) :
  (RateLimitService.windowKey (quotaKey kind a) ws
   = RateLimitService.windowKey (quotaKey kind' b) ws' ->
   kind = kind' /\ a = b /\ ws = ws') /\
  (forall endpoint,
     RateLimitService.windowKey (quotaKey kind a) ws
     <> RateLimitService.windowKey (RateLimitService.getEndpointKey endpoint b) ws').
Proof.
  split.
  - intros E. apply windowKey_inj in E as [E ->].
    destruct kind, kind'; try discriminate E;
      apply append_inj_l in E; auto.
  - intros endpoint E. apply windowKey_inj in E as [E _].
    destruct kind; discriminate E.
Qed.

(** X2: the counters of two endpoint rules coincide exactly when they are
    for the same identifier and window and the two endpoint keys agree once
    every character that is not a letter or a digit is replaced by an
    underscore. *)
Theorem endpoint_counters_coincide_iff (e e' a b : string) (ws ws' : Z) :
  RateLimitService.windowKey (RateLimitService.getEndpointKey e a) ws
  = RateLimitService.windowKey (RateLimitService.getEndpointKey e' b) ws'
  <-> RateLimitService.safeEndpoint e = RateLimitService.safeEndpoint e' /\ a = b /\ ws = ws'.
Proof.
  split.
  - intros E. apply windowKey_inj in E as [E ->].
    unfold RateLimitService.getEndpointKey in E. apply append_inj_l in E.
    apply split_first_colon in E as [E1 E2]; auto using colon_free_safeEndpoint.
  - intros (E & -> & ->). unfold RateLimitService.getEndpointKey. now rewrite E.
Qed.

(** ** Quotas while the store is unreachable *)

Lemma getCurrentCount_down (w : world) (key : string) (ws W : Z) :
  ~ up w -> RateLimitService.getCurrentCount key ws W w = Returned (Some 0) w.
Proof.
  intros Hdown. unfold RateLimitService.getCurrentCount, bind.
  now rewrite (get_down _ _ Hdown).
Qed.

Lemma checkRateLimit_down (w : world) (info : RateLimitInfo) :
  ~ up w -> 0 < maxRequests (rl_rule info) ->
  exists r, RateLimitService.checkRateLimit info w = Returned r w /\
            allowed r = true /\
            remainingRequests r = maxRequests (rl_rule info) - 1 /\
            retryAfter r = None.
Proof.
  intros Hdown Hmax.
  rewrite (checkRateLimit_of_count info w 0) by now apply getCurrentCount_down.
  eexists. split; [reflexivity|]. cbn.
  destruct (Z.ltb_spec 0 (maxRequests (rl_rule info))); [|lia].
  repeat split. lia.
Qed.

Lemma checkRateLimit_fields_down (w : world) (key : string) (rule : RateLimitRule)
    (identifier type : string) :
  ~ up w -> 0 < maxRequests rule ->
  exists r,
    RateLimitService.checkRateLimit
      {| rl_key := key; rl_rule := rule; rl_identifier := identifier; rl_type := type |} w
    = Returned r w /\ allowed r = true.
Proof.
  intros Hdown Hmax.
  destruct (checkRateLimit_down w
              {| rl_key := key; rl_rule := rule; rl_identifier := identifier; rl_type := type |}
              Hdown Hmax) as (r & E & Ha & _).
  eauto.
Qed.

Lemma recordRequest_down (w : world) (info : RateLimitInfo) :
  ~ up w -> RateLimitService.recordRequest info w = Returned tt w.
Proof.
  intros Hdown.
  unfold RateLimitService.recordRequest, RateLimitService.incrementCount.
  unfold try_catch, bind, Date_now, gets.
  now rewrite (nd_incr _ (unavailable_defaults w (down_cases w Hdown))).
Qed.

Lemma directRule_elem (key : string) (l : list (string * RateLimitRule)) (r : RateLimitRule) :
  RateLimitService.directRule key l = Some r -> exists k, (k, r) ∈ l.
Proof.
  induction l as [|[k r'] l IH]; cbn; [discriminate|].
  destruct (String.eqb k key).
  - intros [= ->]. exists k. left.
  - intros E. destruct (IH E) as [k' Hin]. exists k'. now right.
Qed.

Lemma patternRule_elem (key : string) (l : list (string * RateLimitRule)) (r : RateLimitRule) :
  RateLimitService.patternRule key l = Some r -> exists k, (k, r) ∈ l.
Proof.
  induction l as [|[k r'] l IH]; cbn; [discriminate|].
  destruct (RateLimitService.endsWithStar k) as [pre|].
  - destruct (String.prefix pre key).
    + intros [= ->]. exists k. left.
    + intros E. destruct (IH E) as [k' Hin]. exists k'. now right.
  - intros E. destruct (IH E) as [k' Hin]. exists k'. now right.
Qed.

Lemma getEndpointRule_elem (config : RateLimitConfig) (key : string) (r : RateLimitRule) :
  RateLimitService.getEndpointRule config key = Some r ->
  exists k, (k, r) ∈ cfg_endpoints config.
Proof.
  unfold RateLimitService.getEndpointRule.
  destruct (RateLimitService.directRule key _) as [r'|] eqn:E.
  - intros [= <-]. eapply directRule_elem, E.
  - apply patternRule_elem.
Qed.

(** X3: rate limiting fails open.  While the store is unreachable, every
    check of a rule that admits at least one request per window admits, with
    all but one request of the window remaining; recording a request changes
    nothing; and the middleware passes every request on, whatever was counted
    before the outage. *)
Theorem rate_limiting_fails_open (config : RateLimitConfig) (w : world) :
  ~ up w ->
  (forall info, 0 < maxRequests (rl_rule info) ->
     exists r, RateLimitService.checkRateLimit info w = Returned r w /\
               allowed r = true /\
               remainingRequests r = maxRequests (rl_rule info) - 1 /\
               retryAfter r = None) /\
  (forall info, RateLimitService.recordRequest info w = Returned tt w) /\
  (positive_limits config ->
   forall method path ipAddress sessionId,
     exists rateLimit,
       RateLimitMiddleware.use config method path ipAddress sessionId w
       = Returned (RateLimitMiddleware.Next rateLimit) w).
Proof.
  intros Hdown. split; [|split].
  - intros info. now apply checkRateLimit_down.
  - intros info. now apply recordRequest_down.
  - intros (Hglobal & Hip & Hsession & Hendpoints) method path ipAddress sessionId.
    unfold RateLimitMiddleware.use.
    destruct (RateLimitService.isIPWhitelisted _ _); [unfold ret; eauto|].
    destruct (RateLimitService.shouldSkipEndpoint _ _); [unfold ret; eauto|].
    unfold try_catch, bind at 1.
    unfold RateLimitService.checkIPRateLimit.
    destruct (checkRateLimit_fields_down w (RateLimitService.getIPKey ipAddress) _ ipAddress
                "ip" Hdown Hip) as (ipR & -> & HipA).
    unfold bind at 1.
    assert (exists sR, (match sessionId with
                        | Some sid =>
                            r <- RateLimitService.checkSessionRateLimit config sid ;; ret (Some r)
                        | None => ret None
                        end) w = Returned sR w /\
                       forall r, sR = Some r -> allowed r = true) as (sR & -> & HsA).
    { destruct sessionId as [sid|].
      - unfold bind, RateLimitService.checkSessionRateLimit.
        destruct (checkRateLimit_fields_down w (RateLimitService.getSessionKey sid) _ sid
                    "session" Hdown Hsession) as (r & -> & Ha).
        exists (Some r). split; [reflexivity|]. now intros ? [= <-].
      - exists None. split; [reflexivity|]. discriminate. }
    unfold bind at 1.
    assert (exists eR, RateLimitService.checkEndpointRateLimit config method path ipAddress w
                       = Returned eR w /\ allowed eR = true) as (eR & -> & HeA).
    { unfold RateLimitService.checkEndpointRateLimit.
      destruct (RateLimitService.getEndpointRule config _) as [rule|] eqn:Er.
      - destruct (getEndpointRule_elem _ _ _ Er) as [k Hin].
        pose proof (proj1 (Forall_forall _ _) Hendpoints _ Hin) as Hpos.
        cbn [snd] in Hpos.
        destruct (checkRateLimit_fields_down w
                    (RateLimitService.getEndpointKey (method +:+ " " +:+ path) ipAddress) rule
                    ((method +:+ " " +:+ path) +:+ ":" +:+ ipAddress) "endpoint" Hdown Hpos)
          as (r & -> & Ha). eauto.
      - unfold RateLimitService.checkGlobalRateLimit.
        destruct (checkRateLimit_fields_down w (RateLimitService.getGlobalKey ipAddress) _
                    ipAddress "global" Hdown Hglobal) as (r & -> & Ha). eauto. }
    set (results := ipR :: _).
    destruct (RateLimitMiddleware.mostRestrictive results) as [chosen|] eqn:Ec;
      [|unfold throw, ret; eauto].
    destruct (mostRestrictive_fewest_remaining _ _ Ec) as [Hin _].
    assert (Hallowed : allowed chosen = true).
    { unfold results in Hin. apply elem_of_cons in Hin as [->|Hin]; [exact HipA|].
      apply elem_of_app in Hin as [Hin|Hin].
      - destruct sR as [r|]; [|now apply elem_of_nil in Hin].
        apply list_elem_of_singleton in Hin as ->. now apply HsA.
      - apply list_elem_of_singleton in Hin as ->. exact HeA. }
    rewrite Hallowed. cbn [negb].
    unfold RateLimitMiddleware.recordRequest, try_catch, bind.
    unfold RateLimitService.recordIPRequest. rewrite (recordRequest_down w _ Hdown).
    assert (RateLimitService.recordEndpointRequest config method path ipAddress w
            = Returned tt w) as ->.
    { unfold RateLimitService.recordEndpointRequest, RateLimitService.recordGlobalRequest.
      destruct (RateLimitService.getEndpointRule config _); now apply recordRequest_down. }
    destruct sessionId as [sid|].
    + unfold RateLimitService.recordSessionRequest. rewrite (recordRequest_down w _ Hdown).
      unfold ret. eauto.
    + unfold ret. eauto.
Qed.

Lemma rate_limiting_fails_open_witness :
  exists rateLimit,
    RateLimitMiddleware.use DEFAULT_RATE_LIMIT_CONFIG "POST" "/agent/chat" "10.0.0.1"
      (Some "s1") (unreachable quota_world)
    = Returned (RateLimitMiddleware.Next rateLimit) (unreachable quota_world).
Proof.
  destruct (rate_limiting_fails_open DEFAULT_RATE_LIMIT_CONFIG (unreachable quota_world))
    as (_ & _ & Huse).
  - intros [_ O]. discriminate O.
  - apply Huse. repeat split; try reflexivity.
    repeat (apply Forall_cons_2; [reflexivity|]). apply Forall_nil_2.
Defined.

(** ** Listing and deleting keys *)

Lemma KEYS_elem (now : Z) (pattern : string) (sv : server) (k : string) :
  k ∈ filter (fun k => glob pattern k = true /\ is_Some (lookup_live now (keyspace sv) k))
             (map fst (map_to_list (keyspace sv)))
  <-> glob pattern k = true /\ is_Some (lookup_live now (keyspace sv) k).
Proof.
  rewrite list_elem_of_filter. split; [tauto|]. intros [Hg Hl]. split; [tauto|].
  destruct Hl as [e Hl]. unfold lookup_live in Hl.
  destruct (keyspace sv !! k) as [e'|] eqn:E; [|discriminate].
  apply list_elem_of_In, in_map_iff. exists (k, e'). split; [reflexivity|].
  apply list_elem_of_In. now apply elem_of_map_to_list.
Qed.

Lemma del_keys_lookup (now : Z) (keys : list string) : forall (ks : gmap string rentry) k,
  (Command.del_keys now keys ks).2 !! k = if decide (k ∈ keys) then None else ks !! k.
Proof.
  induction keys as [|k0 keys IH]; intros ks k; cbn.
  - destruct (decide (k ∈ [])) as [Hin|]; [now apply elem_of_nil in Hin|reflexivity].
  - specialize (IH (delete k0 ks) k).
    destruct (Command.del_keys now keys (delete k0 ks)) as [n ks'] eqn:E. cbn in *.
    rewrite IH.
    destruct (decide (k ∈ keys)) as [Hin|Hout].
    + destruct (decide (k ∈ k0 :: keys)) as [|Hn]; [reflexivity|].
      destruct Hn. now right.
    + destruct (decide (k = k0)) as [->|Hne].
      * rewrite lookup_delete_eq.
        destruct (decide (k0 ∈ k0 :: keys)) as [|Hn]; [reflexivity|]. destruct Hn. left.
      * rewrite lookup_delete_ne by congruence.
        destruct (decide (k ∈ k0 :: keys)) as [Hin|]; [|reflexivity].
        apply elem_of_cons in Hin as [?|?]; contradiction.
Qed.

Lemma keys_up (w : world) (pattern : string) :
  up w ->
  RedisService.keys pattern w
  = Returned (filter (fun k => glob pattern k = true /\
                               is_Some (lookup_live (clock w) (keyspace (store w)) k))
                     (map fst (map_to_list (keyspace (store w))))) w.
Proof.
  intros [C O]. unfold RedisService.keys. run.
  rewrite C; cbn. rewrite C, O; cbn. now rewrite set_store_same.
Qed.

Lemma del_up (w : world) (keys : list string) :
  up w -> keys <> [] ->
  RedisService.del keys w
  = Returned (Command.del_keys (clock w) keys (keyspace (store w))).1
      (set_store (with_keyspace (Command.del_keys (clock w) keys (keyspace (store w))).2
                    (store w)) w).
Proof.
  intros [C O] Hne. unfold RedisService.del. run.
  rewrite C; cbn. rewrite C, O; cbn. unfold Command.DEL.
  destruct keys as [|k keys]; [contradiction|].
  now destruct (Command.del_keys _ _ _).
Qed.

Lemma getCurrentCount_none (w : world) (key : string) (ws W : Z) :
  lookup_live (clock w) (keyspace (store w)) (RateLimitService.windowKey key ws) = None ->
  RateLimitService.getCurrentCount key ws W w = Returned (Some 0) w.
Proof.
  intros Hk.
  apply (getCurrentCount_absent
           {| rl_key := key; rl_rule := {| windowMs := W; maxRequests := 0 |};
              rl_identifier := EmptyString; rl_type := EmptyString |} w ws Hk).
Qed.

Lemma glob_star (s : string) : glob "*" s = true.
Proof.
  induction s as [|c s IH]; [reflexivity|].
  change (glob "*" (String c s)) with (glob EmptyString (String c s) || glob "*" s).
  now rewrite IH, orb_true_r.
Qed.

(** A pattern made of a literal text and a final star matches the texts
    that start with the literal text. *)
Lemma glob_literal_star (p s : string) :
  literal p = true -> glob (p +:+ "*") (p +:+ s) = true.
Proof.
  intros Hp. induction p as [|c p IH].
  - rewrite !append_nil_l. apply glob_star.
  - rewrite !append_cons_l. cbn [literal] in Hp. apply andb_true_iff in Hp as [Hc Hp].
    apply negb_true_iff in Hc. repeat (apply orb_false_iff in Hc as [Hc _]).
    cbn [glob]. rewrite Hc, Ascii.eqb_refl, orb_true_r. cbn [andb]. now apply IH.
Qed.

Lemma literal_app (a b : string) : literal (a +:+ b) = literal a && literal b.
Proof.
  induction a as [|c a IH]; [reflexivity|].
  rewrite append_cons_l. cbn [literal]. rewrite IH. now rewrite andb_assoc.
Qed.

Lemma quotaKey_literal (kind : quota) (identifier : string) :
  literal identifier = true -> literal (quotaKey kind identifier +:+ ":") = true.
Proof.
  intros Hi. destruct kind; cbn [quotaKey];
    unfold RateLimitService.getIPKey, RateLimitService.getSessionKey,
      RateLimitService.getGlobalKey, RateLimitService.getWebSocketConnectionKey,
      RateLimitService.getWebSocketMessageKey;
    rewrite !literal_app, Hi; reflexivity.
Qed.

Lemma append_assoc (a b c : string) : (a +:+ b) +:+ c = a +:+ b +:+ c.
Proof.
  induction a as [|x a IH]; [reflexivity|].
  rewrite !append_cons_l. now rewrite IH.
Qed.

(** X4: [resetRateLimit] clears the counters of one identity.  For the types
    [ip], [session] and [global], an available store and an identifier that
    a pattern reads literally, no counter of the identity is left in any
    window, so the next check of any window counts from zero, and no key
    outside the pattern of the identity is touched.  Every other type name
    is refused with an error and nothing changes. *)
Theorem resetRateLimit_clears_counters (type identifier : string) (w : world) :
  match quotaOfType type with
  | Some kind =>
      up w -> literal identifier = true ->
      exists w',
        RateLimitService.resetRateLimit type identifier w = Returned tt w' /\
        (forall ws W,
           RateLimitService.getCurrentCount (quotaKey kind identifier) ws W w'
           = Returned (Some 0) w') /\
        (forall k, glob (quotaKey kind identifier +:+ ":*") k = false ->
                   keyspace (store w') !! k = keyspace (store w) !! k)
  | None =>
      RateLimitService.resetRateLimit type identifier w
      = Thrown ("Unknown rate limit type: " +:+ type) w
  end.
Proof.
  unfold quotaOfType, RateLimitService.resetRateLimit.
  assert (Hknown : forall kind,
            up w -> literal identifier = true ->
            exists w',
              try_catch
                (keys <- RedisService.keys (quotaKey kind identifier +:+ ":*") ;;
                 if 0 <? Z.of_nat (length keys) then RedisService.del keys ;;; ret tt
                 else ret tt)
                (fun error => throw error) w = Returned tt w' /\
              (forall ws W,
                 RateLimitService.getCurrentCount (quotaKey kind identifier) ws W w'
                 = Returned (Some 0) w') /\
              (forall k, glob (quotaKey kind identifier +:+ ":*") k = false ->
                         keyspace (store w') !! k = keyspace (store w) !! k)).
  { intros kind Hup Hlit. unfold try_catch, bind at 1.
    rewrite (keys_up _ _ Hup). set (keys := filter _ _).
    assert (Hkeys : forall k, k ∈ keys <->
              glob (quotaKey kind identifier +:+ ":*") k = true /\
              is_Some (lookup_live (clock w) (keyspace (store w)) k))
      by (intros k; apply KEYS_elem).
    assert (Hmatch : forall ws,
              glob (quotaKey kind identifier +:+ ":*")
                (RateLimitService.windowKey (quotaKey kind identifier) ws) = true).
    { intros ws. unfold RateLimitService.windowKey.
      replace (quotaKey kind identifier +:+ ":*")
        with ((quotaKey kind identifier +:+ ":") +:+ "*") by now rewrite append_assoc.
      rewrite <- append_assoc. apply glob_literal_star. now apply quotaKey_literal. }
    destruct keys as [|k0 keys'] eqn:Ek.
    - cbn. unfold ret. exists w. split; [reflexivity|]. split; [|reflexivity].
      intros ws W. apply getCurrentCount_none.
      destruct (lookup_live _ _ _) as [e|] eqn:El; [|reflexivity].
      assert (Hin : RateLimitService.windowKey (quotaKey kind identifier) ws ∈ [])
        by (apply Hkeys; split; [apply Hmatch|now rewrite El]).
      now apply elem_of_nil in Hin.
    - rewrite <- Ek in *.
      replace (0 <? Z.of_nat (length keys)) with true
        by (rewrite Ek; cbn [length]; symmetry; apply Z.ltb_lt; lia).
      unfold bind. rewrite (del_up _ _ Hup) by (rewrite Ek; discriminate).
      unfold ret. eexists. split; [reflexivity|]. split.
      + intros ws W. apply getCurrentCount_none. cbn [clock store keyspace set_store with_keyspace].
        unfold lookup_live. rewrite del_keys_lookup.
        destruct (decide (_ ∈ keys)) as [|Hout]; [reflexivity|].
        destruct (keyspace (store w) !! _) as [e|] eqn:E; [|reflexivity].
        destruct (live (clock w) e) eqn:Hl; [|reflexivity].
        destruct Hout. apply Hkeys. split; [apply Hmatch|].
        unfold lookup_live. rewrite E, Hl. eauto.
      + intros k Hk. cbn [store keyspace set_store with_keyspace].
        rewrite del_keys_lookup.
        destruct (decide (k ∈ keys)) as [Hin|]; [|reflexivity].
        apply Hkeys in Hin as [Hg _]. congruence. }
  destruct (String.eqb type "ip"); [exact (Hknown AddressQuota)|].
  destruct (String.eqb type "session"); [exact (Hknown SessionQuota)|].
  destruct (String.eqb type "global"); [exact (Hknown GlobalQuota)|].
  reflexivity.
Qed.

Lemma resetRateLimit_clears_counters_witness :
  exists w',
    RateLimitService.resetRateLimit "ip" "10.0.0.1" quota_world = Returned tt w' /\
    (forall ws W,
       RateLimitService.getCurrentCount (quotaKey AddressQuota "10.0.0.1") ws W w'
       = Returned (Some 0) w').
Proof.
  destruct (resetRateLimit_clears_counters "ip" "10.0.0.1" quota_world
              (conj eq_refl eq_refl) eq_refl) as (w' & Hreset & Hcount & _).
  exists w'. split; [exact Hreset|exact Hcount].
Defined.

(** ** The rejections of the middleware *)

Lemma checkEndpointRateLimit_settles (config : RateLimitConfig) (method path identifier : string)
    (w : world) :
  exists r, RateLimitService.checkEndpointRateLimit config method path identifier w
            = Returned r w.
Proof.
  unfold RateLimitService.checkEndpointRateLimit, RateLimitService.checkGlobalRateLimit.
  destruct (RateLimitService.getEndpointRule config _); apply checkRateLimit_settles.
Qed.

(** X5: the middleware answers 429 only on the word of a rule.  When [use]
    rejects, the result it reports is the rejecting result of the address
    check, of the session check or of the endpoint check, made on the state
    in which the request arrived, and the request is not recorded: the state
    is left as it was. *)
Theorem use_rejects_on_a_rejecting_rule (config : RateLimitConfig)
    (method path ipAddress : string) (sessionId : option string) (w w' : world)
    (rateLimit : RateLimitResult) :
  RateLimitMiddleware.use config method path ipAddress sessionId w
  = Returned (RateLimitMiddleware.TooManyRequests rateLimit) w' ->
  w' = w /\ allowed rateLimit = false /\
  (RateLimitService.checkIPRateLimit config ipAddress w = Returned rateLimit w \/
   RateLimitService.checkEndpointRateLimit config method path ipAddress w
   = Returned rateLimit w \/
   exists sid, sessionId = Some sid /\
               RateLimitService.checkSessionRateLimit config sid w = Returned rateLimit w).
Proof.
  unfold RateLimitMiddleware.use.
  destruct (RateLimitService.isIPWhitelisted _ _); [discriminate|].
  destruct (RateLimitService.shouldSkipEndpoint _ _); [discriminate|].
  unfold try_catch, bind at 1.
  destruct (checkRateLimit_settles
              {| rl_key := RateLimitService.getIPKey ipAddress; rl_rule := cfg_perIP config;
                 rl_identifier := ipAddress; rl_type := "ip" |} w) as [ipR Hip].
  unfold RateLimitService.checkIPRateLimit. rewrite Hip. unfold bind at 1.
  assert (exists sR, (match sessionId with
                      | Some sid =>
                          r <- RateLimitService.checkSessionRateLimit config sid ;; ret (Some r)
                      | None => ret None
                      end) w = Returned sR w /\
                     forall r, sR = Some r ->
                       exists sid, sessionId = Some sid /\
                         RateLimitService.checkSessionRateLimit config sid w = Returned r w)
    as (sR & -> & Hs).
  { destruct sessionId as [sid|].
    - unfold bind.
      destruct (checkRateLimit_settles
                  {| rl_key := RateLimitService.getSessionKey sid;
                     rl_rule := cfg_perSession config;
                     rl_identifier := sid; rl_type := "session" |} w) as [r Hr].
      unfold RateLimitService.checkSessionRateLimit. rewrite Hr.
      exists (Some r). split; [reflexivity|]. intros ? [= <-]. eauto.
    - exists None. split; [reflexivity|]. discriminate. }
  unfold bind at 1.
  destruct (checkEndpointRateLimit_settles config method path ipAddress w) as [eR He].
  rewrite He. set (results := ipR :: _).
  destruct (RateLimitMiddleware.mostRestrictive results) as [chosen|] eqn:Ec;
    [|discriminate].
  destruct (mostRestrictive_fewest_remaining _ _ Ec) as [Hin _].
  destruct (allowed chosen) eqn:Ha; cbn [negb].
  - unfold bind. destruct (RateLimitMiddleware.recordRequest _ _ _ _ _ _); discriminate.
  - unfold ret. intros [= <- <-]. split; [reflexivity|]. split; [exact Ha|].
    unfold results in Hin. apply elem_of_cons in Hin as [->|Hin]; [now left|].
    apply elem_of_app in Hin as [Hin|Hin].
    + destruct sR as [r|]; [|now apply elem_of_nil in Hin].
      apply list_elem_of_singleton in Hin as ->. right. right. now apply Hs.
    + apply list_elem_of_singleton in Hin as ->. right. now left.
Qed.

Lemma use_rejects_on_a_rejecting_rule_witness :
  allowed {| allowed := false; totalRequests := 30; remainingRequests := 0;
             resetTime := 60; retryAfter := Some 60 |} = false.
Proof.
  refine (proj1 (proj2
            (use_rejects_on_a_rejecting_rule DEFAULT_RATE_LIMIT_CONFIG "POST" "/agent/chat"
               "10.0.0.2" (Some "s1") quota_world quota_world _ _))).
  vm_compute. reflexivity.
Defined.

(** ** Health checks *)

Lemma remove_put (k : string) (e : rentry) (w : world) : remove k (put k e w) = remove k w.
Proof.
  unfold remove, put. destruct w as [? ? ? ? [ks ? ?] ? ? ? ?]. cbn.
  now rewrite delete_insert_eq.
Qed.

(** X6: the health checks of the session service and of the rate limit
    service write a test key, read it back and delete it.  They answer
    [true] when the store is available and [false] when it is not, they
    never throw, and they leave the state as it was, except that the test
    key is absent afterwards. *)
Theorem health_checks_follow_the_store (w : world) :
  (up w ->
   SessionService.isHealthy w = Returned true (remove "session:health:test" w) /\
   RateLimitService.isHealthy w = Returned true (remove "rate_limit:health:test" w)) /\
  (~ up w ->
   SessionService.isHealthy w = Returned false w /\
   RateLimitService.isHealthy w = Returned false w).
Proof.
  split.
  - intros Hup. split.
    + unfold SessionService.isHealthy, try_catch, bind at 1.
      rewrite (set_plain_up _ _ _ Hup). unfold bind at 1.
      rewrite get_up by now apply put_up.
      rewrite string_at_put_eq by reflexivity.
      unfold bind. rewrite del_one_up by now apply put_up.
      unfold ret. now rewrite remove_put.
    + destruct Hup as [C O].
      unfold RateLimitService.isHealthy, RedisService.set, RedisService.incr,
        RedisService.get, RedisService.del.
      run. rewrite C; cbn. rewrite C, O; cbn. rewrite C; cbn. rewrite C, O; cbn.
      unfold Command.INCR, lookup_live. cbn. rewrite lookup_insert_eq. cbn.
      rewrite C; cbn. rewrite C, O; cbn.
      unfold Command.GET, lookup_live. cbn. rewrite lookup_insert_eq. cbn.
      rewrite C; cbn. rewrite C, O; cbn.
      f_equal. unfold remove. destruct w as [? ? ? ? [ks ? ?] ? ? ? ?]. cbn.
      now rewrite !delete_insert_eq.
  - intros Hdown. pose proof (unavailable_defaults w (down_cases w Hdown)) as Hd. split.
    + unfold SessionService.isHealthy, try_catch, bind.
      now rewrite (nd_set _ Hd), (nd_get _ Hd), (nd_del _ Hd).
    + unfold RateLimitService.isHealthy, try_catch, bind.
      now rewrite (nd_set _ Hd), (nd_incr _ Hd), (nd_get _ Hd), (nd_del _ Hd).
Qed.

Lemma health_checks_follow_the_store_witness :
  SessionService.isHealthy one_session_world
  = Returned true (remove "session:health:test" one_session_world) /\
  RateLimitService.isHealthy (unreachable quota_world) = Returned false (unreachable quota_world).
Proof.
  split.
  - apply (proj1 (health_checks_follow_the_store one_session_world)).
    split; reflexivity.
  - apply (proj2 (health_checks_follow_the_store (unreachable quota_world))).
    intros [_ O]. discriminate O.
Defined.

(** ** Calls that stay within their keys *)

Lemma backstage_refl (w : world) : backstage w w.
Proof. repeat split. Qed.

Lemma backstage_trans (w1 w2 w3 : world) :
  backstage w1 w2 -> backstage w2 w3 -> backstage w1 w3.
Proof.
  intros (? & ? & ? & ? & ? & ? & ?) (? & ? & ? & ? & ? & ? & ?).
  repeat split; congruence.
Qed.

Lemma within_refl (P : string -> Prop) (w : world) : within P w w.
Proof. split; [apply backstage_refl|reflexivity]. Qed.

Lemma within_trans (P : string -> Prop) (w1 w2 w3 : world) :
  within P w1 w2 -> within P w2 w3 -> within P w1 w3.
Proof.
  intros [B12 K12] [B23 K23]. split; [eauto using backstage_trans|].
  intros k Hk. now rewrite K23, K12.
Qed.

Lemma within_weaken (P Q : string -> Prop) (w w' : world) :
  (forall k, P k -> Q k) -> within P w w' -> within Q w w'.
Proof. intros HPQ [B K]. split; [exact B|]. intros k Hk. apply K. auto. Qed.

Lemma backstage_up (w w' : world) : backstage w w' -> up w -> up w'.
Proof. intros (_ & C & _ & O & _) [? ?]. split; congruence. Qed.

Lemma confined_weaken {A} (P Q : string -> Prop) (c : M A) :
  (forall k, P k -> Q k) -> confined P c -> confined Q c.
Proof.
  intros HPQ Hc w. specialize (Hc w).
  destruct (c w); eauto using within_weaken.
Qed.

Lemma confined_ret {A} (P : string -> Prop) (a : A) : confined P (ret a).
Proof. intros w. apply within_refl. Qed.

Lemma confined_throw {A} (P : string -> Prop) (e : string) : confined P (throw (A := A) e).
Proof. intros w. apply within_refl. Qed.

Lemma confined_gets {A} (P : string -> Prop) (f : world -> A) : confined P (gets f).
Proof. intros w. apply within_refl. Qed.

Lemma confined_bind {A B} (P : string -> Prop) (c : M A) (k : A -> M B) :
  confined P c -> (forall a, confined P (k a)) -> confined P (bind c k).
Proof.
  intros Hc Hk w. unfold bind. specialize (Hc w).
  destruct (c w) as [a w1|e w1|]; [|assumption|exact I].
  specialize (Hk a w1). destruct (k a w1); eauto using within_trans.
Qed.

Lemma confined_try_catch {A} (P : string -> Prop) (body : M A) (handler : string -> M A) :
  confined P body -> (forall e, confined P (handler e)) -> confined P (try_catch body handler).
Proof.
  intros Hb Hh w. unfold try_catch. specialize (Hb w).
  destruct (body w) as [a w1|e w1|]; [assumption| |exact I].
  specialize (Hh e w1). destruct (handler e w1); eauto using within_trans.
Qed.

Lemma confined_on_client {A} (P : string -> Prop) (cmd : Z -> server -> reply A) :
  local P cmd -> confined P (RedisService.on_client cmd).
Proof.
  intros Hl w. unfold RedisService.on_client.
  destruct (negb (client w)); [apply within_refl|].
  destruct (negb (online w)); [apply within_refl|].
  destruct (cmd (clock w) (store w)) as [a sv|msg] eqn:E; [|apply within_refl].
  split; [repeat split|]. intros k Hk. cbn. eapply Hl; eauto.
Qed.

Lemma confined_bump (P : string -> Prop) (f : CacheMetrics -> CacheMetrics) :
  confined P (CacheService.bump f).
Proof. intros w. split; [repeat split|reflexivity]. Qed.

Ltac local_command :=
  intros now sv a sv' k';
  repeat match goal with
         | |- context [match ?x with _ => _ end] => destruct x
         | |- context [if ?b then _ else _] => destruct b
         end;
  intros E Hk; inversion E; subst; cbn;
  rewrite ?lookup_insert_ne, ?lookup_delete_ne by (intros ->; apply Hk; reflexivity);
  reflexivity.

Lemma local_GET (P : string -> Prop) k : local P (fun now => Command.GET now k).
Proof. unfold Command.GET. intros now sv a sv' k'.
  repeat match goal with
         | |- context [match ?x with _ => _ end] => destruct x
         end; intros E; inversion E; reflexivity.
Qed.

Lemma local_SET k v : local (eq k) (fun _ => Command.SET k v).
Proof. unfold Command.SET. local_command. Qed.

Lemma local_SETEX k t v : local (eq k) (fun now => Command.SETEX now k t v).
Proof. unfold Command.SETEX. local_command. Qed.

Lemma local_INCR k : local (eq k) (fun now => Command.INCR now k).
Proof. unfold Command.INCR. local_command. Qed.

Lemma local_EXPIRE k t : local (eq k) (fun now => Command.EXPIRE now k t).
Proof. unfold Command.EXPIRE. local_command. Qed.

Lemma local_SADD k ms : local (eq k) (fun now => Command.SADD now k ms).
Proof. unfold Command.SADD. local_command. Qed.

Lemma local_SREM k ms : local (eq k) (fun now => Command.SREM now k ms).
Proof. unfold Command.SREM. local_command. Qed.

Lemma local_SMEMBERS (P : string -> Prop) k : local P (fun now => Command.SMEMBERS now k).
Proof. unfold Command.SMEMBERS. intros now sv a sv' k'.
  repeat match goal with
         | |- context [match ?x with _ => _ end] => destruct x
         end; intros E; inversion E; reflexivity.
Qed.

Lemma local_KEYS (P : string -> Prop) p : local P (fun now => Command.KEYS now p).
Proof. intros now sv a sv' k' E. inversion E. reflexivity. Qed.

Lemma local_DEL ks : local (fun k => k ∈ ks) (fun now => Command.DEL now ks).
Proof.
  intros now sv a sv' k E Hk. unfold Command.DEL in E.
  destruct ks as [|k0 ks]; [discriminate|].
  pose proof (del_keys_lookup now (k0 :: ks) (keyspace sv) k) as Hl.
  destruct (Command.del_keys now (k0 :: ks) (keyspace sv)) as [n ks'].
  inversion E; subst. cbn in *. rewrite Hl.
  now destruct (decide (k ∈ k0 :: ks)).
Qed.

Lemma local_weaken {A} (P Q : string -> Prop) (cmd : Z -> server -> reply A) :
  (forall k, P k -> Q k) -> local P cmd -> local Q cmd.
Proof. intros HPQ Hl now sv a sv' k E Hk. eapply Hl; eauto. Qed.

(** Decomposes a goal [confined P c] along the structure of [c]. *)
Ltac confined_step :=
  first
    [ apply confined_ret | apply confined_throw | apply confined_gets | apply confined_bump
    | apply confined_bind; [|intros ?] | apply confined_try_catch; [|intros ?]
    | assumption
    | match goal with
      | |- confined _ (if ?b then _ else _) => destruct b
      | |- confined _ (match ?x with _ => _ end) => destruct x
      | |- confined _ (let '(_, _) := ?x in _) => destruct x
      end ].

Lemma confined_get (P : string -> Prop) k : confined P (RedisService.get k).
Proof.
  unfold RedisService.get.
  repeat (confined_step || (apply confined_on_client, local_GET)).
Qed.

Lemma confined_smembers (P : string -> Prop) k : confined P (RedisService.smembers k).
Proof.
  unfold RedisService.smembers.
  repeat (confined_step || (apply confined_on_client, local_SMEMBERS)).
Qed.

Lemma confined_keys (P : string -> Prop) p : confined P (RedisService.keys p).
Proof.
  unfold RedisService.keys.
  repeat (confined_step || (apply confined_on_client, local_KEYS)).
Qed.

Lemma confined_set k v t : confined (eq k) (RedisService.set k v t).
Proof.
  unfold RedisService.set.
  repeat (confined_step || (apply confined_on_client; (apply local_SET || apply local_SETEX))).
Qed.

Lemma confined_setWithExpiry k v t : confined (eq k) (RedisService.setWithExpiry k v t).
Proof.
  unfold RedisService.setWithExpiry.
  repeat (confined_step || (apply confined_on_client, local_SETEX)).
Qed.

Lemma confined_incr k : confined (eq k) (RedisService.incr k).
Proof.
  unfold RedisService.incr.
  repeat (confined_step || (apply confined_on_client, local_INCR)).
Qed.

Lemma confined_expire k t : confined (eq k) (RedisService.expire k t).
Proof.
  unfold RedisService.expire.
  repeat (confined_step || (apply confined_on_client, local_EXPIRE)).
Qed.

Lemma confined_sadd k ms : confined (eq k) (RedisService.sadd k ms).
Proof.
  unfold RedisService.sadd.
  repeat (confined_step || (apply confined_on_client, local_SADD)).
Qed.

Lemma confined_srem k ms : confined (eq k) (RedisService.srem k ms).
Proof.
  unfold RedisService.srem.
  repeat (confined_step || (apply confined_on_client, local_SREM)).
Qed.

Lemma confined_del ks : confined (fun k => k ∈ ks) (RedisService.del ks).
Proof.
  unfold RedisService.del.
  repeat (confined_step || (apply confined_on_client, local_DEL)).
Qed.

(** ** Sessions: what a call leaves behind *)

Section SessionFrames.

Context `{Runtime}.
Variable cfg : SessionConfig.

(** [getSession] returns without having changed anything: the deletion it
    starts on an expired record never settles. *)
Lemma getSession_unchanged (fuel : nat) (sid : string) (w w' : world)
    (r : option SessionData) :
  SessionService.getSession cfg fuel sid w = Returned r w' -> w' = w.
Proof.
  destruct fuel as [|fuel]; [discriminate|].
  cbn [SessionService.getSession]. run.
  destruct (classic_up w) as [Hup|Hdown].
  2:{ rewrite (get_down _ _ Hdown). now intros [= _ <-]. }
  rewrite (get_up _ _ Hup).
  destruct (string_at w _) as [str|] eqn:Hs; [|now intros [= _ <-]].
  destruct (truthy str) eqn:Ht; cbn; [|now intros [= _ <-]].
  destruct (JSON_parse str) as [j|] eqn:Hp; [|now intros [= _ <-]].
  destruct (sessionOfJson j) as [sd|] eqn:Hj; [|now intros [= _ <-]].
  destruct (SessionService.expired cfg (clock w) sd) eqn:He; [|now intros [= _ <-]].
  assert (Hstale : SessionService.getSession cfg fuel sid w = Pending).
  { apply (getSession_stale cfg w sid sd fuel Hup); [|exact He]. exists str, j. auto. }
  unfold SessionService.deleteSession_with, try_catch, bind. rewrite Hstale. discriminate.
Qed.

Lemma getSession_not_thrown (fuel : nat) (sid : string) (w w' : world) (e : string) :
  SessionService.getSession cfg fuel sid w <> Thrown e w'.
Proof.
  destruct fuel as [|fuel]; [discriminate|].
  cbn [SessionService.getSession]. unfold try_catch.
  destruct (bind _ _ w); discriminate.
Qed.

Lemma confined_getSession (P : string -> Prop) (fuel : nat) (sid : string) :
  confined P (SessionService.getSession cfg fuel sid).
Proof.
  intros w. destruct (SessionService.getSession cfg fuel sid w) as [r w'|e w'|] eqn:E;
    [|now apply getSession_not_thrown in E|exact I].
  apply getSession_unchanged in E as ->. apply within_refl.
Qed.

Lemma confined_countValid (fuel : nat) (ipKey : string) (ids : list string) : forall acc,
  confined (eq ipKey) (SessionService.countValid cfg fuel ipKey ids acc).
Proof.
  induction ids as [|sid ids IH]; intros acc; cbn [SessionService.countValid].
  - apply confined_ret.
  - apply confined_bind; [apply confined_getSession|]. intros [sd|]; [apply IH|].
    apply confined_bind; [apply confined_srem|]. intros _. apply IH.
Qed.

Lemma confined_getSessionCountByIP (fuel : nat) (ip : string) :
  confined (eq (SessionService.getIPKey ip)) (SessionService.getSessionCountByIP cfg fuel ip).
Proof.
  unfold SessionService.getSessionCountByIP.
  apply confined_try_catch; [|intros; apply confined_ret].
  apply confined_bind; [apply confined_smembers|]. intros ids. apply confined_countValid.
Qed.

End SessionFrames.

(** X7: a session is read back as it was created, for as long as it lives.
    When [createSession] returns, the record it returns carries the
    identifier, address and user agent of the request, the time of the call,
    no message and the active flag; [getSession] returns this record at every
    instant before the time-to-live has elapsed, and returns nothing from
    then on. *)
Theorem created_session_is_read_back `{Runtime} (cfg : SessionConfig) (w w2 : world)
    (options : SessionCreateOptions) (sd : SessionData) (fuel : nat) :
  up w -> 0 < ttl cfg ->
  SessionService.getSessionKey (opt_sessionId options)
    <> SessionService.getIPKey (opt_ipAddress options) ->
  SessionService.createSession cfg fuel options w = Returned sd w2 ->
  json_roundtrip (sessionToJson sd) ->
  sd = {| sessionId := opt_sessionId options; createdAt := clock w; lastActivity := clock w;
          ipAddress := opt_ipAddress options; userAgent := opt_userAgent options;
          messageCount := 0; isActive := true |} /\
  forall t fuel',
    (clock w <= t < clock w + ttl cfg * 1000 ->
     SessionService.getSession cfg (S fuel') (opt_sessionId options) (at_time t w2)
     = Returned (Some sd) (at_time t w2)) /\
    (clock w + ttl cfg * 1000 <= t ->
     SessionService.getSession cfg (S fuel') (opt_sessionId options) (at_time t w2)
     = Returned None (at_time t w2)).
Proof.
  intros Hup Httl Hne Hcreate [Hparse Htruthy].
  unfold SessionService.createSession, try_catch, bind at 1, Date_now, gets in Hcreate.
  unfold bind at 1 in Hcreate.
  pose proof (confined_getSessionCountByIP cfg fuel (opt_ipAddress options) w) as Hc.
  destruct (SessionService.getSessionCountByIP cfg fuel (opt_ipAddress options) w)
    as [n w1|e w1|]; [|discriminate|discriminate].
  destruct Hc as [Hb1 Hk1].
  destruct (n >=? maxSessionsPerIP cfg); [discriminate|].
  set (rec := {| sessionId := opt_sessionId options; createdAt := clock w;
                 lastActivity := clock w; ipAddress := opt_ipAddress options;
                 userAgent := opt_userAgent options; messageCount := 0;
                 isActive := true |}) in *.
  pose proof (backstage_up _ _ Hb1 Hup) as Hup1.
  assert (Hclock1 : clock w1 = clock w) by apply Hb1.
  unfold bind at 1 in Hcreate.
  rewrite (setWithExpiry_up _ _ _ _ Hup1 Httl) in Hcreate.
  set (wa := put _ _ w1) in Hcreate.
  unfold bind at 1 in Hcreate.
  pose proof (confined_sadd (SessionService.getIPKey (opt_ipAddress options))
                [opt_sessionId options] wa) as Hsadd.
  destruct (RedisService.sadd _ _ wa) as [n3 w3|e3 w3|]; [|discriminate|discriminate].
  unfold bind at 1 in Hcreate.
  pose proof (confined_expire (SessionService.getIPKey (opt_ipAddress options)) (ttl cfg) w3)
    as Hexp.
  destruct (RedisService.expire _ _ w3) as [b4 w4|e4 w4|]; [|discriminate|discriminate].
  unfold ret in Hcreate. injection Hcreate as <- <-.
  split; [reflexivity|].
  pose proof (within_trans _ _ _ _ Hsadd Hexp) as [Hb Hk].
  assert (Hrec : keyspace (store w4) !! SessionService.getSessionKey (opt_sessionId options)
                 = Some {| rval := RString (JSON_stringify (sessionToJson rec));
                           expireAt := Some (clock w + ttl cfg * 1000) |}).
  { rewrite Hk by congruence. unfold wa, put. cbn. rewrite lookup_insert_eq.
    now rewrite Hclock1. }
  assert (Hup4 : forall t, up (at_time t w4)).
  { intros t. apply at_time_up. apply (backstage_up wa); [exact Hb|]. now apply put_up. }
  intros t fuel'. split; intros Ht.
  - apply getSession_valid; [apply Hup4| |].
    + exists (JSON_stringify (sessionToJson rec)), (sessionToJson rec).
      split; [|split; [exact Htruthy|split; [exact Hparse|apply sessionOfJson_toJson]]].
      unfold string_at, lookup_live. cbn [clock at_time store]. rewrite Hrec.
      unfold live. cbn. destruct (Z.ltb_spec t (clock w + ttl cfg * 1000)); [reflexivity|lia].
    + unfold SessionService.expired. cbn. rewrite Z.gtb_ltb. apply Z.ltb_ge. lia.
  - apply getSession_absent.
    unfold string_at, lookup_live. cbn [clock at_time store]. rewrite Hrec.
    unfold live. cbn. destruct (Z.ltb_spec t (clock w + ttl cfg * 1000)); [lia|reflexivity].
Qed.

Lemma created_session_is_read_back_witness :
  SessionService.getSession (H := SampleRuntime.runtime) DEFAULT_SESSION_CONFIG 1 "s1"
    (at_time 5000 one_session_world)
  = Returned (Some session_s1) (at_time 5000 one_session_world).
Proof.
  refine (proj1 (proj2 (created_session_is_read_back (H := SampleRuntime.runtime)
                          DEFAULT_SESSION_CONFIG (fresh_world 1000) one_session_world
                          {| opt_sessionId := "s1"; opt_ipAddress := "10.0.0.1";
                             opt_userAgent := "Mozilla" |} session_s1 1 _ _ _ _ _)
                   5000 0%nat) _).
  - split; reflexivity.
  - reflexivity.
  - discriminate.
  - vm_compute. reflexivity.
  - split; vm_compute; reflexivity.
  - vm_compute; split; easy.
Defined.

(** X8: [incrementMessageCount] counts one message.  On a session that is
    stored and has not expired it returns the stored count plus one, and the
    record read back afterwards carries this count and the time of the call
    as its last activity, everything else as before; only the key of the
    session is written.  Without a record for the session it throws
    [Session not found] and changes nothing. *)
Theorem incrementMessageCount_counts_one `{Runtime} (cfg : SessionConfig) (w : world)
    (sid : string) (fuel : nat) :
  (forall sd,
     up w -> 0 < ttl cfg -> stored_session w sid sd ->
     SessionService.expired cfg (clock w) sd = false ->
     let upd := {| sessionId := sessionId sd; createdAt := createdAt sd;
                   lastActivity := clock w; ipAddress := ipAddress sd;
                   userAgent := userAgent sd; messageCount := messageCount sd + 1;
                   isActive := isActive sd |} in
     json_roundtrip (sessionToJson upd) ->
     exists w1,
       SessionService.incrementMessageCount cfg (S fuel) sid w
       = Returned (messageCount sd + 1) w1 /\
       SessionService.getSession cfg (S fuel) sid w1 = Returned (Some upd) w1 /\
       within (eq (SessionService.getSessionKey sid)) w w1) /\
  (string_at w (SessionService.getSessionKey sid) = None ->
   SessionService.incrementMessageCount cfg (S fuel) sid w
   = Thrown ("Session not found: " +:+ sid) w).
Proof.
  split.
  - intros sd Hup Httl Hs He upd [Hparse Htruthy].
    unfold SessionService.incrementMessageCount, try_catch, bind at 1.
    rewrite (getSession_valid cfg w sid sd fuel Hup Hs He).
    unfold bind at 1, Date_now, gets. unfold bind.
    rewrite (updateSession_valid cfg w sid sd _ fuel Hup Hs He).
    assert (Hupd : SessionService.applyUpdates (clock w) sd
                     {| upd_lastActivity := Some (clock w);
                        upd_messageCount := Some (messageCount sd + 1);
                        upd_isActive := None |} = upd).
    { unfold SessionService.applyUpdates, upd. cbn. now destruct (clock w =? 0). }
    rewrite Hupd. unfold ret.
    set (text := JSON_stringify (sessionToJson upd)) in *.
    assert (Hfresh : SessionService.expired cfg (clock w) upd = false).
    { unfold SessionService.expired, upd. cbn. rewrite Z.gtb_ltb. apply Z.ltb_ge. lia. }
    assert (Hread : forall e,
              live (clock w) {| rval := RString text; expireAt := e |} = true ->
              SessionService.getSession cfg (S fuel) sid
                (put (SessionService.getSessionKey sid) {| rval := RString text; expireAt := e |} w)
              = Returned (Some upd)
                  (put (SessionService.getSessionKey sid)
                     {| rval := RString text; expireAt := e |} w)).
    { intros e Hl. apply getSession_valid; [now apply put_up| |exact Hfresh].
      exists text, (sessionToJson upd).
      split; [now apply string_at_put_eq|].
      split; [exact Htruthy|]. split; [exact Hparse|apply sessionOfJson_toJson]. }
    assert (Hwithin : forall e,
              within (eq (SessionService.getSessionKey sid)) w
                (put (SessionService.getSessionKey sid) e w)).
    { intros e. split; [repeat split|]. intros k Hk. unfold put. cbn.
      now rewrite lookup_insert_ne. }
    destruct (extendOnActivity cfg).
    + unfold exec. rewrite (setWithExpiry_up _ _ _ _ Hup Httl).
      eexists. split; [reflexivity|]. split; [|apply Hwithin].
      apply Hread. unfold live. cbn. apply Z.ltb_lt. lia.
    + eexists. split; [reflexivity|]. split; [|apply Hwithin].
      now apply Hread.
  - intros Habsent.
    unfold SessionService.incrementMessageCount, try_catch, bind.
    now rewrite (getSession_absent cfg w sid fuel Habsent).
Qed.

Lemma incrementMessageCount_counts_one_witness :
  exists w1,
    SessionService.incrementMessageCount (H := SampleRuntime.runtime) DEFAULT_SESSION_CONFIG 1
      "s1" (at_time 2000 one_session_world) = Returned 1 w1.
Proof.
  destruct (proj1 (incrementMessageCount_counts_one (H := SampleRuntime.runtime)
                     DEFAULT_SESSION_CONFIG (at_time 2000 one_session_world) "s1" 0)
              session_s1) as (w1 & Hcount & _).
  - split; reflexivity.
  - reflexivity.
  - eexists. eexists. repeat split; vm_compute; reflexivity.
  - vm_compute; reflexivity.
  - split; vm_compute; reflexivity.
  - exists w1. exact Hcount.
Defined.

(** X9: a session named after the index of its address.  The key of the
    session [ip:<address>] is the key of the set that indexes the sessions
    of [<address>].  Once such a session has been created from that address,
    the index key holds the record of the session: until the record expires
    the session count of the address reads zero, whatever sessions the
    address holds, so [createSession] never refuses the address for having
    too many sessions. *)
Theorem session_named_after_index_resets_count `{Runtime} (cfg : SessionConfig)
    (w w2 : world) (address agent : string) (sd : SessionData) (fuel : nat) :
  up w -> 0 < ttl cfg ->
  SessionService.createSession cfg fuel
    {| opt_sessionId := "ip:" +:+ address; opt_ipAddress := address;
       opt_userAgent := agent |} w = Returned sd w2 ->
  SessionService.getSessionKey ("ip:" +:+ address) = SessionService.getIPKey address /\
  forall t fuel',
    clock w <= t < clock w + ttl cfg * 1000 ->
    SessionService.getSessionCountByIP cfg fuel' address (at_time t w2)
    = Returned 0 (at_time t w2) /\
    forall options,
      opt_ipAddress options = address -> 0 < maxSessionsPerIP cfg ->
      exists sd' w3,
        SessionService.createSession cfg fuel' options (at_time t w2) = Returned sd' w3.
Proof.
  intros Hup Httl Hcreate. split; [reflexivity|].
  unfold SessionService.createSession, try_catch, bind at 1, Date_now, gets in Hcreate.
  unfold bind at 1 in Hcreate. cbn [opt_ipAddress opt_sessionId opt_userAgent] in Hcreate.
  pose proof (confined_getSessionCountByIP cfg fuel address w) as Hc.
  destruct (SessionService.getSessionCountByIP cfg fuel address w)
    as [n w1|e w1|]; [|discriminate|discriminate].
  destruct Hc as [Hb1 _].
  destruct (n >=? maxSessionsPerIP cfg); [discriminate|].
  pose proof (backstage_up _ _ Hb1 Hup) as Hup1.
  assert (Hclock1 : clock w1 = clock w) by apply Hb1.
  unfold bind at 1 in Hcreate.
  rewrite (setWithExpiry_up _ _ _ _ Hup1 Httl) in Hcreate.
  change (SessionService.getSessionKey ("ip:" +:+ address))
    with (SessionService.getIPKey address) in Hcreate.
  set (text := JSON_stringify _) in Hcreate.
  set (wa := put _ _ w1) in Hcreate.
  assert (Hupa : up wa) by now apply put_up.
  unfold bind at 1 in Hcreate.
  rewrite (sadd_up _ _ _ Hupa) in Hcreate. unfold Command.SADD in Hcreate.
  assert (Hla : lookup_live (clock wa) (keyspace (store wa)) (SessionService.getIPKey address)
                = Some {| rval := RString text; expireAt := Some (clock w1 + ttl cfg * 1000) |}).
  { unfold lookup_live, wa, put. cbn. rewrite lookup_insert_eq. unfold live. cbn.
    destruct (Z.ltb_spec (clock w1) (clock w1 + ttl cfg * 1000)); [reflexivity|lia]. }
  rewrite Hla in Hcreate. cbn [rval] in Hcreate.
  unfold bind at 1 in Hcreate.
  rewrite (expire_up _ _ _ Hupa) in Hcreate. unfold Command.EXPIRE in Hcreate.
  rewrite Hla in Hcreate.
  destruct (Z.leb_spec (ttl cfg) 0) as [|_]; [lia|].
  unfold ret in Hcreate. injection Hcreate as _ <-.
  intros t fuel' Ht.
  set (wt := at_time t _).
  assert (Hupt : up wt) by (apply at_time_up; destruct Hupa; split; assumption).
  assert (Hcount : SessionService.getSessionCountByIP cfg fuel' address wt = Returned 0 wt).
  { unfold SessionService.getSessionCountByIP, try_catch, bind.
    rewrite (smembers_up _ _ Hupt). unfold Command.SMEMBERS.
    replace (lookup_live (clock wt) (keyspace (store wt)) (SessionService.getIPKey address))
      with (Some {| rval := RString text; expireAt := Some (clock wa + ttl cfg * 1000) |}).
    - reflexivity.
    - unfold lookup_live, wt. cbn. rewrite lookup_insert_eq. unfold live. cbn.
      destruct (Z.ltb_spec t (clock w1 + ttl cfg * 1000)); [reflexivity|lia]. }
  split; [exact Hcount|].
  intros options Hip Hmax.
  unfold SessionService.createSession, try_catch, bind at 1, Date_now, gets.
  unfold bind at 1. rewrite Hip, Hcount.
  destruct (Z.geb_spec 0 (maxSessionsPerIP cfg)); [lia|].
  unfold bind.
  destruct (setWithExpiry_never_throws (SessionService.getSessionKey (opt_sessionId options))
              (JSON_stringify
                 (sessionToJson
                    {| sessionId := opt_sessionId options; createdAt := clock wt;
                       lastActivity := clock wt; ipAddress := address;
                       userAgent := opt_userAgent options; messageCount := 0;
                       isActive := true |})) (ttl cfg) wt) as (a1 & w5 & ->).
  destruct (sadd_never_throws (SessionService.getIPKey address) [opt_sessionId options] w5)
    as (a2 & w6 & ->).
  destruct (expire_never_throws (SessionService.getIPKey address) (ttl cfg) w6)
    as (a3 & w7 & ->).
  unfold ret. eauto.
Qed.

Lemma session_named_after_index_resets_count_witness :
  SessionService.getSessionCountByIP (H := SampleRuntime.runtime) DEFAULT_SESSION_CONFIG 1
    "10.0.0.1"
    (at_time 2000
       (exec (SessionService.createSession (H := SampleRuntime.runtime) DEFAULT_SESSION_CONFIG 1
                {| opt_sessionId := "ip:10.0.0.1"; opt_ipAddress := "10.0.0.1";
                   opt_userAgent := "Mozilla" |})
             one_session_world))
  = Returned 0
      (at_time 2000
         (exec (SessionService.createSession (H := SampleRuntime.runtime)
                  DEFAULT_SESSION_CONFIG 1
                  {| opt_sessionId := "ip:10.0.0.1"; opt_ipAddress := "10.0.0.1";
                     opt_userAgent := "Mozilla" |})
               one_session_world)).
Proof.
  refine (proj1 (proj2 (session_named_after_index_resets_count (H := SampleRuntime.runtime)
                          DEFAULT_SESSION_CONFIG one_session_world _ "10.0.0.1" "Mozilla"
                          {| sessionId := "ip:10.0.0.1"; createdAt := 1000;
                             lastActivity := 1000; ipAddress := "10.0.0.1";
                             userAgent := "Mozilla"; messageCount := 0; isActive := true |}
                          1 _ _ _) 2000 1%nat _)).
  - split; reflexivity.
  - reflexivity.
  - vm_compute. reflexivity.
  - vm_compute; split; easy.
Defined.

(** ** Session statistics *)

Lemma keys_settles (w : world) (pattern : string) :
  exists l, RedisService.keys pattern w = Returned l w.
Proof.
  destruct (classic_up w) as [Hup|Hdown].
  - rewrite (keys_up _ _ Hup). eauto.
  - exists []. now apply unavailable_defaults, down_cases.
Qed.

Lemma tally_counts `{Runtime} (cfg : SessionConfig) (now : Z) (w : world)
    (sessionKeys : list string) : forall active expiredCount,
  (exists a e,
     SessionService.tally cfg now sessionKeys active expiredCount w = Returned (a, e) w /\
     active <= a /\ expiredCount <= e /\
     a + e <= active + expiredCount + Z.of_nat (length sessionKeys)) \/
  (exists error, SessionService.tally cfg now sessionKeys active expiredCount w
                 = Thrown error w).
Proof.
  induction sessionKeys as [|key rest IH]; intros active expiredCount.
  - left. exists active, expiredCount. cbn. unfold ret. repeat split; lia.
  - cbn [SessionService.tally length]. unfold bind.
    destruct (get_settles w key) as [v ->].
    assert (Hskip :
              (exists a e,
                 SessionService.tally cfg now rest active expiredCount w = Returned (a, e) w /\
                 active <= a /\ expiredCount <= e /\
                 a + e <= active + expiredCount + Z.of_nat (S (length rest))) \/
              (exists error, SessionService.tally cfg now rest active expiredCount w
                             = Thrown error w)).
    { destruct (IH active expiredCount) as [(a & e & E & ? & ? & ?)|[error E]];
        [left; exists a, e; repeat split; auto; lia|right; eauto]. }
    destruct v as [str|]; [|exact Hskip].
    destruct (truthy str); cbn [negb]; [|exact Hskip].
    destruct (JSON_parse str) as [j|]; [|right; unfold throw; eauto].
    destruct (sessionOfJson j) as [sd|]; [|right; unfold throw; eauto].
    destruct (isActive sd && negb (SessionService.expired cfg now sd)).
    + destruct (IH (active + 1) expiredCount) as [(a & e & E & ? & ? & ?)|[error E]];
        [left; exists a, e; repeat split; auto; lia|right; eauto].
    + destruct (IH active (expiredCount + 1)) as [(a & e & E & ? & ? & ?)|[error E]];
        [left; exists a, e; repeat split; auto; lia|right; eauto].
Qed.

(** X10: [getSessionStats] only reads.  It always returns, leaves the state
    as it was, and reports counts that are consistent: the active and the
    expired sessions are counted among the listed keys, so neither count is
    negative and together they do not exceed the total. *)
Theorem getSessionStats_is_consistent `{Runtime} (cfg : SessionConfig) (w : world) :
  exists stats,
    SessionService.getSessionStats cfg w = Returned stats w /\
    0 <= activeSessions stats /\ 0 <= expiredSessions stats /\
    activeSessions stats + expiredSessions stats <= totalSessions stats.
Proof.
  unfold SessionService.getSessionStats, try_catch, bind at 1.
  destruct (keys_settles w (SessionService.getSessionKey "*")) as [sessionKeys ->].
  unfold bind at 1, Date_now, gets. unfold bind.
  destruct (tally_counts cfg (clock w) w sessionKeys 0 0) as [(a & e & -> & ? & ? & ?)|[error ->]].
  - unfold ret. eexists. split; [reflexivity|]. cbn. repeat split; lia.
  - unfold ret. eexists. split; [reflexivity|]. cbn. repeat split; lia.
Qed.

(** ** The lifetime of a cache entry *)

Section CacheLifetime.

Context `{Runtime}.

Lemma getFromRedis_settles (w : world) (k : string) :
  exists v, CacheService.getFromRedis k w = Returned v w /\
            (v = string_at w k \/ v = None).
Proof.
  destruct (classic_up w) as [Hup|Hdown].
  - rewrite (getFromRedis_up w k Hup). eauto.
  - exists None. split; [|now right].
    unfold CacheService.getFromRedis. run.
    destruct (client w) eqn:C; cbn; [|reflexivity]. rewrite C; cbn.
    destruct (online w) eqn:O; cbn; [|reflexivity].
    destruct Hdown. now split.
Qed.

(** Without a text under the key, [get] answers [null] and counts a miss. *)
Lemma get_absent (w : world) (k : string) :
  string_at w (CacheService.versioned k) = None ->
  CacheService.get k w
  = Returned JNull
      (set_metrics (CacheService.count_miss (CacheService.count_operation (metrics w))) w).
Proof.
  intros Hs. unfold CacheService.get, CacheService.bump, try_catch, bind at 1, modify.
  unfold bind at 1.
  destruct (getFromRedis_settles (set_metrics (CacheService.count_operation (metrics w)) w)
              (CacheService.versioned k)) as (v & -> & Hv).
  assert (v = None) as -> by (destruct Hv as [->| ->]; [exact Hs|reflexivity]).
  reflexivity.
Qed.

(** A hit: the value is handed out, the entry is written back with the
    time of the access and its time-to-live starts again. *)
Lemma get_hit_world (w : world) (k text : string) (entry : CacheEntry) :
  up w ->
  string_at w (CacheService.versioned k) = Some text -> truthy text = true ->
  JSON_parse text = Some (entryToJson entry) ->
  CacheService.isExpired (clock w) entry = false -> 0 < ce_ttl entry ->
  let entry' := {| ce_value := ce_value entry; ce_ttl := ce_ttl entry;
                   ce_compressed := ce_compressed entry; ce_size := ce_size entry;
                   ce_createdAt := ce_createdAt entry; ce_lastAccessed := clock w |} in
  CacheService.get k w
  = Returned (delivered entry)
      (set_metrics
         (CacheService.count_hit (CacheService.count_operation (metrics w)))
         (put (CacheService.versioned k)
            {| rval := RString (JSON_stringify (entryToJson entry'));
               expireAt := Some (clock w + ce_ttl entry * 1000) |} w)).
Proof.
  intros Hup Hs Ht Hp He Httl entry'.
  unfold CacheService.get, CacheService.bump. run.
  rewrite getFromRedis_up by (destruct Hup; split; assumption).
  replace (string_at (set_metrics _ w) (CacheService.versioned k)) with (Some text)
    by (rewrite <- Hs; reflexivity).
  rewrite Ht. cbn. rewrite Hp, entryOfJson_toJson. cbn [clock set_metrics].
  rewrite He. cbn [ce_ttl ce_value ce_compressed].
  rewrite setToRedis_up by (try assumption; destruct Hup; split; assumption).
  unfold delivered. fold entry'.
  destruct (ce_compressed entry), (ce_value entry); reflexivity.
Qed.

End CacheLifetime.

(** X11: a value comes back for as long as its entry lives.  After [set]
    has stored a value that is not compressed, [get] at any instant before
    the time-to-live has elapsed returns the value, and [get] from then on
    returns [null]. *)
Theorem cached_value_is_read_back `{Runtime} (cfg : CacheConfig) (w : world) (k : string)
    (value : json) (ttl : option Z) :
  up w -> CacheService.getSize (JSON_stringify value) <= maxValueSize cfg ->
  0 < CacheService.finalTtlOf cfg ttl ->
  enableCompression cfg && (CacheService.getSize (JSON_stringify value)
                            >? compressionThreshold cfg) = false ->
  json_roundtrip (entryToJson (entryOf cfg (clock w) value ttl)) ->
  exists w1,
    CacheService.set cfg k value ttl w = Returned tt w1 /\
    forall t,
      (clock w <= t < clock w + CacheService.finalTtlOf cfg ttl * 1000 ->
       exists w2, CacheService.get k (at_time t w1) = Returned value w2) /\
      (clock w + CacheService.finalTtlOf cfg ttl * 1000 <= t ->
       exists w2, CacheService.get k (at_time t w1) = Returned JNull w2).
Proof.
  intros Hup Hfit Httl Hsmall [Hparse Htruthy].
  eexists. split; [now apply set_returns|].
  set (entry := entryOf cfg (clock w) value ttl) in *.
  assert (Hcreated : ce_createdAt entry = clock w)
    by (unfold entry, entryOf; now destruct (_ && _)).
  assert (Hentryttl : ce_ttl entry = CacheService.finalTtlOf cfg ttl)
    by (unfold entry, entryOf; now destruct (_ && _)).
  intros t. split; intros Ht.
  - eexists. rewrite (get_hit_world _ k (JSON_stringify (entryToJson entry)) entry).
    + f_equal. unfold delivered, entry, entryOf. now rewrite Hsmall.
    + apply at_time_up, put_up. now apply counted_set_up.
    + unfold string_at, lookup_live. cbn. rewrite lookup_insert_eq. unfold live. cbn.
      destruct (Z.ltb_spec t (clock w + CacheService.finalTtlOf cfg ttl * 1000));
        [reflexivity|lia].
    + exact Htruthy.
    + exact Hparse.
    + unfold CacheService.isExpired. cbn [clock at_time]. rewrite Hcreated, Hentryttl.
      rewrite Z.gtb_ltb. apply Z.ltb_ge. lia.
    + now rewrite Hentryttl.
  - eexists. apply get_absent.
    unfold string_at, lookup_live. cbn. rewrite lookup_insert_eq. unfold live. cbn.
    destruct (Z.ltb_spec t (clock w + CacheService.finalTtlOf cfg ttl * 1000));
      [lia|reflexivity].
Qed.

Lemma cached_value_is_read_back_witness :
  exists w2,
    CacheService.get (H := SampleRuntime.runtime) "greeting"
      (at_time 200000
         (exec (CacheService.set (H := SampleRuntime.runtime) defaultCacheConfig "greeting"
                  (JStr "hello") None) (fresh_world 0)))
    = Returned (JStr "hello") w2.
Proof.
  destruct (cached_value_is_read_back (H := SampleRuntime.runtime) defaultCacheConfig
              (fresh_world 0) "greeting" (JStr "hello") None) as (w1 & Hset & Hget).
  - split; reflexivity.
  - vm_compute. discriminate.
  - reflexivity.
  - vm_compute. reflexivity.
  - split; vm_compute; reflexivity.
  - unfold exec. rewrite Hset. apply (Hget 200000). vm_compute; split; easy.
Defined.

(** X12: reading slides the expiry of the store, not the age limit.  A hit
    hands out the value, writes the entry back with the creation time it
    had and the time of the access, and lets the key expire one
    time-to-live after the access.  An entry found in the store later than
    one time-to-live after its creation is not handed out: [get] deletes it,
    answers [null] and counts a miss. *)
Theorem cache_entry_outlives_no_ttl `{Runtime} (w : world) (k text : string)
    (entry : CacheEntry) :
  up w ->
  string_at w (CacheService.versioned k) = Some text -> truthy text = true ->
  JSON_parse text = Some (entryToJson entry) -> 0 < ce_ttl entry ->
  (clock w - ce_createdAt entry <= ce_ttl entry * 1000 ->
   exists w',
     CacheService.get k w = Returned (delivered entry) w' /\
     keyspace (store w') !! CacheService.versioned k
     = Some {| rval :=
                 RString (JSON_stringify
                            (entryToJson
                               {| ce_value := ce_value entry; ce_ttl := ce_ttl entry;
                                  ce_compressed := ce_compressed entry;
                                  ce_size := ce_size entry;
                                  ce_createdAt := ce_createdAt entry;
                                  ce_lastAccessed := clock w |}));
               expireAt := Some (clock w + ce_ttl entry * 1000) |} /\
     hits (metrics w') = hits (metrics w) + 1 /\ misses (metrics w') = misses (metrics w)) /\
  (ce_ttl entry * 1000 < clock w - ce_createdAt entry ->
   exists w',
     CacheService.get k w = Returned JNull w' /\
     keyspace (store w') !! CacheService.versioned k = None /\
     hits (metrics w') = hits (metrics w) /\ misses (metrics w') = misses (metrics w) + 1).
Proof.
  intros Hup Hs Ht Hp Httl. split; intros Hage.
  - eexists. split; [apply (get_hit_world w k text entry); try assumption|].
    + unfold CacheService.isExpired. rewrite Z.gtb_ltb. apply Z.ltb_ge. lia.
    + cbn. rewrite lookup_insert_eq. repeat split.
  - assert (He : CacheService.isExpired (clock w) entry = true)
      by (unfold CacheService.isExpired; apply Z.gtb_lt; lia).
    destruct Hup as [C O].
    unfold CacheService.get, CacheService.delete, CacheService.deleteFromRedis,
      CacheService.bump.
    run.
    rewrite getFromRedis_up by (split; assumption).
    replace (string_at (set_metrics _ w) (CacheService.versioned k)) with (Some text)
      by (rewrite <- Hs; reflexivity).
    rewrite Ht. cbn. rewrite Hp, entryOfJson_toJson. cbn [clock set_metrics].
    rewrite He. cbn. rewrite C; cbn. rewrite C, O; cbn.
    eexists. split; [reflexivity|]. cbn. rewrite lookup_delete_eq. repeat split.
Qed.

Lemma cache_entry_outlives_no_ttl_witness :
  exists w',
    CacheService.get (H := SampleRuntime.runtime) "greeting"
      (at_time 400000
         (exec (CacheService.get (H := SampleRuntime.runtime) "greeting")
            (at_time 200000
               (exec (CacheService.set (H := SampleRuntime.runtime) defaultCacheConfig
                        "greeting" (JStr "hello") None) (fresh_world 0)))))
    = Returned JNull w'.
Proof.
  destruct (cache_entry_outlives_no_ttl (H := SampleRuntime.runtime)
              (at_time 400000
                 (exec (CacheService.get (H := SampleRuntime.runtime) "greeting")
                    (at_time 200000
                       (exec (CacheService.set (H := SampleRuntime.runtime)
                                defaultCacheConfig "greeting" (JStr "hello") None)
                          (fresh_world 0)))))
              "greeting"
              (SampleRuntime.stringify
                 (entryToJson
                    {| ce_value := JStr "hello"; ce_ttl := 300; ce_compressed := false;
                       ce_size := 7; ce_createdAt := 0; ce_lastAccessed := 200000 |}))
              {| ce_value := JStr "hello"; ce_ttl := 300; ce_compressed := false;
                 ce_size := 7; ce_createdAt := 0; ce_lastAccessed := 200000 |})
    as [_ Hpast].
  - split; vm_compute; reflexivity.
  - vm_compute. reflexivity.
  - vm_compute. reflexivity.
  - vm_compute. reflexivity.
  - reflexivity.
  - destruct Hpast as (w' & Hget & _); [vm_compute; reflexivity|].
    exists w'. exact Hget.
Defined.

(** ** Invalidation by pattern *)

(** The keys that [KEYS] lists: present, not expired, matching. *)
Lemma keys_listed_NoDup (now : Z) (pattern : string) (sv : server) :
  NoDup (filter (fun k => glob pattern k = true /\ is_Some (lookup_live now (keyspace sv) k))
           (map fst (map_to_list (keyspace sv)))).
Proof. apply NoDup_filter, NoDup_fst_map_to_list. Qed.

Lemma getKeysByPattern_up (w : world) (pattern : string) :
  up w ->
  CacheService.getKeysByPattern pattern w
  = Returned (filter (fun k => glob pattern k = true /\
                               is_Some (lookup_live (clock w) (keyspace (store w)) k))
                     (map fst (map_to_list (keyspace (store w))))) w.
Proof.
  intros [C O]. unfold CacheService.getKeysByPattern. run.
  rewrite C; cbn. rewrite C, O; cbn. now rewrite set_store_same.
Qed.

Lemma deleteBatch_up (w : world) (keys : list string) :
  up w -> keys <> [] ->
  CacheService.deleteBatch keys w
  = Returned tt
      (set_store (with_keyspace (Command.del_keys (clock w) keys (keyspace (store w))).2
                    (store w)) w).
Proof.
  intros [C O] Hne. unfold CacheService.deleteBatch. run.
  rewrite C; cbn.
  destruct keys as [|k keys]; [contradiction|].
  cbn [length]. rewrite Nat2Z.inj_succ.
  destruct (Z.eqb_spec (Z.succ (Z.of_nat (length keys))) 0) as [E|_]; [lia|].
  cbn. rewrite C, O; cbn.
  now destruct (Command.del_keys _ _ _).
Qed.

(** With a batch size of one or more the loop deletes every key it was
    given and counts each of them. *)
Lemma deleteBatches_up (batchSize : Z) :
  0 < batchSize ->
  forall (steps : nat) (keys : list string) (n : Z) (w : world),
    up w -> (length keys <= steps)%nat ->
    exists w',
      CacheService.deleteBatches steps batchSize keys n w
      = Returned (n + Z.of_nat (length keys)) w' /\
      backstage w w' /\ metrics w' = metrics w /\
      forall k, keyspace (store w') !! k
                = if decide (k ∈ keys) then None else keyspace (store w) !! k.
Proof.
  intros Hb steps. induction steps as [|steps IH]; intros keys n w Hup Hlen.
  - destruct keys; [|cbn in Hlen; lia]. exists w. cbn.
    split; [unfold ret; f_equal; lia|].
    split; [apply backstage_refl|]. split; [reflexivity|].
    intros k. destruct (decide (k ∈ [])) as [Hin|]; [now apply elem_of_nil in Hin|reflexivity].
  - destruct keys as [|k0 keys].
    + exists w. cbn. split; [unfold ret; f_equal; lia|].
      split; [apply backstage_refl|]. split; [reflexivity|].
      intros k. destruct (decide (k ∈ [])) as [Hin|]; [now apply elem_of_nil in Hin|reflexivity].
    + set (b := Z.to_nat batchSize).
      assert (Hb' : (0 < b)%nat) by (unfold b; lia).
      assert (Htake : take b (k0 :: keys) <> [])
        by (destruct b; [lia|discriminate]).
      change (CacheService.deleteBatches (S steps) batchSize (k0 :: keys) n w)
        with ((CacheService.deleteBatch (take b (k0 :: keys)) ;;;
               CacheService.deleteBatches steps batchSize (drop b (k0 :: keys))
                 (n + Z.of_nat (length (take b (k0 :: keys))))) w).
      unfold bind at 1. rewrite (deleteBatch_up w _ Hup Htake).
      set (w1 := set_store _ w).
      assert (Hup1 : up w1) by exact Hup.
      destruct (IH (drop b (k0 :: keys)) (n + Z.of_nat (length (take b (k0 :: keys)))) w1 Hup1)
        as (w' & Hrun & Hback & Hm & Hks).
      { rewrite length_drop. cbn [length] in *. lia. }
      exists w'. split.
      { rewrite Hrun. f_equal.
        pose proof (f_equal length (take_drop b (k0 :: keys))) as Hsum.
        rewrite length_app in Hsum. lia. }
      split.
      { eapply backstage_trans; [|exact Hback]. repeat split. }
      split; [now rewrite Hm|].
      intros k. rewrite Hks. unfold w1. cbn [store set_store keyspace with_keyspace].
      rewrite del_keys_lookup.
      assert (Hsplit : k ∈ k0 :: keys
                       <-> k ∈ take b (k0 :: keys) \/ k ∈ drop b (k0 :: keys))
        by (rewrite <- elem_of_app; now rewrite take_drop).
      destruct (decide (k ∈ drop b (k0 :: keys))) as [Hd|Hd];
        destruct (decide (k ∈ take b (k0 :: keys))) as [Ht|Ht];
        destruct (decide (k ∈ k0 :: keys)) as [Ha|Ha];
        try reflexivity; tauto.
Qed.

(** With a batch size below one and a key to delete the loop makes no
    progress, however many steps it is given. *)
Lemma deleteBatches_stuck (batchSize : Z) (k0 : string) (keys : list string) :
  batchSize <= 0 ->
  forall (steps : nat) (n : Z) (w : world),
    CacheService.deleteBatches steps batchSize (k0 :: keys) n w = Pending.
Proof.
  intros Hb steps. induction steps as [|steps IH]; intros n w; [reflexivity|].
  assert (Hz : Z.to_nat batchSize = 0%nat) by lia.
  change (CacheService.deleteBatches (S steps) batchSize (k0 :: keys) n w)
    with ((CacheService.deleteBatch (take (Z.to_nat batchSize) (k0 :: keys)) ;;;
           CacheService.deleteBatches steps batchSize (drop (Z.to_nat batchSize) (k0 :: keys))
             (n + Z.of_nat (length (take (Z.to_nat batchSize) (k0 :: keys))))) w).
  rewrite Hz. cbn [take drop length].
  unfold bind at 1, CacheService.deleteBatch, try_catch, bind, gets.
  destruct (client w); cbn; apply IH.
Qed.

(** The keys that match a pattern in a world. *)
Lemma deletePattern_spec (inv : CacheInvalidation) (pattern : string) (w : world) :
  up w -> enablePatternInvalidation inv = true -> 0 < batchInvalidationSize inv ->
  exists keys w',
    CacheService.deletePattern inv pattern w = Returned (Z.of_nat (length keys)) w' /\
    NoDup keys /\
    (forall k, k ∈ keys <-> matching w (CacheService.versioned pattern) k) /\
    backstage w w' /\
    metrics w' = CacheService.count_deletes (Z.of_nat (length keys)) (metrics w) /\
    forall k, keyspace (store w') !! k
              = if decide (k ∈ keys) then None else keyspace (store w) !! k.
Proof.
  intros Hup Hen Hb.
  set (keys := filter (fun k => glob (CacheService.versioned pattern) k = true /\
                                is_Some (lookup_live (clock w) (keyspace (store w)) k))
                 (map fst (map_to_list (keyspace (store w))))).
  exists keys.
  assert (Hmem : forall k, k ∈ keys <-> matching w (CacheService.versioned pattern) k)
    by (intros k; apply KEYS_elem).
  unfold CacheService.deletePattern. rewrite Hen. cbn [negb].
  unfold try_catch, bind at 1. rewrite (getKeysByPattern_up w _ Hup). fold keys.
  destruct (Z.eqb_spec (Z.of_nat (length keys)) 0) as [E|E].
  - exists w. assert (keys = []) as Hnil by (destruct keys; [reflexivity|cbn in E; lia]).
    rewrite Hnil in *. cbn.
    split; [reflexivity|]. split; [apply NoDup_nil_2|]. split; [exact Hmem|].
    split; [apply backstage_refl|]. split.
    + destruct (metrics w); unfold CacheService.count_deletes; cbn; f_equal; lia.
    + intros k. destruct (decide (k ∈ [])) as [Hin|]; [now apply elem_of_nil in Hin|reflexivity].
  - destruct (deleteBatches_up _ Hb (length keys) keys 0 w Hup (le_n _))
      as (w' & Hrun & Hback & Hm & Hks).
    unfold bind at 1. rewrite Hrun. cbn.
    eexists. split; [reflexivity|].
    split; [apply keys_listed_NoDup|]. split; [exact Hmem|].
    split; [exact Hback|]. split; [cbn; now rewrite Hm|exact Hks].
Qed.

(** X13: [deletePattern] removes the keys that match, and only them.  With
    pattern invalidation switched off it returns zero and leaves the state
    as it is.  Switched on, with a batch size of one or more and a pattern
    that holds neither a character class nor an escape (no [[] and no
    backslash, so that [*] and [?] are its only wildcards), it returns a
    number that is zero exactly when no key is present, not expired and
    matches the versioned pattern; afterwards none of the keys that matched
    is in the store, every other key holds what it held, and the delete
    counter has grown by the number returned.  With a batch size below one
    it never returns once a key matches. *)
Theorem deletePattern_removes_matching_keys (inv : CacheInvalidation) (pattern : string)
    (w : world) :
  up w ->
  (enablePatternInvalidation inv = false ->
   CacheService.deletePattern inv pattern w = Returned 0 w) /\
  (enablePatternInvalidation inv = true -> 0 < batchInvalidationSize inv ->
   wildcards_only pattern = true ->
   exists n w',
     CacheService.deletePattern inv pattern w = Returned n w' /\
     0 <= n /\
     (n = 0 <-> forall k, ~ matching w (CacheService.versioned pattern) k) /\
     (forall k, matching w (CacheService.versioned pattern) k ->
                keyspace (store w') !! k = None) /\
     (forall k, ~ matching w (CacheService.versioned pattern) k ->
                keyspace (store w') !! k = keyspace (store w) !! k) /\
     deletes (metrics w') = deletes (metrics w) + n) /\
  (enablePatternInvalidation inv = true -> batchInvalidationSize inv <= 0 ->
   wildcards_only pattern = true ->
   (exists k, matching w (CacheService.versioned pattern) k) ->
   CacheService.deletePattern inv pattern w = Pending).
Proof.
  intros Hup. split; [|split].
  - intros Hen. unfold CacheService.deletePattern. now rewrite Hen.
  - intros Hen Hb _.
    destruct (deletePattern_spec inv pattern w Hup Hen Hb)
      as (keys & w' & Hrun & _ & Hmem & _ & Hm & Hks).
    exists (Z.of_nat (length keys)), w'.
    split; [exact Hrun|]. split; [lia|]. split; [|split; [|split]].
    + split.
      * intros Hn k Hk. apply Hmem in Hk.
        destruct keys; [now apply elem_of_nil in Hk|cbn in Hn; lia].
      * intros Hnone. destruct keys as [|k keys]; [reflexivity|].
        exfalso. apply (Hnone k), Hmem, list_elem_of_here.
    + intros k Hk. rewrite Hks. apply Hmem in Hk.
      destruct (decide (k ∈ keys)); [reflexivity|contradiction].
    + intros k Hk. rewrite Hks.
      destruct (decide (k ∈ keys)) as [Hin|]; [|reflexivity].
      apply Hmem in Hin. contradiction.
    + now rewrite Hm.
  - intros Hen Hb _ [k Hk].
    unfold CacheService.deletePattern. rewrite Hen. cbn [negb].
    unfold try_catch, bind at 1. rewrite (getKeysByPattern_up w _ Hup).
    apply KEYS_elem in Hk.
    destruct (filter _ _) as [|k0 keys] eqn:E; [now apply elem_of_nil in Hk|].
    cbn [length]. rewrite Nat2Z.inj_succ.
    destruct (Z.eqb_spec (Z.succ (Z.of_nat (length keys))) 0) as [E'|_]; [lia|].
    unfold bind at 1. now rewrite deleteBatches_stuck.
Qed.


Lemma deletePattern_removes_matching_keys_witness :
  exists n w',
    CacheService.deletePattern defaultCacheInvalidation "cache:session:*"
      (exec (CacheService.set (H := SampleRuntime.runtime) defaultCacheConfig
               "cache:session:history:s1" (JStr "hello") None) (fresh_world 0))
    = Returned n w' /\
    n <> 0 /\
    keyspace (store w') !! "1.0:cache:session:history:s1" = None.
Proof.
  assert (Hmatch : matching
                     (exec (CacheService.set (H := SampleRuntime.runtime) defaultCacheConfig
                              "cache:session:history:s1" (JStr "hello") None)
                           (fresh_world 0))
                     (CacheService.versioned "cache:session:*")
                     "1.0:cache:session:history:s1").
  { split; [vm_compute; reflexivity|]. eexists. vm_compute. reflexivity. }
  destruct (deletePattern_removes_matching_keys defaultCacheInvalidation "cache:session:*"
              (exec (CacheService.set (H := SampleRuntime.runtime) defaultCacheConfig
                       "cache:session:history:s1" (JStr "hello") None) (fresh_world 0)))
    as (_ & Hon & _).
  - split; vm_compute; reflexivity.
  - destruct Hon as (n & w' & Hrun & _ & Hzero & Hgone & _);
      [reflexivity|vm_compute; reflexivity|reflexivity|].
    exists n, w'. split; [exact Hrun|]. split.
    + intros Hn. exact (proj1 Hzero Hn _ Hmatch).
    + apply Hgone, Hmatch.
Defined.

(** A literal text at the head of a pattern is read off the head of the
    key. *)
Lemma glob_literal_prefix (p q s : string) :
  literal p = true -> glob (p +:+ q) (p +:+ s) = glob q s.
Proof.
  intros Hp. induction p as [|c p IH].
  - now rewrite !append_nil_l.
  - rewrite !append_cons_l. cbn [literal] in Hp. apply andb_true_iff in Hp as [Hc Hp].
    apply negb_true_iff in Hc. repeat (apply orb_false_iff in Hc as [Hc _]).
    cbn [glob]. rewrite Hc, Ascii.eqb_refl, orb_true_r. cbn [andb]. now apply IH.
Qed.

(** The pattern of [invalidateSession] has two colons where the key of
    [cacheSession] has the type between them. *)
Lemma session_pattern_misses_typed_key (sessionId : string) (c : ascii) (rest : string) :
  c <> ":"%char ->
  glob (CacheService.versioned
          ((CacheKeyGenerator.sessionPrefix +:+ ":" +:+ "" +:+ ":" +:+ sessionId) +:+ "*"))
       (CacheService.versioned
          (CacheKeyGenerator.sessionPrefix +:+ ":" +:+ String c rest +:+ ":" +:+ sessionId))
  = false.
Proof.
  intros Hc.
  change (CacheService.versioned
            ((CacheKeyGenerator.sessionPrefix +:+ ":" +:+ "" +:+ ":" +:+ sessionId) +:+ "*"))
    with ("1.0:cache:session:" +:+ String ":" (sessionId +:+ "*")).
  change (CacheService.versioned
            (CacheKeyGenerator.sessionPrefix +:+ ":" +:+ String c rest +:+ ":" +:+ sessionId))
    with ("1.0:cache:session:" +:+ String c (rest +:+ ":" +:+ sessionId)).
  rewrite glob_literal_prefix by reflexivity.
  cbn [glob]. change (Ascii.eqb ":" "*") with false. change (Ascii.eqb ":" "?") with false.
  cbn [orb]. destruct (Ascii.eqb_spec ":"%char c) as [E|_]; [now destruct Hc|reflexivity].
Qed.

Lemma validateKey_fits (key : string) (w : world) :
  Z.of_nat (String.length key) <= CacheKeyGenerator.maxKeyLength ->
  CacheKeyGenerator.validateKey key w = Returned key w.
Proof.
  intros Hfit. unfold CacheKeyGenerator.validateKey.
  destruct (Z.gtb_spec (Z.of_nat (String.length key)) CacheKeyGenerator.maxKeyLength);
    [lia|reflexivity].
Qed.

Lemma length_append (a b : string) :
  String.length (a +:+ b) = (String.length a + String.length b)%nat.
Proof.
  induction a as [|c a IH]; [now rewrite append_nil_l|].
  rewrite append_cons_l. cbn. now rewrite IH.
Qed.

(** X14: [invalidateSession] leaves the typed entries of the session in
    place.  [cacheSession] stores under [cache:session:<type>:<id>], while
    [invalidateSession] deletes by the pattern [cache:session::<id>*], so an
    entry stored under a type that does not begin with a colon survives:
    after [cacheSession] and then [invalidateSession] of the same session,
    [getCachedSession] still returns the value. *)
Theorem invalidateSession_keeps_typed_entries `{Runtime} (cfg : CacheConfig)
    (inv : CacheInvalidation) (w : world) (sessionId : string) (c : ascii) (rest : string)
    (value : json) (ttl : option Z) :
  let type := String c rest in
  let t := Some (sessionTtlOf inv ttl) in
  up w -> c <> ":"%char ->
  Z.of_nat (String.length
              (CacheKeyGenerator.sessionPrefix +:+ ":" +:+ type +:+ ":" +:+ sessionId))
  <= CacheKeyGenerator.maxKeyLength ->
  CacheService.getSize (JSON_stringify value) <= maxValueSize cfg ->
  0 < CacheService.finalTtlOf cfg t ->
  enableCompression cfg && (CacheService.getSize (JSON_stringify value)
                            >? compressionThreshold cfg) = false ->
  json_roundtrip (entryToJson (entryOf cfg (clock w) value t)) ->
  0 < batchInvalidationSize inv ->
  exists w1 n w2 w3,
    CacheService.cacheSession cfg inv sessionId type value ttl w = Returned tt w1 /\
    CacheService.invalidateSession inv sessionId w1 = Returned n w2 /\
    CacheService.getCachedSession sessionId type w2 = Returned value w3.
Proof.
  intros type t Hup Hc Hfit Hsize Httl Hsmall [Hparse Htruthy] Hb.
  set (key := CacheKeyGenerator.sessionPrefix +:+ ":" +:+ type +:+ ":" +:+ sessionId) in *.
  set (entry := entryOf cfg (clock w) value t) in *.
  set (text := JSON_stringify (entryToJson entry)) in *.
  set (w1 := put (CacheService.versioned key)
               {| rval := RString text;
                  expireAt := Some (clock w + CacheService.finalTtlOf cfg t * 1000) |}
               (counted_set w)).
  assert (Hup1 : up w1) by (apply put_up; now apply counted_set_up).
  assert (Hset : CacheService.cacheSession cfg inv sessionId type value ttl w = Returned tt w1).
  { unfold CacheService.cacheSession, CacheKeyGenerator.session. unfold bind at 1.
    fold key. rewrite (validateKey_fits key w Hfit).
    now apply set_returns. }
  assert (Hfit' : Z.of_nat (String.length
                    (CacheKeyGenerator.sessionPrefix +:+ ":" +:+ "" +:+ ":" +:+ sessionId))
                  <= CacheKeyGenerator.maxKeyLength).
  { unfold key, type in Hfit. rewrite !length_append in *. cbn [String.length] in *. lia. }
  assert (Hstored : string_at w1 (CacheService.versioned key) = Some text).
  { assert (Hlive : (clock w <? clock w + CacheService.finalTtlOf cfg t * 1000) = true)
      by (apply Z.ltb_lt; lia).
    unfold string_at, lookup_live, w1. cbn - [CacheService.finalTtlOf].
    rewrite lookup_insert_eq. unfold live. cbn - [CacheService.finalTtlOf].
    now rewrite Hlive. }
  assert (Hinv : exists n w2,
             CacheService.invalidateSession inv sessionId w1 = Returned n w2 /\
             up w2 /\ clock w2 = clock w1 /\
             keyspace (store w2) !! CacheService.versioned key
             = keyspace (store w1) !! CacheService.versioned key).
  { unfold CacheService.invalidateSession, CacheKeyGenerator.session. unfold bind at 1.
    rewrite (validateKey_fits _ w1 Hfit').
    destruct (enablePatternInvalidation inv) eqn:Hen.
    - destruct (deletePattern_spec inv
                  ((CacheKeyGenerator.sessionPrefix +:+ ":" +:+ "" +:+ ":" +:+ sessionId)
                   +:+ "*") w1 Hup1 Hen Hb)
        as (keys & w2 & Hrun & _ & Hmem & Hback & _ & Hks).
      exists (Z.of_nat (length keys)), w2. split; [exact Hrun|].
      split; [now apply (backstage_up _ _ Hback)|]. split; [apply Hback|].
      rewrite Hks. destruct (decide (CacheService.versioned key ∈ keys)) as [Hin|]; [|reflexivity].
      apply Hmem in Hin as [Hglob _]. unfold key, type in Hglob.
      now rewrite session_pattern_misses_typed_key in Hglob.
    - exists 0, w1. split; [|auto].
      unfold CacheService.deletePattern. now rewrite Hen. }
  destruct Hinv as (n & w2 & Hrun & Hup2 & Hclock & Hsame).
  exists w1, n, w2. eexists. split; [exact Hset|]. split; [exact Hrun|].
  unfold CacheService.getCachedSession, CacheKeyGenerator.session. unfold bind at 1.
  fold type. fold key. rewrite (validateKey_fits key w2 Hfit).
  assert (Hcreated : ce_createdAt entry = clock w)
    by (unfold entry, entryOf; now destruct (_ && _)).
  assert (Hentryttl : ce_ttl entry = CacheService.finalTtlOf cfg t)
    by (unfold entry, entryOf; now destruct (_ && _)).
  rewrite (get_hit_world w2 key text entry).
  - f_equal. unfold delivered, entry, entryOf. now rewrite Hsmall.
  - exact Hup2.
  - unfold string_at, lookup_live in *. now rewrite Hclock, Hsame.
  - exact Htruthy.
  - exact Hparse.
  - unfold CacheService.isExpired. rewrite Hclock, Hcreated, Hentryttl.
    change (clock w1) with (clock w). rewrite Z.gtb_ltb. apply Z.ltb_ge. lia.
  - now rewrite Hentryttl.
Qed.

Lemma invalidateSession_keeps_typed_entries_witness :
  exists w1 n w2 w3,
    CacheService.cacheSession (H := SampleRuntime.runtime) defaultCacheConfig
      defaultCacheInvalidation "s1" "history" (JStr "hello") None (fresh_world 0)
    = Returned tt w1 /\
    CacheService.invalidateSession defaultCacheInvalidation "s1" w1 = Returned n w2 /\
    CacheService.getCachedSession (H := SampleRuntime.runtime) "s1" "history" w2
    = Returned (JStr "hello") w3.
Proof.
  apply (invalidateSession_keeps_typed_entries (H := SampleRuntime.runtime)
           defaultCacheConfig defaultCacheInvalidation (fresh_world 0) "s1" "h" "istory"
           (JStr "hello") None).
  - split; reflexivity.
  - discriminate.
  - vm_compute. discriminate.
  - vm_compute. discriminate.
  - reflexivity.
  - vm_compute. reflexivity.
  - split; vm_compute; reflexivity.
  - reflexivity.
Defined.

(** ** The key spaces of the services *)

Lemma session_key_getSessionKey (sid : string) : session_key (SessionService.getSessionKey sid).
Proof. now exists sid. Qed.

Lemma session_key_getIPKey (ip : string) : session_key (SessionService.getIPKey ip).
Proof. now exists ("ip:" +:+ ip). Qed.

Lemma quota_key_window (kind : quota) (identifier : string) (ws : Z) :
  quota_key (RateLimitService.windowKey (quotaKey kind identifier) ws).
Proof.
  destruct kind;
    [exists ("ip:" +:+ identifier +:+ ":" +:+ Z_toString ws)
    |exists ("session:" +:+ identifier +:+ ":" +:+ Z_toString ws)
    |exists ("global:" +:+ identifier +:+ ":" +:+ Z_toString ws)
    |exists ("ws_conn:" +:+ identifier +:+ ":" +:+ Z_toString ws)
    |exists ("ws_msg:" +:+ identifier +:+ ":" +:+ Z_toString ws)];
    reflexivity.
Qed.

Lemma quota_key_endpoint_window (endpointKey identifier : string) (ws : Z) :
  quota_key (RateLimitService.windowKey
               (RateLimitService.getEndpointKey endpointKey identifier) ws).
Proof.
  exists ("endpoint:" +:+ RateLimitService.safeEndpoint endpointKey +:+ ":" +:+ identifier
          +:+ ":" +:+ Z_toString ws).
  unfold RateLimitService.windowKey, RateLimitService.getEndpointKey.
  now rewrite <- !append_assoc.
Qed.

Lemma cache_key_versioned (k : string) : cache_key (CacheService.versioned k).
Proof. now exists k. Qed.

(** A key that matches a pattern starts with the literal head of the
    pattern. *)
Lemma glob_literal_head (p q k : string) :
  literal p = true -> glob (p +:+ q) k = true -> exists x, k = p +:+ x.
Proof.
  intros Hp. revert k. induction p as [|c p IH]; intros k Hg.
  - exists k. now rewrite append_nil_l.
  - rewrite append_cons_l in Hg. cbn [literal] in Hp. apply andb_true_iff in Hp as [Hc Hp].
    apply negb_true_iff in Hc. do 3 (apply orb_false_iff in Hc as [Hc _]).
    apply orb_false_iff in Hc as [Hc Hq].
    cbn [glob] in Hg. rewrite Hc in Hg.
    destruct k as [|d k]; [discriminate|].
    apply andb_true_iff in Hg as [Hd Hg].
    rewrite Hq in Hd. cbn [orb] in Hd. apply Ascii.eqb_eq in Hd as <-.
    destruct (IH Hp k Hg) as [x ->]. exists x. now rewrite append_cons_l.
Qed.


(** Inside [confined_weaken]: the key of a single-key operation lies in the
    key space. *)
Ltac in_space lemma :=
  eapply confined_weaken; [|apply lemma];
  first [ intros ? <- | intros ? Hin; apply list_elem_of_singleton in Hin as -> ];
  first [ apply session_key_getSessionKey | apply session_key_getIPKey
        | apply cache_key_versioned ].

Ltac in_sessions :=
  repeat first
    [ apply confined_get | apply confined_keys | apply confined_smembers
    | in_space confined_setWithExpiry | in_space confined_set | in_space confined_sadd
    | in_space confined_srem | in_space confined_expire | in_space confined_del
    | confined_step ].

Section SessionSpace.

Context `{Runtime}.
Variable cfg : SessionConfig.

Lemma sessions_deleteSession (fuel : nat) (sid : string) :
  confined session_key (SessionService.deleteSession cfg fuel sid).
Proof.
  unfold SessionService.deleteSession, SessionService.deleteSession_with.
  apply confined_try_catch; [|intros ?; in_sessions].
  apply confined_bind; [apply confined_getSession|intros ?; in_sessions].
Qed.

Lemma sessions_getSessionCountByIP (fuel : nat) (ip : string) :
  confined session_key (SessionService.getSessionCountByIP cfg fuel ip).
Proof.
  eapply confined_weaken; [|apply confined_getSessionCountByIP].
  intros ? <-. apply session_key_getIPKey.
Qed.

Lemma sessions_createSession (fuel : nat) (options : SessionCreateOptions) :
  confined session_key (SessionService.createSession cfg fuel options).
Proof.
  unfold SessionService.createSession.
  apply confined_try_catch; [|intros ?; in_sessions].
  apply confined_bind; [in_sessions|intros now].
  apply confined_bind; [apply sessions_getSessionCountByIP|intros ?; in_sessions].
Qed.

Lemma sessions_updateSession (fuel : nat) (sid : string) (updates : SessionUpdateOptions) :
  confined session_key (SessionService.updateSession cfg fuel sid updates).
Proof.
  unfold SessionService.updateSession.
  apply confined_try_catch; [|intros ?; in_sessions].
  apply confined_bind; [apply confined_getSession|intros ?; in_sessions].
Qed.

Lemma sessions_validateSession (fuel : nat) (sid : string) (address : option string) :
  confined session_key (SessionService.validateSession cfg fuel sid address).
Proof.
  unfold SessionService.validateSession.
  apply confined_try_catch; [|intros ?; in_sessions].
  apply confined_bind; [apply confined_getSession|intros ?; in_sessions].
Qed.

Lemma sessions_incrementMessageCount (fuel : nat) (sid : string) :
  confined session_key (SessionService.incrementMessageCount cfg fuel sid).
Proof.
  unfold SessionService.incrementMessageCount.
  apply confined_try_catch; [|intros ?; in_sessions].
  apply confined_bind; [apply confined_getSession|intros [sd|]; [|in_sessions]].
  apply confined_bind; [in_sessions|intros now].
  apply confined_bind; [apply sessions_updateSession|intros ?; in_sessions].
Qed.

Lemma sessions_sweep (fuel : nat) (now : Z) (keys : list string) : forall removed,
  confined session_key (SessionService.sweep cfg fuel now keys removed).
Proof.
  induction keys as [|key keys IH]; intros removed; cbn [SessionService.sweep].
  - apply confined_ret.
  - apply confined_bind; [|intros n; apply IH].
    apply confined_try_catch; [|intros ?; in_sessions].
    apply confined_bind; [apply confined_get|intros [str|]; [|in_sessions]].
    destruct (negb (truthy str)); [in_sessions|].
    destruct (JSON_parse str) as [j|]; [|in_sessions].
    destruct (sessionOfJson j) as [sd|]; [|in_sessions].
    destruct (negb (isActive sd) || SessionService.expired cfg now sd); [|in_sessions].
    apply confined_bind; [apply sessions_deleteSession|intros ?; in_sessions].
Qed.

Lemma sessions_cleanupExpiredSessions (fuel : nat) :
  confined session_key (SessionService.cleanupExpiredSessions cfg fuel).
Proof.
  unfold SessionService.cleanupExpiredSessions.
  apply confined_try_catch; [|intros ?; in_sessions].
  apply confined_bind; [apply confined_keys|intros keys].
  apply confined_bind; [in_sessions|intros now].
  apply confined_bind; [apply sessions_sweep|intros ?; in_sessions].
Qed.

End SessionSpace.

Lemma sessions_isHealthy : confined session_key SessionService.isHealthy.
Proof.
  unfold SessionService.isHealthy.
  apply confined_try_catch; [|intros ?; in_sessions].
  apply confined_bind; [|intros _].
  { eapply confined_weaken; [|apply confined_set]. intros ? <-. now exists "health:test". }
  apply confined_bind; [apply confined_get|intros result].
  apply confined_bind; [|intros ?; in_sessions].
  eapply confined_weaken; [|apply confined_del].
  intros ? Hin. apply list_elem_of_singleton in Hin as ->. now exists "health:test".
Qed.

(** *** The rate limiter *)

Lemma confined_checkRateLimit (P : string -> Prop) (info : RateLimitInfo) :
  confined P (RateLimitService.checkRateLimit info).
Proof.
  unfold RateLimitService.checkRateLimit, RateLimitService.getCurrentCount.
  repeat first [apply confined_get | confined_step].
Qed.

Lemma confined_recordRequest (info : RateLimitInfo) :
  confined (fun k => exists ws, k = RateLimitService.windowKey (rl_key info) ws)
    (RateLimitService.recordRequest info).
Proof.
  unfold RateLimitService.recordRequest, RateLimitService.incrementCount.
  apply confined_try_catch; [|intros; apply confined_ret].
  apply confined_bind; [apply confined_gets|intros now].
  apply confined_bind; [|intros; apply confined_ret].
  apply confined_bind.
  - eapply confined_weaken; [|apply confined_incr]. intros ? <-. eauto.
  - intros count. apply confined_bind; [|intros; apply confined_ret].
    destruct (count =? 1); [|apply confined_ret].
    apply confined_bind; [|intros; apply confined_ret].
    eapply confined_weaken; [|apply confined_expire]. intros ? <-. eauto.
Qed.

Lemma quotas_record (kind : quota) (identifier : string) (rule : RateLimitRule)
    (name type : string) :
  confined quota_key
    (RateLimitService.recordRequest
       {| rl_key := quotaKey kind identifier; rl_rule := rule; rl_identifier := name;
          rl_type := type |}).
Proof.
  eapply confined_weaken; [|apply confined_recordRequest].
  intros k [ws ->]. apply quota_key_window.
Qed.

Lemma quotas_recordEndpointRequest (config : RateLimitConfig) (method path identifier : string) :
  confined quota_key (RateLimitService.recordEndpointRequest config method path identifier).
Proof.
  unfold RateLimitService.recordEndpointRequest.
  destruct (RateLimitService.getEndpointRule _ _).
  - eapply confined_weaken; [|apply confined_recordRequest].
    intros k [ws ->]. apply quota_key_endpoint_window.
  - apply (quotas_record GlobalQuota).
Qed.

Lemma quotas_use (config : RateLimitConfig) (method path ipAddress : string)
    (sessionId : option string) :
  confined quota_key (RateLimitMiddleware.use config method path ipAddress sessionId).
Proof.
  unfold RateLimitMiddleware.use.
  destruct (RateLimitService.isIPWhitelisted config ipAddress); [apply confined_ret|].
  destruct (RateLimitService.shouldSkipEndpoint config path); [apply confined_ret|].
  apply confined_try_catch; [|intros; apply confined_ret].
  apply confined_bind; [apply confined_checkRateLimit|intros ipResult].
  apply confined_bind.
  { destruct sessionId; [|apply confined_ret].
    apply confined_bind; [apply confined_checkRateLimit|intros; apply confined_ret]. }
  intros sessionResult.
  apply confined_bind.
  { unfold RateLimitService.checkEndpointRateLimit.
    destruct (RateLimitService.getEndpointRule _ _); apply confined_checkRateLimit. }
  intros endpointResult.
  destruct (RateLimitMiddleware.mostRestrictive _) as [chosen|]; [|apply confined_throw].
  destruct (negb (allowed chosen)); [apply confined_ret|].
  apply confined_bind; [|intros; apply confined_ret].
  unfold RateLimitMiddleware.recordRequest.
  apply confined_try_catch; [|intros; apply confined_ret].
  apply confined_bind; [apply (quotas_record AddressQuota)|intros _].
  apply confined_bind; [apply quotas_recordEndpointRequest|intros _].
  destruct sessionId; [apply (quotas_record SessionQuota)|apply confined_ret].
Qed.

Lemma keys_listed (w : world) (pattern : string) :
  exists l, RedisService.keys pattern w = Returned l w /\
            forall k, k ∈ l -> glob pattern k = true.
Proof.
  destruct (classic_up w) as [Hup|Hdown].
  - rewrite (keys_up _ _ Hup). eexists. split; [reflexivity|].
    intros k Hk. now apply KEYS_elem in Hk.
  - exists []. split; [now apply unavailable_defaults, down_cases|].
    intros k Hk. now apply elem_of_nil in Hk.
Qed.

Lemma confined_bind_ret {A B} (P : string -> Prop) (a : A) (k : A -> M B) :
  confined P (k a) -> confined P (bind (ret a) k).
Proof. intros Hk w. exact (Hk w). Qed.

(** Deleting the keys that a pattern lists stays within the texts that
    start with the literal head of the pattern. *)
Lemma confined_delete_listed (p q : string) :
  literal p = true ->
  confined (fun k => exists x, k = p +:+ x)
    (keys <- RedisService.keys (p +:+ q) ;;
     if 0 <? Z.of_nat (length keys) then RedisService.del keys ;;; ret tt else ret tt).
Proof.
  intros Hp w. unfold bind at 1.
  destruct (keys_listed w (p +:+ q)) as (keys & -> & Hin).
  destruct (0 <? Z.of_nat (length keys)); [|apply within_refl].
  assert (Hc : confined (fun k => exists x, k = p +:+ x) (RedisService.del keys ;;; ret tt)).
  { apply confined_bind; [|intros; apply confined_ret].
    eapply confined_weaken; [|apply confined_del].
    intros k Hk. apply Hin in Hk. now apply glob_literal_head in Hk. }
  apply Hc.
Qed.

Lemma quotas_resetRateLimit (type identifier : string) :
  confined quota_key (RateLimitService.resetRateLimit type identifier).
Proof.
  unfold RateLimitService.resetRateLimit.
  apply confined_try_catch; [|intros; apply confined_throw].
  destruct (String.eqb type "ip").
  { apply confined_bind_ret.
    apply (confined_delete_listed "rate_limit:" ("ip:" +:+ identifier +:+ ":*")).
    reflexivity. }
  destruct (String.eqb type "session").
  { apply confined_bind_ret.
    apply (confined_delete_listed "rate_limit:" ("session:" +:+ identifier +:+ ":*")).
    reflexivity. }
  destruct (String.eqb type "global").
  { apply confined_bind_ret.
    apply (confined_delete_listed "rate_limit:" ("global:" +:+ identifier +:+ ":*")).
    reflexivity. }
  intros w. apply within_refl.
Qed.


Lemma quotas_isHealthy : confined quota_key RateLimitService.isHealthy.
Proof.
  assert (Hk : forall k, "rate_limit:health:test" = k -> quota_key k)
    by (intros ? <-; now exists "health:test").
  unfold RateLimitService.isHealthy.
  apply confined_try_catch; [|intros; apply confined_ret].
  apply confined_bind; [eapply confined_weaken; [exact Hk|apply confined_set]|intros _].
  apply confined_bind; [eapply confined_weaken; [exact Hk|apply confined_incr]|intros _].
  apply confined_bind; [apply confined_get|intros result].
  apply confined_bind; [|intros; apply confined_ret].
  eapply confined_weaken; [|apply confined_del].
  intros ? Hin. apply list_elem_of_singleton in Hin as ->. now apply Hk.
Qed.

(** *** The cache *)

Lemma confined_getFromRedis (P : string -> Prop) (k : string) :
  confined P (CacheService.getFromRedis k).
Proof.
  unfold CacheService.getFromRedis.
  apply confined_try_catch; [|intros; apply confined_ret].
  apply confined_bind; [apply confined_gets|intros c].
  destruct (negb c); [apply confined_ret|apply confined_on_client, local_GET].
Qed.

Lemma confined_setToRedis (k v : string) (t : Z) :
  confined (eq k) (CacheService.setToRedis k v t).
Proof.
  unfold CacheService.setToRedis.
  apply confined_try_catch; [|intros; apply confined_throw].
  apply confined_bind; [apply confined_gets|intros c].
  destruct (negb c); [apply confined_throw|apply confined_on_client, local_SETEX].
Qed.

Lemma confined_deleteFromRedis (k : string) :
  confined (eq k) (CacheService.deleteFromRedis k).
Proof.
  unfold CacheService.deleteFromRedis.
  apply confined_try_catch; [|intros; apply confined_throw].
  apply confined_bind; [apply confined_gets|intros c].
  destruct (negb c); [apply confined_ret|].
  apply confined_bind; [|intros; apply confined_ret].
  apply confined_on_client. eapply local_weaken; [|apply local_DEL].
  intros k' Hin. now apply list_elem_of_singleton in Hin.
Qed.

Lemma confined_cache_delete (k : string) :
  confined (eq (CacheService.versioned k)) (CacheService.delete k).
Proof.
  unfold CacheService.delete.
  apply confined_try_catch; [|intros; apply confined_throw].
  apply confined_bind; [apply confined_bump|intros _].
  apply confined_bind; [apply confined_bump|intros _].
  apply confined_deleteFromRedis.
Qed.

Lemma confined_cache_get `{Runtime} (k : string) :
  confined (eq (CacheService.versioned k)) (CacheService.get k).
Proof.
  unfold CacheService.get.
  apply confined_try_catch.
  2:{ intros. apply confined_bind; [apply confined_bump|intros; apply confined_ret]. }
  apply confined_bind; [apply confined_bump|intros _].
  apply confined_bind; [apply confined_getFromRedis|intros [str|]].
  2:{ apply confined_bind; [apply confined_bump|intros; apply confined_ret]. }
  destruct (negb (truthy str)).
  { apply confined_bind; [apply confined_bump|intros; apply confined_ret]. }
  destruct (JSON_parse str) as [j|]; [|apply confined_throw].
  destruct (entryOfJson j) as [entry|]; [|apply confined_throw].
  apply confined_bind; [apply confined_gets|intros now].
  destruct (CacheService.isExpired now entry).
  - apply confined_bind; [apply confined_cache_delete|intros _].
    apply confined_bind; [apply confined_bump|intros; apply confined_ret].
  - apply confined_bind; [apply confined_setToRedis|intros _].
    apply confined_bind; [apply confined_bump|intros _].
    cbn [ce_compressed ce_value].
    destruct (ce_compressed entry), (ce_value entry); apply confined_ret.
Qed.

Lemma confined_cache_set `{Runtime} (cfg : CacheConfig) (k : string) (value : json)
    (ttl : option Z) :
  confined (eq (CacheService.versioned k)) (CacheService.set cfg k value ttl).
Proof.
  unfold CacheService.set.
  apply confined_try_catch; [|intros; apply confined_throw].
  apply confined_bind; [apply confined_bump|intros _].
  apply confined_bind; [apply confined_bump|intros _].
  apply confined_bind; [apply confined_gets|intros now].
  destruct (_ >? maxValueSize cfg); [apply confined_throw|].
  destruct (enableCompression cfg && _); apply confined_setToRedis.
Qed.

Lemma getKeysByPattern_listed (w : world) (pattern : string) :
  exists l, CacheService.getKeysByPattern pattern w = Returned l w /\
            forall k, k ∈ l -> glob pattern k = true.
Proof.
  destruct (classic_up w) as [Hup|Hdown].
  - rewrite (getKeysByPattern_up _ _ Hup). eexists. split; [reflexivity|].
    intros k Hk. now apply KEYS_elem in Hk.
  - exists []. split; [|intros k Hk; now apply elem_of_nil in Hk].
    unfold CacheService.getKeysByPattern, try_catch, bind, gets, RedisService.on_client.
    destruct (client w) eqn:C; cbn; [|reflexivity]. rewrite C; cbn.
    destruct (online w) eqn:O; cbn; [|reflexivity].
    destruct Hdown. now split.
Qed.

Lemma confined_deleteBatch (keys : list string) :
  confined (fun k => k ∈ keys) (CacheService.deleteBatch keys).
Proof.
  unfold CacheService.deleteBatch.
  apply confined_try_catch; [|intros; apply confined_throw].
  apply confined_bind; [apply confined_gets|intros c].
  destruct (negb c || _); [apply confined_ret|].
  apply confined_bind; [|intros; apply confined_ret].
  apply confined_on_client, local_DEL.
Qed.

Lemma confined_deleteBatches (batchSize : Z) (steps : nat) : forall keys n,
  confined (fun k => k ∈ keys) (CacheService.deleteBatches steps batchSize keys n).
Proof.
  induction steps as [|steps IH]; intros keys n; destruct keys as [|k0 keys];
    try apply confined_ret.
  - intros w. exact I.
  - change (CacheService.deleteBatches (S steps) batchSize (k0 :: keys) n)
      with (CacheService.deleteBatch (take (Z.to_nat batchSize) (k0 :: keys)) ;;;
            CacheService.deleteBatches steps batchSize
              (drop (Z.to_nat batchSize) (k0 :: keys))
              (n + Z.of_nat (length (take (Z.to_nat batchSize) (k0 :: keys))))).
    apply confined_bind; [|intros _].
    + eapply confined_weaken; [|apply confined_deleteBatch].
      intros k Hk. rewrite <- (take_drop (Z.to_nat batchSize) (k0 :: keys)).
      apply elem_of_app. now left.
    + eapply confined_weaken; [|apply IH].
      intros k Hk. rewrite <- (take_drop (Z.to_nat batchSize) (k0 :: keys)).
      apply elem_of_app. now right.
Qed.

Lemma confined_deletePattern (inv : CacheInvalidation) (pattern : string) :
  confined cache_key (CacheService.deletePattern inv pattern).
Proof.
  unfold CacheService.deletePattern.
  apply confined_try_catch; [|intros; apply confined_throw].
  destruct (negb (enablePatternInvalidation inv)); [apply confined_ret|].
  intros w. unfold bind at 1.
  destruct (getKeysByPattern_listed w (CacheService.versioned pattern)) as (keys & -> & Hin).
  destruct (Z.of_nat (length keys) =? 0); [apply within_refl|].
  assert (Hc : confined cache_key
                 (deletedCount <-
                    CacheService.deleteBatches (length keys) (batchInvalidationSize inv) keys 0 ;;
                  CacheService.bump (CacheService.count_deletes deletedCount) ;;;
                  ret deletedCount)).
  { apply confined_bind; [|intros n].
    - eapply confined_weaken; [|apply confined_deleteBatches].
      intros k Hk. apply Hin in Hk.
      now apply (glob_literal_head "1.0:" pattern) in Hk.
    - apply confined_bind; [apply confined_bump|intros; apply confined_ret]. }
  apply Hc.
Qed.

Lemma confined_validateKey (P : string -> Prop) (key : string) :
  confined P (CacheKeyGenerator.validateKey key).
Proof.
  unfold CacheKeyGenerator.validateKey.
  destruct (_ >? _); [apply confined_throw|apply confined_ret].
Qed.

Lemma confined_session_caching `{Runtime} (cfg : CacheConfig) (inv : CacheInvalidation)
    (sessionId type : string) (value : json) (ttl : option Z) :
  confined cache_key (CacheService.cacheSession cfg inv sessionId type value ttl) /\
  confined cache_key (CacheService.getCachedSession sessionId type) /\
  confined cache_key (CacheService.invalidateSession inv sessionId).
Proof.
  unfold CacheService.cacheSession, CacheService.getCachedSession,
    CacheService.invalidateSession, CacheKeyGenerator.session.
  split; [|split].
  - apply confined_bind; [apply confined_validateKey|intros key].
    eapply confined_weaken; [|apply confined_cache_set]. intros ? <-. apply cache_key_versioned.
  - apply confined_bind; [apply confined_validateKey|intros key].
    eapply confined_weaken; [|apply confined_cache_get]. intros ? <-. apply cache_key_versioned.
  - apply confined_bind; [apply confined_validateKey|intros key].
    apply confined_deletePattern.
Qed.

(** X15: the three services keep to their own keys of the shared store.
    However a call settles, the session service changes only keys that
    start with [session:], the rate limiter only keys that start with
    [rate_limit:] and the cache only keys that start with [1.0:]; every
    other key holds what it held, and the clock, the connections, the
    sockets and the table of connected clients are as before. *)
Theorem services_keep_to_their_keys `{Runtime} (sessionConfig : SessionConfig)
    (rateLimitConfig : RateLimitConfig) (cacheConfig : CacheConfig)
    (invalidation : CacheInvalidation) (fuel : nat) :
  (forall sid ip options updates,
     confined session_key (SessionService.createSession sessionConfig fuel options) /\
     confined session_key (SessionService.getSession sessionConfig fuel sid) /\
     confined session_key (SessionService.updateSession sessionConfig fuel sid updates) /\
     confined session_key (SessionService.deleteSession sessionConfig fuel sid) /\
     confined session_key (SessionService.validateSession sessionConfig fuel sid ip) /\
     confined session_key (SessionService.incrementMessageCount sessionConfig fuel sid) /\
     confined session_key (SessionService.cleanupExpiredSessions sessionConfig fuel) /\
     confined session_key SessionService.isHealthy) /\
  (forall method path ip sid type identifier,
     confined quota_key (RateLimitMiddleware.use rateLimitConfig method path ip sid) /\
     confined quota_key
       (RateLimitService.recordWebSocketConnection rateLimitConfig ip) /\
     confined quota_key
       (RateLimitService.recordWebSocketMessage rateLimitConfig identifier) /\
     confined quota_key (RateLimitService.resetRateLimit type identifier) /\
     confined quota_key RateLimitService.isHealthy) /\
  (forall key value ttl pattern sid type,
     confined cache_key (CacheService.get key) /\
     confined cache_key (CacheService.set cacheConfig key value ttl) /\
     confined cache_key (CacheService.delete key) /\
     confined cache_key (CacheService.deletePattern invalidation pattern) /\
     confined cache_key (CacheService.cacheSession cacheConfig invalidation sid type value ttl) /\
     confined cache_key (CacheService.getCachedSession sid type) /\
     confined cache_key (CacheService.invalidateSession invalidation sid)).
Proof.
  split; [|split].
  - intros sid ip options updates.
    split; [apply sessions_createSession|].
    split; [apply confined_getSession|].
    split; [apply sessions_updateSession|].
    split; [apply sessions_deleteSession|].
    split; [apply sessions_validateSession|].
    split; [apply sessions_incrementMessageCount|].
    split; [apply sessions_cleanupExpiredSessions|apply sessions_isHealthy].
  - intros method path ip sid type identifier.
    split; [apply quotas_use|].
    split; [apply (quotas_record ConnectionQuota)|].
    split; [apply (quotas_record MessageQuota)|].
    split; [apply quotas_resetRateLimit|apply quotas_isHealthy].
  - intros key value ttl pattern sid type.
    destruct (confined_session_caching cacheConfig invalidation sid type value ttl)
      as (Hc & Hg & Hi).
    split.
    { eapply confined_weaken; [|apply confined_cache_get].
      intros ? <-. apply cache_key_versioned. }
    split.
    { eapply confined_weaken; [|apply confined_cache_set].
      intros ? <-. apply cache_key_versioned. }
    split.
    { eapply confined_weaken; [|apply confined_cache_delete].
      intros ? <-. apply cache_key_versioned. }
    split; [apply confined_deletePattern|].
    split; [exact Hc|]. split; [exact Hg|exact Hi].
Qed.


(** ** Opening a connection *)

Lemma recordRequest_returns (info : RateLimitInfo) (w : world) :
  exists w', RateLimitService.recordRequest info w = Returned tt w'.
Proof.
  unfold RateLimitService.recordRequest, RateLimitService.incrementCount, try_catch.
  unfold bind at 1. unfold Date_now at 1, gets at 1.
  unfold bind at 1. unfold bind at 1.
  destruct (incr_never_throws
              (RateLimitService.windowKey (rl_key info)
                 (RateLimitService.windowStartOf (clock w) (rl_rule info))) w)
    as (n & w1 & ->).
  unfold bind at 1.
  destruct (n =? 1); [|eauto].
  unfold bind at 1.
  destruct (expire_never_throws
              (RateLimitService.windowKey (rl_key info)
                 (RateLimitService.windowStartOf (clock w) (rl_rule info)))
              (Math_ceil_div (windowMs (rl_rule info)) 1000 + 1) w1)
    as (b & w2 & ->).
  eauto.
Qed.

(** X19: [handleConnection] decides by the connection limit and by
    nothing else.  It always returns and sends the socket exactly one
    message.  When the limit check admits, the connection is recorded, the
    welcome message is sent and the connection stays open.  When the check
    rejects, nothing is recorded, the socket is sent the error
    [CONNECTION_RATE_LIMIT] with the seconds to wait and the connection is
    closed.  The error [CONNECTION_ERROR] is never sent. *)
Theorem handleConnection_decides_by_the_limit (rateLimitConfig : RateLimitConfig)
    (client : Socket) (w : world) :
  exists r,
    RateLimitService.checkWebSocketConnectionLimit rateLimitConfig
      (ChatGateway.getClientIP client) w = Returned r w /\
    if allowed r then
      exists w1,
        RateLimitService.recordWebSocketConnection rateLimitConfig
          (ChatGateway.getClientIP client) w = Returned tt w1 /\
        ChatGateway.handleConnection rateLimitConfig client w
        = Returned ChatGateway.ConnectionOpen
            (set_emitted (emitted w1 ++ [welcome client]) w1)
    else
      ChatGateway.handleConnection rateLimitConfig client w
      = Returned ChatGateway.ConnectionClosed
          (set_emitted
             (emitted w
              ++ [error_emission client "CONNECTION_RATE_LIMIT"
                    ("Too many connections. Try again in "
                     +:+ ChatGateway.showRetryAfter (retryAfter r) +:+ " seconds.")
                    (clock w)]) w).
Proof.
  unfold RateLimitService.checkWebSocketConnectionLimit,
    RateLimitService.recordWebSocketConnection.
  set (info := {| rl_key := _; rl_rule := _; rl_identifier := _; rl_type := _ |}).
  destruct (checkRateLimit_settles info w) as [r Hcheck].
  exists r. split; [exact Hcheck|].
  assert (Hbody : forall k : RateLimitResult -> M ChatGateway.connection,
            bind (RateLimitService.checkRateLimit info) k w = k r w)
    by (intros k; unfold bind; now rewrite Hcheck).
  unfold ChatGateway.handleConnection, RateLimitService.checkWebSocketConnectionLimit,
    RateLimitService.recordWebSocketConnection.
  fold info. unfold try_catch. rewrite Hbody.
  destruct (allowed r); cbn [negb].
  - destruct (recordRequest_returns info w) as [w1 Hrec].
    exists w1. split; [exact Hrec|].
    unfold bind at 1. rewrite Hrec. reflexivity.
  - reflexivity.
Qed.

(** ** Who receives the tokens of a session *)

Lemma wp_backstage {A} (P : string -> Prop) (c : M A) (w : world) :
  confined P c -> wp c (fun _ w' => backstage w w') w.
Proof. intros Hc. unfold wp. specialize (Hc w). destruct (c w); try exact I; apply Hc. Qed.

(** Between two worlds, the change is backstage and nothing was published. *)
Lemma wp_offstage {A} (P : string -> Prop) (c : M A) (w : world) :
  confined P c -> quiet c ->
  wp c (fun r w' =>
          (backstage w w' /\ published (store w') = published (store w)) /\
          c w = match r with inl a => Returned a w' | inr e => Thrown e w' end) w.
Proof.
  intros Hc Hq. unfold wp. specialize (Hc w). specialize (Hq w).
  destruct (c w); try exact I; (split; [split; [apply Hc|apply Hq]|reflexivity]).
Qed.

Lemma offstage_trans (w1 w2 w3 : world) :
  backstage w1 w2 /\ published (store w2) = published (store w1) ->
  backstage w2 w3 /\ published (store w3) = published (store w2) ->
  backstage w1 w3 /\ published (store w3) = published (store w1).
Proof.
  intros [Hb1 Hp1] [Hb2 Hp2]. split; [eapply backstage_trans; eassumption|congruence].
Qed.

Section Enrolment.

Context `{Runtime}.
Variable sessionConfig : SessionConfig.
Variable rateLimitConfig : RateLimitConfig.

(** The course of [handleChatMessage]: an admitted message enrols the
    socket, which is sent the typing indicator and the answer; any other
    message leaves the table as it was, and the socket is sent one error
    object.  Nothing is published in either case. *)
Lemma handleChatMessage_course (fuel : nat) (agent : grpc_outcome) (data : ChatRequest)
    (client : Socket) (w : world) :
  wp (ChatGateway.handleChatMessage sessionConfig rateLimitConfig fuel agent data client)
     (fun r w' =>
        r = inl tt /\
        published (store w') = published (store w) /\
        ((admitted sessionConfig rateLimitConfig fuel data client w /\
          connectedClients w'
          = <[sock_id client := req_sessionId data]> (connectedClients w) /\
          emitted w'
          = (emitted w ++ typing_indicator client (req_sessionId data)
                          :: answer agent client (req_sessionId data) (clock w))%list) \/
         (~ admitted sessionConfig rateLimitConfig fuel data client w /\
          turned_away client w w'))) w.
Proof.
  set (offstage := fun w1 w2 : world =>
         backstage w1 w2 /\ published (store w2) = published (store w1)).
  set (adm := admitted sessionConfig rateLimitConfig fuel data client w).
  assert (Hturn : forall w1 code message,
            offstage w w1 ->
            published
              (store (set_emitted
                        (emitted w1 ++ [error_emission client code message (clock w1)]) w1))
            = published (store w) /\
            turned_away client w
              (set_emitted (emitted w1 ++ [error_emission client code message (clock w1)]) w1)).
  { intros w1 code message [(_ & _ & _ & _ & _ & He & Hc) Hp].
    split; [exact Hp|]. split; [exact Hc|].
    exists code, message, (clock w1). cbn. now rewrite He. }
  unfold ChatGateway.handleChatMessage.
  eapply wp_try_catch with
    (Qb := fun r w' =>
             match r with
             | inl _ =>
                 published (store w') = published (store w) /\
                 ((adm /\
                   connectedClients w'
                   = <[sock_id client := req_sessionId data]> (connectedClients w) /\
                   emitted w'
                   = (emitted w ++ typing_indicator client (req_sessionId data)
                                   :: answer agent client (req_sessionId data) (clock w))%list) \/
                  (~ adm /\ turned_away client w w'))
             | inr _ =>
                 (~ adm /\ offstage w w') \/
                 (adm /\ published (store w') = published (store w) /\
                  clock w' = clock w /\
                  connectedClients w'
                  = <[sock_id client := req_sessionId data]> (connectedClients w) /\
                  emitted w'
                  = (emitted w ++ [typing_indicator client (req_sessionId data)])%list /\
                  exists message, agent = GrpcError message)
             end).
  3:{ intros e w' [[Hn Ho]|(Ha & Hp & Hk & Hc & He & message & ->)];
        apply wp_sendErrorToClient; (split; [reflexivity|]).
      - destruct (Hturn w' "AGENT_ERROR" "Failed to process chat message" Ho) as [Hp Ht].
        split; [exact Hp|]. right. split; assumption.
      - split; [exact Hp|]. left. split; [exact Ha|]. split; [exact Hc|].
        cbn. rewrite He, Hk. now rewrite <- app_assoc. }
  2:{ intros [] w' Hn. split; [reflexivity|exact Hn]. }
  destruct (truthy (req_message data)) eqn:Hmessage; cbn [negb orb].
  2:{ apply wp_sendErrorToClient.
      destruct (Hturn w "INVALID_REQUEST" "Message and sessionId are required") as [Hp Ht].
      { split; [apply backstage_refl|reflexivity]. }
      split; [exact Hp|]. right. split; [|exact Ht].
      intros (Hm & _). unfold adm in *. congruence. }
  destruct (truthy (req_sessionId data)) eqn:Hsid; cbn [negb].
  2:{ apply wp_sendErrorToClient.
      destruct (Hturn w "INVALID_REQUEST" "Message and sessionId are required") as [Hp Ht].
      { split; [apply backstage_refl|reflexivity]. }
      split; [exact Hp|]. right. split; [|exact Ht].
      intros (_ & Hs & _). congruence. }
  cbv zeta.
  eapply wp_bind;
    [apply (wp_offstage session_key); [apply confined_getSession|apply quiet_getSession]| |].
  2:{ intros e w1 [Ho1 Hget]. left. split; [|exact Ho1].
      intros (_ & _ & s' & a' & b' & l' & c' & G1 & _). congruence. }
  intros session w1 [Ho1 Hget].
  eapply wp_bind with
    (Qc := fun r w' =>
             match r with
             | inl true =>
                 offstage w w' /\
                 match session with
                 | None =>
                     exists created,
                       SessionService.createSession sessionConfig fuel
                         {| opt_sessionId := req_sessionId data;
                            opt_ipAddress := ChatGateway.getClientIP client;
                            opt_userAgent :=
                              default "Unknown"
                                (ChatGateway.truthy_opt (hdr_user_agent client)) |} w1
                       = Returned created w'
                 | Some _ =>
                     SessionService.validateSession sessionConfig fuel (req_sessionId data)
                       (Some (ChatGateway.getClientIP client)) w1
                     = Returned true w'
                 end
             | inl false =>
                 ~ adm /\ published (store w') = published (store w) /\
                 turned_away client w w'
             | inr _ => ~ adm /\ offstage w w'
             end).
  3:{ intros e w' He. left. exact He. }
  - destruct session as [sd|].
    + eapply wp_bind;
        [apply (wp_offstage session_key);
           [apply sessions_validateSession|apply quiet_validateSession]| |].
      2:{ intros e w2 [Ho2 Hval]. split; [|eapply offstage_trans; eassumption].
          intros (_ & _ & s' & a' & b' & l' & c' & G1 & G2 & _).
          rewrite Hget in G1. injection G1 as <- <-. cbn in G2. congruence. }
      intros valid w2 [Ho2 Hval].
      assert (Ho : offstage w w2) by (eapply offstage_trans; eassumption).
      destruct valid; cbn [negb]; [apply wp_ret; split; [exact Ho|exact Hval]|].
      eapply wp_bind; [apply wp_sendErrorToClient_exact| |].
      * intros [] w3 [_ ->]. apply wp_ret.
        destruct (Hturn w2 "SESSION_INVALID" "Invalid session" Ho) as [Hp Ht].
        split; [|split; assumption].
        intros (_ & _ & s' & a' & b' & l' & c' & G1 & G2 & _).
        rewrite Hget in G1. injection G1 as <- <-. cbn in G2. congruence.
      * intros e w3 [E _]. discriminate.
    + eapply wp_try_catch with
        (Qb := fun r w' =>
                 offstage w1 w' /\
                 match r with
                 | inl b =>
                     b = true /\
                     exists created,
                       SessionService.createSession sessionConfig fuel
                         {| opt_sessionId := req_sessionId data;
                            opt_ipAddress := ChatGateway.getClientIP client;
                            opt_userAgent :=
                              default "Unknown"
                                (ChatGateway.truthy_opt (hdr_user_agent client)) |} w1
                       = Returned created w'
                 | inr e =>
                     SessionService.createSession sessionConfig fuel
                       {| opt_sessionId := req_sessionId data;
                          opt_ipAddress := ChatGateway.getClientIP client;
                          opt_userAgent :=
                            default "Unknown"
                              (ChatGateway.truthy_opt (hdr_user_agent client)) |} w1
                     = Thrown e w'
                 end).
      * eapply wp_bind;
          [apply (wp_offstage session_key);
             [apply sessions_createSession|apply quiet_createSession]| |].
        -- intros sd w2 [Ho2 Hcre]. apply wp_ret.
           split; [exact Ho2|]. split; [reflexivity|]. now exists sd.
        -- intros e w2 [Ho2 Hcre]. split; [exact Ho2|exact Hcre].
      * intros b w2 [Ho2 [-> Hcre]]. split; [eapply offstage_trans; eassumption|exact Hcre].
      * intros e w2 [Ho2 Hcre].
        assert (Ho : offstage w w2) by (eapply offstage_trans; eassumption).
        eapply wp_bind; [apply wp_sendErrorToClient_exact| |].
        -- intros [] w3 [_ ->]. apply wp_ret.
           destruct (Hturn w2 "SESSION_ERROR" "Failed to create session" Ho) as [Hp Ht].
           split; [|split; assumption].
           intros (_ & _ & s' & a' & b' & l' & c' & G1 & G2 & _).
           rewrite Hget in G1. injection G1 as <- <-. cbn in G2.
           destruct G2 as [created G2]. congruence.
        -- intros e' w3 [E _]. discriminate.
  - intros proceed w2 Hq. destruct proceed; cbn [negb].
    2:{ apply wp_ret. destruct Hq as (Hn & Hp & Ht). split; [exact Hp|].
        right. split; assumption. }
    destruct Hq as [Ho2 Hgate].
    eapply wp_bind;
      [apply (wp_offstage quota_key); [apply confined_checkRateLimit|apply quiet_checkRateLimit]
      | |].
    2:{ intros e w3 [Ho3 Hchk]. left. split; [|eapply offstage_trans; eassumption].
        intros (_ & _ & s' & a' & b' & l' & c' & G1 & G2 & G3 & _).
        rewrite Hget in G1. injection G1 as <- <-.
        assert (b' = w2) as ->.
        { destruct session; [|destruct G2 as [c2 G2]; destruct Hgate as [c1 Hgate]];
            congruence. }
        unfold RateLimitService.checkWebSocketMessageLimit in *. congruence. }
    intros messageRateLimit w3 [Ho3 Hchk].
    assert (Hw3 : offstage w w3) by (eapply offstage_trans; eassumption).
    destruct (allowed messageRateLimit) eqn:Hallowed; cbn [negb].
    2:{ apply wp_sendErrorToClient.
        destruct (Hturn w3 "MESSAGE_RATE_LIMIT"
                    ("Too many messages. Try again in "
                     +:+ ChatGateway.showRetryAfter (retryAfter messageRateLimit) +:+ " seconds.") Hw3)
          as [Hp Ht].
        split; [exact Hp|]. right. split; [|exact Ht].
        intros (_ & _ & s' & a' & b' & l' & c' & G1 & G2 & G3 & G4).
        rewrite Hget in G1. injection G1 as <- <-.
        assert (b' = w2) as ->.
        { destruct session; [|destruct G2 as [c2 G2]; destruct Hgate as [c1 Hgate]];
            congruence. }
        unfold RateLimitService.checkWebSocketMessageLimit in *. congruence. }
    assert (Hadm : adm).
    { split; [exact Hmessage|]. split; [exact Hsid|].
      exists session, w1, w2, messageRateLimit, w3. auto. }
    eapply wp_bind;
      [apply (wp_offstage quota_key);
         [apply (quotas_record MessageQuota)|apply quiet_recordRequest]| |].
    2:{ intros e w4 [_ Hrec]. exfalso.
        unfold RateLimitService.recordWebSocketMessage in Hrec.
        match type of Hrec with
        | RateLimitService.recordRequest ?i ?w0 = _ =>
            destruct (recordRequest_returns i w0) as [w4' Hret]
        end.
        congruence. }
    intros [] w4 [Ho4 _].
    assert (Hw4 : offstage w w4) by (eapply offstage_trans; eassumption).
    eapply wp_bind with
      (Qc := fun r w' => match r with inl _ => offstage w4 w' | inr _ => False end).
    { eapply wp_try_catch with (Qb := fun _ w' => offstage w4 w').
      - eapply wp_bind;
          [apply (wp_offstage session_key);
             [apply sessions_incrementMessageCount|apply quiet_incrementMessageCount]| |].
        + intros a w5 [Ho5 _]. apply wp_ret. exact Ho5.
        + intros e w5 [Ho5 _]. exact Ho5.
      - intros a w5 Ho5. exact Ho5.
      - intros e w5 Ho5. apply wp_ret. exact Ho5. }
    2:{ intros e w5 []. }
    intros [] w5 Ho5.
    assert (Hw5 : offstage w w5) by (eapply offstage_trans; eassumption).
    eapply wp_bind; [apply wp_modify_exact| |].
    2:{ intros e w6 [E _]. discriminate. }
    intros [] w6 [_ ->].
    eapply wp_bind; [apply wp_emit_exact| |].
    2:{ intros e w7 [E _]. discriminate. }
    intros [] w7 [_ ->].
    fold (typing_indicator client (req_sessionId data)).
    destruct Hw5 as [(Hk5 & _ & _ & _ & _ & He5 & Hc5) Hp5].
    destruct agent as [message|response session_id sources tool_calls|].
    + cbn [AgentService.sendMessage]. eapply wp_bind; [apply wp_throw| |].
      * instantiate (1 := fun r w' => r = inr message /\ w' = _). split; reflexivity.
      * intros a w8 [E _]. discriminate.
      * intros e w8 [_ ->]. right. split; [exact Hadm|]. cbn.
        split; [exact Hp5|]. split; [exact Hk5|]. split; [now rewrite Hc5|].
        split; [now rewrite He5|]. now exists message.
    + cbn [AgentService.sendMessage]. eapply wp_bind; [apply wp_ret| |].
      * instantiate (1 := fun r w' => r = inl _ /\ w' = _). split; reflexivity.
      * intros a w8 [[= ->] ->]. cbn [res_response res_sources res_toolCalls answer].
        destruct (truthy response) eqn:Hr.
        -- apply wp_emit. split; [exact Hp5|]. left. split; [exact Hadm|].
           split; cbn; [now rewrite Hc5|].
           rewrite He5, <- app_assoc. reflexivity.
        -- apply wp_ret. split; [exact Hp5|]. left. split; [exact Hadm|].
           split; cbn; [now rewrite Hc5|]. now rewrite He5.
      * intros e w8 [E _]. discriminate.
    + exact I.
Qed.

End Enrolment.

(** The typing indicator is no error object: a socket is not both enrolled
    and turned away. *)
Lemma enrolled_not_turned_away (client : Socket) (sid : string) (w w' : world) :
  enrolled client sid w w' -> ~ turned_away client w w'.
Proof.
  intros [_ [rest He]] [_ (code & message & t & He')].
  rewrite He in He'. apply app_inv_head in He'. discriminate.
Qed.

(** The first message of a session, in an empty store, is admitted. *)
Lemma hello_is_admitted :
  admitted (H := SampleRuntime.runtime) DEFAULT_SESSION_CONFIG DEFAULT_RATE_LIMIT_CONFIG 1
    hello browser (fresh_world 1000).
Proof.
  split; [reflexivity|]. split; [reflexivity|].
  exists None. do 4 eexists.
  split; [vm_compute; reflexivity|].
  split; [eexists; vm_compute; reflexivity|].
  split; vm_compute; reflexivity.
Qed.


(** The deliveries of [onChatToken] to single sockets. *)
Lemma onChatToken_to_client `{Runtime} (now : Z) (clients : gmap string string)
    (message : string) (c event : string) (body : json) :
  ChatGateway.ToClient c event body ∈ ChatGateway.onChatToken now clients message
  <-> exists o sid,
        JSON_parse message = Some (JObj o) /\ field "sessionId" o = Some (JStr sid) /\
        clients !! c = Some sid /\ event = "chat" /\ body = JObj o.
Proof.
  unfold ChatGateway.onChatToken, ChatGateway.broadcastChatMessage, ChatGateway.broadcastError.
  split.
  - destruct (JSON_parse message) as [[| | | | |o]|];
      try (intros Hin; apply list_elem_of_singleton in Hin; discriminate);
      try (intros Hin; now apply elem_of_nil in Hin).
    destruct (field "sessionId" o) as [[| | |sid| |]|] eqn:Hf;
      try (intros Hin; now apply elem_of_nil in Hin).
    intros Hin. apply list_elem_of_fmap in Hin as ([c' s'] & [= -> -> ->] & Hin).
    apply list_elem_of_filter in Hin as [Hs Hin]. cbn in Hs. subst s'.
    apply elem_of_map_to_list in Hin. exists o, sid. auto.
  - intros (o & sid & -> & -> & Hc & -> & ->).
    apply list_elem_of_fmap. exists (c, sid). split; [reflexivity|].
    apply list_elem_of_filter. split; [reflexivity|]. now apply elem_of_map_to_list.
Qed.

(** X16: a token published for a session reaches the sockets enrolled for
    that session, each of them once, and no other socket.  For a message
    that parses to an object with the text [sid] as [sessionId],
    [onChatToken] sends the parsed message as the event [chat] to exactly
    the sockets that [connectedClients] holds under [sid]. *)
Theorem chat_token_reaches_its_session `{Runtime} (now : Z) (clients : gmap string string)
    (message : string) (o : list (string * json)) (sid : string) :
  JSON_parse message = Some (JObj o) -> field "sessionId" o = Some (JStr sid) ->
  NoDup (ChatGateway.onChatToken now clients message) /\
  forall d, d ∈ ChatGateway.onChatToken now clients message
            <-> exists c, clients !! c = Some sid /\ d = ChatGateway.ToClient c "chat" (JObj o).
Proof.
  intros Hp Hf. split.
  - unfold ChatGateway.onChatToken, ChatGateway.broadcastChatMessage. rewrite Hp, Hf.
    apply NoDup_fmap_2_strong; [|apply NoDup_filter, NoDup_map_to_list].
    intros [c1 s1] [c2 s2] H1 H2 [= ->].
    apply list_elem_of_filter in H1 as [_ H1]. apply list_elem_of_filter in H2 as [_ H2].
    apply elem_of_map_to_list in H1. apply elem_of_map_to_list in H2. congruence.
  - intros d. split.
    + intros Hin. destruct d as [c event body|event body].
      * apply onChatToken_to_client in Hin as (o' & sid' & Hp' & Hf' & Hc & -> & ->).
        rewrite Hp in Hp'. injection Hp' as <-. rewrite Hf in Hf'. injection Hf' as <-.
        now exists c.
      * unfold ChatGateway.onChatToken, ChatGateway.broadcastChatMessage in Hin.
        rewrite Hp, Hf in Hin.
        apply list_elem_of_fmap in Hin as (? & [=] & _).
    + intros (c & Hc & ->). apply onChatToken_to_client. exists o, sid. auto.
Qed.

Lemma chat_token_reaches_its_session_witness :
  ChatGateway.ToClient "socket-1" "chat" (JObj [("sessionId", JStr "s1"); ("token", JStr "Hi")])
  ∈ ChatGateway.onChatToken (H := SampleRuntime.runtime) 0
      (<["socket-2" := "s2"]> (<["socket-1" := "s1"]> ∅))
      (SampleRuntime.stringify (JObj [("sessionId", JStr "s1"); ("token", JStr "Hi")])).
Proof.
  destruct (chat_token_reaches_its_session (H := SampleRuntime.runtime) 0
              (<["socket-2" := "s2"]> (<["socket-1" := "s1"]> ∅))
              (SampleRuntime.stringify (JObj [("sessionId", JStr "s1"); ("token", JStr "Hi")]))
              [("sessionId", JStr "s1"); ("token", JStr "Hi")] "s1")
    as [_ Hsent].
  - vm_compute. reflexivity.
  - reflexivity.
  - apply Hsent. exists "socket-1". split; [|reflexivity]. vm_compute. reflexivity.
Defined.

(** X17: a socket is enrolled exactly when its message is admitted.  A
    message is admitted when its text and its session identifier are not
    empty, its session passes ([validateSession] returns [true] for the
    session on record, or [createSession] returns a record where there was
    none) and [checkWebSocketMessageLimit] allows it.  When
    [handleChatMessage] returns on an admitted message, the socket is
    entered in [connectedClients] under the session of the message and the
    typing indicator is the first thing sent to it; on any other message
    the table is as before and the socket is sent one error object and no
    more.  The two do not occur together, and the entry of no other socket
    changes.  Once enrolled, the socket is among the receivers of every
    token published for the session. *)
Theorem handleChatMessage_enrols_the_admitted `{Runtime} (sessionConfig : SessionConfig)
    (rateLimitConfig : RateLimitConfig) (fuel : nat) (agent : grpc_outcome)
    (data : ChatRequest) (client : Socket) (w w' : world) (r : unit) :
  ChatGateway.handleChatMessage sessionConfig rateLimitConfig fuel agent data client w
  = Returned r w' ->
  (admitted sessionConfig rateLimitConfig fuel data client w
   <-> enrolled client (req_sessionId data) w w') /\
  (~ admitted sessionConfig rateLimitConfig fuel data client w
   <-> turned_away client w w') /\
  (forall c, c <> sock_id client -> connectedClients w' !! c = connectedClients w !! c) /\
  (enrolled client (req_sessionId data) w w' ->
   forall now message o,
     JSON_parse message = Some (JObj o) ->
     field "sessionId" o = Some (JStr (req_sessionId data)) ->
     ChatGateway.ToClient (sock_id client) "chat" (JObj o)
     ∈ ChatGateway.onChatToken now (connectedClients w') message).
Proof.
  intros Hrun.
  pose proof (handleChatMessage_course sessionConfig rateLimitConfig fuel agent data client w)
    as Hwp.
  unfold wp in Hwp. rewrite Hrun in Hwp. destruct Hwp as (_ & _ & Hcases).
  assert (Henrolled : admitted sessionConfig rateLimitConfig fuel data client w ->
                      enrolled client (req_sessionId data) w w').
  { intros Ha. destruct Hcases as [(_ & Hc & He)|[Hn _]]; [|contradiction].
    split; [exact Hc|]. eexists. exact He. }
  assert (Haway : ~ admitted sessionConfig rateLimitConfig fuel data client w ->
                  turned_away client w w').
  { intros Hn. destruct Hcases as [(Ha & _)|[_ Ht]]; [contradiction|exact Ht]. }
  split; [|split; [|split]].
  - split; [exact Henrolled|].
    intros He. destruct Hcases as [(Ha & _)|[_ Ht]]; [exact Ha|].
    now apply enrolled_not_turned_away in He.
  - split; [exact Haway|].
    intros Ht Ha. apply Henrolled in Ha. now apply enrolled_not_turned_away in Ha.
  - intros c Hc. destruct Hcases as [(_ & -> & _)|[_ [-> _]]]; [|reflexivity].
    now rewrite lookup_insert_ne.
  - intros [Hc _] now message o Hp Hf. apply onChatToken_to_client.
    exists o, (req_sessionId data). rewrite Hc, lookup_insert_eq. auto.
Qed.

Lemma handleChatMessage_enrols_the_admitted_witness :
  enrolled browser "s1" (fresh_world 1000)
    (exec (ChatGateway.handleChatMessage (H := SampleRuntime.runtime)
             DEFAULT_SESSION_CONFIG DEFAULT_RATE_LIMIT_CONFIG 1 helpful_reply hello browser)
          (fresh_world 1000)) /\
  ~ turned_away browser (fresh_world 1000)
      (exec (ChatGateway.handleChatMessage (H := SampleRuntime.runtime)
               DEFAULT_SESSION_CONFIG DEFAULT_RATE_LIMIT_CONFIG 1 helpful_reply hello browser)
            (fresh_world 1000)).
Proof.
  assert (ChatGateway.handleChatMessage (H := SampleRuntime.runtime) DEFAULT_SESSION_CONFIG
            DEFAULT_RATE_LIMIT_CONFIG 1 helpful_reply hello browser (fresh_world 1000)
          = Returned tt
              (exec (ChatGateway.handleChatMessage (H := SampleRuntime.runtime)
                       DEFAULT_SESSION_CONFIG DEFAULT_RATE_LIMIT_CONFIG 1 helpful_reply hello
                       browser)
                    (fresh_world 1000))) as Hrun by (vm_compute; reflexivity).
  destruct (handleChatMessage_enrols_the_admitted (H := SampleRuntime.runtime)
              DEFAULT_SESSION_CONFIG DEFAULT_RATE_LIMIT_CONFIG 1 helpful_reply hello browser
              (fresh_world 1000) _ tt Hrun) as (Henrolled & Haway & _).
  split.
  - apply Henrolled, hello_is_admitted.
  - intros Ht. apply Haway in Ht. apply Ht, hello_is_admitted.
Defined.

(** X18: [handleDisconnect] ends the delivery to the socket and to no
    other.  After it, no token reaches the socket, whatever is published,
    and every other socket receives what it would have received. *)
Theorem handleDisconnect_ends_delivery `{Runtime} (client : Socket) (w : world) :
  exists w',
    ChatGateway.handleDisconnect client w = Returned tt w' /\
    connectedClients w' !! sock_id client = None /\
    forall now message c event body,
      ChatGateway.ToClient c event body ∈ ChatGateway.onChatToken now (connectedClients w') message
      <-> c <> sock_id client /\
          ChatGateway.ToClient c event body ∈ ChatGateway.onChatToken now (connectedClients w) message.
Proof.
  eexists. split; [reflexivity|]. cbn. split; [apply lookup_delete_eq|].
  intros now message c event body. rewrite !onChatToken_to_client. split.
  - intros (o & sid & Hp & Hf & Hc & -> & ->).
    destruct (decide (c = sock_id client)) as [->|Hne].
    + now rewrite lookup_delete_eq in Hc.
    + rewrite lookup_delete_ne in Hc by congruence. split; [exact Hne|]. exists o, sid. auto.
  - intros (Hne & o & sid & Hp & Hf & Hc & -> & ->). exists o, sid.
    rewrite lookup_delete_ne by congruence. auto.
Qed.

(** ** What the relay sends for an admitted message *)

(** C5, as amended: [handleChatMessage] publishes nothing on the shared
    channel, and whatever it delivers it emits on the socket of the
    requesting client.  For an admitted message (its text and its session
    identifier are not empty, its session passes and the message quota
    allows it), the client receives the typing indicator and then, if the
    inference call succeeded with a non-empty text, the chat message with
    [done = true] that carries the response text, the sources and the tool
    calls and nothing more; if the call failed, the error object with code
    [AGENT_ERROR] and nothing more; if the call succeeded with the empty
    text, nothing more.  The handler returns whenever the inference call
    answers or fails, no session of the store is stale, and the record of a
    new session reads back as unexpired. *)
Theorem handleChatMessage_emits_directly `{Runtime}
    (sessionConfig : SessionConfig) (rateLimitConfig : RateLimitConfig) (fuel : nat)
    (agent : grpc_outcome) (data : ChatRequest) (client : Socket) (w : world) :
  (forall w',
     ChatGateway.handleChatMessage sessionConfig rateLimitConfig fuel agent data client w
     = Returned tt w' ->
     published (store w') = published (store w) /\
     (exists new,
        emitted w' = (emitted w ++ new)%list /\
        Forall (fun e => to e = sock_id client) new /\
        outcome_shape agent client (req_sessionId data) new) /\
     (admitted sessionConfig rateLimitConfig fuel data client w ->
      (forall response session_id sources tool_calls,
         agent = GrpcResponse response session_id sources tool_calls ->
         emitted w'
         = (emitted w
            ++ typing_indicator client (req_sessionId data)
               :: (if truthy response
                   then [final_emission client (req_sessionId data) response sources
                           tool_calls]
                   else []))%list) /\
      (forall message,
         agent = GrpcError message ->
         emitted w'
         = (emitted w
            ++ [typing_indicator client (req_sessionId data);
                error_emission client "AGENT_ERROR" "Failed to process chat message"
                  (clock w)])%list))) /\
  (fuel <> 0%nat -> agent <> GrpcNoReply -> tame sessionConfig w ->
   benign sessionConfig (clock w)
     (JSON_stringify (sessionToJson (first_record (clock w) data client))) ->
   exists w',
     ChatGateway.handleChatMessage sessionConfig rateLimitConfig fuel agent data client w
     = Returned tt w').
Proof.
  split.
  - intros w' Hrun.
    pose proof (handleChatMessage_spec sessionConfig rateLimitConfig fuel agent data client w)
      as Hspec.
    pose proof (handleChatMessage_course sessionConfig rateLimitConfig fuel agent data
                  client w) as Hcourse.
    unfold wp in Hspec, Hcourse. rewrite Hrun in Hspec, Hcourse.
    destruct Hspec as (_ & new & [Hg Hp] & Hshape).
    destruct Hcourse as (_ & _ & Hcases).
    split; [exact Hp|]. split.
    + exists new. split; [exact Hg|].
      split; [now apply outcome_shape_direct with (agent := agent) (sid := req_sessionId data)|].
      exact Hshape.
    + intros Ha. destruct Hcases as [(_ & _ & He)|[Hn _]]; [|contradiction].
      split.
      * intros response session_id sources tool_calls ->. exact He.
      * intros message ->. exact He.
  - intros Hfuel Hagent Ht Hb. destruct fuel as [|fuel]; [contradiction|].
    pose proof (handleChatMessage_settles sessionConfig rateLimitConfig fuel agent data
                  client w Hagent Ht Hb) as Hsettles.
    pose proof (handleChatMessage_spec sessionConfig rateLimitConfig (S fuel) agent data
                  client w) as Hspec.
    unfold wp in Hspec.
    destruct (ChatGateway.handleChatMessage sessionConfig rateLimitConfig (S fuel) agent data
                client w) as [[] w'|e w'|].
    + now exists w'.
    + destruct Hspec as [E _]. discriminate.
    + contradiction.
Qed.

Lemma handleChatMessage_emits_directly_witness :
  (exists w',
     ChatGateway.handleChatMessage (H := SampleRuntime.runtime) DEFAULT_SESSION_CONFIG
       DEFAULT_RATE_LIMIT_CONFIG 1 helpful_reply hello browser (fresh_world 1000)
     = Returned tt w' /\
     published (store w') = published (store (fresh_world 1000)) /\
     emitted w'
     = (emitted (fresh_world 1000)
        ++ [typing_indicator browser "s1";
            final_emission browser "s1" "Hi there" ["cv.pdf"] []])%list) /\
  (exists w',
     ChatGateway.handleChatMessage (H := SampleRuntime.runtime) DEFAULT_SESSION_CONFIG
       DEFAULT_RATE_LIMIT_CONFIG 1 failed_call hello browser (fresh_world 1000)
     = Returned tt w' /\
     published (store w') = published (store (fresh_world 1000)) /\
     emitted w'
     = (emitted (fresh_world 1000)
        ++ [typing_indicator browser "s1";
            error_emission browser "AGENT_ERROR" "Failed to process chat message" 1000])%list).
Proof.
  assert (Hbenign : benign (H := SampleRuntime.runtime) DEFAULT_SESSION_CONFIG
                      (clock (fresh_world 1000))
                      (JSON_stringify (Runtime := SampleRuntime.runtime)
                         (sessionToJson (first_record (clock (fresh_world 1000)) hello
                                           browser)))).
  { apply (benign_of_parse _ _ _ (sessionToJson (first_record 1000 hello browser))
             (first_record 1000 hello browser)); vm_compute; reflexivity. }
  split.
  - destruct (handleChatMessage_emits_directly (H := SampleRuntime.runtime)
                DEFAULT_SESSION_CONFIG DEFAULT_RATE_LIMIT_CONFIG 1 helpful_reply hello browser
                (fresh_world 1000)) as [Hsent Hreturns].
    destruct Hreturns as [w' Hrun];
      [discriminate|discriminate|apply fresh_world_tame|exact Hbenign|].
    exists w'. split; [exact Hrun|].
    destruct (Hsent w' Hrun) as (Hpublished & _ & Hadmitted).
    split; [exact Hpublished|].
    destruct (Hadmitted hello_is_admitted) as [Hresponse _].
    exact (Hresponse "Hi there" "s1" ["cv.pdf"] [] eq_refl).
  - destruct (handleChatMessage_emits_directly (H := SampleRuntime.runtime)
                DEFAULT_SESSION_CONFIG DEFAULT_RATE_LIMIT_CONFIG 1 failed_call hello browser
                (fresh_world 1000)) as [Hsent Hreturns].
    destruct Hreturns as [w' Hrun];
      [discriminate|discriminate|apply fresh_world_tame|exact Hbenign|].
    exists w'. split; [exact Hrun|].
    destruct (Hsent w' Hrun) as (Hpublished & _ & Hadmitted).
    split; [exact Hpublished|].
    destruct (Hadmitted hello_is_admitted) as [_ Hfailed].
    exact (Hfailed _ eq_refl).
Defined.

(** ** Cleaning up sessions *)

Lemma srem_texts (w : world) (k : string) (ms : list string) :
  up w ->
  exists n w',
    RedisService.srem k ms w = Returned n w' /\ up w' /\ clock w' = clock w /\
    forall k', string_at w' k' = string_at w k'.
Proof.
  intros Hup. rewrite (srem_up w k ms Hup). unfold Command.SREM.
  destruct ms as [|m ms]; [exists 0, w; auto|].
  destruct (lookup_live (clock w) (keyspace (store w)) k) as [e|] eqn:Hl.
  2:{ exists 0, w. split; [now rewrite set_store_same|auto]. }
  destruct e as [[s|s] exp]; cbn [rval expireAt]; [exists 0, w; auto|].
  eexists _, _. split; [reflexivity|]. split; [exact Hup|]. split; [reflexivity|].
  intros k'. unfold string_at, lookup_live in *. cbn.
  destruct (decide (k' = k)) as [->|Hne].
  - destruct (keyspace (store w) !! k) as [e0|] eqn:E; [|discriminate].
    destruct (live (clock w) e0) eqn:L; [|discriminate]. injection Hl as ->.
    destruct (decide (_ = ∅)).
    + now rewrite lookup_delete_eq.
    + rewrite lookup_insert_eq. unfold live in *. cbn in *. now rewrite L.
  - destruct (decide (_ = ∅)).
    + now rewrite lookup_delete_ne by congruence.
    + now rewrite lookup_insert_ne by congruence.
Qed.

Lemma string_at_remove_eq (w : world) (k : string) : string_at (remove k w) k = None.
Proof. unfold string_at, lookup_live, remove. cbn. now rewrite lookup_delete_eq. Qed.

Section Cleanup.

Context `{Runtime}.
Variable cfg : SessionConfig.

(** Deleting a session that is stored and has not expired removes its
    record and no other text. *)
Lemma deleteSession_removes (w : world) (sid : string) (sd : SessionData) (fuel : nat) :
  up w -> stored_session w sid sd -> SessionService.expired cfg (clock w) sd = false ->
  exists b w',
    SessionService.deleteSession cfg (S fuel) sid w = Returned b w' /\
    up w' /\ clock w' = clock w /\
    string_at w' (SessionService.getSessionKey sid) = None /\
    forall k, k <> SessionService.getSessionKey sid -> string_at w' k = string_at w k.
Proof.
  intros Hup Hst He.
  unfold SessionService.deleteSession, SessionService.deleteSession_with, try_catch.
  unfold bind at 1. rewrite (getSession_valid cfg w sid sd fuel Hup Hst He).
  unfold bind at 1. unfold bind at 1.
  destruct (srem_texts w (SessionService.getIPKey (ipAddress sd)) [sid] Hup)
    as (n & w1 & -> & Hup1 & Hc1 & Hs1).
  unfold ret at 1. unfold bind at 1. rewrite (del_one_up w1 _ Hup1).
  eexists _, _. split; [reflexivity|]. split; [exact Hup1|]. split; [exact Hc1|].
  split; [apply string_at_remove_eq|].
  intros k Hk. rewrite string_at_remove_ne by congruence. apply Hs1.
Qed.

Lemma sweep_tidies (fuel : nat) (now : Z) (keys : list string) :
  NoDup keys ->
  forall (w : world) (removed : Z),
    up w -> clock w = now ->
    (forall k sd, k ∈ keys -> record_at w k sd ->
                  k = SessionService.getSessionKey (sessionId sd) /\
                  SessionService.expired cfg now sd = false) ->
    exists n w',
      SessionService.sweep cfg (S fuel) now keys removed w = Returned n w' /\
      up w' /\ clock w' = now /\
      removed <= n <= removed + Z.of_nat (length keys) /\
      (forall k, k ∉ keys -> string_at w' k = string_at w k) /\
      (forall k sd, k ∈ keys -> record_at w k sd ->
                    string_at w' k = if isActive sd then string_at w k else None).
Proof.
  induction 1 as [|k0 keys Hnotin Hnd IH]; intros w removed Hup Hclock Hkeyed.
  - exists removed, w. cbn. split; [reflexivity|]. split; [exact Hup|]. split; [exact Hclock|].
    split; [lia|]. split; [reflexivity|]. intros k sd Hk. now apply elem_of_nil in Hk.
  - cbn [SessionService.sweep]. unfold bind at 1.
    assert (Hstep : exists n1 w1,
              try_catch
                (sessionDataStr <- RedisService.get k0 ;;
                 match sessionDataStr with
                 | None => ret removed
                 | Some str =>
                     if negb (truthy str) then ret removed
                     else
                       match JSON_parse str with
                       | None => throw "SyntaxError"
                       | Some j =>
                           match sessionOfJson j with
                           | None => throw "TypeError"
                           | Some sd =>
                               if negb (isActive sd) || SessionService.expired cfg now sd then
                                 SessionService.deleteSession cfg (S fuel) (sessionId sd) ;;;
                                 ret (removed + 1)
                               else ret removed
                           end
                       end
                 end)
                (fun _ => ret removed) w = Returned n1 w1 /\
              up w1 /\ clock w1 = now /\ removed <= n1 <= removed + 1 /\
              (forall k, k <> k0 -> string_at w1 k = string_at w k) /\
              (forall sd, record_at w k0 sd ->
                          string_at w1 k0 = if isActive sd then string_at w k0 else None)).
    { assert (Hskip : (forall sd, record_at w k0 sd -> isActive sd = true) ->
                      up w /\ clock w = now /\ removed <= removed <= removed + 1 /\
                      (forall k, k <> k0 -> string_at w k = string_at w k) /\
                      (forall sd, record_at w k0 sd ->
                                  string_at w k0
                                  = if isActive sd then string_at w k0 else None)).
      { intros Hact. split; [exact Hup|]. split; [exact Hclock|]. split; [lia|].
        split; [reflexivity|]. intros sd Hsd. now rewrite (Hact sd Hsd). }
      unfold try_catch. unfold bind at 1. rewrite (get_up w k0 Hup).
      destruct (string_at w k0) as [str|] eqn:Hs.
      2:{ exists removed, w. split; [reflexivity|]. rewrite ?Hs. apply Hskip.
          intros sd (? & ? & ? & _). congruence. }
      destruct (truthy str) eqn:Ht; cbn [negb].
      2:{ exists removed, w. split; [reflexivity|]. rewrite ?Hs. apply Hskip.
          intros sd (? & ? & ? & ? & _). congruence. }
      destruct (JSON_parse str) as [j|] eqn:Hp.
      2:{ exists removed, w. split; [reflexivity|]. rewrite ?Hs. apply Hskip.
          intros sd (? & ? & ? & _ & ? & _). congruence. }
      destruct (sessionOfJson j) as [sd|] eqn:Hj.
      2:{ exists removed, w. split; [reflexivity|]. rewrite ?Hs. apply Hskip.
          intros sd (? & ? & ? & _ & ? & ?). congruence. }
      assert (Hrec : record_at w k0 sd) by (exists str, j; auto).
      destruct (Hkeyed k0 sd (list_elem_of_here _ _) Hrec) as [Hk0 Hfresh].
      assert (Hone : forall sd', record_at w k0 sd' -> sd' = sd).
      { intros sd' (? & ? & ? & _ & ? & ?). congruence. }
      rewrite Hfresh, orb_false_r.
      destruct (isActive sd) eqn:Ha; cbn [negb].
      - exists removed, w. split; [reflexivity|]. rewrite ?Hs. apply Hskip.
        intros sd' Hsd'. now apply Hone in Hsd' as ->.
      - assert (Hst : stored_session w (sessionId sd) sd).
        { exists str, j. rewrite <- Hk0. auto. }
        rewrite <- Hclock in Hfresh.
        destruct (deleteSession_removes w (sessionId sd) sd fuel Hup Hst Hfresh)
          as (b & w1 & Hdel & Hup1 & Hc1 & Hgone & Hothers).
        unfold bind at 1. rewrite Hdel. exists (removed + 1), w1.
        split; [reflexivity|]. split; [exact Hup1|]. split; [congruence|].
        split; [lia|]. split.
        + intros k Hk. apply Hothers. congruence.
        + intros sd' Hsd'. apply Hone in Hsd' as ->. rewrite Ha. now rewrite Hk0. }
    destruct Hstep as (n1 & w1 & -> & Hup1 & Hc1 & Hn1 & Hothers & Hk0).
    destruct (IH w1 n1 Hup1 Hc1) as (n & w' & Hrun & Hup' & Hc' & Hn & Hout & Hin).
    { intros k sd Hk (str & j & Hs & Hrest). apply Hkeyed; [now right|].
      exists str, j. rewrite <- Hothers; [auto|]. intros ->. contradiction. }
    exists n, w'. split; [exact Hrun|]. split; [exact Hup'|]. split; [exact Hc'|].
    split; [cbn [length]; lia|]. split.
    + intros k Hk. rewrite Hout by (intros ?; apply Hk; now right).
      apply Hothers. intros ->. apply Hk. left.
    + intros k sd Hk Hrec. apply elem_of_cons in Hk as [->|Hk].
      * rewrite (Hout k0 Hnotin). now apply Hk0.
      * assert (Hne : k <> k0) by (intros ->; contradiction).
        rewrite <- (Hothers k Hne). apply Hin; [exact Hk|].
        destruct Hrec as (str & j & Hs & Hrest). exists str, j.
        rewrite (Hothers k Hne). auto.
Qed.

End Cleanup.

(** X20: [cleanupExpiredSessions] removes the sessions that are switched
    off and keeps the others.  In an available store in which no session
    record has expired and every record lies under the key of its own
    [sessionId], it returns, [sessionsProcessed] is the number of keys
    that match [session:*], the index keys among them, [sessionsRemoved]
    lies between zero and that number, each inactive session is gone and
    each active session is still stored. *)
Theorem cleanup_removes_inactive_sessions `{Runtime} (cfg : SessionConfig) (fuel : nat)
    (w : world) :
  up w -> tame cfg w -> well_keyed w ->
  exists result w',
    SessionService.cleanupExpiredSessions cfg (S fuel) w = Returned result w' /\
    (exists keys, NoDup keys /\ (forall k, k ∈ keys <-> matching w "session:*" k) /\
                  sessionsProcessed result = Z.of_nat (length keys)) /\
    0 <= sessionsRemoved result <= sessionsProcessed result /\
    forall sid sd,
      stored_session w sid sd ->
      if isActive sd then stored_session w' sid sd
      else string_at w' (SessionService.getSessionKey sid) = None.
Proof.
  intros Hup Htame Hkeyed.
  unfold SessionService.cleanupExpiredSessions, try_catch.
  unfold bind at 1. rewrite (keys_up w _ Hup).
  set (keys := filter _ _).
  assert (Hmem : forall k, k ∈ keys <-> matching w "session:*" k)
    by (intros k; apply KEYS_elem).
  assert (Hnd : NoDup keys) by apply keys_listed_NoDup.
  unfold bind at 1. unfold Date_now at 1, gets at 1. unfold bind at 1.
  destruct (sweep_tidies cfg fuel (clock w) keys Hnd w 0 Hup eq_refl)
    as (n & w' & -> & Hup' & Hc' & Hn & Hout & Hin).
  { intros k sd Hk (str & j & Hs & Ht & Hp & Hj).
    apply Hmem in Hk as [Hg _].
    apply (glob_literal_head "session:" "*") in Hg as [sid ->]; [|reflexivity].
    assert (Hst : stored_session w sid sd) by (exists str, j; auto).
    rewrite (Hkeyed sid sd Hst). split; [reflexivity|].
    destruct (SessionService.expired cfg (clock w) sd) eqn:He; [|reflexivity].
    destruct (Htame sid). split; [exact Hup|]. exists sd. auto. }
  eexists _, w'. split; [reflexivity|]. cbn [sessionsProcessed sessionsRemoved].
  split; [exists keys; auto|]. split; [lia|].
  intros sid sd Hst.
  assert (Hk : SessionService.getSessionKey sid ∈ keys).
  { apply Hmem. split.
    - apply (glob_literal_star "session:" sid). reflexivity.
    - destruct (stored_session_lookup w sid sd Hst) as (str & e & ->). eauto. }
  assert (Hrec : record_at w (SessionService.getSessionKey sid) sd) by exact Hst.
  specialize (Hin _ _ Hk Hrec).
  destruct (isActive sd); [|exact Hin].
  destruct Hst as (str & j & Hs & Hrest). exists str, j. rewrite Hin. auto.
Qed.


Lemma retired_world_record (sid : string) (sd : SessionData) :
  stored_session (H := SampleRuntime.runtime) retired_world sid sd ->
  sid = "s1" /\ sd = retired_session.
Proof.
  intros (str & j & Hs & _ & Hp & Hj).
  unfold string_at, lookup_live, retired_world in Hs. cbn in Hs.
  destruct (decide (SessionService.getSessionKey sid = "session:s1")) as [E|Hne].
  - apply (getSessionKey_inj sid "s1") in E as ->.
    rewrite lookup_insert_eq in Hs. cbn in Hs. injection Hs as <-.
    vm_compute in Hp. injection Hp as <-. vm_compute in Hj. injection Hj as <-.
    split; reflexivity.
  - rewrite lookup_insert_ne in Hs by congruence. now rewrite lookup_empty in Hs.
Qed.

Lemma cleanup_removes_inactive_sessions_witness :
  exists result w',
    SessionService.cleanupExpiredSessions (H := SampleRuntime.runtime)
      DEFAULT_SESSION_CONFIG 1 retired_world = Returned result w' /\
    string_at w' (SessionService.getSessionKey "s1") = None.
Proof.
  destruct (cleanup_removes_inactive_sessions (H := SampleRuntime.runtime)
              DEFAULT_SESSION_CONFIG 0 retired_world)
    as (result & w' & Hrun & _ & _ & Hafter).
  - split; reflexivity.
  - intros sid (_ & sd & Hst & He).
    apply retired_world_record in Hst as [-> ->]. vm_compute in He. discriminate.
  - intros sid sd Hst. apply retired_world_record in Hst as [-> ->]. reflexivity.
  - exists result, w'. split; [exact Hrun|].
    apply (Hafter "s1" retired_session).
    exists (SampleRuntime.stringify (sessionToJson retired_session)),
      (sessionToJson retired_session).
    repeat split; vm_compute; reflexivity.
Defined.

(** ** The time-to-live of an endpoint *)

Lemma prefix_app_l (a b s : string) :
  String.prefix (a +:+ b) s = true -> String.prefix a s = true.
Proof.
  revert s. induction a as [|c a IH]; intros s Hp.
  - now destruct s.
  - rewrite append_cons_l in Hp. destruct s as [|d s]; [discriminate|].
    cbn in *. destruct (ascii_dec c d); [now apply IH|discriminate].
Qed.

(** A path that includes a text includes the beginnings of the text. *)
Lemma includes_app_l (a b : string) : forall s,
  includes s (a +:+ b) = true -> includes s a = true.
Proof.
  induction s as [|d s IH]; cbn [includes]; intros Hi.
  - apply orb_true_iff in Hi as [Hp|]; [|discriminate].
    apply prefix_app_l in Hp. now rewrite Hp.
  - apply orb_true_iff in Hi as [Hp|Hi].
    + apply prefix_app_l in Hp. now rewrite Hp.
    + rewrite (IH Hi). apply orb_true_r.
Qed.

(** X21: the time-to-live of an endpoint is decided by five of the paths
    alone.  [getTTLForEndpoint] returns the time-to-live of the first of
    [/agent/chat], [/agent/tools], [/documents], [/scrape] and [/health]
    that occurs in the path, and the default otherwise.  The entry
    [/documents/status] and the two later checks for [/documents/status/]
    and [/agent/chat/history/] are never reached, because a path that
    includes one of them includes [/documents] or [/agent/chat]: a document
    status is cached as a document list and a chat history as a chat
    answer. *)
Theorem getTTLForEndpoint_decides_by_five_paths (ttl : CacheTtl) (defaultTtl : Z)
    (path : string) :
  CacheInterceptor.getTTLForEndpoint ttl defaultTtl path
  = if includes path "/agent/chat" then agentChat ttl
    else if includes path "/agent/tools" then agentTools ttl
    else if includes path "/documents" then documentList ttl
    else if includes path "/scrape" then scraperStatus ttl
    else if includes path "/health" then healthCheck ttl
    else defaultTtl.
Proof.
  unfold CacheInterceptor.getTTLForEndpoint, CacheInterceptor.endpointTTLs.
  cbn [CacheInterceptor.firstIncluded].
  destruct (includes path "/agent/chat") eqn:Hchat; [reflexivity|].
  destruct (includes path "/agent/tools") eqn:Htools; [reflexivity|].
  destruct (includes path "/documents") eqn:Hdocs; [reflexivity|].
  destruct (includes path "/documents/status") eqn:Hstatus.
  { apply (includes_app_l "/documents" "/status") in Hstatus. congruence. }
  destruct (includes path "/scrape") eqn:Hscrape; [reflexivity|].
  destruct (includes path "/health") eqn:Hhealth; [reflexivity|].
  destruct (includes path "/documents/status/") eqn:Hs.
  { apply (includes_app_l "/documents" "/status/") in Hs. congruence. }
  destruct (includes path "/agent/chat/history/") eqn:Hh; [|reflexivity].
  apply (includes_app_l "/agent/chat" "/history/") in Hh. congruence.
Qed.


(** ** The hash of the parameters *)

Lemma toInt32_range (z : Z) : - 2 ^ 31 <= toInt32 z < 2 ^ 31.
Proof. unfold toInt32. pose proof (Z.mod_pos_bound (z + 2 ^ 31) (2 ^ 32)). lia. Qed.

Lemma toInt32_congr (a b : Z) : (a - b) mod 2 ^ 32 = 0 -> toInt32 a = toInt32 b.
Proof.
  intros Hab. unfold toInt32. f_equal.
  apply Z.mod_divide in Hab as [q Hq]; [|lia].
  replace (a + 2 ^ 31) with (b + 2 ^ 31 + q * 2 ^ 32) by lia.
  apply Z.mod_add. lia.
Qed.

Lemma toInt32_residue (z : Z) : (toInt32 z - z) mod 2 ^ 32 = 0.
Proof.
  unfold toInt32. apply Z.mod_divide; [lia|].
  exists (- ((z + 2 ^ 31) / 2 ^ 32)).
  pose proof (Z.div_mod (z + 2 ^ 31) (2 ^ 32)). lia.
Qed.

Lemma toInt32_id (z : Z) : - 2 ^ 31 <= z < 2 ^ 31 -> toInt32 z = z.
Proof. intros Hz. unfold toInt32. rewrite Z.mod_small; lia. Qed.

(** One turn of the loop multiplies by 31 and adds the code, in 32 bits. *)
Lemma hash_step (h h' c : Z) :
  (h - h') mod 2 ^ 32 = 0 ->
  toInt32 (toInt32 (Z.shiftl h 5) - h + c) = toInt32 (31 * h' + c).
Proof.
  intros Hh. apply toInt32_congr. rewrite Z.shiftl_mul_pow2 by lia.
  apply Z.mod_divide; [lia|].
  apply Z.mod_divide in Hh as [q Hq]; [|lia].
  destruct (proj1 (Z.mod_divide _ (2 ^ 32) ltac:(lia)) (toInt32_residue (h * 2 ^ 5)))
    as [r Hr].
  exists (r + 31 * q). lia.
Qed.

Lemma hashChars_polynomial (s : string) : forall h h',
  - 2 ^ 31 <= h < 2 ^ 31 -> (h - h') mod 2 ^ 32 = 0 ->
  CacheKeyGenerator.hashChars s h = toInt32 (polynomial31 s h').
Proof.
  induction s as [|c s IH]; intros h h' Hr Hh; cbn [CacheKeyGenerator.hashChars polynomial31].
  - rewrite <- (toInt32_id h Hr). now apply toInt32_congr.
  - apply IH; [apply toInt32_range|].
    rewrite (hash_step h h' _ Hh). apply toInt32_residue.
Qed.

Lemma hashChars_app (a b : string) : forall h,
  CacheKeyGenerator.hashChars (a +:+ b) h
  = CacheKeyGenerator.hashChars b (CacheKeyGenerator.hashChars a h).
Proof.
  induction a as [|c a IH]; intros h.
  - now rewrite append_nil_l.
  - rewrite append_cons_l. cbn [CacheKeyGenerator.hashChars]. apply IH.
Qed.

Lemma hashChars_range (s : string) (h : Z) :
  - 2 ^ 31 <= h < 2 ^ 31 -> - 2 ^ 31 <= CacheKeyGenerator.hashChars s h < 2 ^ 31.
Proof.
  intros Hr. rewrite (hashChars_polynomial s h h Hr); [apply toInt32_range|].
  now rewrite Z.sub_diag.
Qed.

(** X22: the hash of the parameters is the polynomial hash in base 31,
    read in 32 bits.  The loop with [<<] and [&] computes, for every text,
    the two's complement reading of the sum of the character codes weighted
    by the powers of 31, so the number handed to [toString(36)] lies
    between 0 and 2^31. *)
Theorem hashParams_is_polynomial_hash (params : string) :
  CacheKeyGenerator.hashChars params 0 = toInt32 (polynomial31 params 0) /\
  0 <= Z.abs (CacheKeyGenerator.hashChars params 0) <= 2 ^ 31 /\
  CacheKeyGenerator.hashParams params
  = if String.eqb params "" then "no-params"
    else Number_toString36 (Z.abs (toInt32 (polynomial31 params 0))).
Proof.
  assert (Hpoly : CacheKeyGenerator.hashChars params 0 = toInt32 (polynomial31 params 0)).
  { apply hashChars_polynomial; [lia|reflexivity]. }
  split; [exact Hpoly|]. split.
  - pose proof (toInt32_range (polynomial31 params 0)). rewrite Hpoly. lia.
  - unfold CacheKeyGenerator.hashParams, truthy. rewrite negb_involutive, Hpoly.
    reflexivity.
Qed.

(** Two texts that differ by [Aa] against [BB] at one place have one hash. *)
Lemma hashChars_Aa_BB (a b : string) (h : Z) :
  - 2 ^ 31 <= h < 2 ^ 31 ->
  CacheKeyGenerator.hashChars (a +:+ "Aa" +:+ b) h
  = CacheKeyGenerator.hashChars (a +:+ "BB" +:+ b) h.
Proof.
  intros Hr. rewrite !hashChars_app. f_equal.
  set (h1 := CacheKeyGenerator.hashChars a h).
  assert (Hr1 : - 2 ^ 31 <= h1 < 2 ^ 31) by now apply hashChars_range.
  rewrite (hashChars_polynomial "Aa" h1 h1 Hr1) by now rewrite Z.sub_diag.
  rewrite (hashChars_polynomial "BB" h1 h1 Hr1) by now rewrite Z.sub_diag.
  f_equal.
  change (polynomial31 "Aa" h1) with (31 * (31 * h1 + 65) + 97).
  change (polynomial31 "BB" h1) with (31 * (31 * h1 + 66) + 66).
  lia.
Qed.

(** X23: the keys of the response cache collide.  Two parameter objects
    whose serialised texts differ only by [Aa] against [BB] at one place
    are given the same key, so the cache does not tell them apart: storing
    or reading a response for the one is storing or reading it for the
    other. *)
Theorem response_keys_collide `{Runtime} (cfg : CacheConfig)
    (endpoint : string) (p1 p2 : json) (a b : string) :
  JSON_stringify p1 = a +:+ "Aa" +:+ b -> JSON_stringify p2 = a +:+ "BB" +:+ b ->
  CacheKeyGenerator.response endpoint (Some p1)
  = CacheKeyGenerator.response endpoint (Some p2) /\
  (forall value ttl,
     CacheService.cacheResponse cfg endpoint (Some p1) value ttl
     = CacheService.cacheResponse cfg endpoint (Some p2) value ttl) /\
  CacheService.getCachedResponse endpoint (Some p1)
  = CacheService.getCachedResponse endpoint (Some p2).
Proof.
  intros H1 H2.
  assert (Hkey : CacheKeyGenerator.response endpoint (Some p1)
                 = CacheKeyGenerator.response endpoint (Some p2)).
  { unfold CacheKeyGenerator.response, CacheKeyGenerator.hashParams, truthy.
    rewrite H1, H2.
    replace (String.eqb (a +:+ "Aa" +:+ b) "") with false.
    2:{ symmetry. apply String.eqb_neq. intros E.
        apply (f_equal String.length) in E. rewrite !length_append in E. cbn in E. lia. }
    replace (String.eqb (a +:+ "BB" +:+ b) "") with false.
    2:{ symmetry. apply String.eqb_neq. intros E.
        apply (f_equal String.length) in E. rewrite !length_append in E. cbn in E. lia. }
    cbn [negb]. now rewrite hashChars_Aa_BB by lia. }
  split; [exact Hkey|]. split.
  - intros value ttl. unfold CacheService.cacheResponse. now rewrite Hkey.
  - unfold CacheService.getCachedResponse. now rewrite Hkey.
Qed.

Lemma response_keys_collide_witness :
  CacheService.getCachedResponse (H := SampleRuntime.runtime)
    "/documents" (Some (JObj [("q", JStr "Aa")]))
  = CacheService.getCachedResponse (H := SampleRuntime.runtime)
      "/documents" (Some (JObj [("q", JStr "BB")])).
Proof.
  destruct (response_keys_collide (H := SampleRuntime.runtime) defaultCacheConfig
              "/documents" (JObj [("q", JStr "Aa")]) (JObj [("q", JStr "BB")])
              (String.substring 0 6 (SampleRuntime.stringify (JObj [("q", JStr "Aa")])))
              (String.substring 8 2 (SampleRuntime.stringify (JObj [("q", JStr "Aa")]))))
    as (_ & _ & Hget).
  - vm_compute. reflexivity.
  - vm_compute. reflexivity.
  - exact Hget.
Defined.


(** ** The counters of the cache *)

(** The private helpers settle and leave the counters alone. *)
Lemma setToRedis_settles (k v : string) (t : Z) (w : world) :
  exists w', metrics w' = metrics w /\
             (CacheService.setToRedis k v t w = Returned tt w' \/
              exists e, CacheService.setToRedis k v t w = Thrown e w').
Proof.
  unfold CacheService.setToRedis, try_catch, bind, gets, RedisService.on_client, throw.
  destruct (client w) eqn:C; cbn; rewrite ?C; cbn;
    [destruct (online w) eqn:O; cbn; rewrite ?O; cbn;
     [destruct (Command.SETEX _ _ _ _ _) as [[] sv|msg]|]|];
    eexists; (split; [|first [left; reflexivity|right; eexists; reflexivity]]); reflexivity.
Qed.

Lemma deleteFromRedis_settles (k : string) (w : world) :
  exists w', metrics w' = metrics w /\
             (CacheService.deleteFromRedis k w = Returned tt w' \/
              exists e, CacheService.deleteFromRedis k w = Thrown e w').
Proof.
  unfold CacheService.deleteFromRedis, try_catch, bind, gets, RedisService.on_client, throw,
    ret.
  destruct (client w) eqn:C; cbn - [Command.DEL]; rewrite ?C; cbn - [Command.DEL];
    [destruct (online w) eqn:O; cbn - [Command.DEL]; rewrite ?O; cbn - [Command.DEL];
     [destruct (Command.DEL _ _ _) as [n sv|msg]|]|];
    eexists; (split; [|first [left; reflexivity|right; eexists; reflexivity]]); reflexivity.
Qed.

(** X24: [get] never throws, and every call counts as exactly one hit or
    one miss.  Whatever the store holds under the key and whether or not
    the store can be reached, [get] returns; afterwards the hits and the
    misses together have grown by one, a hit is counted only when a value
    other than the failure value [null] could be returned, and the sets and
    the operations have not gone down. *)
Theorem get_counts_one_hit_or_miss `{Runtime} (k : string) (w : world) :
  exists v w',
    CacheService.get k w = Returned v w' /\
    ((hits (metrics w') = hits (metrics w) + 1 /\ misses (metrics w') = misses (metrics w)) \/
     (hits (metrics w') = hits (metrics w) /\ misses (metrics w') = misses (metrics w) + 1 /\
      v = JNull)) /\
    sets (metrics w') = sets (metrics w) /\
    operations (metrics w) < operations (metrics w').
Proof.
  unfold CacheService.get, try_catch. unfold bind at 1. unfold CacheService.bump at 1.
  unfold modify at 1.
  set (w0 := set_metrics (CacheService.count_operation (metrics w)) w).
  unfold bind at 1.
  destruct (getFromRedis_settles w0 (CacheService.versioned k)) as (cached & -> & _).
  assert (Hmiss : forall w1 : world,
            hits (metrics w1) = hits (metrics w) ->
            misses (metrics w1) = misses (metrics w) ->
            sets (metrics w1) = sets (metrics w) ->
            operations (metrics w) < operations (metrics w1) ->
            exists v w',
              Returned JNull (set_metrics (CacheService.count_miss (metrics w1)) w1)
              = Returned v w' /\
              ((hits (metrics w') = hits (metrics w) + 1 /\
                misses (metrics w') = misses (metrics w)) \/
               (hits (metrics w') = hits (metrics w) /\
                misses (metrics w') = misses (metrics w) + 1 /\ v = JNull)) /\
              sets (metrics w') = sets (metrics w) /\
              operations (metrics w) < operations (metrics w')).
  { intros w1 Hh Hm Hs Ho. eexists _, _. split; [reflexivity|]. cbn.
    split; [right; repeat split; lia|]. split; [exact Hs|exact Ho]. }
  assert (H0 : hits (metrics w0) = hits (metrics w) /\
               misses (metrics w0) = misses (metrics w) /\
               sets (metrics w0) = sets (metrics w) /\
               operations (metrics w) < operations (metrics w0))
    by (cbn; repeat split; lia).
  destruct H0 as (Hh0 & Hm0 & Hs0 & Ho0).
  destruct cached as [str|]; [|now apply Hmiss].
  destruct (negb (truthy str)); [now apply Hmiss|].
  destruct (JSON_parse str) as [j|]; [|now apply Hmiss].
  destruct (entryOfJson j) as [entry|]; [|now apply Hmiss].
  unfold bind at 1. unfold Date_now at 1, gets at 1.
  destruct (CacheService.isExpired (clock w0) entry).
  - unfold bind at 1. unfold CacheService.delete, try_catch.
    unfold bind at 1. unfold CacheService.bump at 1, modify at 1.
    unfold bind at 1. unfold CacheService.bump at 1, modify at 1.
    set (w1 := set_metrics (CacheService.count_delete _) _).
    destruct (deleteFromRedis_settles (CacheService.versioned k) w1)
      as (w2 & Hm2 & [-> | [e ->]]); apply Hmiss; rewrite Hm2; cbn; lia.
  - unfold bind at 1. cbn [ce_ttl].
    match goal with
    | |- context [CacheService.setToRedis ?a ?b ?c w0] =>
        destruct (setToRedis_settles a b c w0) as (w2 & Hm2 & [-> | [e ->]])
    end.
    + cbn [ce_compressed ce_value].
      destruct (ce_compressed entry), (ce_value entry);
        (eexists _, _; split; [reflexivity|]; cbn; rewrite Hm2; cbn;
         split; [left; split; lia|]; split; lia).
    + apply Hmiss; rewrite Hm2; cbn; lia.
Qed.


(** ** Counting an admitted request *)

(** Recording against a counter moves it from [n] to [n + 1]. *)
Lemma record_own (info : RateLimitInfo) (w : world) (n : Z) :
  up w -> 0 < windowMs (rl_rule info) ->
  counter_state w (rl_key info) (rl_rule info) n ->
  exists w1,
    RateLimitService.recordRequest info w = Returned tt w1 /\
    up w1 /\ clock w1 = clock w /\ counter_state w1 (rl_key info) (rl_rule info) (n + 1).
Proof.
  intros Hup HW [[-> Hnone]|[Hn [exp Hsome]]].
  - pose proof (recordRequest_first info w Hup HW Hnone) as Hrec.
    eexists. split; [exact Hrec|].
    split; [now apply put_up|]. split; [apply put_clock|].
    right. split; [lia|]. eexists. rewrite put_clock. cbn.
    rewrite lookup_live_insert. destruct (decide _) as [_|Hne]; [|now destruct Hne].
    unfold live. cbn.
    assert (Hlive : (clock w <? clock w
                                + (Math_ceil_div (windowMs (rl_rule info)) 1000 + 1) * 1000)
                    = true).
    { apply Z.ltb_lt. pose proof (Math_ceil_div_pos (windowMs (rl_rule info)) 1000). lia. }
    rewrite Hlive. reflexivity.
  - pose proof (recordRequest_next info w n exp Hup Hn Hsome) as Hrec.
    eexists. split; [exact Hrec|].
    split; [now apply put_up|]. split; [apply put_clock|].
    right. split; [lia|]. exists exp. rewrite put_clock. cbn.
    rewrite lookup_live_insert. destruct (decide _) as [_|Hne]; [|now destruct Hne].
    unfold lookup_live in Hsome.
    destruct (keyspace (store w) !! _) as [e|]; [|discriminate].
    destruct (live (clock w) e) eqn:L; [|discriminate]. injection Hsome as ->.
    unfold live in *. cbn in *. now rewrite L.
Qed.

(** Recording against another counter leaves it where it stands. *)
Lemma record_other (info : RateLimitInfo) (key : string) (rule : RateLimitRule)
    (w : world) (n : Z) :
  up w -> rl_key info <> key -> counter_state w key rule n ->
  exists w1,
    RateLimitService.recordRequest info w = Returned tt w1 /\
    up w1 /\ clock w1 = clock w /\ counter_state w1 key rule n.
Proof.
  intros Hup Hne Hstate.
  destruct (recordRequest_returns info w) as [w1 Hrec].
  pose proof (confined_recordRequest info w) as Hc. rewrite Hrec in Hc.
  destruct Hc as [Hback Hframe].
  exists w1. split; [exact Hrec|]. split; [now apply (backstage_up _ _ Hback)|].
  assert (Hclock : clock w1 = clock w) by apply Hback.
  split; [exact Hclock|].
  unfold counter_state, lookup_live in *. rewrite Hclock.
  rewrite Hframe; [exact Hstate|].
  intros [ws E]. apply windowKey_inj in E as [E _]. congruence.
Qed.

Lemma record_each_counts (infos : list RateLimitInfo) :
  NoDup (map rl_key infos) ->
  Forall (fun info => 0 < windowMs (rl_rule info)) infos ->
  forall w, up w ->
    exists w',
      record_each infos w = Returned tt w' /\ up w' /\ clock w' = clock w /\
      (forall key rule n,
         key ∉ map rl_key infos -> counter_state w key rule n -> counter_state w' key rule n) /\
      (forall info n,
         info ∈ infos -> counter_state w (rl_key info) (rl_rule info) n ->
         counter_state w' (rl_key info) (rl_rule info) (n + 1)).
Proof.
  induction infos as [|info0 rest IH]; intros Hnd Hpos w Hup.
  - exists w. split; [reflexivity|]. split; [exact Hup|]. split; [reflexivity|].
    split; [auto|]. intros info n Hin. now apply elem_of_nil in Hin.
  - cbn [map] in Hnd. apply NoDup_cons in Hnd as [Hfresh Hnd].
    apply Forall_cons in Hpos as [Hpos0 Hpos].
    destruct (recordRequest_returns info0 w) as [w1 Hrec].
    assert (Hup1 : up w1 /\ clock w1 = clock w).
    { pose proof (confined_recordRequest info0 w) as Hc. rewrite Hrec in Hc.
      destruct Hc as [Hback _]. split; [now apply (backstage_up _ _ Hback)|apply Hback]. }
    destruct Hup1 as [Hup1 Hc1].
    destruct (IH Hnd Hpos w1 Hup1) as (w' & Hrun & Hup' & Hc' & Hout & Hin').
    exists w'. cbn [record_each]. unfold bind. rewrite Hrec.
    split; [exact Hrun|]. split; [exact Hup'|]. split; [congruence|]. split.
    + intros key rule n Hkey Hstate. apply Hout.
      * intros Hk. apply Hkey. cbn [map]. now right.
      * destruct (record_other info0 key rule w n Hup) as (w1' & Hrec' & _ & _ & Hs);
          [intros E; apply Hkey; cbn [map]; rewrite <- E; left|exact Hstate|].
        rewrite Hrec in Hrec'. now injection Hrec' as <-.
    + intros info n Hin Hstate. apply elem_of_cons in Hin as [->|Hin].
      * apply Hout; [exact Hfresh|].
        destruct (record_own info0 w n Hup Hpos0 Hstate) as (w1' & Hrec' & _ & _ & Hs).
        rewrite Hrec in Hrec'. now injection Hrec' as <-.
      * apply Hin'; [exact Hin|].
        destruct (record_other info0 (rl_key info) (rl_rule info) w n Hup)
          as (w1' & Hrec' & _ & _ & Hs); [|exact Hstate|].
        { intros E. apply Hfresh. rewrite E. apply list_elem_of_fmap. now exists info. }
        rewrite Hrec in Hrec'. now injection Hrec' as <-.
Qed.

(** The recording of the middleware is the recording against each counter
    of the request. *)
Lemma middleware_records_each (config : RateLimitConfig) (method path ipAddress : string)
    (sessionId : option string) (w : world) :
  RateLimitMiddleware.recordRequest config method path ipAddress sessionId w
  = record_each (recordedFor config method path ipAddress sessionId) w.
Proof.
  unfold RateLimitMiddleware.recordRequest, recordedFor, try_catch,
    RateLimitService.recordIPRequest, RateLimitService.recordEndpointRequest,
    RateLimitService.recordGlobalRequest, RateLimitService.recordSessionRequest.
  destruct (RateLimitService.getEndpointRule config (method +:+ " " +:+ path)) as [rule|],
    sessionId as [sid|]; cbn [record_each]; unfold bind;
    repeat match goal with
           | |- context [RateLimitService.recordRequest ?i ?w0] =>
               let w1 := fresh "w" in
               let Hrec := fresh "Hrec" in
               destruct (recordRequest_returns i w0) as [w1 Hrec]; rewrite Hrec; clear Hrec
           end;
    reflexivity.
Qed.

Lemma recordedFor_NoDup (config : RateLimitConfig) (method path ipAddress : string)
    (sessionId : option string) :
  NoDup (map rl_key (recordedFor config method path ipAddress sessionId)).
Proof.
  unfold recordedFor.
  destruct (RateLimitService.getEndpointRule _ _), sessionId; cbn [map rl_key];
    repeat (apply NoDup_cons; split);
    try apply NoDup_nil_2;
    rewrite ?elem_of_cons, ?elem_of_nil;
    intros Hin; repeat (destruct Hin as [Hin|Hin]); try discriminate Hin; exact Hin.
Qed.


Lemma counter_reads (w : world) (key : string) (rule : RateLimitRule) (n : Z) :
  up w -> counter_state w key rule n ->
  RateLimitService.getCurrentCount key (RateLimitService.windowStartOf (clock w) rule)
    (windowMs rule) w = Returned (Some n) w.
Proof.
  intros Hup [[-> Hnone]|[_ [exp Hsome]]].
  - now apply getCurrentCount_none.
  - apply (getCurrentCount_counter
             {| rl_key := key; rl_rule := rule; rl_identifier := ""; rl_type := "" |}
             w _ n (Some exp) Hup Hsome).
Qed.

(** X25: an admitted request is counted once against each of its quotas.
    When the middleware lets a request through with a rate-limit result,
    every counter of the request (the address, the endpoint rule or else
    the global rule, and the session if there is one) that stood at [n] in
    its window stands at [n + 1] afterwards, and the next check reads
    [n + 1]. *)
Theorem admitted_request_is_counted_once (config : RateLimitConfig)
    (method path ipAddress : string) (sessionId : option string) (w w' : world)
    (rateLimit : RateLimitResult) :
  up w ->
  Forall (fun info => 0 < windowMs (rl_rule info))
    (recordedFor config method path ipAddress sessionId) ->
  RateLimitMiddleware.use config method path ipAddress sessionId w
  = Returned (RateLimitMiddleware.Next (Some rateLimit)) w' ->
  forall info n,
    info ∈ recordedFor config method path ipAddress sessionId ->
    counter_state w (rl_key info) (rl_rule info) n ->
    counter_state w' (rl_key info) (rl_rule info) (n + 1) /\
    RateLimitService.getCurrentCount (rl_key info)
      (RateLimitService.windowStartOf (clock w') (rl_rule info)) (windowMs (rl_rule info)) w'
    = Returned (Some (n + 1)) w'.
Proof.
  intros Hup Hpos Hrun info n Hin Hstate.
  destruct (record_each_counts _ (recordedFor_NoDup config method path ipAddress sessionId)
              Hpos w Hup) as (w2 & Hrec & Hup2 & _ & _ & Hcount).
  assert (Hw' : w' = w2).
  { revert Hrun. unfold RateLimitMiddleware.use.
    destruct (RateLimitService.isIPWhitelisted config ipAddress); [discriminate|].
    destruct (RateLimitService.shouldSkipEndpoint config path); [discriminate|].
    unfold try_catch. unfold bind at 1.
    unfold RateLimitService.checkIPRateLimit.
    match goal with
    | |- context [RateLimitService.checkRateLimit ?i w] =>
        destruct (checkRateLimit_settles i w) as [ipResult ->]
    end.
    unfold bind at 1.
    assert (Hsession : exists sessionResult,
              match sessionId with
              | Some sid =>
                  r <- RateLimitService.checkSessionRateLimit config sid ;; ret (Some r)
              | None => ret None
              end w = Returned sessionResult w).
    { destruct sessionId as [sid|]; [|now exists None].
      unfold bind, RateLimitService.checkSessionRateLimit.
      match goal with
      | |- context [RateLimitService.checkRateLimit ?i w] =>
          destruct (checkRateLimit_settles i w) as [r ->]
      end.
      now exists (Some r). }
    destruct Hsession as [sessionResult ->].
    unfold bind at 1.
    destruct (checkEndpointRateLimit_settles config method path ipAddress w)
      as [endpointResult ->].
    destruct (RateLimitMiddleware.mostRestrictive _) as [chosen|]; [|discriminate].
    destruct (negb (allowed chosen)); [discriminate|].
    unfold bind at 1. rewrite middleware_records_each, Hrec.
    cbn. now intros [= _ <-]. }
  subst w'. split; [now apply Hcount|].
  apply counter_reads; [exact Hup2|now apply Hcount].
Qed.


Lemma admitted_request_is_counted_once_witness :
  counter_state
    (exec (RateLimitMiddleware.use DEFAULT_RATE_LIMIT_CONFIG "GET" "/documents" "10.0.0.1"
             (Some "s1")) (fresh_world 1000))
    (RateLimitService.getIPKey "10.0.0.1") (cfg_perIP DEFAULT_RATE_LIMIT_CONFIG) (0 + 1).
Proof.
  assert (exists r,
            RateLimitMiddleware.use DEFAULT_RATE_LIMIT_CONFIG "GET" "/documents" "10.0.0.1"
              (Some "s1") (fresh_world 1000)
            = Returned (RateLimitMiddleware.Next (Some r))
                (exec (RateLimitMiddleware.use DEFAULT_RATE_LIMIT_CONFIG "GET" "/documents"
                         "10.0.0.1" (Some "s1")) (fresh_world 1000))) as [r Hrun]
    by (eexists; vm_compute; reflexivity).
  assert (Hpos : Forall (fun info => 0 < windowMs (rl_rule info))
                    (recordedFor DEFAULT_RATE_LIMIT_CONFIG "GET" "/documents" "10.0.0.1"
                       (Some "s1"))) by (repeat constructor).
  destruct (admitted_request_is_counted_once DEFAULT_RATE_LIMIT_CONFIG "GET" "/documents"
              "10.0.0.1" (Some "s1") (fresh_world 1000)
              (exec (RateLimitMiddleware.use DEFAULT_RATE_LIMIT_CONFIG "GET" "/documents"
                       "10.0.0.1" (Some "s1")) (fresh_world 1000))
              r (conj eq_refl eq_refl) Hpos Hrun
              {| rl_key := RateLimitService.getIPKey "10.0.0.1";
                 rl_rule := cfg_perIP DEFAULT_RATE_LIMIT_CONFIG;
                 rl_identifier := "10.0.0.1"; rl_type := "ip" |} 0)
    as [Hstate _].
  - left.
  - left. split; reflexivity.
  - exact Hstate.
Defined.


(** ** Clearing the cache *)

Lemma cache_key_glob (k : string) : cache_key k <-> glob "1.0:*" k = true.
Proof.
  split.
  - intros [x ->]. apply (glob_literal_star "1.0:" x). reflexivity.
  - intros Hg. apply (glob_literal_head "1.0:" "*") in Hg; [exact Hg|reflexivity].
Qed.

(** X26: [clear] empties the cache and nothing but the cache, unless
    invalidation by pattern is switched off.  With an available store and
    a batch size of one or more it returns and the counters are all zero
    afterwards; no key outside the cache changes; with pattern invalidation
    on, no key of the cache is left and every [get] answers [null]; with
    pattern invalidation off, the store is exactly as before: the entries
    stay although the counters are reset. *)
Theorem clear_empties_the_cache `{Runtime} (inv : CacheInvalidation) (w : world) :
  up w -> 0 < batchInvalidationSize inv ->
  exists w',
    CacheService.clear inv w = Returned tt w' /\
    metrics w' = no_metrics /\
    (forall k, ~ cache_key k -> keyspace (store w') !! k = keyspace (store w) !! k) /\
    if enablePatternInvalidation inv then
      (forall k, cache_key k -> lookup_live (clock w') (keyspace (store w')) k = None) /\
      (forall key, exists w'', CacheService.get key w' = Returned JNull w'')
    else store w' = store w.
Proof.
  intros Hup Hb. unfold CacheService.clear, try_catch. unfold bind at 1.
  destruct (enablePatternInvalidation inv) eqn:Hen.
  - destruct (deletePattern_spec inv "*" w Hup Hen Hb)
      as (keys & w1 & -> & _ & Hmem & Hback & _ & Hks).
    eexists. split; [reflexivity|]. cbn. split; [reflexivity|].
    assert (Hgone : forall k, cache_key k ->
                      lookup_live (clock w1) (keyspace (store w1)) k = None).
    { intros k Hk. unfold lookup_live. rewrite Hks.
      destruct (decide (k ∈ keys)) as [_|Hout]; [reflexivity|].
      destruct (keyspace (store w) !! k) as [e|] eqn:E; [|reflexivity].
      destruct (live (clock w1) e) eqn:L; [|reflexivity].
      destruct Hout. apply Hmem. split; [now apply cache_key_glob|].
      unfold lookup_live. rewrite E.
      replace (clock w) with (clock w1) by apply Hback. rewrite L. eauto. }
    split; [|split].
    + intros k Hk. rewrite Hks. destruct (decide (k ∈ keys)) as [Hin|]; [|reflexivity].
      destruct Hk. apply cache_key_glob. now apply Hmem in Hin as [Hg _].
    + exact Hgone.
    + intros key. eexists. apply get_absent.
      unfold string_at. cbn. now rewrite (Hgone _ (cache_key_versioned key)).
  - unfold CacheService.deletePattern. rewrite Hen. cbn.
    eexists. split; [reflexivity|]. cbn. auto.
Qed.

Lemma clear_empties_the_cache_witness :
  exists w',
    CacheService.get (H := SampleRuntime.runtime) "greeting"
      (exec (CacheService.clear defaultCacheInvalidation)
         (exec (CacheService.set (H := SampleRuntime.runtime) defaultCacheConfig "greeting"
                  (JStr "hello") None) (fresh_world 0)))
    = Returned JNull w'.
Proof.
  destruct (clear_empties_the_cache (H := SampleRuntime.runtime) defaultCacheInvalidation
              (exec (CacheService.set (H := SampleRuntime.runtime) defaultCacheConfig
                       "greeting" (JStr "hello") None) (fresh_world 0)))
    as (w1 & Hclear & _ & _ & Hon).
  - split; vm_compute; reflexivity.
  - vm_compute. reflexivity.
  - unfold exec at 1. rewrite Hclear. cbn [enablePatternInvalidation defaultCacheInvalidation] in Hon.
    destruct Hon as [_ Hget]. apply Hget.
Defined.


(** ** Invalidating an endpoint *)

(** A value stored under a key that a pattern does not match is still read
    after the deletion by that pattern. *)
Lemma entry_survives_pattern `{Runtime} (cfg : CacheConfig) (inv : CacheInvalidation)
    (w : world) (key pattern : string) (value : json) (ttl : option Z) :
  up w -> CacheService.getSize (JSON_stringify value) <= maxValueSize cfg ->
  0 < CacheService.finalTtlOf cfg ttl ->
  enableCompression cfg && (CacheService.getSize (JSON_stringify value)
                            >? compressionThreshold cfg) = false ->
  json_roundtrip (entryToJson (entryOf cfg (clock w) value ttl)) ->
  0 < batchInvalidationSize inv ->
  glob (CacheService.versioned pattern) (CacheService.versioned key) = false ->
  exists w1 n w2 w3,
    CacheService.set cfg key value ttl w = Returned tt w1 /\
    CacheService.deletePattern inv pattern w1 = Returned n w2 /\
    CacheService.get key w2 = Returned value w3.
Proof.
  intros Hup Hsize Httl Hsmall [Hparse Htruthy] Hb Hmiss.
  set (entry := entryOf cfg (clock w) value ttl) in *.
  set (text := JSON_stringify (entryToJson entry)) in *.
  set (w1 := put (CacheService.versioned key)
               {| rval := RString text;
                  expireAt := Some (clock w + CacheService.finalTtlOf cfg ttl * 1000) |}
               (counted_set w)).
  assert (Hup1 : up w1) by (apply put_up; now apply counted_set_up).
  assert (Hset : CacheService.set cfg key value ttl w = Returned tt w1)
    by now apply set_returns.
  assert (Hstored : string_at w1 (CacheService.versioned key) = Some text).
  { assert (Hlive : (clock w <? clock w + CacheService.finalTtlOf cfg ttl * 1000) = true)
      by (apply Z.ltb_lt; lia).
    unfold string_at, lookup_live, w1. cbn - [CacheService.finalTtlOf].
    rewrite lookup_insert_eq. unfold live. cbn - [CacheService.finalTtlOf].
    now rewrite Hlive. }
  assert (Hdel : exists n w2,
             CacheService.deletePattern inv pattern w1 = Returned n w2 /\
             up w2 /\ clock w2 = clock w1 /\
             keyspace (store w2) !! CacheService.versioned key
             = keyspace (store w1) !! CacheService.versioned key).
  { destruct (enablePatternInvalidation inv) eqn:Hen.
    - destruct (deletePattern_spec inv pattern w1 Hup1 Hen Hb)
        as (keys & w2 & Hrun & _ & Hmem & Hback & _ & Hks).
      exists (Z.of_nat (length keys)), w2. split; [exact Hrun|].
      split; [now apply (backstage_up _ _ Hback)|]. split; [apply Hback|].
      rewrite Hks. destruct (decide (CacheService.versioned key ∈ keys)) as [Hin|];
        [|reflexivity].
      apply Hmem in Hin as [Hglob _]. congruence.
    - exists 0, w1. split; [|auto].
      unfold CacheService.deletePattern. now rewrite Hen. }
  destruct Hdel as (n & w2 & Hrun & Hup2 & Hclock & Hsame).
  exists w1, n, w2. eexists. split; [exact Hset|]. split; [exact Hrun|].
  assert (Hcreated : ce_createdAt entry = clock w)
    by (unfold entry, entryOf; now destruct (_ && _)).
  assert (Hentryttl : ce_ttl entry = CacheService.finalTtlOf cfg ttl)
    by (unfold entry, entryOf; now destruct (_ && _)).
  rewrite (get_hit_world w2 key text entry).
  - f_equal. unfold delivered, entry, entryOf. now rewrite Hsmall.
  - exact Hup2.
  - unfold string_at, lookup_live in *. now rewrite Hclock, Hsame.
  - exact Htruthy.
  - exact Hparse.
  - unfold CacheService.isExpired. rewrite Hclock, Hcreated, Hentryttl.
    change (clock w1) with (clock w). rewrite Z.gtb_ltb. apply Z.ltb_ge. lia.
  - now rewrite Hentryttl.
Qed.

Lemma prefix_append (p s : string) : String.prefix p (p +:+ s) = true.
Proof.
  induction p as [|c p IH]; [now destruct s|].
  rewrite append_cons_l. cbn. destruct (ascii_dec c c); [exact IH|congruence].
Qed.

(** X27: [invalidateEndpoint] reaches only the responses whose parameter
    hash begins with [31e], the hash of the empty object.  Its pattern is
    the key of the endpoint for the parameters [{}] followed by a star, so
    a response cached for the endpoint under any parameters whose hash does
    not begin with [31e], those cached without parameters among them, is
    still returned by [getCachedResponse] afterwards. *)
Theorem invalidateEndpoint_keeps_other_hashes `{Runtime} (cfg : CacheConfig)
    (inv : CacheInvalidation) (w : world) (endpoint : string) (params : option json)
    (value : json) (ttl : option Z) :
  let hash :=
    CacheKeyGenerator.hashParams
      match params with Some p => JSON_stringify p | None => EmptyString end in
  JSON_stringify (JObj []) = "{}" -> literal endpoint = true ->
  String.prefix "31e" hash = false ->
  Z.of_nat (String.length (CacheKeyGenerator.responsePrefix +:+ ":" +:+ endpoint +:+ ":"
                           +:+ hash)) <= CacheKeyGenerator.maxKeyLength ->
  Z.of_nat (String.length (CacheKeyGenerator.responsePrefix +:+ ":" +:+ endpoint +:+ ":"
                           +:+ "31e")) <= CacheKeyGenerator.maxKeyLength ->
  up w -> CacheService.getSize (JSON_stringify value) <= maxValueSize cfg ->
  0 < CacheService.finalTtlOf cfg ttl ->
  enableCompression cfg && (CacheService.getSize (JSON_stringify value)
                            >? compressionThreshold cfg) = false ->
  json_roundtrip (entryToJson (entryOf cfg (clock w) value ttl)) ->
  0 < batchInvalidationSize inv ->
  exists w1 n w2 w3,
    CacheService.cacheResponse cfg endpoint params value ttl w = Returned tt w1 /\
    CacheService.invalidateEndpoint inv endpoint w1 = Returned n w2 /\
    CacheService.getCachedResponse endpoint params w2 = Returned value w3.
Proof.
  intros hash Hempty Hlit Hhash Hfit Hfit0 Hup Hsize Httl Hsmall Hround Hb.
  set (key := CacheKeyGenerator.responsePrefix +:+ ":" +:+ endpoint +:+ ":" +:+ hash) in *.
  set (key0 := CacheKeyGenerator.responsePrefix +:+ ":" +:+ endpoint +:+ ":" +:+ "31e") in *.
  assert (Hmiss : glob (CacheService.versioned (key0 +:+ "*")) (CacheService.versioned key)
                  = false).
  { destruct (glob _ _) eqn:Hg; [|reflexivity].
    assert (Hshape : CacheService.versioned (key0 +:+ "*")
                     = ("1.0:cache:response:" +:+ endpoint +:+ ":31e") +:+ "*").
    { unfold CacheService.versioned, key0, CacheKeyGenerator.responsePrefix,
        CacheService.CACHE_VERSION.
      rewrite ?append_assoc. reflexivity. }
    rewrite Hshape in Hg.
    apply glob_literal_head in Hg as [x Hx].
    2:{ rewrite !literal_app, Hlit. reflexivity. }
    assert (Hkey : CacheService.versioned key
                   = ("1.0:cache:response:" +:+ endpoint +:+ ":") +:+ hash).
    { unfold CacheService.versioned, key, CacheKeyGenerator.responsePrefix,
        CacheService.CACHE_VERSION.
      rewrite ?append_assoc. reflexivity. }
    rewrite Hkey in Hx.
    replace (("1.0:cache:response:" +:+ endpoint +:+ ":31e") +:+ x)
      with (("1.0:cache:response:" +:+ endpoint +:+ ":") +:+ ("31e" +:+ x)) in Hx
      by (rewrite ?append_assoc; reflexivity).
    apply append_inj_l in Hx. rewrite Hx, prefix_append in Hhash. discriminate. }
  destruct (entry_survives_pattern cfg inv w key (key0 +:+ "*") value ttl
              Hup Hsize Httl Hsmall Hround Hb Hmiss) as (w1 & n & w2 & w3 & Hset & Hdel & Hget).
  exists w1, n, w2, w3.
  unfold CacheService.cacheResponse, CacheService.invalidateEndpoint,
    CacheService.getCachedResponse, CacheKeyGenerator.response.
  fold hash. fold key. rewrite Hempty.
  change (CacheKeyGenerator.hashParams "{}") with "31e". fold key0.
  split; [|split].
  - unfold bind. now rewrite (validateKey_fits key w Hfit).
  - unfold bind. now rewrite (validateKey_fits key0 w1 Hfit0).
  - unfold bind. now rewrite (validateKey_fits key w2 Hfit).
Qed.

Lemma invalidateEndpoint_keeps_other_hashes_witness :
  exists w1 n w2 w3,
    CacheService.cacheResponse (H := SampleRuntime.runtime) defaultCacheConfig "/documents"
      None (JStr "hello") None (fresh_world 0) = Returned tt w1 /\
    CacheService.invalidateEndpoint (H := SampleRuntime.runtime) defaultCacheInvalidation
      "/documents" w1 = Returned n w2 /\
    CacheService.getCachedResponse (H := SampleRuntime.runtime) "/documents" None w2
    = Returned (JStr "hello") w3.
Proof.
  apply (invalidateEndpoint_keeps_other_hashes (H := SampleRuntime.runtime)
           defaultCacheConfig defaultCacheInvalidation (fresh_world 0) "/documents" None
           (JStr "hello") None).
  - vm_compute. reflexivity.
  - reflexivity.
  - reflexivity.
  - vm_compute. discriminate.
  - vm_compute. discriminate.
  - split; reflexivity.
  - vm_compute. discriminate.
  - reflexivity.
  - vm_compute. reflexivity.
  - split; vm_compute; reflexivity.
  - reflexivity.
Defined.


(** ** The address of a client *)

Lemma beforeComma_app (a rest : string) :
  comma_free a = true -> ChatGateway.beforeComma (a +:+ "," +:+ rest) = a.
Proof.
  induction a as [|c a IH]; intros Ha; [reflexivity|].
  rewrite append_cons_l. cbn in *. apply andb_true_iff in Ha as [Hc Ha].
  apply negb_true_iff in Hc. rewrite Hc. now rewrite IH.
Qed.

Lemma beforeComma_comma_free (a : string) :
  comma_free a = true -> ChatGateway.beforeComma a = a.
Proof.
  induction a as [|c a IH]; intros Ha; [reflexivity|].
  cbn in *. apply andb_true_iff in Ha as [Hc Ha].
  apply negb_true_iff in Hc. rewrite Hc. now rewrite IH.
Qed.

Lemma trimStart_blank (pre s : string) :
  blank pre = true -> ChatGateway.trimStart (pre +:+ s) = ChatGateway.trimStart s.
Proof.
  induction pre as [|c pre IH]; intros Hb; [now rewrite append_nil_l|].
  rewrite append_cons_l. cbn in *. apply andb_true_iff in Hb as [Hc Hb].
  rewrite Hc. now apply IH.
Qed.

Lemma trimEnd_blank (post : string) : blank post = true -> ChatGateway.trimEnd post = "".
Proof.
  induction post as [|c post IH]; intros Hb; [reflexivity|].
  cbn in *. apply andb_true_iff in Hb as [Hc Hb]. rewrite (IH Hb). now rewrite Hc.
Qed.

Lemma trimEnd_app_blank (s post : string) :
  blank post = true -> ChatGateway.trimEnd (s +:+ post) = ChatGateway.trimEnd s.
Proof.
  intros Hb. induction s as [|c s IH].
  - rewrite append_nil_l. now apply trimEnd_blank.
  - rewrite append_cons_l. cbn [ChatGateway.trimEnd]. now rewrite IH.
Qed.

Lemma trimEnd_length (s : string) :
  (String.length (ChatGateway.trimEnd s) <= String.length s)%nat.
Proof.
  induction s as [|c s IH]; [reflexivity|].
  cbn [ChatGateway.trimEnd]. destruct (ChatGateway.trimEnd s) as [|d t].
  - destruct (ChatGateway.whitespace c); cbn; lia.
  - cbn in *. lia.
Qed.

Lemma trimStart_length (s : string) :
  (String.length (ChatGateway.trimStart s) <= String.length s)%nat.
Proof.
  induction s as [|c s IH]; [reflexivity|].
  cbn [ChatGateway.trimStart]. destruct (ChatGateway.whitespace c); cbn; lia.
Qed.

(** A text that [trim] leaves as it is does not begin with white space. *)
Lemma trimmed_start (claimed : string) :
  ChatGateway.trim claimed = claimed -> ChatGateway.trimStart claimed = claimed.
Proof.
  intros Ht. destruct claimed as [|c s]; [reflexivity|].
  cbn [ChatGateway.trimStart]. destruct (ChatGateway.whitespace c) eqn:Hc; [|reflexivity].
  exfalso. unfold ChatGateway.trim in Ht. cbn [ChatGateway.trimStart] in Ht.
  rewrite Hc in Ht. apply (f_equal String.length) in Ht.
  pose proof (trimEnd_length (ChatGateway.trimStart s)).
  pose proof (trimStart_length s). cbn in Ht. lia.
Qed.

Lemma trimStart_app (claimed s : string) :
  claimed <> "" -> ChatGateway.trimStart claimed = claimed ->
  ChatGateway.trimStart (claimed +:+ s) = claimed +:+ s.
Proof.
  intros Hne Hs. destruct claimed as [|c a]; [contradiction|].
  rewrite append_cons_l. cbn [ChatGateway.trimStart] in *.
  destruct (ChatGateway.whitespace c); [|reflexivity].
  exfalso. apply (f_equal String.length) in Hs.
  pose proof (trimStart_length a). cbn in Hs. lia.
Qed.

Lemma trim_padded (pre claimed post : string) :
  blank pre = true -> blank post = true -> claimed <> "" ->
  ChatGateway.trim claimed = claimed ->
  ChatGateway.trim (pre +:+ claimed +:+ post) = claimed.
Proof.
  intros Hpre Hpost Hne Ht. pose proof (trimmed_start claimed Ht) as Hs.
  unfold ChatGateway.trim. rewrite (trimStart_blank pre _ Hpre).
  rewrite (trimStart_app claimed post Hne Hs), (trimEnd_app_blank claimed post Hpost).
  unfold ChatGateway.trim in Ht. now rewrite Hs in Ht.
Qed.

(** X28: the address of a client is what the client puts first in
    [X-Forwarded-For].  When the header is present, [getClientIP] returns
    its text before the first comma without the white space around it,
    whatever follows the comma and whatever [X-Real-IP] and the address of
    the socket are.  The white space is what [String.prototype.trim]
    strips from a text of single-byte characters: the codes 9 to 13, the
    space and the no-break space (160); the address claimed begins and
    ends with none of them. *)
Theorem client_address_is_the_first_forwarded (client : Socket)
    (pre claimed post forwarded : string) :
  blank pre = true -> blank post = true -> comma_free claimed = true ->
  claimed <> "" -> ChatGateway.trim claimed = claimed ->
  hdr_forwarded_for client = Some forwarded ->
  (forwarded = pre +:+ claimed +:+ post \/
   exists rest, forwarded = (pre +:+ claimed +:+ post) +:+ "," +:+ rest) ->
  ChatGateway.getClientIP client = claimed.
Proof.
  intros Hpre Hpost Hcomma Hne Htrim Hhdr Hshape.
  assert (Hpad : comma_free (pre +:+ claimed +:+ post) = true).
  { assert (Hblank : forall s, blank s = true -> comma_free s = true).
    { induction s as [|c s IH]; [reflexivity|]. cbn. intros Hb.
      apply andb_true_iff in Hb as [Hc Hb]. rewrite (IH Hb), andb_true_r.
      destruct (Ascii.eqb_spec c ","%char) as [->|]; [discriminate|reflexivity]. }
    assert (Happ : forall a b, comma_free a = true -> comma_free b = true ->
                               comma_free (a +:+ b) = true).
    { induction a as [|c a IH]; intros b Ha Hb; [now rewrite append_nil_l|].
      rewrite append_cons_l. cbn in *. apply andb_true_iff in Ha as [Hc Ha].
      rewrite Hc. now apply IH. }
    auto. }
  unfold ChatGateway.getClientIP. rewrite Hhdr. cbn [ChatGateway.truthy_opt].
  assert (Htruthy : truthy forwarded = true).
  { apply truthy_spec. intros ->. destruct Hshape as [E|[rest E]];
      apply (f_equal String.length) in E; rewrite !length_append in E;
      destruct claimed; try contradiction; cbn in E; lia. }
  rewrite Htruthy.
  destruct Hshape as [->|[rest ->]].
  - rewrite (beforeComma_comma_free _ Hpad). now apply trim_padded.
  - rewrite (beforeComma_app _ rest Hpad). now apply trim_padded.
Qed.

Lemma client_address_is_the_first_forwarded_witness :
  ChatGateway.getClientIP
    {| sock_id := "socket-9";
       hdr_forwarded_for := Some (String (ascii_of_nat 160) " 203.0.113.7 , 10.0.0.1");
       hdr_real_ip := Some "10.0.0.2"; hdr_user_agent := None;
       handshake_address := Some "10.0.0.3" |}
  = "203.0.113.7".
Proof.
  apply (client_address_is_the_first_forwarded _ (String (ascii_of_nat 160) " ")
           "203.0.113.7" " " (String (ascii_of_nat 160) " 203.0.113.7 , 10.0.0.1"));
    try reflexivity.
  - discriminate.
  - right. exists " 10.0.0.1". reflexivity.
Defined.
